(** * Foreign Linux (flinux): socket personality layer, futex core and
      clocks

    A shallow embedding of [src/fs/socket.c], [src/syscall/futex.c] and
    [src/syscall/timer.c].

    Conventions.
    - C [int], [LONG], [DWORD], [size_t] values are integers in [Z]; the
      conversions the source performs between signed and unsigned types are
      written out ([size_t_of_int], [int_of_DWORD]).
    - Pointers are addresses in [Z]; [NULL] is address 0.
    - Buffers ([struct sockaddr_storage] and friends) are lists of bytes.
    - Calls into the host (Winsock, [signal_wait], the VFS) are answered by
      a script of replies that the emulated call consumes in program
      order; every call is also appended to a trace.
    - A socket operation is followed in the thread that runs it; the
      per-socket mutex taken around every operation, and what other
      processes do to the shared record meanwhile, are not represented.
      Neither are output parameters that no property below reads (the
      peer address of [recvfrom], [recvmsg] and [accept4], [msg_len],
      [msg_flags]) nor the buffers transferred.
    - The futex critical sections, which the source brackets with
      [lock_bucket]/[unlock_bucket], are atomic transitions of the futex
      state.
    - The functions that run straight through ([socket_open],
      [socket_bind], the socket options, the validators, the multiplexer
      and the clock calls) take what their environment answers as
      arguments and, where the order of their calls matters, return the
      calls they made. *)

From Stdlib Require Import ZArith List Lia Bool.
From Stdlib Require Import Strings.Byte.
From Stdlib Require Import Sorting.Permutation.
Import ListNotations.
Open Scope Z_scope.

(* ================================================================== *)
(** * Part I. The embedding                                            *)
(* ================================================================== *)

(** ** Machine integers *)

Definition NULL : Z := 0.

Definition int_min : Z := - 2 ^ 31.
Definition int_max : Z := 2 ^ 31 - 1.

(** Conversion of an [int] to [size_t] (32-bit build), as performed by
    the usual arithmetic conversions in [addrlen < sizeof(...)]. *)
Definition size_t_of_int (x : Z) : Z := x mod 2 ^ 32.

(** Conversion of a [DWORD] (or [unsigned int]) to [int]. *)
Definition int_of_DWORD (x : Z) : Z :=
  let y := x mod 2 ^ 32 in if y <? 2 ^ 31 then y else y - 2 ^ 32.

(** Conversion of an [int] to [DWORD]. *)
Definition DWORD_of_int (x : Z) : Z := x mod 2 ^ 32.

(** ** Constants of headers that are not part of the sources

    [common/errno.h] (Linux errno numbers, prefix [L_]). *)

Definition L_EPERM : Z := 1.
Definition L_EINTR : Z := 4.
Definition L_EIO : Z := 5.
Definition L_EBADF : Z := 9.
Definition L_EAGAIN : Z := 11.
Definition L_EWOULDBLOCK : Z := L_EAGAIN.
Definition L_ENOMEM : Z := 12.
Definition L_EACCES : Z := 13.
Definition L_EFAULT : Z := 14.
Definition L_EINVAL : Z := 22.
Definition L_ENFILE : Z := 23.
Definition L_EMFILE : Z := 24.
Definition L_ENAMETOOLONG : Z := 36.
Definition L_ENOSYS : Z := 38.
Definition L_ENOTEMPTY : Z := 39.
Definition L_ELOOP : Z := 40.
Definition L_ENOTSOCK : Z := 88.
Definition L_EDESTADDRREQ : Z := 89.
Definition L_EMSGSIZE : Z := 90.
Definition L_EPROTOTYPE : Z := 91.
Definition L_ENOPROTOOPT : Z := 92.
Definition L_EPROTONOSUPPORT : Z := 93.
Definition L_EOPNOTSUPP : Z := 95.
Definition L_EPFNOSUPPORT : Z := 96.
Definition L_EAFNOSUPPORT : Z := 97.
Definition L_EADDRINUSE : Z := 98.
Definition L_EADDRNOTAVAIL : Z := 99.
Definition L_ENETDOWN : Z := 100.
Definition L_ENETUNREACH : Z := 101.
Definition L_ENETRESET : Z := 102.
Definition L_ECONNABORTED : Z := 103.
Definition L_ECONNRESET : Z := 104.
Definition L_ENOBUFS : Z := 105.
Definition L_EISCONN : Z := 106.
Definition L_ENOTCONN : Z := 107.
Definition L_ETIMEDOUT : Z := 110.
Definition L_ECONNREFUSED : Z := 111.
Definition L_EHOSTUNREACH : Z := 113.
Definition L_EALREADY : Z := 114.
Definition L_EINPROGRESS : Z := 115.
Definition L_ECANCELED : Z := 125.

(** [WinSock2.h] / [winerror.h] (host socket error codes). *)

Definition WSA_NOT_ENOUGH_MEMORY : Z := 8.
Definition WSAEINTR : Z := 10004.
Definition WSAEBADF : Z := 10009.
Definition WSAEACCES : Z := 10013.
Definition WSAEFAULT : Z := 10014.
Definition WSAEINVAL : Z := 10022.
Definition WSAEMFILE : Z := 10024.
Definition WSAEWOULDBLOCK : Z := 10035.
Definition WSAEALREADY : Z := 10037.
Definition WSAENOTSOCK : Z := 10038.
Definition WSAEDESTADDRREQ : Z := 10039.
Definition WSAEMSGSIZE : Z := 10040.
Definition WSAEPROTOTYPE : Z := 10041.
Definition WSAENOPROTOOPT : Z := 10042.
Definition WSAEPROTONOSUPPORT : Z := 10043.
Definition WSAESOCKTNOSUPPORT : Z := 10044.
Definition WSAEOPNOTSUPP : Z := 10045.
Definition WSAEPFNOSUPPORT : Z := 10046.
Definition WSAEAFNOSUPPORT : Z := 10047.
Definition WSAEADDRINUSE : Z := 10048.
Definition WSAEADDRNOTAVAIL : Z := 10049.
Definition WSAENETDOWN : Z := 10050.
Definition WSAENETUNREACH : Z := 10051.
Definition WSAENETRESET : Z := 10052.
Definition WSAECONNABORTED : Z := 10053.
Definition WSAECONNRESET : Z := 10054.
Definition WSAENOBUFS : Z := 10055.
Definition WSAEISCONN : Z := 10056.
Definition WSAENOTCONN : Z := 10057.
Definition WSAETIMEDOUT : Z := 10060.
Definition WSAECONNREFUSED : Z := 10061.
Definition WSAELOOP : Z := 10062.
Definition WSAENAMETOOLONG : Z := 10063.
Definition WSAEHOSTDOWN : Z := 10064.
Definition WSAEHOSTUNREACH : Z := 10065.
Definition WSAENOTEMPTY : Z := 10066.
Definition WSAECANCELLED : Z := 10103.

Definition SOCKET_ERROR : Z := -1.

(** Address families: [common/socket.h] for the guest, [WinSock2.h] for
    the host. *)

Definition LINUX_AF_UNSPEC : Z := 0.
Definition LINUX_AF_UNIX : Z := 1.
Definition LINUX_AF_INET : Z := 2.
Definition LINUX_AF_INET6 : Z := 10.

Definition AF_UNSPEC : Z := 0.
Definition AF_INET : Z := 2.
Definition AF_INET6 : Z := 23.

(** Structure sizes, identical on both sides. *)

Definition sizeof_ss_family : Z := 2.
Definition sizeof_sockaddr_in : Z := 16.
Definition sizeof_sockaddr_in6 : Z := 28.
Definition sizeof_sockaddr_storage : Z := 128.

(** ** [translate_address_family] *)

Definition translate_address_family (af : Z) : Z :=
  if af =? LINUX_AF_UNSPEC then AF_UNSPEC
  else if af =? LINUX_AF_UNIX then AF_INET
  else if af =? LINUX_AF_INET then AF_INET
  else if af =? LINUX_AF_INET6 then AF_INET6
  else - L_EAFNOSUPPORT.

(** ** [translate_socket_error]

    The [switch] is a chain of equality tests in the order of its [case]
    labels; the [default] branch is the final [else]. *)

Definition translate_socket_error (error : Z) : Z :=
  if error =? 0 then 0
  else if error =? WSA_NOT_ENOUGH_MEMORY then - L_ENOMEM
  else if error =? WSAEINTR then - L_EINTR
  else if error =? WSAEBADF then - L_EBADF
  else if error =? WSAEACCES then - L_EACCES
  else if error =? WSAEFAULT then - L_EFAULT
  else if error =? WSAEINVAL then - L_EINVAL
  else if error =? WSAEMFILE then - L_EMFILE
  else if error =? WSAEWOULDBLOCK then - L_EWOULDBLOCK
  else if error =? WSAEALREADY then - L_EALREADY
  else if error =? WSAENOTSOCK then - L_ENOTSOCK
  else if error =? WSAEDESTADDRREQ then - L_EDESTADDRREQ
  else if error =? WSAEMSGSIZE then - L_EMSGSIZE
  else if error =? WSAEPROTOTYPE then - L_EPROTOTYPE
  else if error =? WSAENOPROTOOPT then - L_ENOPROTOOPT
  else if error =? WSAEPROTONOSUPPORT then - L_EPROTONOSUPPORT
  else if error =? WSAESOCKTNOSUPPORT then - L_EPROTONOSUPPORT
  else if error =? WSAEOPNOTSUPP then - L_EOPNOTSUPP
  else if error =? WSAEPFNOSUPPORT then - L_EPFNOSUPPORT
  else if error =? WSAEAFNOSUPPORT then - L_EAFNOSUPPORT
  else if error =? WSAEADDRINUSE then - L_EADDRINUSE
  else if error =? WSAEADDRNOTAVAIL then - L_EADDRNOTAVAIL
  else if error =? WSAENETDOWN then - L_ENETDOWN
  else if error =? WSAENETUNREACH then - L_ENETUNREACH
  else if error =? WSAENETRESET then - L_ENETRESET
  else if error =? WSAECONNABORTED then - L_ECONNABORTED
  else if error =? WSAECONNRESET then - L_ECONNRESET
  else if error =? WSAENOBUFS then - L_ENOBUFS
  else if error =? WSAEISCONN then - L_EISCONN
  else if error =? WSAENOTCONN then - L_ENOTCONN
  else if error =? WSAETIMEDOUT then - L_ETIMEDOUT
  else if error =? WSAECONNREFUSED then - L_ECONNREFUSED
  else if error =? WSAELOOP then - L_ELOOP
  else if error =? WSAENAMETOOLONG then - L_ENAMETOOLONG
  else if error =? WSAEHOSTDOWN then - L_ETIMEDOUT
  else if error =? WSAEHOSTUNREACH then - L_EHOSTUNREACH
  else if error =? WSAENOTEMPTY then - L_ENOTEMPTY
  else if error =? WSAECANCELLED then - L_ECANCELED
  else - L_EIO.

(** The translation table: each host socket error kind with the Linux
    errno of the same name, the success code 0 with 0, and three
    deviations: the host's out-of-memory code is [ENOMEM], "socket type
    not supported" is [EPROTONOSUPPORT], and "host down" is [ETIMEDOUT]
    (the one the specification singles out). *)

Definition socket_error_table : list (Z * Z) :=
  [ (0, 0);
    (WSA_NOT_ENOUGH_MEMORY, - L_ENOMEM);
    (WSAEINTR, - L_EINTR);
    (WSAEBADF, - L_EBADF);
    (WSAEACCES, - L_EACCES);
    (WSAEFAULT, - L_EFAULT);
    (WSAEINVAL, - L_EINVAL);
    (WSAEMFILE, - L_EMFILE);
    (WSAEWOULDBLOCK, - L_EWOULDBLOCK);
    (WSAEALREADY, - L_EALREADY);
    (WSAENOTSOCK, - L_ENOTSOCK);
    (WSAEDESTADDRREQ, - L_EDESTADDRREQ);
    (WSAEMSGSIZE, - L_EMSGSIZE);
    (WSAEPROTOTYPE, - L_EPROTOTYPE);
    (WSAENOPROTOOPT, - L_ENOPROTOOPT);
    (WSAEPROTONOSUPPORT, - L_EPROTONOSUPPORT);
    (WSAESOCKTNOSUPPORT, - L_EPROTONOSUPPORT);
    (WSAEOPNOTSUPP, - L_EOPNOTSUPP);
    (WSAEPFNOSUPPORT, - L_EPFNOSUPPORT);
    (WSAEAFNOSUPPORT, - L_EAFNOSUPPORT);
    (WSAEADDRINUSE, - L_EADDRINUSE);
    (WSAEADDRNOTAVAIL, - L_EADDRNOTAVAIL);
    (WSAENETDOWN, - L_ENETDOWN);
    (WSAENETUNREACH, - L_ENETUNREACH);
    (WSAENETRESET, - L_ENETRESET);
    (WSAECONNABORTED, - L_ECONNABORTED);
    (WSAECONNRESET, - L_ECONNRESET);
    (WSAENOBUFS, - L_ENOBUFS);
    (WSAEISCONN, - L_EISCONN);
    (WSAENOTCONN, - L_ENOTCONN);
    (WSAETIMEDOUT, - L_ETIMEDOUT);
    (WSAECONNREFUSED, - L_ECONNREFUSED);
    (WSAELOOP, - L_ELOOP);
    (WSAENAMETOOLONG, - L_ENAMETOOLONG);
    (WSAEHOSTDOWN, - L_ETIMEDOUT);
    (WSAEHOSTUNREACH, - L_EHOSTUNREACH);
    (WSAENOTEMPTY, - L_ENOTEMPTY);
    (WSAECANCELLED, - L_ECANCELED) ].

(** The host error codes the translator recognises. *)
Definition recognised_socket_errors : list Z := map fst socket_error_table.

(** ** Socket addresses

    A [struct sockaddr_storage] is its 128 bytes; [ss_family] is the
    little-endian 16-bit field at offset 0. *)

Definition sockaddr := list byte.

Definition Z_of_byte (b : byte) : Z := Z.of_N (Byte.to_N b).

Definition byte_of_Z (z : Z) : byte :=
  match Byte.of_N (Z.to_N (z mod 256)) with
  | Some b => b
  | None => x00
  end.

Definition ss_family (a : sockaddr) : Z :=
  Z_of_byte (nth 0 a x00) + 256 * Z_of_byte (nth 1 a x00).

Definition set_ss_family (a : sockaddr) (af : Z) : sockaddr :=
  byte_of_Z af :: byte_of_Z (af / 256) :: skipn 2 a.

(** [memcpy(dst, src, n)] and [memset(dst, 0, n)] on byte buffers: the
    first [n] bytes of [dst] are replaced, the rest is kept.  The two
    definitions stand for the C functions for [0 <= n] up to the size of
    [dst] only: beyond it the C call overruns the buffer, which a list
    cannot show (it grows instead), and for a negative [n] the C call,
    which takes a [size_t], overruns as well (here nothing is copied).
    [translate_socket_addr_to_winsock] has no upper limit on the
    [addrlen] it copies into the 128 bytes of [addr_storage]; the
    properties of its callers are therefore stated for lengths up to
    [sizeof_sockaddr_storage]. *)

Definition memcpy (dst src : list byte) (n : Z) : list byte :=
  firstn (Z.to_nat n) src ++ skipn (Z.to_nat n) dst.

Definition memset0 (dst : list byte) (n : Z) : list byte :=
  repeat x00 (Z.to_nat n) ++ skipn (Z.to_nat n) dst.

(** [translate_socket_addr_to_winsock(from, to, addrlen)]: the return
    value and the contents of [to] afterwards. *)

Definition translate_socket_addr_to_winsock
    (from to : sockaddr) (addrlen : Z) : Z * sockaddr :=
  if size_t_of_int addrlen <? sizeof_ss_family then (SOCKET_ERROR, to)
  else if ss_family from =? LINUX_AF_UNSPEC then
    (addrlen, memset0 to addrlen)
  else if ss_family from =? LINUX_AF_INET then
    if size_t_of_int addrlen <? sizeof_sockaddr_in then (SOCKET_ERROR, to)
    else (addrlen, memcpy to from addrlen)
  else if ss_family from =? LINUX_AF_INET6 then
    if size_t_of_int addrlen <? sizeof_sockaddr_in6 then (SOCKET_ERROR, to)
    else (addrlen, set_ss_family (memcpy to from addrlen) AF_INET6)
  else (SOCKET_ERROR, to).

(** [translate_socket_addr_to_linux(addr, addrlen)]: the return value and
    the contents of [addr] afterwards. *)

Definition translate_socket_addr_to_linux
    (addr : sockaddr) (addrlen : Z) : Z * sockaddr :=
  if ss_family addr =? AF_INET6
  then (addrlen, set_ss_family addr LINUX_AF_INET6)
  else (addrlen, addr).

(** Fields of a [struct sockaddr_in6] (both ABIs): port at offset 2,
    flow information at 4, the 16 address bytes at 8, scope id at 24. *)

Definition bytes_at (a : sockaddr) (off len : nat) : list byte :=
  firstn len (skipn off a).

Definition sin6_port (a : sockaddr) : list byte := bytes_at a 2 2.
Definition sin6_addr (a : sockaddr) : list byte := bytes_at a 8 16.

(** Example data: a guest [sockaddr_in6] for port 8080 at [::1], and a
    host-side buffer with arbitrary previous contents. *)

Definition example_in6 : sockaddr :=
  [x0a; x00; x1f; x90; x00; x00; x00; x00;
   x00; x00; x00; x00; x00; x00; x00; x00;
   x00; x00; x00; x00; x00; x00; x00; x01;
   x00; x00; x00; x00].

Definition example_storage : sockaddr := repeat xff 128.

(* ------------------------------------------------------------------ *)
(** ** The futex core ([src/syscall/futex.c])                          *)
(* ------------------------------------------------------------------ *)

(** [common/futex.h] and the host's wait results. *)

Definition FUTEX_WAIT : Z := 0.
Definition FUTEX_WAKE : Z := 1.
Definition FUTEX_REQUEUE : Z := 3.
Definition FUTEX_CMP_REQUEUE : Z := 4.
Definition FUTEX_PRIVATE_FLAG : Z := 128.
Definition FUTEX_CLOCK_REALTIME : Z := 256.
Definition FUTEX_CMD_MASK : Z :=
  Z.lnot (Z.lor FUTEX_PRIVATE_FLAG FUTEX_CLOCK_REALTIME).

Definition WAIT_OBJECT_0 : Z := 0.
Definition WAIT_TIMEOUT : Z := 258.
(** [syscall/sig.h]: the result of [signal_wait] when a signal arrived. *)
Definition WAIT_INTERRUPTED : Z := 2147483648.
Definition INFINITE : Z := 4294967295.

Definition sizeof_int : Z := 4.
Definition sizeof_linux_timespec : Z := 8.

Definition FUTEX_HASH_BUCKETS : Z := 256.

(** [struct futex_wait_block]: the waiting thread and the address it
    waits on.  The block lives on the stack of the waiting thread, one per
    thread, so the thread identifies the list node. *)
Record futex_wait_block : Type := {
  thread : Z;
  addr : Z
}.

(** The state the futex code reads and writes:
    - [load a], the [int] stored at user address [a];
    - [wait_list b], the list [futex->hash[b].wait_list], head first;
    - [signalled], the threads whose wake event [NtSetEvent] has set,
      oldest first;
    - [derefs], the user addresses dereferenced so far, oldest first. *)
Record futex_state : Type := {
  load : Z -> Z;
  wait_list : Z -> list futex_wait_block;
  signalled : list Z;
  derefs : list Z
}.

Definition set_wait_list (s : futex_state) (bucket : Z)
    (l : list futex_wait_block) : futex_state :=
  {| load := load s;
     wait_list := fun b => if b =? bucket then l else wait_list s b;
     signalled := signalled s;
     derefs := derefs s |}.

Definition notify (s : futex_state) (threads : list Z) : futex_state :=
  {| load := load s;
     wait_list := wait_list s;
     signalled := signalled s ++ threads;
     derefs := derefs s |}.

(** Reading [*a]: the access is logged. *)
Definition deref (s : futex_state) (a : Z) : Z * futex_state :=
  (load s a,
   {| load := load s;
      wait_list := wait_list s;
      signalled := signalled s;
      derefs := derefs s ++ [a] |}).

Definition futex_hash (a : Z) : Z := a mod FUTEX_HASH_BUCKETS.

(** Modelled from the spec: [lib/list.h] is not part of the sources.
    [list_add] appends the node at the tail of the list ("Append wait
    block" in [futex_wait]); [list_remove] unlinks the given node. *)
Definition list_add (l : list futex_wait_block) (node : futex_wait_block)
  : list futex_wait_block := l ++ [node].

Definition list_remove (l : list futex_wait_block) (owner : Z)
  : list futex_wait_block :=
  filter (fun b => negb (thread b =? owner)) l.

(** What a system call hands back to the dispatcher: either it returns a
    value, or the calling thread is parked in [signal_wait] on its own
    wake event with the given timeout.  A parked call is finished by
    [futex_wait_resume]. *)
Inductive outcome : Type :=
| Returns (r : Z)
| Parked (bucket : Z) (timeout : Z).

(** [futex_wait], up to and including the call of [signal_wait]. *)
Definition futex_wait (current_thread : Z) (a val timeout : Z)
    (s : futex_state) : outcome * futex_state :=
  let bucket := futex_hash a in
  let (v, s1) := deref s a in
  if negb (v =? val) then
    (* The value changed *)
    (Returns 0, s1)
  else
    let wait_block := {| thread := current_thread; addr := a |} in
    (Parked bucket timeout,
     set_wait_list s1 bucket (list_add (wait_list s1 bucket) wait_block)).

(** [futex_wait] after [signal_wait] has returned [result]; [recheck] is
    the result of [WaitForSingleObject(current_thread->wait_event, 0)],
    consulted only when the wait was unsuccessful.  [s] is the state at
    that moment (other threads have run in between).

    The block is taken off the list of [bucket], the bucket the thread
    parked in.  That stands for the C code as long as the block is still
    in that list.  Once a requeue has moved it to the list of another
    bucket, [list_remove] is handed a list that does not hold the node;
    what it does then is decided by [lib/list.h], which is not part of
    the sources, and is not represented: the definition is not to be used
    for such states. *)
Definition futex_wait_resume (current_thread : Z) (bucket : Z)
    (result recheck : Z) (s : futex_state) : Z * futex_state :=
  if result =? WAIT_OBJECT_0 then (0, s)
  else
    let s1 :=
      if negb (recheck =? WAIT_OBJECT_0)
      then set_wait_list s bucket (list_remove (wait_list s bucket) current_thread)
      else s in
    if result =? WAIT_INTERRUPTED then (- L_EINTR, s1)
    else (- L_ETIMEDOUT, s1).

(** The result of the [for (;;)] loop of [futex_wake_requeue] over the
    part of the source bucket's list that has not been visited yet. *)
Record walk : Type := {
  stay : list futex_wait_block;   (* left in the source bucket *)
  moved : list futex_wait_block;  (* re-added to the destination bucket *)
  woken : list Z;                 (* threads notified, in order *)
  num_woken : Z
}.

(** One loop iteration per list node.  [rest] is the list from [cur] on
    ([list_head] when [prev] is [NULL], else [list_next(prev)]); nodes
    before it are already in their final place.  [same_bucket] is
    [bucket == bucket2]. *)
Fixpoint wake_requeue_loop (a count requeue_addr : Z) (same_bucket : bool)
    (rest : list futex_wait_block) (n : Z) {struct rest} : walk :=
  if (requeue_addr =? NULL) && (n =? count) then
    {| stay := rest; moved := []; woken := []; num_woken := n |}
  else
    match rest with
    | [] => {| stay := []; moved := []; woken := []; num_woken := n |}
    | cur :: next =>
        if addr cur =? a then
          if (n =? count) && negb (requeue_addr =? NULL) then
            let cur' := {| thread := thread cur; addr := requeue_addr |} in
            let w := wake_requeue_loop a count requeue_addr same_bucket next n in
            if same_bucket then
              (* prev = cur: the block stays where it is *)
              {| stay := cur' :: stay w; moved := moved w;
                 woken := woken w; num_woken := num_woken w |}
            else
              (* list_remove from the source, list_add to the destination *)
              {| stay := stay w; moved := cur' :: moved w;
                 woken := woken w; num_woken := num_woken w |}
          else
            (* list_remove, NtSetEvent, num_woken++ *)
            let w := wake_requeue_loop a count requeue_addr same_bucket next (n + 1) in
            {| stay := stay w; moved := moved w;
               woken := thread cur :: woken w; num_woken := num_woken w |}
        else
          (* prev = cur *)
          let w := wake_requeue_loop a count requeue_addr same_bucket next n in
          {| stay := cur :: stay w; moved := moved w;
             woken := woken w; num_woken := num_woken w |}
    end.

(** [futex_wake_requeue].  [requeue_val] is [None] for a [NULL] pointer
    and [Some v] for a pointer to an [int] holding [v]. *)
Definition futex_wake_requeue (a count requeue_addr : Z)
    (requeue_val : option Z) (s : futex_state) : Z * futex_state :=
  let bucket := futex_hash a in
  let bucket2 := futex_hash requeue_addr in
  let walk_lists (s : futex_state) :=
    let w := wake_requeue_loop a count requeue_addr (bucket =? bucket2)
               (wait_list s bucket) 0 in
    let s1 := set_wait_list s bucket (stay w) in
    let s2 :=
      if negb (requeue_addr =? NULL) && negb (bucket =? bucket2)
      then set_wait_list s1 bucket2 (wait_list s1 bucket2 ++ moved w)
      else s1 in
    (num_woken w, notify s2 (woken w)) in
  match requeue_val with
  | Some expected =>
      if negb (requeue_addr =? NULL) then
        let (v, s1) := deref s a in
        if negb (v =? expected) then
          (* The value changed *)
          (- L_EAGAIN, s1)
        else walk_lists s1
      else walk_lists s
  | None => walk_lists s
  end.

Definition futex_wake (a count : Z) (s : futex_state) : Z * futex_state :=
  futex_wake_requeue a count NULL None s.

Definition futex_requeue (a count requeue_addr : Z) (requeue_val : option Z)
    (s : futex_state) : Z * futex_state :=
  futex_wake_requeue a count requeue_addr requeue_val s.

Section SysFutex.

(** [mm_check_read(addr, size)] of the memory manager
    ([syscall/mm.h]), an external collaborator. *)
Variable mm_check_read : Z -> Z -> bool.

(** The timeout in milliseconds computed from the [linux_timespec] at
    [timeout]: [tv_sec] at offset 0, [tv_nsec] at offset 4. *)
Definition timeout_ms (timeout : Z) (s : futex_state) : Z * futex_state :=
  if timeout =? NULL then (INFINITE, s)
  else
    let (tv_sec, s1) := deref s timeout in
    let (tv_nsec, s2) := deref s1 (timeout + 4) in
    (DWORD_of_int (tv_sec * 1000 + Z.quot tv_nsec 1000000), s2).

(** [sys_futex(uaddr, op, val, timeout, uaddr2, val3)]. *)
Definition sys_futex (current_thread : Z)
    (uaddr op val timeout uaddr2 val3 : Z) (s : futex_state)
  : outcome * futex_state :=
  if negb (mm_check_read uaddr sizeof_int) then (Returns (- L_EACCES), s)
  else
    let cmd := Z.land op FUTEX_CMD_MASK in
    if cmd =? FUTEX_WAIT then
      if negb (timeout =? NULL)
         && negb (mm_check_read timeout sizeof_linux_timespec)
      then (Returns (- L_EFAULT), s)
      else
        let (time, s1) := timeout_ms timeout s in
        futex_wait current_thread uaddr val time s1
    else if cmd =? FUTEX_WAKE then
      let (r, s1) := futex_wake uaddr val s in (Returns r, s1)
    else if cmd =? FUTEX_REQUEUE then
      if negb (mm_check_read uaddr2 sizeof_int) then (Returns (- L_EACCES), s)
      else
        let (r, s1) := futex_requeue uaddr val uaddr2 None s in
        (Returns r, s1)
    else if cmd =? FUTEX_CMP_REQUEUE then
      if negb (mm_check_read uaddr2 sizeof_int) then (Returns (- L_EACCES), s)
      else
        let (r, s1) := futex_requeue uaddr val uaddr2 (Some val3) s in
        (Returns r, s1)
    else (Returns (- L_ENOSYS), s).

End SysFutex.

(** Example data: two threads waiting on address 4096, one on 4352 (the
    same bucket), nothing else. *)

Definition example_waiters : futex_state :=
  {| load := fun _ => 0;
     wait_list := fun b =>
       if b =? 0 then
         [ {| thread := 1; addr := 4096 |};
           {| thread := 2; addr := 4352 |};
           {| thread := 3; addr := 4096 |} ]
       else [];
     signalled := [];
     derefs := [] |}.


(* ------------------------------------------------------------------ *)
(** ** The socket file and its host ([src/fs/socket.c])                *)
(* ------------------------------------------------------------------ *)

(** [WinSock2.h] event bits; [common/fcntl.h], [common/socket.h]. *)

Definition FD_READ : Z := 1.
Definition FD_WRITE : Z := 2.
Definition FD_ACCEPT : Z := 8.
Definition FD_CONNECT : Z := 16.
Definition FD_CLOSE : Z := 32.

Definition O_NONBLOCK : Z := 2048.
Definition LINUX_MSG_PEEK : Z := 2.
Definition LINUX_MSG_DONTWAIT : Z := 64.
Definition LINUX_SOCK_STREAM : Z := 1.
Definition LINUX_SOCK_DGRAM : Z := 2.
Definition LINUX_SOCK_RAW : Z := 3.

Definition SHUT_RD : Z := 0.
Definition SHUT_WR : Z := 1.
Definition SHUT_RDWR : Z := 2.
Definition SD_RECEIVE : Z := 0.
Definition SD_SEND : Z := 1.
Definition SD_BOTH : Z := 2.

(** [struct socket_file] with its [struct socket_file_shared]: the fields
    the operations read or write.  [flags] is [base_file.flags]. *)
Record socket_file : Type := {
  flags : Z;
  af : Z;
  type : Z;
  events : Z;
  connect_error : Z
}.

(** The calls the socket code makes into its environment. *)
Inductive host_call : Type :=
| Call_WSAEnumNetworkEvents
| Call_signal_wait
| Call_sendto
| Call_WSASendMsg
| Call_recvfrom
| Call_WSARecvMsg
| Call_WSAIoctl
| Call_connect
| Call_accept
| Call_init_socket_event
| Call_closesocket
| Call_vfs_store_file
| Call_vfs_release
| Call_vfs_openat
| Call_winfs_read_special_file
| Call_listen
| Call_shutdown
| Call_getsockname
| Call_getpeername.

(** What the environment answers.
    - [Reply_events ev err]: the record filled by [WSAEnumNetworkEvents],
      [lNetworkEvents] and [iErrorCode[FD_CONNECT_BIT]];
    - [Reply_wait r]: the result of [signal_wait];
    - [Reply_ok v]: the call succeeded with return value (or output) [v];
    - [Reply_error e]: a Winsock call failed, returning [SOCKET_ERROR]
      (or an invalid handle) with last error [e];
    - [Reply_sockaddr a len]: [getsockname]/[getpeername] succeeded and
      stored [a] and [len];
    - [Reply_port r port]: [winfs_read_special_file] returned [r], and
      [katoi] makes [port] of the bytes read ([None] when it rejects
      them). *)
Inductive host_reply : Type :=
| Reply_events (lNetworkEvents : Z) (iErrorCode_connect : Z)
| Reply_wait (result : Z)
| Reply_ok (value : Z)
| Reply_error (error : Z)
| Reply_sockaddr (a : sockaddr) (len : Z)
| Reply_port (r : Z) (port : option Z).

(** The world of one emulated call: the socket file, the thread's last
    Winsock error ([WSAGetLastError]), whether the [WSARecvMsg] extension
    pointer has been fetched, the answers still to come, and the calls
    made so far with their answers (oldest first).

    A failed Winsock call sets the last error; a successful one leaves
    it alone. *)
Record world : Type := {
  file : socket_file;
  last_error : Z;
  WSARecvMsg_loaded : bool;
  host : list host_reply;
  trace : list (host_call * host_reply)
}.

(** A run either completes with a value or stops at a call that the
    script does not answer. *)
Inductive run (A : Type) : Type :=
| Done (a : A) (w : world)
| Starved (w : world).

Arguments Done {A} a w.
Arguments Starved {A} w.

Definition M (A : Type) : Type := world -> run A.

Definition ret {A : Type} (a : A) : M A := fun w => Done a w.

Definition bind {A B : Type} (m : M A) (k : A -> M B) : M B :=
  fun w => match m w with
           | Done a w' => k a w'
           | Starved w' => Starved w'
           end.

Definition starve {A : Type} : M A := fun w => Starved w.

Declare Scope host_scope.
Delimit Scope host_scope with host.
Notation "x <- m ;; k" := (bind m (fun x => k))
  (at level 61, m at next level, right associativity) : host_scope.
Notation "m ;;; k" := (bind m (fun _ => k))
  (at level 61, right associativity) : host_scope.
Open Scope host_scope.

Definition final {A : Type} (r : run A) : world :=
  match r with Done _ w => w | Starved w => w end.

(** One call into the environment: the next answer is consumed and the
    exchange is logged. *)
Definition call (c : host_call) : M host_reply := fun w =>
  match host w with
  | [] => Starved w
  | r :: rest =>
      Done r {| file := file w;
                last_error := match r with
                              | Reply_error e => e
                              | _ => last_error w
                              end;
                WSARecvMsg_loaded := WSARecvMsg_loaded w;
                host := rest;
                trace := trace w ++ [(c, r)] |}
  end.

Definition get_file : M socket_file := fun w => Done (file w) w.

Definition put_file (f : socket_file) : M unit := fun w =>
  Done tt {| file := f; last_error := last_error w;
             WSARecvMsg_loaded := WSARecvMsg_loaded w;
             host := host w; trace := trace w |}.

Definition WSAGetLastError : M Z := fun w => Done (last_error w) w.

Definition WSASetLastError (e : Z) : M unit := fun w =>
  Done tt {| file := file w; last_error := e;
             WSARecvMsg_loaded := WSARecvMsg_loaded w;
             host := host w; trace := trace w |}.

Definition get_WSARecvMsg : M bool := fun w => Done (WSARecvMsg_loaded w) w.

Definition set_WSARecvMsg : M unit := fun w =>
  Done tt {| file := file w; last_error := last_error w;
             WSARecvMsg_loaded := true;
             host := host w; trace := trace w |}.

Definition set_events (f : socket_file) (e : Z) : socket_file :=
  {| flags := flags f; af := af f; type := type f;
     events := e; connect_error := connect_error f |}.

Definition set_connect_error (f : socket_file) (e : Z) : socket_file :=
  {| flags := flags f; af := af f; type := type f;
     events := events f; connect_error := e |}.

(** [_InterlockedAnd(&f->shared->events, ~bit)]. *)
Definition clear_event (bit : Z) : M unit :=
  f <- get_file ;;
  put_file (set_events f (Z.land (events f) (Z.lnot bit))).

(** Loops.  A loop body either asks for another iteration or leaves the
    loop with a value.  Every iteration of the loops below makes at
    least one call, so a loop started with more fuel than there are
    answers left is never cut short by the fuel. *)
Inductive step (A : Type) : Type :=
| Continue
| Leave (a : A).

Arguments Continue {A}.
Arguments Leave {A} a.

Fixpoint iterate {A : Type} (fuel : nat) (body : M (step A)) : M A :=
  fun w =>
    match fuel with
    | O => Starved w
    | S fuel' =>
        match body w with
        | Done Continue w' => iterate fuel' body w'
        | Done (Leave a) w' => Done a w'
        | Starved w' => Starved w'
        end
    end.

Definition loop {A : Type} (body : M (step A)) : M A :=
  fun w => iterate (S (length (host w))) body w.

Definition bit_set (x bit : Z) : bool := negb (Z.land x bit =? 0).

(** [socket_update_events_unsafe(f, error_report_events)]. *)
Definition socket_update_events_unsafe (error_report_events : Z) : M Z :=
  r <- call Call_WSAEnumNetworkEvents ;;
  match r with
  | Reply_events lNetworkEvents iErrorCode_connect =>
      let e := 0 in
      let e := if bit_set lNetworkEvents FD_READ then Z.lor e FD_READ else e in
      let e := if bit_set lNetworkEvents FD_WRITE then Z.lor e FD_WRITE else e in
      f <- get_file ;;
      let (e, f) :=
        if bit_set lNetworkEvents FD_CONNECT
        then (Z.lor e FD_CONNECT, set_connect_error f iErrorCode_connect)
        else (e, f) in
      let e := if bit_set lNetworkEvents FD_ACCEPT then Z.lor e FD_ACCEPT else e in
      let e := if bit_set lNetworkEvents FD_CLOSE then Z.lor e FD_CLOSE else e in
      let original := events f in
      let f := set_events f (Z.lor original e) in
      put_file f ;;;
      (if bit_set (Z.land error_report_events (events f)) FD_CONNECT then
         WSASetLastError (connect_error f) ;;;
         put_file (set_events (set_connect_error f 0)
                     (Z.land (events f) (Z.lnot FD_CONNECT)))
       else ret tt) ;;;
      ret (Z.lor original e)
  | _ => starve
  end.

Definition nonblocking (f : socket_file) (msg_flags : Z) : bool :=
  bit_set (flags f) O_NONBLOCK || bit_set msg_flags LINUX_MSG_DONTWAIT.

(** [socket_wait_event(f, event, flags)]. *)
Definition socket_wait_event (event msg_flags : Z) : M Z :=
  loop (
    e <- socket_update_events_unsafe event ;;
    if bit_set e event then ret (Leave 0)
    else
      f <- get_file ;;
      if nonblocking f msg_flags then ret (Leave (- L_EWOULDBLOCK))
      else
        r <- call Call_signal_wait ;;
        match r with
        | Reply_wait result =>
            if result =? WAIT_INTERRUPTED then ret (Leave (- L_EINTR))
            else ret Continue
        | _ => starve
        end).

(** [socket_sendto_unsafe(f, buf, len, flags, dest_addr, addrlen)].
    [storage] is the uninitialised [addr_storage] on the stack. *)
Definition socket_sendto_unsafe (msg_flags : Z) (dest_addr : sockaddr)
    (addrlen : Z) (storage : sockaddr) : M Z :=
  if negb (addrlen =? 0)
     && (fst (translate_socket_addr_to_winsock dest_addr storage addrlen)
           =? SOCKET_ERROR)
  then ret (- L_EINVAL)
  else
    loop (
      r <- socket_wait_event FD_WRITE msg_flags ;;
      if negb (r =? 0) then ret (Leave r)
      else
        reply <- call Call_sendto ;;
        match reply with
        | Reply_ok n => ret (Leave n)
        | Reply_error _ =>
            err <- WSAGetLastError ;;
            if negb (err =? WSAEWOULDBLOCK)
            then ret (Leave (translate_socket_error err))
            else clear_event FD_WRITE ;;; ret Continue
        | _ => starve
        end).

(** [struct msghdr]: the name with its length and the [iov_len] of each
    element of [msg_iov]. *)
Record msghdr : Type := {
  msg_name : sockaddr;
  msg_namelen : Z;
  msg_iov : list Z
}.

(** [socket_sendmsg_unsafe(f, msg, flags)].  The local [r] is a
    [DWORD]; the function returns it as an [int]. *)
Definition socket_sendmsg_unsafe (msg : msghdr) (msg_flags : Z)
    (storage : sockaddr) : M Z :=
  if negb (msg_namelen msg =? 0)
     && (fst (translate_socket_addr_to_winsock
                (msg_name msg) storage (msg_namelen msg)) =? SOCKET_ERROR)
  then ret (- L_EINVAL)
  else
    loop (
      r <- socket_wait_event FD_WRITE msg_flags ;;
      let r := DWORD_of_int r in
      if negb (r =? 0) then ret (Leave (int_of_DWORD r))
      else
        reply <- call Call_WSASendMsg ;;
        match reply with
        | Reply_ok sent => ret (Leave (int_of_DWORD sent))
        | Reply_error _ =>
            err <- WSAGetLastError ;;
            if negb (err =? WSAEWOULDBLOCK)
            then ret (Leave (translate_socket_error err))
            else clear_event FD_WRITE ;;; ret Continue
        | _ => starve
        end).

(** [socket_recvfrom_unsafe(f, buf, len, flags, src_addr, addrlen)]. *)
Definition socket_recvfrom_unsafe (msg_flags : Z) : M Z :=
  loop (
    r <- socket_wait_event (Z.lor FD_READ FD_CLOSE) msg_flags ;;
    if negb (r =? 0) then ret (Leave r)
    else
      (if negb (bit_set msg_flags LINUX_MSG_PEEK)
       then clear_event FD_READ else ret tt) ;;;
      reply <- call Call_recvfrom ;;
      match reply with
      | Reply_ok n => ret (Leave n)
      | Reply_error _ =>
          err <- WSAGetLastError ;;
          if negb (err =? WSAEWOULDBLOCK)
          then ret (Leave (translate_socket_error err))
          else ret Continue
      | _ => starve
      end).

(** [socket_recvmsg_unsafe(f, msg, flags)]. *)
Definition socket_recvmsg_unsafe (msg_flags : Z) : M Z :=
  f <- get_file ;;
  if negb (type f =? LINUX_SOCK_DGRAM) && negb (type f =? LINUX_SOCK_RAW)
  then socket_recvfrom_unsafe msg_flags
  else
    loaded <- get_WSARecvMsg ;;
    ioctl <-
      (if loaded then ret 0
       else
         reply <- call Call_WSAIoctl ;;
         match reply with
         | Reply_ok _ => set_WSARecvMsg ;;; ret 0
         | Reply_error _ => ret (- L_EIO)
         | _ => starve
         end) ;;
    if negb (ioctl =? 0) then ret ioctl
    else
      loop (
        r <- socket_wait_event (Z.lor FD_READ FD_CLOSE) msg_flags ;;
        let r := DWORD_of_int r in
        if negb (r =? 0) then ret (Leave (int_of_DWORD r))
        else
          reply <- call Call_WSARecvMsg ;;
          match reply with
          | Reply_ok received => ret (Leave (int_of_DWORD received))
          | Reply_error _ =>
              clear_event FD_READ ;;;
              err <- WSAGetLastError ;;
              if negb (err =? WSAEWOULDBLOCK)
              then ret (Leave (translate_socket_error err))
              else ret Continue
          | _ => starve
          end).


(** [socket_read], [socket_write], [socket_sendto], [socket_recvfrom],
    [socket_sendmsg], [socket_recvmsg]: the [_unsafe] function under the
    socket's mutex. *)

Definition socket_read : M Z := socket_recvfrom_unsafe 0.

Definition socket_write (storage : sockaddr) : M Z :=
  socket_sendto_unsafe 0 [] 0 storage.

Definition socket_sendto (msg_flags : Z) (dest_addr : sockaddr)
    (addrlen : Z) (storage : sockaddr) : M Z :=
  socket_sendto_unsafe msg_flags dest_addr addrlen storage.

Definition socket_recvfrom (msg_flags : Z) : M Z :=
  socket_recvfrom_unsafe msg_flags.

Definition socket_sendmsg (msg : msghdr) (msg_flags : Z)
    (storage : sockaddr) : M Z :=
  socket_sendmsg_unsafe msg msg_flags storage.

Definition socket_recvmsg (msg_flags : Z) : M Z :=
  socket_recvmsg_unsafe msg_flags.

(** The [int total] that [socket_sendmmsg] accumulates over the
    [iov_len]s of one message. *)
Definition iov_total (iov : list Z) : Z :=
  fold_left (fun total iov_len => int_of_DWORD (total + iov_len)) iov 0.

(** The [for] loop of [socket_sendmmsg] from index [i] on; [vlen] is the
    length of the whole vector. *)
Fixpoint sendmmsg_loop (msgvec : list msghdr) (i vlen : Z) (msg_flags : Z)
    (storage : sockaddr) : M Z :=
  match msgvec with
  | [] => ret vlen
  | msg :: rest =>
      len <- socket_sendmsg_unsafe msg msg_flags storage ;;
      if (i =? 0) && (len <? 0) then ret len
      else if (i =? 0) && (len =? 0) then ret (- L_EWOULDBLOCK)
      else if len <=? 0 then ret i
      else if len <? iov_total (msg_iov msg) then ret (i + 1)
      else sendmmsg_loop rest (i + 1) vlen msg_flags storage
  end.

(** [socket_sendmmsg(f, msgvec, vlen, flags)].  A vector of [mmsghdr] in
    a 32-bit address space has fewer than [2^31] elements, so [r = vlen]
    does not wrap. *)
Definition socket_sendmmsg (msgvec : list msghdr) (msg_flags : Z)
    (storage : sockaddr) : M Z :=
  sendmmsg_loop msgvec 0 (Z.of_nat (length msgvec)) msg_flags storage.

(** The address preparation of [socket_connect]: [inl r] when the
    function returns [r] at once, [inr tt] when it goes on to [connect].
    [addrlen] is a [size_t] here and is narrowed to [int] for
    [translate_socket_addr_to_winsock]. *)
Definition connect_address (addr : sockaddr) (addrlen : Z)
    (storage : sockaddr) : M (Z + unit) :=
  f <- get_file ;;
  if af f =? LINUX_AF_UNIX then
    if addrlen <=? sizeof_ss_family then ret (inl (- L_EINVAL))
    else if negb (ss_family addr =? LINUX_AF_UNIX)
    then ret (inl (- L_EAFNOSUPPORT))
    else if addrlen =? 0 then ret (inl (- L_EINVAL))
    else if Z_of_byte (nth 2 addr x00) =? 0 then ret (inl (- L_EINVAL))
    else
      opened <- call Call_vfs_openat ;;
      match opened with
      | Reply_ok r =>
          if r <? 0 then ret (inl r)
          else
            content <- call Call_winfs_read_special_file ;;
            call Call_vfs_release ;;;
            match content with
            | Reply_port r port =>
                if r <? 0 then ret (inl r)
                else if r =? 0 then ret (inl (- L_ECONNREFUSED))
                else
                  match port with
                  | None => ret (inl (- L_ECONNREFUSED))
                  | Some _ => ret (inr tt)
                  end
            | _ => starve
            end
      | _ => starve
      end
  else if fst (translate_socket_addr_to_winsock
                 addr storage (int_of_DWORD addrlen)) =? SOCKET_ERROR
  then ret (inl (- L_EINVAL))
  else ret (inr tt).

(** [socket_connect(f, addr, addrlen)]. *)
Definition socket_connect (addr : sockaddr) (addrlen : Z)
    (storage : sockaddr) : M Z :=
  a <- connect_address addr addrlen storage ;;
  match a with
  | inl r => ret r
  | inr _ =>
      reply <- call Call_connect ;;
      match reply with
      | Reply_ok _ => ret 0
      | Reply_error _ =>
          err <- WSAGetLastError ;;
          if negb (err =? WSAEWOULDBLOCK)
          then ret (translate_socket_error err)
          else
            f <- get_file ;;
            if Z.land (flags f) O_NONBLOCK >? 0
            then ret (- L_EINPROGRESS)
            else
              socket_wait_event FD_CONNECT 0 ;;;
              err <- WSAGetLastError ;;
              ret (translate_socket_error err)
      | _ => starve
      end
  end.

(** [socket_listen(f, backlog)]. *)
Definition socket_listen : M Z :=
  reply <- call Call_listen ;;
  match reply with
  | Reply_ok _ => ret 0
  | Reply_error _ =>
      err <- WSAGetLastError ;; ret (translate_socket_error err)
  | _ => starve
  end.

(** [socket_accept4(f, addr, addrlen, flags)].  The [flags] only shape
    the new socket file, which [vfs_store_file] takes over. *)
Definition socket_accept4 : M Z :=
  loop (
    r <- socket_wait_event FD_ACCEPT 0 ;;
    if negb (r =? 0) then ret (Leave r)
    else
      reply <- call Call_accept ;;
      match reply with
      | Reply_ok _ =>
          ev <- call Call_init_socket_event ;;
          match ev with
          | Reply_ok _ =>
              stored <- call Call_vfs_store_file ;;
              match stored with
              | Reply_ok r =>
                  (if r <? 0 then call Call_vfs_release ;;; ret tt
                   else ret tt) ;;;
                  ret (Leave r)
              | _ => starve
              end
          | Reply_error _ =>
              call Call_closesocket ;;; ret (Leave (- L_ENFILE))
          | _ => starve
          end
      | Reply_error _ =>
          err <- WSAGetLastError ;;
          if negb (err =? WSAEWOULDBLOCK)
          then ret (Leave (translate_socket_error err))
          else clear_event FD_ACCEPT ;;; ret Continue
      | _ => starve
      end).

(** What [socket_getsockname] and [socket_getpeername] hand back: the
    return value and, when they got as far as the copy, the bytes copied
    to [addr] and the value stored in [*addrlen]. *)
Record name_result : Type := {
  name_ret : Z;
  name_written : option (list byte * Z)
}.

Definition copy_out (addrlen : Z) (addr_storage : sockaddr)
    (addr_storage_len : Z) : name_result :=
  let copylen := Z.min addrlen addr_storage_len in
  {| name_ret := 0;
     name_written :=
       Some (firstn (Z.to_nat copylen) addr_storage, addr_storage_len) |}.

Definition name_failure (r : Z) : name_result :=
  {| name_ret := r; name_written := None |}.

(** [socket_getsockname(f, addr, addrlen)]; [addrlen] is the value of
    [*addrlen] on entry, [storage] the uninitialised [addr_storage]. *)
Definition socket_getsockname (addrlen : Z) (storage : sockaddr)
  : M name_result :=
  reply <- call Call_getsockname ;;
  match reply with
  | Reply_sockaddr a len =>
      let (len', a') := translate_socket_addr_to_linux a len in
      ret (copy_out addrlen a' len')
  | Reply_error _ =>
      err <- WSAGetLastError ;;
      if err =? WSAEINVAL then
        f <- get_file ;;
        if af f =? LINUX_AF_INET then
          ret (copy_out addrlen (memset0 storage sizeof_sockaddr_in)
                 sizeof_sockaddr_in)
        else if af f =? LINUX_AF_INET6 then
          ret (copy_out addrlen (memset0 storage sizeof_sockaddr_in6)
                 sizeof_sockaddr_in6)
        else ret (name_failure (- L_EOPNOTSUPP))
      else
        err <- WSAGetLastError ;;
        ret (name_failure (translate_socket_error err))
  | _ => starve
  end.

(** [socket_getpeername(f, addr, addrlen)]. *)
Definition socket_getpeername (addrlen : Z) : M name_result :=
  reply <- call Call_getpeername ;;
  match reply with
  | Reply_sockaddr a len =>
      let (len', a') := translate_socket_addr_to_linux a len in
      ret (copy_out addrlen a' len')
  | Reply_error _ =>
      err <- WSAGetLastError ;;
      ret (name_failure (translate_socket_error err))
  | _ => starve
  end.

(** [socket_shutdown(f, how)]. *)
Definition socket_shutdown (how : Z) : M Z :=
  if negb ((how =? SHUT_RD) || (how =? SHUT_WR) || (how =? SHUT_RDWR))
  then ret (- L_EINVAL)
  else
    reply <- call Call_shutdown ;;
    match reply with
    | Reply_ok _ => ret 0
    | Reply_error _ =>
        err <- WSAGetLastError ;; ret (translate_socket_error err)
    | _ => starve
    end.

(** The entries of [socket_ops] that transfer data or establish
    connections, with their arguments.  (The remaining entries --
    [bind], [setsockopt], [getsockopt], [stat], [close], the poll and
    fork hooks -- contain no call of [socket_wait_event].) *)
Inductive vtable_call : Type :=
| Op_read
| Op_write
| Op_sendto (msg_flags : Z) (dest_addr : sockaddr) (addrlen : Z)
| Op_recvfrom (msg_flags : Z)
| Op_sendmsg (msg : msghdr) (msg_flags : Z)
| Op_recvmsg (msg_flags : Z)
| Op_sendmmsg (msgvec : list msghdr) (msg_flags : Z)
| Op_accept4
| Op_connect (addr : sockaddr) (addrlen : Z)
| Op_listen
| Op_shutdown (how : Z)
| Op_getsockname (addrlen : Z)
| Op_getpeername (addrlen : Z).

Definition run_op (op : vtable_call) (storage : sockaddr) : M Z :=
  match op with
  | Op_read => socket_read
  | Op_write => socket_write storage
  | Op_sendto msg_flags dest_addr addrlen =>
      socket_sendto msg_flags dest_addr addrlen storage
  | Op_recvfrom msg_flags => socket_recvfrom msg_flags
  | Op_sendmsg msg msg_flags => socket_sendmsg msg msg_flags storage
  | Op_recvmsg msg_flags => socket_recvmsg msg_flags
  | Op_sendmmsg msgvec msg_flags => socket_sendmmsg msgvec msg_flags storage
  | Op_accept4 => socket_accept4
  | Op_connect addr addrlen => socket_connect addr addrlen storage
  | Op_listen => socket_listen
  | Op_shutdown how => socket_shutdown how
  | Op_getsockname addrlen =>
      r <- socket_getsockname addrlen storage ;; ret (name_ret r)
  | Op_getpeername addrlen =>
      r <- socket_getpeername addrlen ;; ret (name_ret r)
  end.

(** The [MSG_*] flags an operation carries, 0 when it has none. *)
Definition msg_flags_of (op : vtable_call) : Z :=
  match op with
  | Op_sendto msg_flags _ _ => msg_flags
  | Op_recvfrom msg_flags => msg_flags
  | Op_sendmsg _ msg_flags => msg_flags
  | Op_recvmsg msg_flags => msg_flags
  | Op_sendmmsg _ msg_flags => msg_flags
  | _ => 0
  end.

(** Example data: sockets and worlds for the scenarios below. *)

Definition example_socket (file_flags family : Z) : socket_file :=
  {| flags := file_flags; af := family; type := LINUX_SOCK_STREAM;
     events := 0; connect_error := 0 |}.

Definition example_datagram_socket (file_flags family : Z) : socket_file :=
  {| flags := file_flags; af := family; type := LINUX_SOCK_DGRAM;
     events := 0; connect_error := 0 |}.

Definition example_world (f : socket_file) (script : list host_reply) : world :=
  {| file := f; last_error := 0; WSARecvMsg_loaded := false;
     host := script; trace := [] |}.

Definition example_msg (iov : list Z) : msghdr :=
  {| msg_name := []; msg_namelen := 0; msg_iov := iov |}.

(* ------------------------------------------------------------------ *)
(** ** Vocabulary of the properties                                    *)
(* ------------------------------------------------------------------ *)

(** A guest [sockaddr_in6] of [addrlen] bytes: the family field holds the
    Linux value and the length is within the bounds of the structure
    and of [struct sockaddr_storage]. *)
Definition valid_guest_inet6 (guest : sockaddr) (addrlen : Z) : Prop :=
  ss_family guest = LINUX_AF_INET6 /\
  sizeof_sockaddr_in6 <= addrlen <= sizeof_sockaddr_storage /\
  addrlen <= Z.of_nat (length guest).

(** A wait block records the address [a], or another one. *)
Definition on_addr (a : Z) (b : futex_wait_block) : bool := addr b =? a.
Definition off_addr (a : Z) (b : futex_wait_block) : bool := negb (addr b =? a).

(** The waiters on [a]: the blocks of [a]'s bucket that record [a]. *)
Definition waiters_on (a : Z) (s : futex_state) : list futex_wait_block :=
  filter (on_addr a) (wait_list s (futex_hash a)).

(** A memory manager for the examples: only address 4096 is readable. *)
Definition only_4096 (a size : Z) : bool := a =? 4096.

(** One call with its answer. *)
Definition exchange : Type := (host_call * host_reply)%type.

(** [extends w w' calls]: getting from [w] to [w'] took exactly the
    exchanges [calls] and did not touch the file flags. *)
Definition extends (w w' : world) (calls : list exchange) : Prop :=
  trace w' = trace w ++ calls /\ flags (file w') = flags (file w).

(** No exchange is a [signal_wait]. *)
Definition quiet (calls : list exchange) : Prop :=
  Forall (fun x => fst x <> Call_signal_wait) calls.

(** The call of the last exchange, if any. *)
Fixpoint last_call (calls : list exchange) : option host_call :=
  match calls with
  | [] => None
  | x :: rest =>
      match last_call rest with
      | Some c => Some c
      | None => Some (fst x)
      end
  end.

Fixpoint last_exchange (calls : list exchange) : option exchange :=
  match calls with
  | [] => None
  | x :: rest =>
      match last_exchange rest with
      | Some y => Some y
      | None => Some x
      end
  end.

(** The last exchange is a poll of the network events. *)
Definition polled_last (calls : list exchange) : Prop :=
  last_call calls = Some Call_WSAEnumNetworkEvents.

(** [consumes body]: the body makes a call on every path to
    [Continue].  A loop over such a body is never cut short by the fuel
    and unfolds like the C loop it stands for. *)
Definition consumes {A : Type} (body : M (step A)) : Prop :=
  forall w w', body w = Done Continue w' ->
               (length (host w') < length (host w))%nat.

(** [acted calls]: the last exchange exists and is neither a poll of the
    network events nor a wait. *)
Definition acted (calls : list exchange) : Prop :=
  exists c, last_call calls = Some c /\
            c <> Call_WSAEnumNetworkEvents /\ c <> Call_signal_wait.

(** What holds of the part of an operation that follows a successful
    poll: it talks to the host without waiting, and when it completes
    its last exchange is not a poll. *)
Definition act_run {A : Type} (w : world) (r : run A) : Prop :=
  match r with
  | Done _ w' => exists c, extends w w' c /\ quiet c /\ acted c
  | Starved w' => exists c, extends w w' c /\ quiet c
  end.

(** What holds of a whole operation on a non-blocking socket: it never
    waits, and it returns [-EWOULDBLOCK] when its last exchange with the
    host is a poll. *)
Definition nb_run (w : world) (r : run Z) : Prop :=
  exists calls,
    extends w (final r) calls /\
    quiet calls /\
    forall v w', r = Done v w' -> v = - L_EWOULDBLOCK \/ ~ polled_last calls.

(** The exchanges of the address preparation of [socket_connect] are
    with the file system only. *)
Definition vfs_only (calls : list exchange) : Prop :=
  Forall (fun x => fst x = Call_vfs_openat \/
                   fst x = Call_winfs_read_special_file \/
                   fst x = Call_vfs_release) calls.

(** What holds of [socket_connect] on a non-blocking socket: it never
    polls or waits, and it answers the host's "would block" with
    [-EINPROGRESS]. *)
Definition connect_nb_run (w : world) (r : run Z) : Prop :=
  exists calls,
    extends w (final r) calls /\
    quiet calls /\ ~ polled_last calls /\
    forall v w',
      r = Done v w' ->
      last_exchange calls = Some (Call_connect, Reply_error WSAEWOULDBLOCK) ->
      v = - L_EINPROGRESS.

(** The non-blocking contract for one run [r] of the operation [op]
    started in [w]: no [signal_wait]; [-EWOULDBLOCK] when the run ends on
    a poll, except that [sendmmsg] may return the count of the messages
    sent before; [-EINPROGRESS] when [connect] ends on the host's "would
    block". *)
Definition never_waits (op : vtable_call) (w : world) (r : run Z) : Prop :=
  exists calls,
    trace (final r) = trace w ++ calls /\
    quiet calls /\
    forall v w',
      r = Done v w' ->
      (polled_last calls ->
       v = - L_EWOULDBLOCK \/
       exists msgvec msg_flags,
         op = Op_sendmmsg msgvec msg_flags /\
         1 <= v < Z.of_nat (length msgvec)) /\
      (forall addr addrlen,
          op = Op_connect addr addrlen ->
          last_exchange calls = Some (Call_connect, Reply_error WSAEWOULDBLOCK) ->
          v = - L_EINPROGRESS).

(** Sending the messages of a vector one after the other, whatever the
    results: the results of the successive [socket_sendmsg_unsafe]. *)
Fixpoint send_each (msgvec : list msghdr) (msg_flags : Z) (storage : sockaddr)
  : M (list Z) :=
  match msgvec with
  | [] => ret []
  | msg :: rest =>
      len <- socket_sendmsg_unsafe msg msg_flags storage ;;
      lens <- send_each rest msg_flags storage ;;
      ret (len :: lens)
  end.

(** The sum of the [iov_len]s of a message. *)
Definition iov_sum (msg : msghdr) : Z := fold_right Z.add 0 (msg_iov msg).

(** The lengths are [size_t] values whose sum fits an [int]. *)
Definition fits_int (msg : msghdr) : Prop :=
  Forall (fun iov_len => 0 <= iov_len) (msg_iov msg) /\ iov_sum msg <= int_max.

(** A send of [len] bytes transferred the whole message, at least one
    byte; or a part of it, at least one byte. *)
Definition sent_fully (msg : msghdr) (len : Z) : Prop :=
  0 < len /\ len = iov_sum msg.

Definition sent_short (msg : msghdr) (len : Z) : Prop :=
  0 < len < iov_sum msg.

(** [shrinks m]: a completed run of [m] leaves no more answers than it
    found; [takes m]: it leaves fewer. *)
Definition shrinks {A : Type} (m : M A) : Prop :=
  forall w a w', m w = Done a w' -> (length (host w') <= length (host w))%nat.

Definition takes {A : Type} (m : M A) : Prop :=
  forall w a w', m w = Done a w' -> (length (host w') < length (host w))%nat.

(** The last exchange is a [signal_wait] that a signal interrupted. *)
Definition interrupted (calls : list exchange) : Prop :=
  last_exchange calls = Some (Call_signal_wait, Reply_wait WAIT_INTERRUPTED).

(** How a completed [socket_wait_event] ends. *)
Definition wait_result (v : Z) (calls : list exchange) : Prop :=
  (v = - L_EINTR /\ interrupted calls) \/
  ((v = 0 \/ v = - L_EWOULDBLOCK) /\ polled_last calls).

(** What holds of every run of [socket_wait_event]. *)
Definition wait_run (w : world) (r : run Z) : Prop :=
  exists calls,
    extends w (final r) calls /\
    forall v w', r = Done v w' -> wait_result v calls.

(** The operations of C8 other than [connect]: a single transfer or an
    accept. *)
Definition transfers_or_accepts (op : vtable_call) : bool :=
  match op with
  | Op_read | Op_write | Op_sendto _ _ _ | Op_recvfrom _
  | Op_sendmsg _ _ | Op_recvmsg _ | Op_accept4 => true
  | _ => false
  end.

(* ------------------------------------------------------------------ *)
(** ** Further vocabulary: the futex core                              *)
(* ------------------------------------------------------------------ *)

(** The wait block of the same thread once a requeue has pointed it at
    [b]. *)
Definition requeued (b : Z) (blk : futex_wait_block) : futex_wait_block :=
  {| thread := thread blk; addr := b |}.

(** The block that [futex_wait] appends for [current_thread]. *)
Definition block_of (current_thread a : Z) : futex_wait_block :=
  {| thread := current_thread; addr := a |}.


(* ------------------------------------------------------------------ *)
(** ** Further vocabulary: readiness events                            *)
(* ------------------------------------------------------------------ *)

(** The events that [init_socket_event] asks the host to report
    ([WSAEventSelect]); they are the ones [socket_update_events_unsafe]
    copies from the host's record. *)
Definition tracked_events : Z :=
  Z.lor FD_READ (Z.lor FD_WRITE (Z.lor FD_ACCEPT (Z.lor FD_CONNECT FD_CLOSE))).

(** The local [e] of [socket_update_events_unsafe] once the host's
    record [lNetworkEvents] has been examined. *)
Definition drained (lNetworkEvents : Z) : Z :=
  let e := 0 in
  let e := if bit_set lNetworkEvents FD_READ then Z.lor e FD_READ else e in
  let e := if bit_set lNetworkEvents FD_WRITE then Z.lor e FD_WRITE else e in
  let e := if bit_set lNetworkEvents FD_CONNECT then Z.lor e FD_CONNECT else e in
  let e := if bit_set lNetworkEvents FD_ACCEPT then Z.lor e FD_ACCEPT else e in
  let e := if bit_set lNetworkEvents FD_CLOSE then Z.lor e FD_CLOSE else e in
  e.

(** The world after one poll that the host answers with
    [Reply_events ev err], when the caller asked for the errors of
    [report]. *)
Definition polled (report ev err : Z) (w : world) : world :=
  let seen := Z.lor (events (file w)) (Z.land ev tracked_events) in
  let pending :=
    if bit_set ev FD_CONNECT then err else connect_error (file w) in
  let consumed := bit_set (Z.land report seen) FD_CONNECT in
  {| file :=
       {| flags := flags (file w); af := af (file w); type := type (file w);
          events := if consumed then Z.land seen (Z.lnot FD_CONNECT) else seen;
          connect_error := if consumed then 0 else pending |};
     last_error := if consumed then pending else last_error w;
     WSARecvMsg_loaded := WSARecvMsg_loaded w;
     host := tl (host w);
     trace := trace w ++ [(Call_WSAEnumNetworkEvents, Reply_events ev err)] |}.

(** The world after a call that the host answers with [r]. *)
Definition answered (c : host_call) (r : host_reply) (w : world) : world :=
  {| file := file w;
     last_error := match r with
                   | Reply_error e => e
                   | _ => last_error w
                   end;
     WSARecvMsg_loaded := WSARecvMsg_loaded w;
     host := tl (host w);
     trace := trace w ++ [(c, r)] |}.

(** One round of [socket_wait_event] on a blocking socket: what the host
    answers to the poll ([lNetworkEvents] and the connect error code) and
    the result of the [signal_wait] that follows. *)
Definition round : Type := (Z * Z * Z)%type.

Definition round_replies (r : round) : list host_reply :=
  let '(ev, err, result) := r in [Reply_events ev err; Reply_wait result].

Definition round_exchanges (r : round) : list exchange :=
  let '(ev, err, result) := r in
  [(Call_WSAEnumNetworkEvents, Reply_events ev err);
   (Call_signal_wait, Reply_wait result)].

(** A round in which none of the events of [event] is reported and the
    wait ends without a signal. *)
Definition waits_on (event : Z) (r : round) : Prop :=
  let '(ev, _, result) := r in
  bit_set ev event = false /\ result <> WAIT_INTERRUPTED.


(* ------------------------------------------------------------------ *)
(** ** The poll interface of a socket ([src/fs/socket.c])              *)
(* ------------------------------------------------------------------ *)

(** [common/poll.h]. *)
Definition LINUX_POLLIN : Z := 1.
Definition LINUX_POLLOUT : Z := 4.
Definition LINUX_POLLHUP : Z := 16.

(** [socket_get_poll_status(f)]. *)
Definition socket_get_poll_status : M Z :=
  e <- socket_update_events_unsafe 0 ;;
  let r := 0 in
  let r := if bit_set e FD_READ then Z.lor r LINUX_POLLIN else r in
  let r := if bit_set e FD_CLOSE
           then Z.lor r (Z.lor LINUX_POLLIN LINUX_POLLHUP) else r in
  let r := if bit_set e FD_WRITE then Z.lor r LINUX_POLLOUT else r in
  ret r.

(** [socket_get_poll_handle(f, poll_events)]: the value stored in
    [*poll_events]; the handle returned is the socket's event. *)
Definition socket_get_poll_handle : Z := Z.lor LINUX_POLLIN LINUX_POLLOUT.


(* ------------------------------------------------------------------ *)
(** ** Socket options ([src/fs/socket.c])                              *)
(* ------------------------------------------------------------------ *)

(** [common/socket.h], [common/in.h], [common/tcp.h]: option levels and
    names of the guest. *)
Definition LINUX_SOL_IP : Z := 0.
Definition LINUX_SOL_SOCKET : Z := 1.
Definition LINUX_SOL_TCP : Z := 6.
Definition LINUX_IP_HDRINCL : Z := 3.
Definition LINUX_SO_REUSEADDR : Z := 2.
Definition LINUX_SO_ERROR : Z := 4.
Definition LINUX_SO_BROADCAST : Z := 6.
Definition LINUX_SO_SNDBUF : Z := 7.
Definition LINUX_SO_RCVBUF : Z := 8.
Definition LINUX_SO_KEEPALIVE : Z := 9.
Definition LINUX_SO_LINGER : Z := 13.
Definition LINUX_TCP_NODELAY : Z := 1.

(** [WinSock2.h], [WS2tcpip.h]: those of the host. *)
Definition IPPROTO_IP : Z := 0.
Definition IPPROTO_TCP : Z := 6.
Definition SOL_SOCKET : Z := 65535.
Definition IP_HDRINCL : Z := 2.
Definition SO_REUSEADDR : Z := 4.
Definition SO_KEEPALIVE : Z := 8.
Definition SO_BROADCAST : Z := 32.
Definition SO_LINGER : Z := 128.
Definition SO_SNDBUF : Z := 4097.
Definition SO_RCVBUF : Z := 4098.
Definition SO_ERROR : Z := 4103.
Definition TCP_NODELAY : Z := 1.

(** [linux/net.h]: the numbers of the socket calls. *)
Definition SYS_SOCKET : Z := 1.
Definition SYS_BIND : Z := 2.
Definition SYS_CONNECT : Z := 3.
Definition SYS_LISTEN : Z := 4.
Definition SYS_ACCEPT : Z := 5.
Definition SYS_GETSOCKNAME : Z := 6.
Definition SYS_GETPEERNAME : Z := 7.
Definition SYS_SOCKETPAIR : Z := 8.
Definition SYS_SEND : Z := 9.
Definition SYS_RECV : Z := 10.
Definition SYS_SENDTO : Z := 11.
Definition SYS_RECVFROM : Z := 12.
Definition SYS_SHUTDOWN : Z := 13.
Definition SYS_SETSOCKOPT : Z := 14.
Definition SYS_GETSOCKOPT : Z := 15.
Definition SYS_SENDMSG : Z := 16.
Definition SYS_RECVMSG : Z := 17.
Definition SYS_ACCEPT4 : Z := 18.
Definition SYS_RECVMMSG : Z := 19.
Definition SYS_SENDMMSG : Z := 20.

Definition sizeof_win32_linger : Z := 4.
Definition sizeof_linux_linger : Z := 8.

(** Conversion of an [int] to [u_short]. *)
Definition u_short_of_int (x : Z) : Z := x mod 2 ^ 16.

(** What a socket option call hands back: the return value and, for a
    successful [getsockopt], the value stored at [get_optval] with the
    length stored in [*get_optlen].  An option value is the list of its
    fields: one [int], or the two fields of a [linger] structure. *)
Record sockopt_result : Type := {
  opt_ret : Z;
  opt_stored : option (list Z * Z)
}.

Section Sockopt.

(** The host's [setsockopt(s, level, optname, optval, optlen)]: [None]
    when it succeeds, [Some e] when it returns [SOCKET_ERROR] with last
    error [e]. *)
Variable setsockopt : Z -> Z -> list Z -> Z -> option Z.

(** The host's [getsockopt(s, level, optname, optval, optlen)], given
    the length found in [*optlen]: [inl e] when it returns
    [SOCKET_ERROR] with last error [e], [inr (value, len)] when it
    succeeds, storing [value] and the length [len]. *)
Variable getsockopt : Z -> Z -> Z -> Z + (list Z * Z).

(** The label [get_set_sockopt] of [socket_get_set_sockopt]. *)
Definition get_set_sockopt (call level optname : Z)
    (set_optval : list Z) (set_optlen get_optlen : Z) : sockopt_result :=
  if call =? SYS_SETSOCKOPT then
    match setsockopt level optname set_optval set_optlen with
    | Some e => {| opt_ret := translate_socket_error e; opt_stored := None |}
    | None => {| opt_ret := 0; opt_stored := None |}
    end
  else
    match getsockopt level optname get_optlen with
    | inl e => {| opt_ret := translate_socket_error e; opt_stored := None |}
    | inr (value, len) => {| opt_ret := 0; opt_stored := Some (value, len) |}
    end.

(** [socket_get_set_sockopt(call, f, level, optname, set_optval,
    set_optlen, get_optval, get_optlen)].  [get_optlen] is the value of
    [*get_optlen] on entry and [optlen] the indeterminate value of the
    local [int optlen] of the [SO_LINGER] case.

    The cases of [switch (level)] have no [break]: a case whose inner
    [switch (optname)] matches nothing falls through into the next
    one.  [sol_tcp], [sol_socket] and [sol_ip] are the code from the
    respective [case] label on. *)
Definition socket_get_set_sockopt (call level optname : Z)
    (set_optval : list Z) (set_optlen get_optlen optlen : Z)
  : sockopt_result :=
  let unhandled := {| opt_ret := - L_EINVAL; opt_stored := None |} in
  let sol_tcp :=
    let level := IPPROTO_TCP in
    if optname =? LINUX_TCP_NODELAY then
      get_set_sockopt call level TCP_NODELAY set_optval set_optlen get_optlen
    else unhandled in
  let sol_socket :=
    let level := SOL_SOCKET in
    if optname =? LINUX_SO_REUSEADDR then
      get_set_sockopt call level SO_REUSEADDR set_optval set_optlen get_optlen
    else if optname =? LINUX_SO_ERROR then
      get_set_sockopt call level SO_ERROR set_optval set_optlen get_optlen
    else if optname =? LINUX_SO_BROADCAST then
      get_set_sockopt call level SO_BROADCAST set_optval set_optlen get_optlen
    else if optname =? LINUX_SO_SNDBUF then
      get_set_sockopt call level SO_SNDBUF set_optval set_optlen get_optlen
    else if optname =? LINUX_SO_RCVBUF then
      get_set_sockopt call level SO_RCVBUF set_optval set_optlen get_optlen
    else if optname =? LINUX_SO_KEEPALIVE then
      get_set_sockopt call level SO_KEEPALIVE set_optval set_optlen get_optlen
    else if optname =? LINUX_SO_LINGER then
      if call =? SYS_SETSOCKOPT then
        let win32_linger :=
          [u_short_of_int (nth 0 set_optval 0);
           u_short_of_int (nth 1 set_optval 0)] in
        match setsockopt SOL_SOCKET SO_LINGER win32_linger
                sizeof_win32_linger with
        | Some e =>
            {| opt_ret := translate_socket_error e; opt_stored := None |}
        | None => {| opt_ret := 0; opt_stored := None |}
        end
      else
        match getsockopt SOL_SOCKET SO_LINGER optlen with
        | inl e =>
            {| opt_ret := translate_socket_error e; opt_stored := None |}
        | inr (win32_linger, _) =>
            {| opt_ret := 0;
               opt_stored :=
                 Some ([u_short_of_int (nth 0 win32_linger 0);
                        u_short_of_int (nth 1 win32_linger 0)],
                       sizeof_linux_linger) |}
        end
    else sol_tcp in
  let sol_ip :=
    let level := IPPROTO_IP in
    if optname =? LINUX_IP_HDRINCL then
      get_set_sockopt call level IP_HDRINCL set_optval set_optlen get_optlen
    else sol_socket in
  if level =? LINUX_SOL_IP then sol_ip
  else if level =? LINUX_SOL_SOCKET then sol_socket
  else if level =? LINUX_SOL_TCP then sol_tcp
  else unhandled.

(** [socket_setsockopt(f, level, optname, optval, optlen)] and
    [socket_getsockopt(f, level, optname, optval, optlen)]; the [NULL]
    and 0 they pass for the arguments of the other direction are not
    read. *)
Definition socket_setsockopt (level optname : Z) (optval : list Z)
    (optlen uninitialised : Z) : sockopt_result :=
  socket_get_set_sockopt SYS_SETSOCKOPT level optname optval optlen
    0 uninitialised.

Definition socket_getsockopt (level optname : Z) (optlen uninitialised : Z)
  : sockopt_result :=
  socket_get_set_sockopt SYS_GETSOCKOPT level optname [] 0
    optlen uninitialised.

End Sockopt.

(** Example hosts: one that accepts every option and records nothing,
    and one that knows no option. *)
Definition accepting_setsockopt (level optname : Z) (optval : list Z)
    (optlen : Z) : option Z := None.

Definition refusing_getsockopt (level optname optlen : Z)
  : Z + (list Z * Z) := inl WSAENOPROTOOPT.


(* ------------------------------------------------------------------ *)
(** ** Validation of message headers ([src/fs/socket.c])               *)
(* ------------------------------------------------------------------ *)

(** 32-bit guest ABI. *)
Definition sizeof_msghdr : Z := 28.
Definition sizeof_iovec : Z := 8.
Definition sizeof_uintptr_t : Z := 4.

(** A [struct msghdr] as it lies in guest memory: its pointer and length
    fields, and the [struct iovec]s ([iov_base], [iov_len]) found at
    [msg_iov]. *)
Record guest_msghdr : Type := {
  gm_name : Z;
  gm_namelen : Z;
  gm_iov : Z;
  gm_iovlen : Z;
  gm_control : Z;
  gm_controllen : Z;
  gm_iovec : list (Z * Z)
}.

Section CheckMsghdr.

(** [mm_check_read(addr, size)] and [mm_check_write(addr, size)] of the
    memory manager. *)
Variable mm_check_read : Z -> Z -> bool.
Variable mm_check_write : Z -> Z -> bool.

(** [mm_check_read_msghdr(msg)]; [m] is the structure at [msg]. *)
Definition mm_check_read_msghdr (msg : Z) (m : guest_msghdr) : bool :=
  if negb (mm_check_read msg sizeof_msghdr) then false
  else if negb (gm_namelen m =? 0)
          && negb (mm_check_read (gm_name m) (size_t_of_int (gm_namelen m)))
  then false
  else if negb (gm_iovlen m =? 0)
          && negb (mm_check_read (gm_iov m)
                     ((sizeof_iovec * gm_iovlen m) mod 2 ^ 32))
  then false
  else if negb (gm_controllen m =? 0)
          && negb (mm_check_read (gm_control m) (gm_controllen m))
  then false
  else
    forallb (fun v => mm_check_read (fst v) (snd v))
      (firstn (Z.to_nat (gm_iovlen m)) (gm_iovec m)).

(** [mm_check_write_msghdr(msg)].  The test of the control buffer is
    written with the bitwise [&]. *)
Definition mm_check_write_msghdr (msg : Z) (m : guest_msghdr) : bool :=
  if negb (mm_check_write msg sizeof_msghdr) then false
  else if negb (gm_namelen m =? 0)
          && negb (mm_check_write (gm_name m) (size_t_of_int (gm_namelen m)))
  then false
  else if negb (gm_iovlen m =? 0)
          && negb (mm_check_write (gm_iov m)
                     ((sizeof_iovec * gm_iovlen m) mod 2 ^ 32))
  then false
  else if negb (Z.land (gm_controllen m)
                  (if negb (mm_check_write (gm_control m) (gm_controllen m))
                   then 1 else 0) =? 0)
  then false
  else
    forallb (fun v => mm_check_write (fst v) (snd v))
      (firstn (Z.to_nat (gm_iovlen m)) (gm_iovec m)).

End CheckMsghdr.

(** Example data: a message with one buffer and a control buffer of 16
    bytes at address 12288, and a memory manager that knows the
    addresses below 12288 only. *)
Definition example_guest_msghdr : guest_msghdr :=
  {| gm_name := 0; gm_namelen := 0;
     gm_iov := 4096; gm_iovlen := 1;
     gm_control := 12288; gm_controllen := 16;
     gm_iovec := [(8192, 100)] |}.

Definition below_12288 (a size : Z) : bool := a + size <=? 12288.


(* ------------------------------------------------------------------ *)
(** ** The socket call multiplexer ([src/fs/socket.c])                 *)
(* ------------------------------------------------------------------ *)

(** The argument list sizes [nargs] for [sys_socketcall]. *)
Definition AL (x : Z) : Z := x * sizeof_uintptr_t.

Definition nargs : list Z :=
  [AL 0; AL 3; AL 3; AL 3; AL 2; AL 3;
   AL 3; AL 3; AL 4; AL 4; AL 4; AL 6;
   AL 6; AL 2; AL 5; AL 5; AL 3; AL 3;
   AL 4; AL 5; AL 4].

(** The system call that [sys_socketcall] ends in, with its arguments.
    Parameters of type [int] receive the argument word converted to
    [int]; pointers, [size_t] and [unsigned int] parameters receive the
    word itself. *)
Inductive socket_syscall : Type :=
| Sys_socket (domain type protocol : Z)
| Sys_bind (sockfd addr addrlen : Z)
| Sys_connect (sockfd addr addrlen : Z)
| Sys_listen (sockfd backlog : Z)
| Sys_accept (sockfd addr addrlen : Z)
| Sys_getsockname (sockfd addr addrlen : Z)
| Sys_getpeername (sockfd addr addrlen : Z)
| Sys_send (sockfd buf len flags : Z)
| Sys_recv (sockfd buf len flags : Z)
| Sys_sendto (sockfd buf len flags dest_addr addrlen : Z)
| Sys_recvfrom (sockfd buf len flags src_addr addrlen : Z)
| Sys_shutdown (sockfd how : Z)
| Sys_setsockopt (sockfd level optname optval optlen : Z)
| Sys_getsockopt (sockfd level optname optval optlen : Z)
| Sys_sendmsg (sockfd msg flags : Z)
| Sys_recvmsg (sockfd msg flags : Z)
| Sys_accept4 (sockfd addr addrlen flags : Z)
| Sys_sendmmsg (sockfd msgvec vlen flags : Z).

Section Socketcall.

Variable mm_check_read : Z -> Z -> bool.

(** [sys_socketcall(call, args)]: [inl r] when it returns [r] itself,
    [inr s] when it returns what the system call [s] returns.  [memory]
    is the sequence of words found at [args], however many the guest
    has mapped there; [memory[i]] is [args[i]]. *)
Definition sys_socketcall (call args : Z) (memory : list Z)
  : Z + socket_syscall :=
  let arg (i : Z) : Z := nth (Z.to_nat i) memory 0 in
  let int_arg (i : Z) : Z := int_of_DWORD (arg i) in
  if (call <? 1) || (call >? SYS_SENDMMSG) then inl (- L_EINVAL)
  else if negb (mm_check_read args (nth (Z.to_nat call) nargs 0))
  then inl (- L_EFAULT)
  else if call =? SYS_SOCKET then
    inr (Sys_socket (int_arg 0) (int_arg 1) (int_arg 2))
  else if call =? SYS_BIND then
    inr (Sys_bind (int_arg 0) (arg 1) (int_arg 2))
  else if call =? SYS_CONNECT then
    inr (Sys_connect (int_arg 0) (arg 1) (arg 2))
  else if call =? SYS_LISTEN then
    inr (Sys_listen (int_arg 0) (int_arg 1))
  else if call =? SYS_ACCEPT then
    inr (Sys_accept (int_arg 0) (arg 1) (arg 2))
  else if call =? SYS_GETSOCKNAME then
    inr (Sys_getsockname (int_arg 0) (arg 1) (arg 2))
  else if call =? SYS_GETPEERNAME then
    inr (Sys_getpeername (int_arg 0) (arg 1) (arg 2))
  else if call =? SYS_SEND then
    inr (Sys_send (int_arg 0) (arg 1) (arg 2) (int_arg 3))
  else if call =? SYS_RECV then
    inr (Sys_recv (int_arg 0) (arg 1) (arg 2) (int_arg 3))
  else if call =? SYS_SENDTO then
    inr (Sys_sendto (int_arg 0) (arg 1) (arg 2) (int_arg 3)
           (arg 4) (int_arg 5))
  else if call =? SYS_RECVFROM then
    inr (Sys_recvfrom (int_arg 0) (arg 1) (arg 2) (int_arg 3)
           (arg 4) (arg 5))
  else if call =? SYS_SHUTDOWN then
    inr (Sys_shutdown (int_arg 0) (int_arg 1))
  else if call =? SYS_SETSOCKOPT then
    inr (Sys_setsockopt (int_arg 0) (int_arg 1) (int_arg 2)
           (arg 3) (int_arg 4))
  else if call =? SYS_GETSOCKOPT then
    inr (Sys_getsockopt (int_arg 0) (int_arg 1) (int_arg 2)
           (arg 3) (arg 4))
  else if call =? SYS_SENDMSG then
    inr (Sys_sendmsg (int_arg 0) (arg 1) (int_arg 2))
  else if call =? SYS_RECVMSG then
    inr (Sys_recvmsg (int_arg 0) (arg 1) (int_arg 2))
  else if call =? SYS_ACCEPT4 then
    inr (Sys_accept4 (int_arg 0) (arg 1) (arg 2) (int_arg 3))
  else if call =? SYS_SENDMMSG then
    inr (Sys_sendmmsg (int_arg 0) (arg 1) (arg 2) (arg 3))
  else inl (- L_EINVAL).

End Socketcall.

(** The words of the argument list that [sys_socketcall] has validated
    for [call]. *)
Definition validated_args (call : Z) (memory : list Z) : list Z :=
  firstn (Z.to_nat (nth (Z.to_nat call) nargs 0 / sizeof_uintptr_t)) memory.

(** A memory manager for the examples: every range is valid. *)
Definition all_valid (a size : Z) : bool := true.

(** The number that [socketcall] has for a system call ([SYS_*] in
    [common/socket.h]). *)
Definition syscall_number (s : socket_syscall) : Z :=
  match s with
  | Sys_socket _ _ _ => SYS_SOCKET
  | Sys_bind _ _ _ => SYS_BIND
  | Sys_connect _ _ _ => SYS_CONNECT
  | Sys_listen _ _ => SYS_LISTEN
  | Sys_accept _ _ _ => SYS_ACCEPT
  | Sys_getsockname _ _ _ => SYS_GETSOCKNAME
  | Sys_getpeername _ _ _ => SYS_GETPEERNAME
  | Sys_send _ _ _ _ => SYS_SEND
  | Sys_recv _ _ _ _ => SYS_RECV
  | Sys_sendto _ _ _ _ _ _ => SYS_SENDTO
  | Sys_recvfrom _ _ _ _ _ _ => SYS_RECVFROM
  | Sys_shutdown _ _ => SYS_SHUTDOWN
  | Sys_setsockopt _ _ _ _ _ => SYS_SETSOCKOPT
  | Sys_getsockopt _ _ _ _ _ => SYS_GETSOCKOPT
  | Sys_sendmsg _ _ _ => SYS_SENDMSG
  | Sys_recvmsg _ _ _ => SYS_RECVMSG
  | Sys_accept4 _ _ _ _ => SYS_ACCEPT4
  | Sys_sendmmsg _ _ _ _ => SYS_SENDMMSG
  end.

(** The arguments that a system call is entered with, in the order of
    its parameters. *)
Definition syscall_arguments (s : socket_syscall) : list Z :=
  match s with
  | Sys_socket a b c => [a; b; c]
  | Sys_bind a b c => [a; b; c]
  | Sys_connect a b c => [a; b; c]
  | Sys_listen a b => [a; b]
  | Sys_accept a b c => [a; b; c]
  | Sys_getsockname a b c => [a; b; c]
  | Sys_getpeername a b c => [a; b; c]
  | Sys_send a b c d => [a; b; c; d]
  | Sys_recv a b c d => [a; b; c; d]
  | Sys_sendto a b c d e f => [a; b; c; d; e; f]
  | Sys_recvfrom a b c d e f => [a; b; c; d; e; f]
  | Sys_shutdown a b => [a; b]
  | Sys_setsockopt a b c d e => [a; b; c; d; e]
  | Sys_getsockopt a b c d e => [a; b; c; d; e]
  | Sys_sendmsg a b c => [a; b; c]
  | Sys_recvmsg a b c => [a; b; c]
  | Sys_accept4 a b c d => [a; b; c; d]
  | Sys_sendmmsg a b c d => [a; b; c; d]
  end.

(** The parameters that the [DEFINE_SYSCALL] of each system call
    declares as [int], in order; the others are pointers, [size_t] or
    [unsigned int]. *)
Definition int_parameters (s : socket_syscall) : list bool :=
  match s with
  | Sys_socket _ _ _ => [true; true; true]
  | Sys_bind _ _ _ => [true; false; true]
  | Sys_connect _ _ _ => [true; false; false]
  | Sys_listen _ _ => [true; true]
  | Sys_accept _ _ _ => [true; false; false]
  | Sys_getsockname _ _ _ => [true; false; false]
  | Sys_getpeername _ _ _ => [true; false; false]
  | Sys_send _ _ _ _ => [true; false; false; true]
  | Sys_recv _ _ _ _ => [true; false; false; true]
  | Sys_sendto _ _ _ _ _ _ => [true; false; false; true; false; true]
  | Sys_recvfrom _ _ _ _ _ _ => [true; false; false; true; false; false]
  | Sys_shutdown _ _ => [true; true]
  | Sys_setsockopt _ _ _ _ _ => [true; true; true; false; true]
  | Sys_getsockopt _ _ _ _ _ => [true; true; true; false; false]
  | Sys_sendmsg _ _ _ => [true; false; true]
  | Sys_recvmsg _ _ _ => [true; false; true]
  | Sys_accept4 _ _ _ _ => [true; false; false; true]
  | Sys_sendmmsg _ _ _ _ => [true; false; false; false]
  end.

(** What a parameter receives of an argument word: an [int] parameter
    the word converted to [int], any other the word itself. *)
Definition passed (is_int : bool) (word : Z) : Z :=
  if is_int then int_of_DWORD word else word.

(** The argument words [args[0]], [args[1]], ... that lie within the
    [nargs[call]] bytes validated for [call]. *)
Definition argument_words (call : Z) (memory : list Z) : list Z :=
  map (fun i => nth i memory 0)
    (seq 0 (Z.to_nat (nth (Z.to_nat call) nargs 0 / sizeof_uintptr_t))).


(* ------------------------------------------------------------------ *)
(** ** Creating and binding a socket ([src/fs/socket.c])               *)
(* ------------------------------------------------------------------ *)

(** [common/socket.h], [common/fcntl.h], [WinSock2.h]. *)
Definition LINUX_SOCK_TYPE_MASK : Z := 15.
Definition LINUX_SOCK_RDM : Z := 4.
Definition LINUX_SOCK_SEQPACKET : Z := 5.
Definition SOCK_STREAM : Z := 1.
Definition SOCK_DGRAM : Z := 2.
Definition SOCK_RAW : Z := 3.
Definition SOCK_RDM : Z := 4.
Definition SOCK_SEQPACKET : Z := 5.
Definition O_RDWR : Z := 2.
Definition O_CLOEXEC : Z := 524288.

(** [socket_open] and [socket_bind] run straight through, calling each
    host function at most once.  The answers of the host are given
    beforehand, one per call site, and the function returns its result
    together with the calls it made, in order. *)

Inductive open_event : Type :=
| Host_socket (af type protocol : Z)
| Host_init_socket_event
| Host_closesocket
| Vfs_store_file (f : socket_file) (cloexec : bool)
| Vfs_release_new_file.

(** - [socket_answer]: [None] when [socket] returns a socket, [Some e]
      when it returns [INVALID_SOCKET] with last error [e];
    - [init_socket_event_answer]: whether [init_socket_event] returns a
      handle;
    - [vfs_store_file_answer]: the descriptor, or the negative errno,
      that [vfs_store_file] returns. *)
Record open_host : Type := {
  socket_answer : option Z;
  init_socket_event_answer : bool;
  vfs_store_file_answer : Z
}.

(** [socket_open(domain, type, protocol)].  [file_init] stores its
    third argument as the flags of the new file.  The start of Winsock
    at the first use ([socket_ensure_initialized]) is not
    represented. *)
Definition socket_open (domain type protocol : Z) (h : open_host)
  : Z * list open_event :=
  let win32_af := translate_address_family domain in
  if win32_af <? 0 then (win32_af, [])
  else
    let masked := Z.land type LINUX_SOCK_TYPE_MASK in
    let win32_type :=
      if masked =? LINUX_SOCK_DGRAM then Some SOCK_DGRAM
      else if masked =? LINUX_SOCK_STREAM then Some SOCK_STREAM
      else if masked =? LINUX_SOCK_RAW then Some SOCK_RAW
      else if masked =? LINUX_SOCK_RDM then Some SOCK_RDM
      else if masked =? LINUX_SOCK_SEQPACKET then Some SOCK_SEQPACKET
      else None in
    match win32_type with
    | None => (- L_EPROTONOSUPPORT, [])
    | Some win32_type =>
        let sock := Host_socket win32_af win32_type protocol in
        match socket_answer h with
        | Some e => (translate_socket_error e, [sock])
        | None =>
            if negb (init_socket_event_answer h) then
              (- L_ENFILE, [sock; Host_init_socket_event; Host_closesocket])
            else
              let f :=
                {| flags := if bit_set type O_NONBLOCK
                            then Z.lor O_RDWR O_NONBLOCK else O_RDWR;
                   af := domain;
                   type := masked;
                   events := 0;
                   connect_error := 0 |} in
              let fd := vfs_store_file_answer h in
              let stored := Vfs_store_file f (Z.land type O_CLOEXEC >? 0) in
              if fd <? 0 then
                (fd, [sock; Host_init_socket_event; stored;
                      Vfs_release_new_file])
              else (fd, [sock; Host_init_socket_event; stored])
        end
    end.

(** [sys_socket(domain, type, protocol)]. *)
Definition sys_socket (domain type protocol : Z) (h : open_host)
  : Z * list open_event :=
  socket_open domain type protocol h.

(** The object handed to [vfs_release] in [socket_bind]: the socket's
    own file [f], or the file [winfile] that [vfs_openat] produced. *)
Inductive released_object : Type :=
| The_socket_file
| The_winfile.

Inductive bind_event : Type :=
| Bind_vfs_openat
| Bind_winfs_is_winfile
| Bind_vfs_release (what : released_object)
| Bind_host_bind (addr : sockaddr) (len : Z)
| Bind_host_getsockname
| Bind_winfs_write_special_file (port : Z).

(** - [vfs_openat_answer]: what [vfs_openat] returns;
    - [is_winfile_answer]: what [winfs_is_winfile] returns;
    - [bind_answer]: [None] when the host's [bind] succeeds, [Some e]
      when it fails with last error [e];
    - [getsockname_answer]: the port (host byte order) of the address
      the host's [getsockname] stores, [None] when it fails;
    - [write_special_file_answer]: what [winfs_write_special_file]
      returns. *)
Record bind_host : Type := {
  vfs_openat_answer : Z;
  is_winfile_answer : bool;
  bind_answer : option Z;
  getsockname_answer : option Z;
  write_special_file_answer : Z
}.

(** How [socket_bind] ends: it returns, or it stops in [__debugbreak]. *)
Inductive bind_outcome : Type :=
| Bind_returns (r : Z)
| Bind_breaks.

(** [memcpy(dst + off, bytes, length bytes)]. *)
Definition store_bytes (dst : list byte) (off : nat) (bytes : list byte)
  : list byte :=
  firstn off dst ++ bytes ++ skipn (off + length bytes) dst.

(** The [sockaddr_in] that [socket_bind] makes for a UNIX socket in
    [addr_storage]: family [AF_INET], port 0, address 127.0.0.1. *)
Definition loopback_any_port (storage : sockaddr) : sockaddr :=
  store_bytes
    (store_bytes
       (set_ss_family (memset0 storage sizeof_sockaddr_in) AF_INET)
       4 [x7f; x00; x00; x01])
    2 [x00; x00].

(** [socket_bind(f, addr, addrlen)] on the socket file [f]; [storage] is
    the uninitialised [addr_storage]. *)
Definition socket_bind (f : socket_file) (addr : sockaddr) (addrlen : Z)
    (storage : sockaddr) (h : bind_host) : bind_outcome * list bind_event :=
  let host_bind (to_unix : bool) (log : list bind_event)
      (addr_storage : sockaddr) (addr_storage_len : Z) :=
    let log := log ++ [Bind_host_bind addr_storage addr_storage_len] in
    match bind_answer h with
    | Some err => (Bind_returns (translate_socket_error err), log)
    | None =>
        if to_unix then
          let log := log ++ [Bind_host_getsockname] in
          match getsockname_answer h with
          | None => (Bind_breaks, log)
          | Some port =>
              let log := log ++ [Bind_winfs_write_special_file port] in
              if write_special_file_answer h <=? 0 then (Bind_breaks, log)
              else (Bind_returns 0, log ++ [Bind_vfs_release The_winfile])
          end
        else (Bind_returns 0, log)
    end in
  if af f =? LINUX_AF_UNIX then
    if size_t_of_int addrlen <=? sizeof_ss_family
    then (Bind_returns (- L_EINVAL), [])
    else if negb (ss_family addr =? LINUX_AF_UNIX)
    then (Bind_returns (- L_EAFNOSUPPORT), [])
    else if addrlen =? 0 then (Bind_returns (- L_EINVAL), [])
    else if Z_of_byte (nth 2 addr x00) =? 0
    then (Bind_returns (- L_EINVAL), [])
    else
      let r := vfs_openat_answer h in
      if r <? 0 then (Bind_returns r, [Bind_vfs_openat])
      else if negb (is_winfile_answer h) then
        (Bind_returns (- L_EPERM),
         [Bind_vfs_openat; Bind_winfs_is_winfile;
          Bind_vfs_release The_socket_file])
      else
        host_bind true [Bind_vfs_openat; Bind_winfs_is_winfile]
          (loopback_any_port storage) sizeof_sockaddr_in
  else
    let (addr_storage_len, addr_storage) :=
      translate_socket_addr_to_winsock addr storage addrlen in
    if addr_storage_len =? SOCKET_ERROR then (Bind_returns (- L_EINVAL), [])
    else host_bind false [] addr_storage addr_storage_len.

(** Example hosts. *)
Definition example_open_host (store : Z) : open_host :=
  {| socket_answer := None;
     init_socket_event_answer := true;
     vfs_store_file_answer := store |}.

Definition example_bind_host (winfile : bool) (bound : option Z) : bind_host :=
  {| vfs_openat_answer := 0;
     is_winfile_answer := winfile;
     bind_answer := bound;
     getsockname_answer := Some 49152;
     write_special_file_answer := 5 |}.

(** A guest [sockaddr_un] for the path "/s". *)
Definition example_un : sockaddr := [x01; x00; x2f; x73; x00].


(* ------------------------------------------------------------------ *)
(** ** Clocks and sleeping ([src/syscall/timer.c])                     *)
(* ------------------------------------------------------------------ *)

(** [common/time.h], [datetime.h]. *)
Definition CLOCK_REALTIME : Z := 0.
Definition CLOCK_MONOTONIC : Z := 1.
Definition CLOCK_MONOTONIC_RAW : Z := 4.
Definition CLOCK_MONOTONIC_COARSE : Z := 6.
Definition NANOSECONDS_PER_TICK : Z := 100.
Definition NANOSECONDS_PER_SECOND : Z := 1000000000.
Definition sizeof_timespec : Z := 8.

(** Conversions to [uint64_t] and from it to [long] (32 bits) and to
    [LONGLONG]. *)
Definition uint64_t_of (x : Z) : Z := x mod 2 ^ 64.
Definition long_of_uint64_t (x : Z) : Z := int_of_DWORD x.
Definition LONGLONG_of_uint64_t (x : Z) : Z :=
  let y := x mod 2 ^ 64 in if y <? 2 ^ 63 then y else y - 2 ^ 64.

Record timespec : Type := {
  tv_sec : Z;
  tv_nsec : Z
}.

(** [tp->tv_sec = ns / NANOSECONDS_PER_SECOND; tp->tv_nsec = ns %
    NANOSECONDS_PER_SECOND;] for a [uint64_t ns]. *)
Definition timespec_of_ns (ns : Z) : timespec :=
  {| tv_sec := long_of_uint64_t (ns / NANOSECONDS_PER_SECOND);
     tv_nsec := long_of_uint64_t (ns mod NANOSECONDS_PER_SECOND) |}.

Section Timer.

Variable mm_check_read : Z -> Z -> bool.
Variable mm_check_write : Z -> Z -> bool.

(** [sys_clock_gettime(clk_id, tp)]: the return value and the
    [timespec] stored at [tp], if any.  [system_time] is what
    [filetime_to_unix_timespec] makes of the host's system time, and
    [counter_ns] the [uint64_t] that the floating-point expression
    [(double)counter / (double)freq * NANOSECONDS_PER_SECOND] is
    converted to. *)
Definition sys_clock_gettime (clk_id tp : Z) (system_time : timespec)
    (counter_ns : Z) : Z * option timespec :=
  if negb (mm_check_write tp sizeof_timespec) then (- L_EFAULT, None)
  else if clk_id =? CLOCK_REALTIME then (0, Some system_time)
  else if (clk_id =? CLOCK_MONOTONIC)
          || (clk_id =? CLOCK_MONOTONIC_COARSE)
          || (clk_id =? CLOCK_MONOTONIC_RAW)
  then (0, Some (timespec_of_ns counter_ns))
  else (- L_EINVAL, None).

(** [sys_clock_getres(clk_id, res)].  [actual] is the [ULONG] that
    [NtQueryTimerResolution] stores, and [period] the [uint64_t] that
    the floating-point expression [(double)1. / (double)freq] is
    converted to. *)
Definition sys_clock_getres (clk_id res : Z) (actual period : Z)
  : Z * option timespec :=
  if negb (mm_check_write res sizeof_timespec) then (- L_EFAULT, None)
  else if clk_id =? CLOCK_REALTIME then
    let ns := uint64_t_of (actual * NANOSECONDS_PER_TICK) in
    (0, Some (timespec_of_ns ns))
  else if (clk_id =? CLOCK_MONOTONIC)
          || (clk_id =? CLOCK_MONOTONIC_COARSE)
          || (clk_id =? CLOCK_MONOTONIC_RAW)
  then
    let ns := period in
    if ns =? 0 then (0, Some {| tv_sec := 0; tv_nsec := 1 |})
    else (0, Some (timespec_of_ns ns))
  else (- L_EINVAL, None).

(** [sys_nanosleep(req, rem)]: the return value and the
    [delay_interval.QuadPart] handed to [NtDelayExecution], if any.
    [request] is the [timespec] at [req]. *)
Definition sys_nanosleep (req rem : Z) (request : timespec)
  : Z * option Z :=
  if negb (mm_check_read req sizeof_timespec)
     || (negb (rem =? NULL) && negb (mm_check_write rem sizeof_timespec))
  then (- L_EFAULT, None)
  else
    let ns :=
      uint64_t_of (uint64_t_of (tv_sec request) * 1000000000
                   + tv_nsec request) in
    (0, Some (LONGLONG_of_uint64_t (uint64_t_of (0 - ns / 100)))).

End Timer.

(* ------------------------------------------------------------------ *)
(** ** Further vocabulary: an operation given one more answer          *)
(* ------------------------------------------------------------------ *)

(** The world [w] when the host has [answers] to give after those of
    [w]. *)
Definition more (w : world) (answers : list host_reply) : world :=
  {| file := file w; last_error := last_error w;
     WSARecvMsg_loaded := WSARecvMsg_loaded w;
     host := host w ++ answers; trace := trace w |}.

(** [asks_next m w w0 c r rest]: with the answers of [w] alone, [m]
    stops in the state [w0] for want of an answer; when the host has
    [r :: rest] to give in addition, the next exchange is the call [c],
    which gets [r]. *)
Definition asks_next {A : Type} (m : M A) (w w0 : world)
    (c : host_call) (r : host_reply) (rest : list host_reply) : Prop :=
  m w = Starved w0 /\
  exists later,
    trace (final (m (more w (r :: rest)))) = trace w0 ++ (c, r) :: later.

(** [returns_after m w w0 c r rest v]: in that situation [m] returns
    [v] as soon as [c] has got the answer [r]: that exchange is the last
    one and the answers [rest] are left untouched. *)
Definition returns_after {A : Type} (m : M A) (w w0 : world)
    (c : host_call) (r : host_reply) (rest : list host_reply) (v : A)
  : Prop :=
  exists w',
    m (more w (r :: rest)) = Done v w' /\
    host w' = rest /\
    trace w' = trace w0 ++ [(c, r)].

(** A call that is neither a poll of the network events nor a wait. *)
Definition plain (c : host_call) : Prop :=
  c <> Call_WSAEnumNetworkEvents /\ c <> Call_signal_wait.

(** A call other than the host's [connect]. *)
Definition not_connect (c : host_call) : Prop := c <> Call_connect.

(** Three properties of the code as a consumer of answers.
    - [stable m]: a completed run is not changed by answers that come
      after those it used;
    - [forward m]: a run only adds to the trace;
    - [resumes P m]: a run that stopped either stays where it is,
      whatever comes (it stopped on an answer of the wrong kind), or
      goes on with a call that satisfies [P], which takes the first of
      the further answers. *)
Definition stable {A : Type} (m : M A) : Prop :=
  forall w a w' xs, m w = Done a w' -> m (more w xs) = Done a (more w' xs).

Definition forward {A : Type} (m : M A) : Prop :=
  forall w, exists calls, trace (final (m w)) = trace w ++ calls.

Definition resumes (P : host_call -> Prop) {A : Type} (m : M A) : Prop :=
  forall w w0 r xs,
    m w = Starved w0 ->
    m (more w (r :: xs)) = Starved (more w0 (r :: xs)) \/
    exists c later,
      P c /\
      trace (final (m (more w (r :: xs)))) = trace w0 ++ (c, r) :: later.

Definition orderly (P : host_call -> Prop) {A : Type} (m : M A) : Prop :=
  stable m /\ forward m /\ resumes P m.

(** A function that keeps the file flags. *)
Definition keeps_flags {A : Type} (m : M A) : Prop :=
  forall w a w', m w = Done a w' -> flags (file w') = flags (file w).

(** The event that an operation passes to [socket_wait_event]; the
    operations that never call it wait for nothing. *)
Definition awaited (op : vtable_call) : Z :=
  match op with
  | Op_read | Op_recvfrom _ | Op_recvmsg _ => Z.lor FD_READ FD_CLOSE
  | Op_write | Op_sendto _ _ _ | Op_sendmsg _ _ | Op_sendmmsg _ _ => FD_WRITE
  | Op_accept4 => FD_ACCEPT
  | Op_connect _ _ | Op_listen | Op_shutdown _
  | Op_getsockname _ | Op_getpeername _ => 0
  end.

(** The two parts of [socket_recvmsg_unsafe] on a datagram or raw
    socket: the loop, and the fetching of [WSARecvMsg] that comes before
    it at the first use. *)
Definition recvmsg_loop (msg_flags : Z) : M Z :=
  loop (r <- socket_wait_event (Z.lor FD_READ FD_CLOSE) msg_flags ;;
           let r := DWORD_of_int r in
           if negb (r =? 0) then ret (Leave (int_of_DWORD r))
           else
             reply <- call Call_WSARecvMsg ;;
             match reply with
             | Reply_ok received => ret (Leave (int_of_DWORD received))
             | Reply_error _ =>
                 clear_event FD_READ ;;;
                 err <- WSAGetLastError ;;
                 if negb (err =? WSAEWOULDBLOCK)
                 then ret (Leave (translate_socket_error err))
                 else ret Continue
             | _ => starve
             end).

Definition recvmsg_fetch : M Z :=
  (reply <- call Call_WSAIoctl ;;
      match reply with
      | Reply_ok _ => set_WSARecvMsg ;;; ret 0
      | Reply_error _ => ret (- L_EIO)
      | _ => starve
      end).


(** [socket_connect] once the address is prepared: the call of the
    host's [connect] and what follows it. *)
Definition connect_call : M Z :=
  reply <- call Call_connect ;;
  match reply with
  | Reply_ok _ => ret 0
  | Reply_error _ =>
      err <- WSAGetLastError ;;
      if negb (err =? WSAEWOULDBLOCK)
      then ret (translate_socket_error err)
      else
        f <- get_file ;;
        if Z.land (flags f) O_NONBLOCK >? 0
        then ret (- L_EINPROGRESS)
        else
          socket_wait_event FD_CONNECT 0 ;;;
          err <- WSAGetLastError ;;
          ret (translate_socket_error err)
  | _ => starve
  end.

(** The length of every guest address that the operation hands to
    [translate_socket_addr_to_winsock] is within the [addr_storage] it is
    copied to.  (The translator checks the length from below only; a
    longer address overruns the buffer, and what the operation does then
    is not defined.) *)
Definition address_fits (op : vtable_call) (f : socket_file) : Prop :=
  match op with
  | Op_sendto _ _ addrlen => 0 <= addrlen <= sizeof_sockaddr_storage
  | Op_sendmsg msg _ => 0 <= msg_namelen msg <= sizeof_sockaddr_storage
  | Op_sendmmsg msgvec _ =>
      Forall (fun msg => 0 <= msg_namelen msg <= sizeof_sockaddr_storage)
        msgvec
  | Op_connect _ addrlen =>
      af f = LINUX_AF_UNIX \/
      0 <= int_of_DWORD addrlen <= sizeof_sockaddr_storage
  | _ => True
  end.

(** [blocked_after msgvec msg_flags storage w w0 ev err rest n]: of the
    vector [msgvec], sent from [w] on, the first [n] messages are sent,
    each in full and with at least one byte, and it is the next message
    that stands at the poll answered by [Reply_events ev err] in the
    state [w0]. *)
Definition blocked_after (msgvec : list msghdr) (msg_flags : Z)
    (storage : sockaddr) (w w0 : world) (ev err : Z)
    (rest : list host_reply) (n : Z) : Prop :=
  exists sent blocked remaining lens w1,
    msgvec = sent ++ blocked :: remaining /\
    send_each sent msg_flags storage w = Done lens w1 /\
    Forall2 (fun msg len => 0 < len /\ iov_total (msg_iov msg) <= len)
      sent lens /\
    asks_next (socket_sendmsg_unsafe blocked msg_flags storage) w1 w0
      Call_WSAEnumNetworkEvents (Reply_events ev err) rest /\
    n = Z.of_nat (length sent).

(* ================================================================== *)
(** * Part II. Properties                                              *)
(* ================================================================== *)

(** ** Error translation *)

Lemma translate_socket_error_table_agrees :
  Forall (fun p => translate_socket_error (fst p) = snd p) socket_error_table.
Proof. repeat constructor. Qed.

Lemma not_in_all_differ (x : Z) (l : list Z) :
  ~ In x l -> forallb (fun k => negb (x =? k)) l = true.
Proof.
  induction l as [|k l IH]; intros Hnin; [reflexivity|].
  cbn [forallb]. apply andb_true_intro. split.
  - destruct (Z.eqb_spec x k) as [->|]; [|reflexivity].
    exfalso. apply Hnin. left. reflexivity.
  - apply IH. intros Hin. apply Hnin. right. exact Hin.
Qed.

Lemma translate_socket_error_default (error : Z) :
  ~ In error recognised_socket_errors ->
  translate_socket_error error = - L_EIO.
Proof.
  intros H. apply not_in_all_differ in H.
  unfold recognised_socket_errors, socket_error_table in H.
  cbn [map fst forallb] in H.
  unfold translate_socket_error.
  repeat match type of H with
  | (negb ?c && _)%bool = true =>
      apply andb_prop in H; destruct H as [Hk H];
      apply negb_true_iff in Hk; rewrite Hk; clear Hk
  end.
  reflexivity.
Qed.

(** C1. Every host socket error code the translator recognises is mapped
    to the Linux errno the table assigns to it; in particular the host's
    "host down" becomes [ETIMEDOUT]; every other code becomes [EIO]. *)
Theorem translate_socket_error_spec :
  (forall host errno,
      In (host, errno) socket_error_table ->
      translate_socket_error host = errno) /\
  translate_socket_error WSAEHOSTDOWN = - L_ETIMEDOUT /\
  (forall error,
      ~ In error recognised_socket_errors ->
      translate_socket_error error = - L_EIO).
Proof.
  split; [|split].
  - intros host errno Hin.
    pose proof translate_socket_error_table_agrees as Hall.
    rewrite Forall_forall in Hall.
    exact (Hall (host, errno) Hin).
  - reflexivity.
  - exact translate_socket_error_default.
Qed.

Lemma translate_socket_error_spec_witness :
  translate_socket_error WSAECONNRESET = - L_ECONNRESET /\
  translate_socket_error 10058 = - L_EIO.
Proof.
  destruct translate_socket_error_spec as [Htab [_ Hdef]].
  split.
  - apply Htab. vm_compute. tauto.
  - apply Hdef. vm_compute. intuition discriminate.
Defined.

(** ** Socket address translation *)

Lemma Z_of_byte_range (b : byte) : 0 <= Z_of_byte b < 256.
Proof.
  unfold Z_of_byte. pose proof (Byte.to_N_bounded b). lia.
Qed.

Lemma Z_of_byte_inj (a b : byte) : Z_of_byte a = Z_of_byte b -> a = b.
Proof.
  unfold Z_of_byte. intros H.
  apply N2Z.inj in H.
  pose proof (Byte.of_to_N a) as Ha. pose proof (Byte.of_to_N b) as Hb.
  rewrite H in Ha. congruence.
Qed.

Lemma ss_family_cons (b0 b1 : byte) (rest : list byte) :
  ss_family (b0 :: b1 :: rest) = Z_of_byte b0 + 256 * Z_of_byte b1.
Proof. reflexivity. Qed.

Lemma ss_family_set (a : sockaddr) (af : Z) :
  0 <= af < 65536 -> ss_family (set_ss_family a af) = af.
Proof.
  intros Haf. unfold set_ss_family. rewrite ss_family_cons.
  assert (Hb : forall z, 0 <= z < 256 -> Z_of_byte (byte_of_Z z) = z).
  { intros z Hz. unfold byte_of_Z, Z_of_byte.
    rewrite Z.mod_small by lia.
    destruct (Byte.of_N (Z.to_N z)) as [b|] eqn:E.
    - apply Byte.to_of_N in E. rewrite E. lia.
    - apply Byte.of_N_None_iff in E. lia. }
  assert (Hlo : Z_of_byte (byte_of_Z af) = af mod 256).
  { unfold byte_of_Z. fold (byte_of_Z (af mod 256)).
    assert (byte_of_Z (af mod 256) = byte_of_Z af).
    { unfold byte_of_Z. rewrite Z.mod_mod by lia. reflexivity. }
    unfold byte_of_Z in *. rewrite <- H.
    apply Hb. apply Z.mod_pos_bound. lia. }
  rewrite Hlo, Hb.
  - pose proof (Z.div_mod af 256). lia.
  - split; [apply Z.div_pos; lia | apply Z.div_lt_upper_bound; lia].
Qed.

Lemma skipn_set_ss_family (a : sockaddr) (af : Z) :
  skipn 2 (set_ss_family a af) = skipn 2 a.
Proof. reflexivity. Qed.

Lemma family_bytes (guest : sockaddr) (af : Z) :
  (2 <= length guest)%nat ->
  ss_family guest = af ->
  guest = set_ss_family guest af.
Proof.
  intros Hlen Hfam.
  destruct guest as [|b0 [|b1 rest]]; simpl in Hlen; try lia.
  rewrite ss_family_cons in Hfam.
  pose proof (Z_of_byte_range b0). pose proof (Z_of_byte_range b1).
  assert (Haf : 0 <= af < 65536) by lia.
  pose proof (ss_family_set (b0 :: b1 :: rest) af Haf) as Hset.
  unfold set_ss_family in *. rewrite ss_family_cons in Hset.
  set (c0 := byte_of_Z af) in *. set (c1 := byte_of_Z (af / 256)) in *.
  pose proof (Z_of_byte_range c0). pose proof (Z_of_byte_range c1).
  assert (Z_of_byte b0 = Z_of_byte c0) by lia.
  assert (Z_of_byte b1 = Z_of_byte c1) by lia.
  f_equal; [|f_equal]; auto using Z_of_byte_inj.
Qed.

Lemma skipn2_memcpy (dst src : list byte) (n : Z) :
  2 <= n <= Z.of_nat (length src) ->
  skipn 2 (memcpy dst src n) =
  firstn (Z.to_nat n - 2) (skipn 2 src) ++ skipn (Z.to_nat n) dst.
Proof.
  intros Hn. unfold memcpy.
  rewrite skipn_app, skipn_firstn_comm.
  rewrite length_firstn.
  replace (2 - Nat.min (Z.to_nat n) (length src))%nat with 0%nat by lia.
  reflexivity.
Qed.

Lemma bytes_at_app_l (a b : list byte) (off len : nat) :
  (off + len <= length a)%nat ->
  bytes_at (a ++ b) off len = bytes_at a off len.
Proof.
  intros H. unfold bytes_at.
  rewrite skipn_app, firstn_app, length_skipn.
  replace (len - (length a - off))%nat with 0%nat by lia.
  rewrite firstn_O, app_nil_r. reflexivity.
Qed.

Lemma bytes_at_firstn (a : list byte) (k off len : nat) :
  (off + len <= k)%nat ->
  bytes_at (firstn k a) off len = bytes_at a off len.
Proof.
  intros H. unfold bytes_at.
  rewrite skipn_firstn_comm, firstn_firstn.
  f_equal. lia.
Qed.

Lemma bytes_at_skip2 (a : list byte) (off len : nat) :
  bytes_at a (2 + off) len = bytes_at (skipn 2 a) off len.
Proof.
  unfold bytes_at. rewrite skipn_skipn. f_equal. f_equal. lia.
Qed.

(** C9. Translating a valid guest INET6 socket address to the host and
    back keeps the port and the address bytes (indeed every byte after
    the family field) and restores the Linux family value; on the host
    side the family field holds the host's value. *)
Theorem inet6_sockaddr_round_trip (guest buf : sockaddr) (addrlen : Z) :
  valid_guest_inet6 guest addrlen ->
  let out := translate_socket_addr_to_winsock guest buf addrlen in
  let back := translate_socket_addr_to_linux (snd out) (fst out) in
  fst out = addrlen /\
  ss_family (snd out) = AF_INET6 /\
  sin6_port (snd out) = sin6_port guest /\
  sin6_addr (snd out) = sin6_addr guest /\
  fst back = addrlen /\
  ss_family (snd back) = LINUX_AF_INET6 /\
  sin6_port (snd back) = sin6_port guest /\
  sin6_addr (snd back) = sin6_addr guest /\
  firstn (Z.to_nat addrlen) (snd back) = firstn (Z.to_nat addrlen) guest.
Proof.
  intros (Hfam & Hlen & Hguest).
  unfold sizeof_sockaddr_in6, sizeof_sockaddr_storage in Hlen.
  assert (Hsz : size_t_of_int addrlen = addrlen).
  { unfold size_t_of_int. apply Z.mod_small. lia. }
  assert (Hout : translate_socket_addr_to_winsock guest buf addrlen =
                 (addrlen, set_ss_family (memcpy buf guest addrlen) AF_INET6)).
  { unfold translate_socket_addr_to_winsock. rewrite Hsz, Hfam.
    unfold sizeof_ss_family, sizeof_sockaddr_in6.
    destruct (Z.ltb_spec addrlen 2); [lia|].
    destruct (Z.ltb_spec addrlen 28); [lia|]. reflexivity. }
  cbv zeta. rewrite Hout. cbn [fst snd].
  assert (Hhostfam : ss_family (set_ss_family (memcpy buf guest addrlen) AF_INET6)
                     = AF_INET6).
  { apply ss_family_set. unfold AF_INET6. lia. }
  unfold translate_socket_addr_to_linux. rewrite Hhostfam, Z.eqb_refl.
  cbn [fst snd].
  assert (Hskip : skipn 2 (memcpy buf guest addrlen) =
                  firstn (Z.to_nat addrlen - 2) (skipn 2 guest)
                  ++ skipn (Z.to_nat addrlen) buf).
  { apply skipn2_memcpy. lia. }
  assert (Hfield : forall off len af a,
             skipn 2 a = skipn 2 (memcpy buf guest addrlen) ->
             (off + len <= 26)%nat ->
             bytes_at (set_ss_family a af) (2 + off) len =
             bytes_at guest (2 + off) len).
  { intros off len af a Ha Hoff.
    rewrite !bytes_at_skip2, skipn_set_ss_family, Ha, Hskip.
    rewrite bytes_at_app_l.
    - apply bytes_at_firstn. lia.
    - rewrite length_firstn, length_skipn. lia. }
  split; [reflexivity|].
  split; [exact Hhostfam|].
  split; [apply (Hfield 0%nat 2%nat); [reflexivity | lia]|].
  split; [apply (Hfield 6%nat 16%nat); [reflexivity | lia]|].
  split; [reflexivity|].
  split; [apply ss_family_set; unfold LINUX_AF_INET6; lia|].
  split; [apply (Hfield 0%nat 2%nat); [apply skipn_set_ss_family | lia]|].
  split; [apply (Hfield 6%nat 16%nat); [apply skipn_set_ss_family | lia]|].
  rewrite (family_bytes guest LINUX_AF_INET6) at 2 by (auto; lia).
  unfold set_ss_family at 1 3.
    replace (Z.to_nat addrlen) with (S (S (Z.to_nat addrlen - 2))) by lia.
    cbn [firstn]. do 2 f_equal.
    rewrite skipn_set_ss_family, Hskip.
    rewrite firstn_app, firstn_firstn, length_firstn, length_skipn.
    replace (Z.to_nat addrlen - 2 -
             Nat.min (Z.to_nat addrlen - 2) (length guest - 2))%nat
      with 0%nat by lia.
    rewrite firstn_O, app_nil_r. f_equal. lia.
Qed.

Lemma inet6_sockaddr_round_trip_witness :
  valid_guest_inet6 example_in6 28 /\
  firstn 28
    (snd (translate_socket_addr_to_linux
            (snd (translate_socket_addr_to_winsock example_in6 example_storage 28))
            (fst (translate_socket_addr_to_winsock example_in6 example_storage 28))))
  = example_in6.
Proof.
  assert (Hvalid : valid_guest_inet6 example_in6 28).
  { unfold valid_guest_inet6. split; [reflexivity|].
    unfold sizeof_sockaddr_in6, sizeof_sockaddr_storage. simpl. lia. }
  split; [exact Hvalid|].
  pose proof (inet6_sockaddr_round_trip example_in6 example_storage 28 Hvalid)
    as Hrt.
  cbv zeta in Hrt.
  destruct Hrt as (_ & _ & _ & _ & _ & _ & _ & _ & Hbytes).
  exact Hbytes.
Defined.

(** ** The futex core *)

Lemma wait_list_set_same (s : futex_state) (b : Z) l :
  wait_list (set_wait_list s b l) b = l.
Proof. simpl. rewrite Z.eqb_refl. reflexivity. Qed.

Lemma wait_list_set_other (s : futex_state) (b b' : Z) l :
  b' <> b -> wait_list (set_wait_list s b l) b' = wait_list s b'.
Proof.
  intros Hne. simpl. destruct (Z.eqb_spec b' b); [contradiction | reflexivity].
Qed.

Lemma filter_on_cons (a : Z) cur next :
  filter (on_addr a) (cur :: next) =
  if addr cur =? a then cur :: filter (on_addr a) next
  else filter (on_addr a) next.
Proof. reflexivity. Qed.

Lemma filter_off_cons (a : Z) cur next :
  filter (off_addr a) (cur :: next) =
  if addr cur =? a then filter (off_addr a) next
  else cur :: filter (off_addr a) next.
Proof.
  cbn [filter]. unfold off_addr at 1.
  destruct (addr cur =? a); reflexivity.
Qed.

(** The loop of a plain wake ([requeue_addr] is [NULL]) over the rest of
    the list, started with [n] threads already woken. *)
Lemma wake_loop_shape (a count : Z) (same : bool) (rest : list futex_wait_block) :
  forall n,
    let w := wake_requeue_loop a count NULL same rest n in
    let k := Z.to_nat (num_woken w - n) in
    moved w = [] /\
    n <= num_woken w /\
    woken w = map thread (firstn k (filter (on_addr a) rest)) /\
    filter (on_addr a) (stay w) = skipn k (filter (on_addr a) rest) /\
    filter (off_addr a) (stay w) = filter (off_addr a) rest.
Proof.
  induction rest as [|cur next IH]; intros n; cbv zeta.
  - simpl. destruct (n =? count); simpl; rewrite Z.sub_diag; simpl;
      repeat split; lia.
  - cbn [wake_requeue_loop]. change (NULL =? NULL) with true.
    cbn [andb negb].
    destruct (Z.eqb_spec n count) as [Heq|Hne].
    + cbn [stay moved woken num_woken]. rewrite Z.sub_diag.
      simpl. repeat split; lia.
    + rewrite Bool.andb_false_r.
      rewrite !filter_on_cons, !filter_off_cons.
      destruct (addr cur =? a) eqn:Hcur; cbn [stay moved woken num_woken].
      * specialize (IH (n + 1)). cbv zeta in IH.
        destruct IH as (Hm & Hle & Hw & Hon & Hoff).
        set (w := wake_requeue_loop a count NULL same next (n + 1)) in *.
        replace (Z.to_nat (num_woken w - n))
          with (S (Z.to_nat (num_woken w - (n + 1)))) by lia.
        cbn [firstn skipn map].
        repeat split; try assumption; try lia.
        f_equal. exact Hw.
      * specialize (IH n). cbv zeta in IH.
        destruct IH as (Hm & Hle & Hw & Hon & Hoff).
        set (w := wake_requeue_loop a count NULL same next n) in *.
        rewrite filter_on_cons, filter_off_cons, Hcur.
        repeat split; try assumption.
        f_equal. exact Hoff.
Qed.

Lemma wake_loop_count (a count : Z) (same : bool) (rest : list futex_wait_block) :
  forall n,
    n <= count ->
    num_woken (wake_requeue_loop a count NULL same rest n) =
    Z.min count (n + Z.of_nat (length (filter (on_addr a) rest))).
Proof.
  induction rest as [|cur next IH]; intros n Hn.
  - simpl. destruct (n =? count); simpl; lia.
  - cbn [wake_requeue_loop]. change (NULL =? NULL) with true.
    cbn [andb negb].
    destruct (Z.eqb_spec n count) as [Heq|Hne].
    + cbn [num_woken]. lia.
    + rewrite Bool.andb_false_r, filter_on_cons.
      destruct (addr cur =? a) eqn:Hcur; cbn [num_woken].
      * rewrite IH by lia. cbn [length]. lia.
      * rewrite IH by lia. reflexivity.
Qed.

(** C2 (as amended).  A futex word ([uaddr], and [uaddr2] of the requeue
    operations) that fails read validation makes the call return
    [EACCES]; a non-null [timeout] of [WAIT] that fails validation makes
    it return [EFAULT].  In each case the state is untouched, so nothing
    was dereferenced. *)
Theorem sys_futex_invalid_pointer
    (mm_check_read : Z -> Z -> bool)
    (current_thread uaddr op val timeout uaddr2 val3 : Z) (s : futex_state) :
  let r := sys_futex mm_check_read current_thread
             uaddr op val timeout uaddr2 val3 s in
  let cmd := Z.land op FUTEX_CMD_MASK in
  (mm_check_read uaddr sizeof_int = false ->
   r = (Returns (- L_EACCES), s)) /\
  (mm_check_read uaddr sizeof_int = true ->
   cmd = FUTEX_WAIT -> timeout <> NULL ->
   mm_check_read timeout sizeof_linux_timespec = false ->
   r = (Returns (- L_EFAULT), s)) /\
  (mm_check_read uaddr sizeof_int = true ->
   cmd = FUTEX_REQUEUE \/ cmd = FUTEX_CMP_REQUEUE ->
   mm_check_read uaddr2 sizeof_int = false ->
   r = (Returns (- L_EACCES), s)).
Proof.
  cbv zeta. unfold sys_futex. repeat split.
  - intros ->. reflexivity.
  - intros -> -> Hnull ->.
    destruct (Z.eqb_spec timeout NULL); [contradiction|]. reflexivity.
  - intros -> Hcmd ->. destruct Hcmd as [-> | ->]; reflexivity.
Qed.

Lemma sys_futex_invalid_pointer_witness :
  sys_futex only_4096 1 8192 FUTEX_WAKE 1 NULL NULL 0 example_waiters
    = (Returns (- L_EACCES), example_waiters) /\
  sys_futex only_4096 1 4096 FUTEX_WAIT 0 8192 NULL 0 example_waiters
    = (Returns (- L_EFAULT), example_waiters) /\
  sys_futex only_4096 1 4096 FUTEX_CMP_REQUEUE 1 NULL 8192 0 example_waiters
    = (Returns (- L_EACCES), example_waiters).
Proof.
  split; [|split].
  - destruct (sys_futex_invalid_pointer
                only_4096 1 8192 FUTEX_WAKE 1 NULL NULL 0 example_waiters)
      as (Huaddr & _ & _).
    apply Huaddr. reflexivity.
  - destruct (sys_futex_invalid_pointer
                only_4096 1 4096 FUTEX_WAIT 0 8192 NULL 0 example_waiters)
      as (_ & Htimeout & _).
    apply Htimeout; [reflexivity | reflexivity | discriminate | reflexivity].
  - destruct (sys_futex_invalid_pointer
                only_4096 1 4096 FUTEX_CMP_REQUEUE 1 NULL 8192 0 example_waiters)
      as (_ & _ & Huaddr2).
    apply Huaddr2; [reflexivity | right; reflexivity | reflexivity].
Defined.

(** C2 as stated fails: a [WAKE] on an unreadable futex word returns
    [EACCES], which is not [EFAULT]. *)
Lemma sys_futex_unreadable_uaddr_is_EACCES :
  fst (sys_futex only_4096 1 8192 FUTEX_WAKE 1 NULL NULL 0 example_waiters)
    = Returns (- L_EACCES) /\
  Returns (- L_EACCES) <> Returns (- L_EFAULT).
Proof. split; [reflexivity | discriminate]. Qed.

(** C3. A [WAIT] that finds a value other than the expected one at the
    address returns 0, which is not [-EAGAIN], does not park the thread,
    and leaves every wait list (and the set of signalled threads) as it
    was. *)
Theorem futex_wait_value_changed
    (current_thread a val timeout : Z) (s : futex_state) :
  load s a <> val ->
  let r := futex_wait current_thread a val timeout s in
  fst r = Returns 0 /\
  fst r <> Returns (- L_EAGAIN) /\
  (forall bucket, wait_list (snd r) bucket = wait_list s bucket) /\
  signalled (snd r) = signalled s.
Proof.
  intros Hne. cbv zeta. unfold futex_wait, deref.
  destruct (Z.eqb_spec (load s a) val) as [Heq|_]; [contradiction|].
  cbn [negb fst snd wait_list signalled].
  repeat split. discriminate.
Qed.

Lemma futex_wait_value_changed_witness :
  load example_waiters 4096 <> 7 /\
  fst (futex_wait 4 4096 7 INFINITE example_waiters) = Returns 0 /\
  wait_list (snd (futex_wait 4 4096 7 INFINITE example_waiters)) 0
    = wait_list example_waiters 0.
Proof.
  assert (Hne : load example_waiters 4096 <> 7) by (simpl; lia).
  split; [exact Hne|].
  pose proof (futex_wait_value_changed 4 4096 7 INFINITE example_waiters Hne)
    as Hw.
  cbv zeta in Hw. destruct Hw as (Hret & _ & Hlists & _).
  split; [exact Hret | apply Hlists].
Defined.

(** The compare step of [futex_wake_requeue]. *)
Lemma futex_cmp_requeue_value_changed_at
    (a count requeue_addr expected : Z) (s : futex_state) :
  requeue_addr <> NULL ->
  load s a <> expected ->
  let r := futex_requeue a count requeue_addr (Some expected) s in
  fst r = - L_EAGAIN /\
  signalled (snd r) = signalled s /\
  (forall bucket, wait_list (snd r) bucket = wait_list s bucket).
Proof.
  intros Hnull Hne. cbv zeta.
  unfold futex_requeue, futex_wake_requeue, deref.
  destruct (Z.eqb_spec requeue_addr NULL) as [Heq|_]; [contradiction|].
  destruct (Z.eqb_spec (load s a) expected) as [Heq|_]; [contradiction|].
  cbn [negb fst snd wait_list signalled].
  repeat split.
Qed.

(** C4. A [CMP_REQUEUE] that finds a value other than the expected one at
    the address returns [-EAGAIN], notifies no thread and leaves every
    wait list as it was. *)
Theorem futex_cmp_requeue_value_changed
    (a count requeue_addr expected : Z) (s : futex_state) :
  requeue_addr <> NULL ->
  load s a <> expected ->
  let r := futex_requeue a count requeue_addr (Some expected) s in
  fst r = - L_EAGAIN /\
  signalled (snd r) = signalled s /\
  (forall bucket, wait_list (snd r) bucket = wait_list s bucket).
Proof.
  intros Hnull Hne. cbv zeta.
  destruct (futex_cmp_requeue_value_changed_at a count requeue_addr expected s
              Hnull Hne) as (Hret & Hsig & Hlists).
  split; [exact Hret|]. split; [exact Hsig | exact Hlists].
Qed.

Lemma futex_cmp_requeue_value_changed_witness :
  fst (futex_requeue 4096 1 8192 (Some 5) example_waiters) = - L_EAGAIN /\
  signalled (snd (futex_requeue 4096 1 8192 (Some 5) example_waiters)) = [] /\
  wait_list (snd (futex_requeue 4096 1 8192 (Some 5) example_waiters)) 0
    = wait_list example_waiters 0.
Proof.
  assert (Hnull : 8192 <> NULL) by (unfold NULL; lia).
  assert (Hne : load example_waiters 4096 <> 5) by (simpl; lia).
  pose proof (futex_cmp_requeue_value_changed 4096 1 8192 5 example_waiters
                Hnull Hne) as Hr.
  cbv zeta in Hr. destruct Hr as (Hret & Hsig & Hlists).
  split; [exact Hret|]. split; [exact Hsig | apply Hlists].
Defined.

(** The same through the system call: with both futex words readable,
    [FUTEX_CMP_REQUEUE] on a changed value returns [-EAGAIN] and touches
    no wait list. *)
Lemma sys_futex_cmp_requeue_value_changed
    (mm_check_read : Z -> Z -> bool)
    (current_thread uaddr op val timeout uaddr2 val3 : Z) (s : futex_state) :
  Z.land op FUTEX_CMD_MASK = FUTEX_CMP_REQUEUE ->
  mm_check_read uaddr sizeof_int = true ->
  mm_check_read uaddr2 sizeof_int = true ->
  uaddr2 <> NULL ->
  load s uaddr <> val3 ->
  let r := sys_futex mm_check_read current_thread
             uaddr op val timeout uaddr2 val3 s in
  fst r = Returns (- L_EAGAIN) /\
  signalled (snd r) = signalled s /\
  (forall bucket, wait_list (snd r) bucket = wait_list s bucket).
Proof.
  intros Hcmd Hr1 Hr2 Hnull Hne. cbv zeta.
  unfold sys_futex. rewrite Hr1, Hr2, Hcmd. cbn [negb].
  change (FUTEX_CMP_REQUEUE =? FUTEX_WAIT) with false.
  change (FUTEX_CMP_REQUEUE =? FUTEX_WAKE) with false.
  change (FUTEX_CMP_REQUEUE =? FUTEX_REQUEUE) with false.
  rewrite Z.eqb_refl. cbv iota.
  pose proof (futex_cmp_requeue_value_changed_at uaddr val uaddr2 val3 s
                Hnull Hne) as Hreq.
  cbv zeta in Hreq.
  destruct (futex_requeue uaddr val uaddr2 (Some val3) s) as [r s1].
  cbn [fst snd] in *. destruct Hreq as (-> & Hsig & Hlists).
  auto.
Qed.

(** C5 as stated fails for a negative count: the loop's exit test
    [num_woken == count] never holds, every waiter on the address is
    woken, and the call returns their number (here 2), not
    [min(n, waiters)] (here -1). *)
Lemma futex_wake_negative_count :
  fst (futex_wake 4096 (-1) example_waiters) = 2 /\
  Z.min (-1) (Z.of_nat (length (waiters_on 4096 example_waiters))) = -1.
Proof. split; reflexivity. Qed.

(** C5 (as amended).  For a count [n >= 0], [WAKE(a, n)] returns
    [min(n, waiters on a)].  For every count, the threads notified are
    those of the first blocks waiting on [a] (as many as the call
    returns), exactly these blocks leave the bucket, the blocks recording
    another address stay in place and in order, and the other buckets are
    untouched. *)
Theorem futex_wake_count (a n : Z) (s : futex_state) :
  let r := futex_wake a n s in
  let bucket := futex_hash a in
  let k := Z.to_nat (fst r) in
  (0 <= n -> fst r = Z.min n (Z.of_nat (length (waiters_on a s)))) /\
  signalled (snd r) = signalled s ++ map thread (firstn k (waiters_on a s)) /\
  waiters_on a (snd r) = skipn k (waiters_on a s) /\
  filter (off_addr a) (wait_list (snd r) bucket)
    = filter (off_addr a) (wait_list s bucket) /\
  (forall b, b <> bucket -> wait_list (snd r) b = wait_list s b).
Proof.
  cbv zeta.
  unfold futex_wake, futex_wake_requeue, waiters_on.
  change (negb (NULL =? NULL)) with false. cbn [andb].
  set (same := futex_hash a =? futex_hash NULL).
  set (l := wait_list s (futex_hash a)).
  pose proof (wake_loop_shape a n same l 0) as Hshape.
  pose proof (wake_loop_count a n same l 0) as Hcount.
  cbv zeta in Hshape. rewrite Z.sub_0_r in Hshape.
  destruct Hshape as (_ & _ & Hw & Hon & Hoff).
  set (w := wake_requeue_loop a n NULL same l 0) in *.
  cbn [fst snd notify signalled wait_list set_wait_list].
  rewrite Z.eqb_refl.
  split; [intros Hn; rewrite Hcount by exact Hn; lia|].
  split; [rewrite Hw; reflexivity|].
  split; [exact Hon|].
  split; [exact Hoff|].
  intros b Hb. destruct (Z.eqb_spec b (futex_hash a)); [contradiction|].
  reflexivity.
Qed.

Lemma futex_wake_count_witness :
  fst (futex_wake 4096 1 example_waiters) = 1 /\
  signalled (snd (futex_wake 4096 1 example_waiters)) = [1] /\
  wait_list (snd (futex_wake 4096 1 example_waiters)) 0 =
    [ {| thread := 2; addr := 4352 |}; {| thread := 3; addr := 4096 |} ].
Proof.
  pose proof (futex_wake_count 4096 1 example_waiters) as Hw.
  cbv zeta in Hw. destruct Hw as (Hret & Hsig & _).
  split; [apply Hret; lia|]. split; [exact Hsig | reflexivity].
Defined.

(** ** Runs of socket operations *)

Lemma extends_refl (w : world) : extends w w [].
Proof. split; [rewrite app_nil_r|]; reflexivity. Qed.

Lemma extends_trans (w w1 w2 : world) (c1 c2 : list exchange) :
  extends w w1 c1 -> extends w1 w2 c2 -> extends w w2 (c1 ++ c2).
Proof.
  intros [Ht1 Hf1] [Ht2 Hf2]. split.
  - rewrite Ht2, Ht1, app_assoc. reflexivity.
  - congruence.
Qed.

Lemma quiet_app (c1 c2 : list exchange) :
  quiet c1 -> quiet c2 -> quiet (c1 ++ c2).
Proof. intros H1 H2. apply Forall_app. split; assumption. Qed.

Lemma last_call_app (c1 c2 : list exchange) :
  last_call (c1 ++ c2) =
  match last_call c2 with Some c => Some c | None => last_call c1 end.
Proof.
  induction c1 as [|x c1 IH]; cbn [app last_call].
  - destruct (last_call c2); reflexivity.
  - rewrite IH. destruct (last_call c2); reflexivity.
Qed.

Lemma last_exchange_app (c1 c2 : list exchange) :
  last_exchange (c1 ++ c2) =
  match last_exchange c2 with Some x => Some x | None => last_exchange c1 end.
Proof.
  induction c1 as [|x c1 IH]; cbn [app last_exchange].
  - destruct (last_exchange c2); reflexivity.
  - rewrite IH. destruct (last_exchange c2); reflexivity.
Qed.

Lemma not_polled_app (c1 c2 : list exchange) :
  ~ polled_last c1 -> ~ polled_last c2 -> ~ polled_last (c1 ++ c2).
Proof.
  unfold polled_last. rewrite last_call_app.
  destruct (last_call c2); auto.
Qed.

(** The possible results of one call. *)
Lemma call_cases (c : host_call) (w : world) :
  call c w = Starved w \/
  exists r w', call c w = Done r w' /\
               extends w w' [(c, r)] /\
               (length (host w') < length (host w))%nat /\
               last_error w' = match r with
                               | Reply_error e => e
                               | _ => last_error w
                               end.
Proof.
  unfold call. destruct (host w) as [|r rest] eqn:Hhost.
  - left. reflexivity.
  - right. eexists. eexists. split; [reflexivity|].
    split; [split; reflexivity|].
    split; [simpl; lia | reflexivity].
Qed.

(** A rule for loops: a property of runs that holds of a starved world,
    and holds of the run from [w] whenever it holds of what one more
    iteration leads to, holds of the loop. *)
Lemma loop_rule {A : Type} (body : M (step A)) (P : world -> run A -> Prop) :
  (forall w, P w (Starved w)) ->
  (forall w,
      match body w with
      | Done Continue w' => forall r, P w' r -> P w r
      | Done (Leave a) w' => P w (Done a w')
      | Starved w' => P w (Starved w')
      end) ->
  forall w, P w (loop body w).
Proof.
  intros Hstarved Hbody w. unfold loop.
  generalize (S (length (host w))) as fuel. intros fuel. revert w.
  induction fuel as [|fuel IH]; intros w; cbn [iterate].
  - apply Hstarved.
  - specialize (Hbody w).
    destruct (body w) as [[|a] w'|w']; auto.
Qed.

Lemma iterate_fuel {A : Type} (body : M (step A)) :
  consumes body ->
  forall n m w,
    (length (host w) < n)%nat -> (length (host w) < m)%nat ->
    iterate n body w = iterate m body w.
Proof.
  intros Hc n. induction n as [|n IH]; intros m w Hn Hm; [lia|].
  destruct m as [|m]; [lia|]. cbn [iterate].
  destruct (body w) as [[|a] w'|w'] eqn:Hb; try reflexivity.
  apply Hc in Hb. apply IH; lia.
Qed.

Lemma loop_unfold {A : Type} (body : M (step A)) (w : world) :
  consumes body ->
  loop body w =
  match body w with
  | Done Continue w' => loop body w'
  | Done (Leave a) w' => Done a w'
  | Starved w' => Starved w'
  end.
Proof.
  intros Hc. unfold loop at 1. cbn [iterate].
  destruct (body w) as [[|a] w'|w'] eqn:Hb; try reflexivity.
  unfold loop. apply iterate_fuel; [assumption| |lia].
  apply Hc in Hb. lia.
Qed.

(** [socket_update_events_unsafe] makes one call and keeps the flags. *)
Lemma socket_update_events_unsafe_run (ev : Z) (w : world) :
  match socket_update_events_unsafe ev w with
  | Done _ w' =>
      exists reply, extends w w' [(Call_WSAEnumNetworkEvents, reply)] /\
                    (length (host w') < length (host w))%nat
  | Starved w' =>
      w' = w \/ exists reply, extends w w' [(Call_WSAEnumNetworkEvents, reply)]
  end.
Proof.
  unfold socket_update_events_unsafe, bind.
  destruct (call_cases Call_WSAEnumNetworkEvents w)
    as [-> | (r & w1 & -> & Hext & Hlen & _)].
  - left. reflexivity.
  - destruct r; try (right; eexists; exact Hext).
    unfold get_file.
    destruct (bit_set lNetworkEvents FD_CONNECT);
      cbn [put_file ret WSASetLastError];
      match goal with
      | |- context [if ?c then _ else _] => destruct c
      end;
      cbn [put_file ret WSASetLastError file host trace flags
           set_events set_connect_error];
      (eexists; split; [exact Hext | exact Hlen]).
Qed.

Lemma nonblocking_flags (f f' : socket_file) (msg_flags : Z) :
  flags f' = flags f -> nonblocking f' msg_flags = nonblocking f msg_flags.
Proof. intros H. unfold nonblocking. rewrite H. reflexivity. Qed.

Lemma quiet_poll (reply : host_reply) :
  quiet [(Call_WSAEnumNetworkEvents, reply)].
Proof. repeat constructor. discriminate. Qed.

(** On a non-blocking socket, or with [MSG_DONTWAIT], [socket_wait_event]
    polls once: it never reaches [signal_wait] and returns 0 or
    [-EWOULDBLOCK]. *)
Lemma socket_wait_event_nonblocking (ev msg_flags : Z) (w : world) :
  nonblocking (file w) msg_flags = true ->
  exists calls,
    extends w (final (socket_wait_event ev msg_flags w)) calls /\
    quiet calls /\
    forall v w',
      socket_wait_event ev msg_flags w = Done v w' ->
      (v = 0 \/ v = - L_EWOULDBLOCK) /\
      (length (host w') < length (host w))%nat.
Proof.
  unfold socket_wait_event.
  set (body := (e <- socket_update_events_unsafe ev ;; _)).
  pattern w, (loop body w).
  apply loop_rule; clear w.
  - intros w _. exists []. split; [apply extends_refl|].
    split; [constructor | discriminate].
  - intros w.
    destruct (nonblocking (file w) msg_flags) eqn:Hnb.
    2:{ destruct (body w) as [[|a] w'|w']; intros; discriminate. }
    subst body. unfold bind.
    pose proof (socket_update_events_unsafe_run ev w) as Hrun.
    destruct (socket_update_events_unsafe ev w) as [e w1|w1].
    + destruct Hrun as (reply & Hext & Hlen).
      assert (Hnb1 : nonblocking (file w1) msg_flags = true).
      { rewrite <- Hnb. apply nonblocking_flags. apply Hext. }
      destruct (bit_set e ev); cbn [ret get_file]; [|rewrite Hnb1; cbn [ret]];
        intros _; eexists; (split; [exact Hext|]);
        (split; [apply quiet_poll|]);
        intros v w' Heq; injection Heq as <- <-; auto.
    + intros _. destruct Hrun as [-> | (reply & Hext)].
      * exists []. split; [apply extends_refl|].
        split; [constructor | discriminate].
      * eexists. split; [exact Hext|].
        split; [apply quiet_poll | discriminate].
Qed.

(** *** Non-blocking runs *)

Lemma acted_not_polled (c0 c : list exchange) :
  acted c -> ~ polled_last (c0 ++ c).
Proof.
  intros (x & Hlast & Hx & _). unfold polled_last.
  rewrite last_call_app, Hlast. congruence.
Qed.

Lemma acted_app (c0 c : list exchange) : acted c -> acted (c0 ++ c).
Proof.
  intros (x & Hlast & Hx). exists x.
  rewrite last_call_app, Hlast. auto.
Qed.

Lemma acted_single (c : host_call) (r : host_reply) :
  c <> Call_WSAEnumNetworkEvents -> c <> Call_signal_wait -> acted [(c, r)].
Proof. intros Hc Hc'. exists c. split; [reflexivity | auto]. Qed.

Lemma quiet_single (c : host_call) (r : host_reply) :
  c <> Call_signal_wait -> quiet [(c, r)].
Proof. intros Hc. constructor; [exact Hc | constructor]. Qed.

Lemma extends_same (w w' : world) :
  trace w' = trace w -> flags (file w') = flags (file w) -> extends w w' [].
Proof. intros Ht Hf. split; [rewrite app_nil_r|]; assumption. Qed.

Create HintDb host.

#[local] Hint Resolve extends_refl quiet_app acted_app acted_single
  quiet_single : host.
#[local] Hint Extern 1 (quiet []) => constructor : host.
#[local] Hint Extern 1 (_ <> _) => discriminate : host.

(** Take one call of the operation under study. *)
Ltac host_step :=
  match goal with
  | |- context [call ?c ?w] =>
      let r := fresh "reply" in
      let w' := fresh "w" in
      let Hext := fresh "Hext" in
      let Hlen := fresh "Hlen" in
      let Herr := fresh "Herr" in
      destruct (call_cases c w) as [-> | (r & w' & -> & Hext & Hlen & Herr)]
  end.

(** Join the exchanges collected so far. *)
Ltac chain :=
  repeat match goal with
  | H1 : extends ?a ?b ?c1, H2 : extends ?b ?c ?c2 |- _ =>
      let H := fresh "Hext" in
      pose proof (extends_trans _ _ _ _ _ H1 H2) as H; clear H1 H2
  end.

(** Close a goal [act_run w (Done _ _)] or [act_run w (Starved _)] from
    the collected exchanges. *)
Ltac close_act :=
  chain; cbn [act_run];
  first
    [ eexists; split; [eassumption|]; split;
      [ repeat apply quiet_app; auto with host
      | repeat apply acted_app; auto with host ]
    | eexists; split; [eassumption|]; repeat apply quiet_app; auto with host
    | exists []; split; [apply extends_refl | constructor] ].

Lemma send_act_run (c : host_call) (conv : Z -> Z) (w : world) :
  c <> Call_WSAEnumNetworkEvents -> c <> Call_signal_wait ->
  act_run w
    ((reply <- call c ;;
      match reply with
      | Reply_ok n => ret (Leave (conv n))
      | Reply_error _ =>
          err <- WSAGetLastError ;;
          if negb (err =? WSAEWOULDBLOCK)
          then ret (Leave (translate_socket_error err))
          else clear_event FD_WRITE ;;; ret Continue
      | _ => starve
      end) w).
Proof.
  intros Hc1 Hc2. unfold bind. host_step; [close_act|].
  destruct reply; cbn [starve ret WSAGetLastError]; try close_act.
  destruct (negb (last_error w0 =? WSAEWOULDBLOCK)); cbn; close_act.
Qed.

Lemma recvfrom_act_run (msg_flags : Z) (w : world) :
  act_run w
    (((if negb (bit_set msg_flags LINUX_MSG_PEEK)
       then clear_event FD_READ else ret tt) ;;;
      reply <- call Call_recvfrom ;;
      match reply with
      | Reply_ok n => ret (Leave n)
      | Reply_error _ =>
          err <- WSAGetLastError ;;
          if negb (err =? WSAEWOULDBLOCK)
          then ret (Leave (translate_socket_error err))
          else ret Continue
      | _ => starve
      end) w).
Proof.
  unfold bind.
  assert (Hpre : exists w0,
             (if negb (bit_set msg_flags LINUX_MSG_PEEK)
              then clear_event FD_READ else ret tt) w = Done tt w0 /\
             extends w w0 []).
  { destruct (negb (bit_set msg_flags LINUX_MSG_PEEK)).
    - eexists. split; [reflexivity|]. apply extends_same; reflexivity.
    - eexists. split; [reflexivity|]. apply extends_refl. }
  destruct Hpre as (w0 & -> & Hext0).
  host_step; [close_act|].
  destruct reply; cbn [starve ret WSAGetLastError]; try close_act.
  destruct (negb (last_error w1 =? WSAEWOULDBLOCK)); cbn; close_act.
Qed.

Lemma recvmsg_act_run (w : world) :
  act_run w
    ((reply <- call Call_WSARecvMsg ;;
      match reply with
      | Reply_ok received => ret (Leave (int_of_DWORD received))
      | Reply_error _ =>
          clear_event FD_READ ;;;
          err <- WSAGetLastError ;;
          if negb (err =? WSAEWOULDBLOCK)
          then ret (Leave (translate_socket_error err))
          else ret Continue
      | _ => starve
      end) w).
Proof.
  unfold bind. host_step; [close_act|].
  destruct reply; cbn [starve ret WSAGetLastError clear_event bind get_file
                         put_file last_error]; try close_act.
  destruct (negb (last_error w0 =? WSAEWOULDBLOCK)); cbn; close_act.
Qed.

Lemma accept_act_run (w : world) :
  act_run w
    ((reply <- call Call_accept ;;
      match reply with
      | Reply_ok _ =>
          ev <- call Call_init_socket_event ;;
          match ev with
          | Reply_ok _ =>
              stored <- call Call_vfs_store_file ;;
              match stored with
              | Reply_ok r =>
                  (if r <? 0 then call Call_vfs_release ;;; ret tt
                   else ret tt) ;;;
                  ret (Leave r)
              | _ => starve
              end
          | Reply_error _ =>
              call Call_closesocket ;;; ret (Leave (- L_ENFILE))
          | _ => starve
          end
      | Reply_error _ =>
          err <- WSAGetLastError ;;
          if negb (err =? WSAEWOULDBLOCK)
          then ret (Leave (translate_socket_error err))
          else clear_event FD_ACCEPT ;;; ret Continue
      | _ => starve
      end) w).
Proof.
  unfold bind. host_step; [close_act|].
  destruct reply; cbn [starve ret WSAGetLastError]; try close_act.
  - host_step; [close_act|].
    destruct reply; cbn [starve ret]; try close_act.
    + host_step; [close_act|].
      destruct reply; cbn [starve ret]; try close_act.
      destruct (value1 <? 0); cbn [ret]; [|close_act].
      host_step; close_act.
    + host_step; close_act.
  - destruct (negb (last_error w0 =? WSAEWOULDBLOCK)); cbn; close_act.
Qed.

(** A loop that polls through [socket_wait_event], leaves with the
    result of an unsuccessful poll (through the conversions [narrow] the
    source applies to it) and acts when the poll succeeds. *)
Lemma polling_loop (ev msg_flags : Z) (stop : Z -> bool) (narrow : Z -> Z)
    (act : M (step Z)) :
  stop 0 = false ->
  stop (- L_EWOULDBLOCK) = true ->
  narrow (- L_EWOULDBLOCK) = - L_EWOULDBLOCK ->
  (forall w, act_run w (act w)) ->
  forall w,
    nonblocking (file w) msg_flags = true ->
    nb_run w
      (loop (r <- socket_wait_event ev msg_flags ;;
             if stop r then ret (Leave (narrow r)) else act) w).
Proof.
  intros Hs0 Hsw Hnw Hact w.
  set (body := (r <- socket_wait_event ev msg_flags ;; _)).
  pattern w, (loop body w).
  apply loop_rule; clear w.
  - intros w _. exists []. split; [apply extends_refl|].
    split; [constructor | discriminate].
  - intros w.
    destruct (nonblocking (file w) msg_flags) eqn:Hnb.
    2:{ destruct (body w) as [[|a] w'|w']; intros; discriminate. }
    subst body. unfold bind.
    destruct (socket_wait_event_nonblocking ev msg_flags w Hnb)
      as (c0 & Hext0 & Hq0 & Hdone0).
    destruct (socket_wait_event ev msg_flags w) as [v w0|w0];
      cbn [final] in Hext0.
    + destruct (Hdone0 v w0 eq_refl) as [[-> | ->] _].
      * (* the poll succeeded *)
        rewrite Hs0.
        specialize (Hact w0). unfold act_run in Hact.
        destruct (act w0) as [[|a] w1|w1].
        -- destruct Hact as (c & Hext & Hq & Hacted).
           intros r Hr _.
           assert (Hnb1 : nonblocking (file w1) msg_flags = true).
           { rewrite <- Hnb. apply nonblocking_flags.
             destruct Hext0, Hext. congruence. }
           destruct (Hr Hnb1) as (c1 & Hext1 & Hq1 & Hdone1).
           exists ((c0 ++ c) ++ c1).
           split; [eauto using extends_trans|].
           split; [auto using quiet_app|].
           intros v w' Heq. destruct (Hdone1 v w' Heq) as [Hv | Hnp]; auto.
           right. apply not_polled_app; [|exact Hnp].
           apply acted_not_polled. exact Hacted.
        -- destruct Hact as (c & Hext & Hq & Hacted).
           intros _. exists (c0 ++ c).
           split; [cbn [final]; eauto using extends_trans|].
           split; [auto using quiet_app|].
           intros v w' _. right. apply acted_not_polled. exact Hacted.
        -- destruct Hact as (c & Hext & Hq).
           intros _. exists (c0 ++ c).
           split; [cbn [final]; eauto using extends_trans|].
           split; [auto using quiet_app | discriminate].
      * (* the operation would have to wait *)
        rewrite Hsw.
        cbn [ret]. intros _. exists c0.
        split; [exact Hext0|]. split; [exact Hq0|].
        intros v w' Heq. injection Heq as <- <-. left. exact Hnw.
    + intros _. exists c0. split; [exact Hext0|].
      split; [exact Hq0 | discriminate].
Qed.

Lemma nb_run_early (w : world) (v : Z) : nb_run w (Done v w).
Proof.
  exists []. split; [apply extends_refl|]. split; [constructor|].
  intros v0 w' _. right. discriminate.
Qed.

Lemma socket_sendto_unsafe_nonblocking
    (msg_flags : Z) (dest_addr : sockaddr) (addrlen : Z) (storage : sockaddr)
    (w : world) :
  nonblocking (file w) msg_flags = true ->
  nb_run w (socket_sendto_unsafe msg_flags dest_addr addrlen storage w).
Proof.
  intros Hnb. unfold socket_sendto_unsafe.
  destruct (negb (addrlen =? 0) && _)%bool; [apply nb_run_early|].
  apply (polling_loop FD_WRITE msg_flags
           (fun r => negb (r =? 0)) (fun r => r)); auto.
  intros w0. apply (send_act_run Call_sendto (fun n => n)); discriminate.
Qed.

Lemma socket_sendmsg_unsafe_nonblocking
    (msg : msghdr) (msg_flags : Z) (storage : sockaddr) (w : world) :
  nonblocking (file w) msg_flags = true ->
  nb_run w (socket_sendmsg_unsafe msg msg_flags storage w).
Proof.
  intros Hnb. unfold socket_sendmsg_unsafe.
  destruct (negb (msg_namelen msg =? 0) && _)%bool; [apply nb_run_early|].
  apply (polling_loop FD_WRITE msg_flags
           (fun r => negb (DWORD_of_int r =? 0))
           (fun r => int_of_DWORD (DWORD_of_int r))); auto.
  intros w0. apply (send_act_run Call_WSASendMsg int_of_DWORD); discriminate.
Qed.

Lemma socket_recvfrom_unsafe_nonblocking (msg_flags : Z) (w : world) :
  nonblocking (file w) msg_flags = true ->
  nb_run w (socket_recvfrom_unsafe msg_flags w).
Proof.
  intros Hnb. unfold socket_recvfrom_unsafe.
  apply (polling_loop (Z.lor FD_READ FD_CLOSE) msg_flags
           (fun r => negb (r =? 0)) (fun r => r)); auto.
  intros w0. apply recvfrom_act_run.
Qed.

Lemma nb_run_after (w w0 : world) (c0 : list exchange) (r : run Z) :
  extends w w0 c0 -> quiet c0 -> ~ polled_last c0 ->
  nb_run w0 r -> nb_run w r.
Proof.
  intros Hext0 Hq0 Hnp0 (c & Hext & Hq & Hdone).
  exists (c0 ++ c). split; [eauto using extends_trans|].
  split; [auto using quiet_app|].
  intros v w' Heq. destruct (Hdone v w' Heq) as [Hv | Hnp]; auto.
  right. apply not_polled_app; assumption.
Qed.

Lemma socket_recvmsg_unsafe_nonblocking (msg_flags : Z) (w : world) :
  nonblocking (file w) msg_flags = true ->
  nb_run w (socket_recvmsg_unsafe msg_flags w).
Proof.
  intros Hnb. unfold socket_recvmsg_unsafe, bind at 1, get_file.
  destruct (negb (type (file w) =? LINUX_SOCK_DGRAM) && _)%bool.
  { apply socket_recvfrom_unsafe_nonblocking. exact Hnb. }
  assert (Hloop : forall w0,
             nonblocking (file w0) msg_flags = true ->
             nb_run w0
               (loop (r <- socket_wait_event (Z.lor FD_READ FD_CLOSE) msg_flags ;;
                      let r := DWORD_of_int r in
                      if negb (r =? 0) then ret (Leave (int_of_DWORD r))
                      else
                        reply <- call Call_WSARecvMsg ;;
                        match reply with
                        | Reply_ok received =>
                            ret (Leave (int_of_DWORD received))
                        | Reply_error _ =>
                            clear_event FD_READ ;;;
                            err <- WSAGetLastError ;;
                            if negb (err =? WSAEWOULDBLOCK)
                            then ret (Leave (translate_socket_error err))
                            else ret Continue
                        | _ => starve
                        end) w0)).
  { intros w0 Hnb0.
    apply (polling_loop (Z.lor FD_READ FD_CLOSE) msg_flags
             (fun r => negb (DWORD_of_int r =? 0))
             (fun r => int_of_DWORD (DWORD_of_int r))); auto.
    intros w1. apply recvmsg_act_run. }
  unfold bind at 1, get_WSARecvMsg.
  destruct (WSARecvMsg_loaded w).
  - unfold bind at 1. cbn [ret Z.eqb negb]. apply Hloop. exact Hnb.
  - unfold bind at 1 2. host_step.
    + exists []. split; [apply extends_refl|].
      split; [constructor | discriminate].
    + assert (Hq : quiet [(Call_WSAIoctl, reply)])
        by (apply quiet_single; discriminate).
      assert (Hnp : ~ polled_last [(Call_WSAIoctl, reply)]) by discriminate.
      destruct reply; cbn [starve];
        try (eexists; split; [exact Hext|];
             split; [exact Hq | discriminate]).
      * cbn [bind set_WSARecvMsg ret Z.eqb negb].
        eapply nb_run_after; [| exact Hq | exact Hnp | apply Hloop].
        -- destruct Hext as [Ht Hf]. split; [exact Ht | exact Hf].
        -- cbn [file]. rewrite <- Hnb. apply nonblocking_flags. apply Hext.
      * cbn [ret]. replace (negb (- L_EIO =? 0)) with true by reflexivity.
        eapply nb_run_after; [exact Hext | exact Hq | exact Hnp |].
        apply nb_run_early.
Qed.

Lemma socket_accept4_nonblocking (w : world) :
  nonblocking (file w) 0 = true ->
  nb_run w (socket_accept4 w).
Proof.
  intros Hnb. unfold socket_accept4.
  apply (polling_loop FD_ACCEPT 0 (fun r => negb (r =? 0)) (fun r => r)); auto.
  intros w0. apply accept_act_run.
Qed.

(** [socket_sendmmsg] on a non-blocking socket: when a message other
    than the first would have to wait, the call returns the number of
    messages sent before it. *)
Lemma sendmmsg_loop_nonblocking
    (msg_flags : Z) (storage : sockaddr) (vlen : Z) (msgvec : list msghdr) :
  forall (i : Z) (w : world),
    0 <= i ->
    nonblocking (file w) msg_flags = true ->
    exists calls,
      extends w (final (sendmmsg_loop msgvec i vlen msg_flags storage w)) calls /\
      quiet calls /\
      forall v w',
        sendmmsg_loop msgvec i vlen msg_flags storage w = Done v w' ->
        v = - L_EWOULDBLOCK \/ ~ polled_last calls \/
        (1 <= v /\ i <= v < i + Z.of_nat (length msgvec)).
Proof.
  induction msgvec as [|msg rest IH]; intros i w Hi Hnb.
  - exists []. split; [apply extends_refl|]. split; [constructor|].
    intros v w' _. right. left. discriminate.
  - cbn [sendmmsg_loop]. unfold bind.
    destruct (socket_sendmsg_unsafe_nonblocking msg msg_flags storage w Hnb)
      as (c1 & Hext1 & Hq1 & Hdone1).
    destruct (socket_sendmsg_unsafe msg msg_flags storage w) as [len w1|w1];
      cbn [final] in Hext1.
    2:{ exists c1. split; [exact Hext1|]. split; [exact Hq1 | discriminate]. }
    specialize (Hdone1 len w1 eq_refl).
    destruct ((i =? 0) && (len <? 0))%bool eqn:Hfail.
    { exists c1. split; [exact Hext1|]. split; [exact Hq1|].
      intros v w' Heq. injection Heq as <- <-. tauto. }
    destruct ((i =? 0) && (len =? 0))%bool eqn:Hzero.
    { exists c1. split; [exact Hext1|]. split; [exact Hq1|].
      intros v w' Heq. injection Heq as <- <-. auto. }
    destruct (Z.leb_spec len 0) as [Hle|Hpos].
    { exists c1. split; [exact Hext1|]. split; [exact Hq1|].
      intros v w' Heq. injection Heq as <- <-.
      right. right. cbn [length].
      destruct (Z.eqb_spec i 0) as [->|Hne]; [|lia].
      cbn [andb] in Hfail, Hzero. lia. }
    assert (Hnp1 : ~ polled_last c1).
    { destruct Hdone1 as [Hw|Hnp]; [|exact Hnp].
      unfold L_EWOULDBLOCK, L_EAGAIN in Hw. lia. }
    destruct (len <? iov_total (msg_iov msg)).
    { exists c1. split; [exact Hext1|]. split; [exact Hq1|].
      intros v w' _. auto. }
    assert (Hnb1 : nonblocking (file w1) msg_flags = true).
    { rewrite <- Hnb. apply nonblocking_flags. apply Hext1. }
    destruct (IH (i + 1) w1 ltac:(lia) Hnb1) as (c2 & Hext2 & Hq2 & Hdone2).
    exists (c1 ++ c2). split; [eauto using extends_trans|].
    split; [auto using quiet_app|].
    intros v w' Heq. destruct (Hdone2 v w' Heq) as [Hv | [Hnp | Hcount]].
    + auto.
    + right. left. apply not_polled_app; assumption.
    + right. right. cbn [length]. lia.
Qed.

Lemma last_exchange_in (calls : list exchange) (x : exchange) :
  last_exchange calls = Some x -> In x calls.
Proof.
  induction calls as [|y rest IH]; cbn [last_exchange]; [discriminate|].
  destruct (last_exchange rest) as [z|].
  - intros Heq. right. apply IH. exact Heq.
  - intros Heq. injection Heq as <-. left. reflexivity.
Qed.

Lemma last_call_exchange (calls : list exchange) :
  last_call calls = option_map fst (last_exchange calls).
Proof.
  induction calls as [|y rest IH]; cbn [last_call last_exchange]; [reflexivity|].
  rewrite IH. destruct (last_exchange rest); reflexivity.
Qed.

Lemma vfs_only_quiet (calls : list exchange) : vfs_only calls -> quiet calls.
Proof.
  apply Forall_impl. intros x [H | [H | H]]; rewrite H; discriminate.
Qed.

Lemma vfs_only_last (calls : list exchange) (x : exchange) :
  vfs_only calls -> last_exchange calls = Some x ->
  fst x <> Call_WSAEnumNetworkEvents /\ fst x <> Call_connect.
Proof.
  intros Hv Hlast. apply last_exchange_in in Hlast.
  unfold vfs_only in Hv. rewrite Forall_forall in Hv.
  destruct (Hv x Hlast) as [H | [H | H]]; rewrite H; split; discriminate.
Qed.

Lemma connect_address_run
    (addr : sockaddr) (addrlen : Z) (storage : sockaddr) (w : world) :
  exists calls,
    extends w (final (connect_address addr addrlen storage w)) calls /\
    vfs_only calls.
Proof.
  unfold connect_address, bind at 1, get_file.
  assert (Hnone : exists calls, extends w w calls /\ vfs_only calls).
  { exists []. split; [apply extends_refl | constructor]. }
  destruct (af (file w) =? LINUX_AF_UNIX).
  2:{ destruct (_ =? SOCKET_ERROR); exact Hnone. }
  destruct (addrlen <=? sizeof_ss_family); [exact Hnone|].
  destruct (negb (ss_family addr =? LINUX_AF_UNIX)); [exact Hnone|].
  destruct (addrlen =? 0); [exact Hnone|].
  destruct (Z_of_byte (nth 2 addr x00) =? 0); [exact Hnone|].
  assert (Hv1 : forall r, vfs_only [(Call_vfs_openat, r)])
    by (intros r; repeat constructor).
  assert (Hv2 : forall r, vfs_only [(Call_winfs_read_special_file, r)])
    by (intros r; repeat constructor; auto).
  assert (Hv3 : forall r, vfs_only [(Call_vfs_release, r)])
    by (intros r; repeat constructor; auto).
  unfold bind. host_step; [exact Hnone|].
  destruct reply; cbn [starve ret final];
    try (eexists; split; [exact Hext | apply Hv1]).
  destruct (value <? 0); cbn [ret final];
    [eexists; split; [exact Hext | apply Hv1]|].
  host_step; [eexists; split; [exact Hext | apply Hv1]|].
  host_step;
    [chain; eexists; split; [eassumption|];
     apply Forall_app; split; [apply Hv1 | apply Hv2]|].
  chain.
  assert (Hv : vfs_only (([(Call_vfs_openat, Reply_ok value)] ++
                          [(Call_winfs_read_special_file, reply)]) ++
                         [(Call_vfs_release, reply0)])).
  { repeat (apply Forall_app; split); auto. }
  destruct reply; cbn [starve ret final];
    try (eexists; split; [eassumption | exact Hv]).
  destruct (r <? 0); cbn [ret final];
    [eexists; split; [eassumption | exact Hv]|].
  destruct (r =? 0); cbn [ret final];
    [eexists; split; [eassumption | exact Hv]|].
  destruct port; cbn [ret final]; eexists; split; eassumption || exact Hv.
Qed.

Lemma vfs_only_not_polled (calls : list exchange) :
  vfs_only calls -> ~ polled_last calls.
Proof.
  intros Hv. unfold polled_last. rewrite last_call_exchange.
  destruct (last_exchange calls) as [x|] eqn:Hlast; [|discriminate].
  destruct (vfs_only_last calls x Hv Hlast) as [Hne _].
  cbn [option_map]. congruence.
Qed.

Lemma O_NONBLOCK_test (f : socket_file) :
  nonblocking f 0 = true -> (Z.land (flags f) O_NONBLOCK >? 0) = true.
Proof.
  unfold nonblocking, bit_set.
  replace (Z.land 0 LINUX_MSG_DONTWAIT =? 0) with true by reflexivity.
  cbn [negb]. rewrite Bool.orb_false_r.
  intros H. apply negb_true_iff in H. apply Z.eqb_neq in H.
  assert (0 <= Z.land (flags f) O_NONBLOCK).
  { apply Z.land_nonneg. right. unfold O_NONBLOCK. lia. }
  apply Z.gtb_lt. lia.
Qed.

Lemma socket_connect_nonblocking
    (addr : sockaddr) (addrlen : Z) (storage : sockaddr) (w : world) :
  nonblocking (file w) 0 = true ->
  connect_nb_run w (socket_connect addr addrlen storage w).
Proof.
  intros Hnb. unfold socket_connect, bind at 1.
  destruct (connect_address_run addr addrlen storage w) as (c0 & Hext0 & Hv0).
  pose proof (vfs_only_quiet c0 Hv0) as Hq0.
  pose proof (vfs_only_not_polled c0 Hv0) as Hnp0.
  assert (Hstop : forall v : Z,
             quiet c0 /\ ~ polled_last c0 /\
             (last_exchange c0 = Some (Call_connect, Reply_error WSAEWOULDBLOCK) ->
              v = - L_EINPROGRESS)).
  { intros v. split; [exact Hq0|]. split; [exact Hnp0|].
    intros Hlast. destruct (vfs_only_last c0 _ Hv0 Hlast) as [_ Hne].
    exfalso. apply Hne. reflexivity. }
  destruct (connect_address addr addrlen storage w) as [[r|u] w0|w0];
    cbn [final] in Hext0.
  - cbn [ret]. exists c0. split; [exact Hext0|].
    destruct (Hstop r) as (? & ? & Hlast). split; [assumption|].
    split; [assumption|].
    intros v w' Heq. injection Heq as <- <-. exact Hlast.
  - unfold bind. host_step.
    + exists c0. split; [exact Hext0|]. split; [exact Hq0|].
      split; [exact Hnp0 | discriminate].
    + assert (Hext1 : extends w w1 (c0 ++ [(Call_connect, reply)]))
        by eauto using extends_trans.
      assert (Hq1 : quiet (c0 ++ [(Call_connect, reply)])).
      { apply quiet_app; [exact Hq0 | apply quiet_single; discriminate]. }
      assert (Hnp1 : ~ polled_last (c0 ++ [(Call_connect, reply)])).
      { apply acted_not_polled. apply acted_single; discriminate. }
      assert (Hlast1 : last_exchange (c0 ++ [(Call_connect, reply)]) =
                       Some (Call_connect, reply)).
      { rewrite last_exchange_app. reflexivity. }
      exists (c0 ++ [(Call_connect, reply)]).
      destruct reply; cbn [starve ret WSAGetLastError final];
        try (split; [exact Hext1|]; split; [exact Hq1|];
             split; [exact Hnp1|]; intros v w' Heq; try discriminate Heq;
             rewrite Hlast1; intros Hl; discriminate Hl).
      cbn [last_error] in *. rewrite Herr.
      destruct (Z.eqb_spec error WSAEWOULDBLOCK) as [->|Hne]; cbn [negb ret get_file].
      * assert (Hnb1 : nonblocking (file w1) 0 = true).
        { rewrite <- Hnb. apply nonblocking_flags.
          destruct Hext0, Hext. congruence. }
        rewrite (O_NONBLOCK_test _ Hnb1). cbn [ret final].
        split; [exact Hext1|]. split; [exact Hq1|]. split; [exact Hnp1|].
        intros v w' Heq _. injection Heq as <- <-. reflexivity.
      * cbn [final].
        split; [exact Hext1|]. split; [exact Hq1|]. split; [exact Hnp1|].
        intros v w' _. rewrite Hlast1. intros Hl. injection Hl as Hl.
        contradiction.
  - exists c0. split; [exact Hext0|]. split; [exact Hq0|].
    split; [exact Hnp0 | discriminate].
Qed.

(** The operations that make a single call and return. *)
Lemma single_call_run (c : host_call) (k : host_reply -> M Z) (w : world) :
  c <> Call_signal_wait -> c <> Call_WSAEnumNetworkEvents ->
  (forall r w0, exists v, k r w0 = Done v w0 \/ k r w0 = Starved w0) ->
  nb_run w ((reply <- call c ;; k reply) w).
Proof.
  intros Hc1 Hc2 Hk. unfold bind. host_step.
  - exists []. split; [apply extends_refl|].
    split; [constructor | discriminate].
  - exists [(c, reply)].
    destruct (Hk reply w0) as (v & [-> | ->]); cbn [final];
      (split; [exact Hext|]); (split; [apply quiet_single; exact Hc1|]).
    + intros v0 w' _. right. unfold polled_last. cbn. congruence.
    + discriminate.
Qed.

Lemma bind_assoc {A B C : Type} (m : M A) (k1 : A -> M B) (k2 : B -> M C)
    (w : world) :
  ((x <- (y <- m ;; k1 y) ;; k2 x) w) = ((y <- m ;; x <- k1 y ;; k2 x) w).
Proof. unfold bind. destruct (m w); reflexivity. Qed.

(** The continuation of a single call ends in the same world. *)
Ltac same_world :=
  unfold bind, WSAGetLastError, get_file, ret, starve;
  first [ eexists; left; reflexivity | exists 0; right; reflexivity ].

Lemma socket_listen_run (w : world) : nb_run w (socket_listen w).
Proof.
  apply single_call_run; try discriminate.
  intros [] w0; same_world.
Qed.

Lemma socket_shutdown_run (how : Z) (w : world) :
  nb_run w (socket_shutdown how w).
Proof.
  unfold socket_shutdown.
  destruct (negb _); [apply nb_run_early|].
  apply single_call_run; try discriminate.
  intros [] w0; same_world.
Qed.

Lemma socket_getsockname_run (addrlen : Z) (storage : sockaddr) (w : world) :
  nb_run w ((r <- socket_getsockname addrlen storage ;; ret (name_ret r)) w).
Proof.
  unfold socket_getsockname. rewrite bind_assoc.
  apply single_call_run; try discriminate.
  intros [] w0; try same_world.
  - unfold bind, WSAGetLastError, get_file.
    destruct (last_error w0 =? WSAEINVAL); [|same_world].
    destruct (af (file w0) =? LINUX_AF_INET); [same_world|].
    destruct (af (file w0) =? LINUX_AF_INET6); same_world.
  - destruct (translate_socket_addr_to_linux a len). same_world.
Qed.

Lemma socket_getpeername_run (addrlen : Z) (w : world) :
  nb_run w ((r <- socket_getpeername addrlen ;; ret (name_ret r)) w).
Proof.
  unfold socket_getpeername. rewrite bind_assoc.
  apply single_call_run; try discriminate.
  intros [] w0; try same_world.
  destruct (translate_socket_addr_to_linux a len). same_world.
Qed.

Lemma nb_run_never_waits (op : vtable_call) (w : world) (r : run Z) :
  (forall addr addrlen, op <> Op_connect addr addrlen) ->
  nb_run w r -> never_waits op w r.
Proof.
  intros Hop (calls & Hext & Hq & Hdone).
  exists calls. split; [apply Hext|]. split; [exact Hq|].
  intros v w' Heq. split.
  - intros Hpolled. destruct (Hdone v w' Heq); [auto | contradiction].
  - intros addr addrlen Hc. destruct (Hop _ _ Hc).
Qed.

(** Every run on a non-blocking socket, or with [MSG_DONTWAIT], is
    without [signal_wait], whether it completes or the host falls
    silent. *)
Lemma nonblocking_run_never_waits
    (op : vtable_call) (storage : sockaddr) (w : world) :
  nonblocking (file w) (msg_flags_of op) = true ->
  never_waits op w (run_op op storage w).
Proof.
  intros Hnb.
  assert (Hvia : forall r,
             (forall addr addrlen, op <> Op_connect addr addrlen) ->
             nb_run w r -> never_waits op w r)
    by (intros r; apply nb_run_never_waits).
  destruct op as [| |mf da al|mf|msg mf|mf|msgvec mf| |caddr clen| |how|alen|alen];
    cbn [run_op msg_flags_of] in *.
  - apply Hvia; [discriminate|].
    apply socket_recvfrom_unsafe_nonblocking. exact Hnb.
  - apply Hvia; [discriminate|].
    apply socket_sendto_unsafe_nonblocking. exact Hnb.
  - apply Hvia; [discriminate|].
    apply socket_sendto_unsafe_nonblocking. exact Hnb.
  - apply Hvia; [discriminate|].
    apply socket_recvfrom_unsafe_nonblocking. exact Hnb.
  - apply Hvia; [discriminate|].
    apply socket_sendmsg_unsafe_nonblocking. exact Hnb.
  - apply Hvia; [discriminate|].
    apply socket_recvmsg_unsafe_nonblocking. exact Hnb.
  - unfold socket_sendmmsg.
    destruct (sendmmsg_loop_nonblocking mf storage
                (Z.of_nat (length msgvec)) msgvec 0 w ltac:(lia) Hnb)
      as (calls & Hext & Hq & Hdone).
    exists calls. split; [apply Hext|]. split; [exact Hq|].
    intros v w' Heq. split; [|discriminate].
    intros Hpolled.
    destruct (Hdone v w' Heq) as [Hv | [Hnp | Hcount]];
      [auto | contradiction |].
    right. exists msgvec, mf. split; [reflexivity | lia].
  - apply Hvia; [discriminate|].
    apply socket_accept4_nonblocking. exact Hnb.
  - destruct (socket_connect_nonblocking caddr clen storage w Hnb)
      as (calls & Hext & Hq & Hnp & Hdone).
    exists calls. split; [apply Hext|]. split; [exact Hq|].
    intros v w' Heq. split; [contradiction|].
    intros addr0 addrlen0 _. apply (Hdone v w' Heq).
  - apply Hvia; [discriminate | apply socket_listen_run].
  - apply Hvia; [discriminate | apply socket_shutdown_run].
  - apply Hvia; [discriminate | apply socket_getsockname_run].
  - apply Hvia; [discriminate | apply socket_getpeername_run].
Qed.


(** C8, the failing input.  A blocking [connect] whose host call reports
    [WSAEWOULDBLOCK] waits for the connect event; when that wait is
    interrupted by a signal, [socket_wait_event] returns [-EINTR], but
    [socket_connect] discards this result and translates the stale last
    error instead: it returns [-EWOULDBLOCK].  A blocking [read]
    interrupted in the same way returns [-EINTR]. *)
Theorem socket_connect_interrupted :
  let blocking := example_socket 0 LINUX_AF_INET6 in
  let r := run_op (Op_connect example_in6 28) example_storage
             (example_world blocking
                [Reply_error WSAEWOULDBLOCK; Reply_events 0 0;
                 Reply_wait WAIT_INTERRUPTED]) in
  let r' := run_op Op_read example_storage
              (example_world blocking
                 [Reply_events 0 0; Reply_wait WAIT_INTERRUPTED]) in
  (exists w', r = Done (- L_EWOULDBLOCK) w') /\
  last_exchange (trace (final r))
    = Some (Call_signal_wait, Reply_wait WAIT_INTERRUPTED) /\
  - L_EWOULDBLOCK <> - L_EINTR /\
  (exists w', r' = Done (- L_EINTR) w').
Proof.
  cbv zeta. split; [eexists; vm_compute; reflexivity|].
  split; [vm_compute; reflexivity|].
  split; [discriminate | eexists; vm_compute; reflexivity].
Qed.

(** ** [sendmmsg] *)

Lemma int_of_DWORD_small (x : Z) : 0 <= x <= int_max -> int_of_DWORD x = x.
Proof.
  unfold int_of_DWORD, int_max. intros Hx.
  rewrite Z.mod_small by lia.
  destruct (Z.ltb_spec x (2 ^ 31)); lia.
Qed.

Lemma iov_total_from (iov : list Z) :
  forall total,
    0 <= total ->
    Forall (fun iov_len => 0 <= iov_len) iov ->
    total + fold_right Z.add 0 iov <= int_max ->
    fold_left (fun total iov_len => int_of_DWORD (total + iov_len)) iov total
    = total + fold_right Z.add 0 iov.
Proof.
  induction iov as [|iov_len iov IH]; intros total Htotal Hpos Hfit;
    cbn [fold_left fold_right] in *.
  - lia.
  - inversion Hpos as [|? ? Hlen Hrest]; subst.
    assert (Hsum : 0 <= fold_right Z.add 0 iov).
    { clear - Hrest. induction Hrest; cbn [fold_right]; lia. }
    rewrite int_of_DWORD_small by lia.
    rewrite IH by (auto; lia). lia.
Qed.

Lemma iov_total_sum (msg : msghdr) :
  fits_int msg -> iov_total (msg_iov msg) = iov_sum msg.
Proof.
  intros [Hpos Hfit]. unfold iov_total, iov_sum in *.
  rewrite iov_total_from; auto; lia.
Qed.

(** Past a prefix of fully sent messages the loop is where it would be
    had it started after them. *)
Lemma sendmmsg_loop_prefix (msg_flags : Z) (storage : sockaddr) (vlen : Z)
    (pre : list msghdr) :
  forall (rest : list msghdr) (i : Z) (w w1 : world) (lens : list Z),
    Forall fits_int pre ->
    send_each pre msg_flags storage w = Done lens w1 ->
    Forall2 sent_fully pre lens ->
    sendmmsg_loop (pre ++ rest) i vlen msg_flags storage w =
    sendmmsg_loop rest (i + Z.of_nat (length pre)) vlen msg_flags storage w1.
Proof.
  induction pre as [|msg pre IH]; intros rest i w w1 lens Hfit Hsend Hfull.
  - cbn in Hsend. injection Hsend as <- <-.
    cbn [app length Z.of_nat]. rewrite Z.add_0_r. reflexivity.
  - cbn [send_each] in Hsend. unfold bind in Hsend.
    cbn [app sendmmsg_loop]. unfold bind.
    destruct (socket_sendmsg_unsafe msg msg_flags storage w) as [len wa|wa];
      [|discriminate].
    destruct (send_each pre msg_flags storage wa) as [lens' wb|wb] eqn:Hrest;
      [|discriminate].
    cbn [ret] in Hsend. injection Hsend as <- <-.
    inversion Hfull as [|? ? ? ? [Hpos Hlen] Hfull']; subst.
    inversion Hfit as [|? ? Hmsg Hfit']; subst.
    rewrite (iov_total_sum msg Hmsg).
    replace (iov_sum msg <? 0) with false by (symmetry; apply Z.ltb_ge; lia).
    replace (iov_sum msg =? 0) with false by (symmetry; apply Z.eqb_neq; lia).
    replace (iov_sum msg <=? 0) with false by (symmetry; apply Z.leb_gt; lia).
    rewrite Z.ltb_irrefl, !Bool.andb_false_r.
    rewrite (IH rest (i + 1) wa wb lens' Hfit' Hrest Hfull').
    f_equal. cbn [length]. lia.
Qed.

(** C6 (as amended).  For messages whose [iov_len]s sum up within an
    [int]: when every message is sent in full and transfers at least one
    byte, [sendmmsg] returns the number of messages; when sending the
    first message fails, it returns that error; when the first message
    transfers no byte, it returns [-EWOULDBLOCK]; when the messages
    before the [i]-th are sent in full and the [i]-th is sent short, but
    not empty, it stops there and returns [i + 1]. *)
Theorem sendmmsg_aggregation (msg_flags : Z) (storage : sockaddr) :
  (forall msgvec w lens w',
      Forall fits_int msgvec ->
      send_each msgvec msg_flags storage w = Done lens w' ->
      Forall2 sent_fully msgvec lens ->
      socket_sendmmsg msgvec msg_flags storage w
      = Done (Z.of_nat (length msgvec)) w') /\
  (forall msg rest w len w',
      socket_sendmsg_unsafe msg msg_flags storage w = Done len w' ->
      len < 0 ->
      socket_sendmmsg (msg :: rest) msg_flags storage w = Done len w') /\
  (forall msg rest w w',
      socket_sendmsg_unsafe msg msg_flags storage w = Done 0 w' ->
      socket_sendmmsg (msg :: rest) msg_flags storage w
      = Done (- L_EWOULDBLOCK) w') /\
  (forall pre msg post w lens w1 len w2,
      Forall fits_int (pre ++ [msg]) ->
      send_each pre msg_flags storage w = Done lens w1 ->
      Forall2 sent_fully pre lens ->
      socket_sendmsg_unsafe msg msg_flags storage w1 = Done len w2 ->
      sent_short msg len ->
      socket_sendmmsg (pre ++ msg :: post) msg_flags storage w
      = Done (Z.of_nat (length pre) + 1) w2).
Proof.
  unfold socket_sendmmsg. repeat split.
  - intros msgvec w lens w' Hfit Hsend Hfull.
    rewrite <- (app_nil_r msgvec) at 1.
    rewrite (sendmmsg_loop_prefix _ _ _ msgvec [] 0 w w' lens Hfit Hsend Hfull).
    reflexivity.
  - intros msg rest w len w' Hsend Hneg.
    cbn [sendmmsg_loop]. unfold bind. rewrite Hsend.
    replace (len <? 0) with true by (symmetry; apply Z.ltb_lt; lia).
    reflexivity.
  - intros msg rest w w' Hsend.
    cbn [sendmmsg_loop]. unfold bind. rewrite Hsend. reflexivity.
  - intros pre msg post w lens w1 len w2 Hfit Hpre Hfull Hsend [Hpos Hshort].
    apply Forall_app in Hfit. destruct Hfit as [Hfitpre Hfitmsg].
    inversion Hfitmsg as [|? ? Hmsg _]; subst.
    rewrite (sendmmsg_loop_prefix _ _ _ pre (msg :: post) 0 w w1 lens
               Hfitpre Hpre Hfull).
    cbn [sendmmsg_loop]. unfold bind. rewrite Hsend.
    rewrite (iov_total_sum msg Hmsg).
    replace (len <? 0) with false by (symmetry; apply Z.ltb_ge; lia).
    replace (len =? 0) with false by (symmetry; apply Z.eqb_neq; lia).
    replace (len <=? 0) with false by (symmetry; apply Z.leb_gt; lia).
    replace (len <? iov_sum msg) with true by (symmetry; apply Z.ltb_lt; lia).
    rewrite !Bool.andb_false_r. reflexivity.
Qed.

Ltac fits :=
  repeat constructor; unfold iov_sum, int_max; cbn; lia.

Lemma sendmmsg_aggregation_witness :
  let sock := example_datagram_socket 0 LINUX_AF_INET in
  let m5 := example_msg [5] in
  let m7 := example_msg [3; 4] in
  (exists w',
      socket_sendmmsg [m5; m7] 0 example_storage
        (example_world sock
           [Reply_events FD_WRITE 0; Reply_ok 5; Reply_events 0 0; Reply_ok 7])
      = Done 2 w') /\
  (exists w',
      socket_sendmmsg [m5; m7] 0 example_storage
        (example_world sock [Reply_events FD_WRITE 0; Reply_error WSAECONNRESET])
      = Done (- L_ECONNRESET) w') /\
  (exists w',
      socket_sendmmsg [m5; m7] 0 example_storage
        (example_world sock [Reply_events FD_WRITE 0; Reply_ok 0])
      = Done (- L_EWOULDBLOCK) w') /\
  (exists w',
      socket_sendmmsg ([m5] ++ m7 :: [m5]) 0 example_storage
        (example_world sock
           [Reply_events FD_WRITE 0; Reply_ok 5; Reply_events 0 0; Reply_ok 3])
      = Done 2 w').
Proof.
  cbv zeta.
  destruct (sendmmsg_aggregation 0 example_storage)
    as (Hall & Hfail & Hzero & Hshort).
  split; [|split; [|split]].
  - eexists.
    apply (Hall [example_msg [5]; example_msg [3; 4]] _ [5; 7]).
    + fits.
    + vm_compute. reflexivity.
    + repeat constructor; cbn; lia.
  - eexists. eapply Hfail.
    + vm_compute. reflexivity.
    + vm_compute. reflexivity.
  - eexists. eapply Hzero. vm_compute. reflexivity.
  - eexists.
    change 2 with (Z.of_nat (length [example_msg [5]]) + 1).
    eapply (Hshort [example_msg [5]] (example_msg [3; 4]) [example_msg [5]]
              _ [5] _ 3).
    + fits.
    + vm_compute. reflexivity.
    + repeat constructor; cbn; lia.
    + vm_compute. reflexivity.
    + unfold sent_short, iov_sum. cbn. lia.
Defined.

(** C6 as stated fails when the first message is empty: it is sent in
    full (0 bytes of 0), yet [sendmmsg] returns [-EWOULDBLOCK] and not the
    number of messages, 1. *)
Lemma sendmmsg_empty_first_message :
  let w := example_world (example_datagram_socket 0 LINUX_AF_INET)
             [Reply_events FD_WRITE 0; Reply_ok 0] in
  iov_sum (example_msg []) = 0 /\
  (exists w', socket_sendmsg_unsafe (example_msg []) 0 example_storage w
              = Done 0 w') /\
  (exists w', socket_sendmmsg [example_msg []] 0 example_storage w
              = Done (- L_EWOULDBLOCK) w') /\
  - L_EWOULDBLOCK <> 1.
Proof.
  cbv zeta. split; [reflexivity|].
  split; [eexists; vm_compute; reflexivity|].
  split; [eexists; vm_compute; reflexivity | discriminate].
Qed.

(** ** [getsockname] on an unbound socket *)

(** C10, the failing inputs.  On an unbound INET socket the host's
    [getsockname] fails with [WSAEINVAL] and [socket_getsockname] fakes
    a result: it returns 0 and stores the length 16; but it only clears
    the [sockaddr_in] and never sets its family, so the 16 bytes handed
    back are all zero and the family the caller reads is 0
    ([AF_UNSPEC]), not [AF_INET].  Likewise with the 28 bytes of a
    [sockaddr_in6] on an INET6 socket.  On a UNIX socket the call fails
    with [-EOPNOTSUPP] and hands nothing back. *)
Theorem getsockname_unbound_family_not_set :
  let unbound family :=
    example_world (example_socket 0 family) [Reply_error WSAEINVAL] in
  let faked size :=
    {| name_ret := 0;
       name_written := Some (repeat x00 (Z.to_nat size), size) |} in
  (exists w',
      socket_getsockname 128 example_storage (unbound LINUX_AF_INET)
      = Done (faked sizeof_sockaddr_in) w') /\
  ss_family (repeat x00 (Z.to_nat sizeof_sockaddr_in)) = LINUX_AF_UNSPEC /\
  LINUX_AF_UNSPEC <> LINUX_AF_INET /\
  (exists w',
      socket_getsockname 128 example_storage (unbound LINUX_AF_INET6)
      = Done (faked sizeof_sockaddr_in6) w') /\
  ss_family (repeat x00 (Z.to_nat sizeof_sockaddr_in6)) = LINUX_AF_UNSPEC /\
  LINUX_AF_UNSPEC <> LINUX_AF_INET6 /\
  (exists w',
      socket_getsockname 128 example_storage (unbound LINUX_AF_UNIX)
      = Done (name_failure (- L_EOPNOTSUPP)) w').
Proof.
  cbv zeta. split; [eexists; vm_compute; reflexivity|].
  split; [reflexivity|]. split; [discriminate|].
  split; [eexists; vm_compute; reflexivity|].
  split; [reflexivity|]. split; [discriminate|].
  eexists. vm_compute. reflexivity.
Qed.

(** ** The loops are not cut short

    Each iteration of each loop of the socket code consumes an answer of
    the host, so [loop] unfolds like the C loop it stands for
    ([loop_unfold]). *)

Lemma takes_shrinks {A : Type} (m : M A) : takes m -> shrinks m.
Proof. intros H w a w' Heq. specialize (H w a w' Heq). lia. Qed.

Lemma shrinks_ret {A : Type} (a : A) : shrinks (ret a).
Proof. intros w a' w' Heq. injection Heq as <- <-. lia. Qed.

Lemma shrinks_starve {A : Type} : shrinks (@starve A).
Proof. intros w a w' Heq. discriminate. Qed.

Lemma takes_call (c : host_call) : takes (call c).
Proof.
  intros w r w' Heq.
  destruct (call_cases c w) as [Hs | (r0 & w0 & Hd & _ & Hlen & _)];
    congruence.
Qed.

Lemma shrinks_bind {A B : Type} (m : M A) (k : A -> M B) :
  shrinks m -> (forall a, shrinks (k a)) -> shrinks (x <- m ;; k x).
Proof.
  intros Hm Hk w b w' Heq. unfold bind in Heq.
  destruct (m w) as [a w1|w1] eqn:Hmw; [|discriminate].
  specialize (Hm w a w1 Hmw). specialize (Hk a w1 b w' Heq). lia.
Qed.

Lemma takes_bind_l {A B : Type} (m : M A) (k : A -> M B) :
  takes m -> (forall a, shrinks (k a)) -> takes (x <- m ;; k x).
Proof.
  intros Hm Hk w b w' Heq. unfold bind in Heq.
  destruct (m w) as [a w1|w1] eqn:Hmw; [|discriminate].
  specialize (Hm w a w1 Hmw). specialize (Hk a w1 b w' Heq). lia.
Qed.

Lemma takes_bind_r {A B : Type} (m : M A) (k : A -> M B) :
  shrinks m -> (forall a, takes (k a)) -> takes (x <- m ;; k x).
Proof.
  intros Hm Hk w b w' Heq. unfold bind in Heq.
  destruct (m w) as [a w1|w1] eqn:Hmw; [|discriminate].
  specialize (Hm w a w1 Hmw). specialize (Hk a w1 b w' Heq). lia.
Qed.

Lemma shrinks_state {A : Type} (m : M A) :
  (forall w, exists a w', m w = Done a w' /\ host w' = host w) -> shrinks m.
Proof.
  intros H w a w' Heq. destruct (H w) as (a0 & w0 & Hm & Hhost).
  rewrite Hm in Heq. injection Heq as <- <-. rewrite Hhost. lia.
Qed.

Lemma shrinks_loop {A : Type} (body : M (step A)) :
  shrinks body -> shrinks (loop body).
Proof.
  intros Hb w. pattern w, (loop body w). apply loop_rule; clear w.
  - discriminate.
  - intros w. destruct (body w) as [[|a] w1|w1] eqn:Hbw.
    + intros r Hr a w' Heq. specialize (Hb w _ w1 Hbw).
      specialize (Hr a w' Heq). lia.
    + intros a0 w' Heq. injection Heq as <- <-. exact (Hb w _ w1 Hbw).
    + discriminate.
Qed.

Lemma takes_loop {A : Type} (body : M (step A)) :
  takes body -> takes (loop body).
Proof.
  intros Hb w. pattern w, (loop body w). apply loop_rule; clear w.
  - discriminate.
  - intros w. destruct (body w) as [[|a] w1|w1] eqn:Hbw.
    + intros r Hr a w' Heq. specialize (Hb w _ w1 Hbw).
      specialize (Hr a w' Heq). lia.
    + intros a0 w' Heq. injection Heq as <- <-. exact (Hb w _ w1 Hbw).
    + discriminate.
Qed.

Lemma takes_consumes {A : Type} (body : M (step A)) :
  takes body -> consumes body.
Proof. intros H w w' Heq. exact (H w _ w' Heq). Qed.

(** Decompose a [shrinks] goal along the structure of the code. *)
Ltac shrink :=
  repeat first
    [ apply shrinks_ret
    | apply shrinks_starve
    | apply takes_shrinks; apply takes_call
    | apply shrinks_state; intros ?; eexists; eexists;
      split; reflexivity
    | apply shrinks_bind; [|intros ?]
    | match goal with
      | |- shrinks (match ?x with _ => _ end) => destruct x
      | |- shrinks (let (_, _) := ?x in _) => destruct x
      end ].

Lemma socket_update_events_unsafe_takes (ev : Z) :
  takes (socket_update_events_unsafe ev).
Proof.
  unfold socket_update_events_unsafe.
  apply takes_bind_l; [apply takes_call|]. intros r. shrink.
Qed.

Lemma socket_wait_event_takes (ev msg_flags : Z) :
  takes (socket_wait_event ev msg_flags).
Proof.
  unfold socket_wait_event. apply takes_loop.
  apply takes_bind_l; [apply socket_update_events_unsafe_takes|].
  intros e. shrink.
Qed.

(** The loop of [socket_wait_event] unfolds. *)
Lemma socket_wait_event_body_consumes (ev msg_flags : Z) :
  consumes (
    e <- socket_update_events_unsafe ev ;;
    if bit_set e ev then ret (Leave 0)
    else
      f <- get_file ;;
      if nonblocking f msg_flags then ret (Leave (- L_EWOULDBLOCK))
      else
        r <- call Call_signal_wait ;;
        match r with
        | Reply_wait result =>
            if result =? WAIT_INTERRUPTED then ret (Leave (- L_EINTR))
            else ret Continue
        | _ => starve
        end).
Proof.
  apply takes_consumes.
  apply takes_bind_l; [apply socket_update_events_unsafe_takes|].
  intros e. shrink.
Qed.

(** So does every loop that starts its iterations with
    [socket_wait_event]: those of [socket_sendto_unsafe],
    [socket_sendmsg_unsafe], [socket_recvfrom_unsafe],
    [socket_recvmsg_unsafe] and [socket_accept4]. *)
Lemma polling_body_consumes {A : Type} (ev msg_flags : Z) (k : Z -> M (step A)) :
  (forall r, shrinks (k r)) ->
  consumes (r <- socket_wait_event ev msg_flags ;; k r).
Proof.
  intros Hk. apply takes_consumes.
  apply takes_bind_l; [apply socket_wait_event_takes | exact Hk].
Qed.

Lemma socket_sendto_loop_consumes (msg_flags : Z) :
  consumes (
    r <- socket_wait_event FD_WRITE msg_flags ;;
    if negb (r =? 0) then ret (Leave r)
    else
      reply <- call Call_sendto ;;
      match reply with
      | Reply_ok n => ret (Leave n)
      | Reply_error _ =>
          err <- WSAGetLastError ;;
          if negb (err =? WSAEWOULDBLOCK)
          then ret (Leave (translate_socket_error err))
          else clear_event FD_WRITE ;;; ret Continue
      | _ => starve
      end).
Proof. apply polling_body_consumes. intros r. unfold clear_event. shrink. Qed.

Lemma socket_sendmsg_loop_consumes (msg_flags : Z) :
  consumes (
    r <- socket_wait_event FD_WRITE msg_flags ;;
    let r := DWORD_of_int r in
    if negb (r =? 0) then ret (Leave (int_of_DWORD r))
    else
      reply <- call Call_WSASendMsg ;;
      match reply with
      | Reply_ok sent => ret (Leave (int_of_DWORD sent))
      | Reply_error _ =>
          err <- WSAGetLastError ;;
          if negb (err =? WSAEWOULDBLOCK)
          then ret (Leave (translate_socket_error err))
          else clear_event FD_WRITE ;;; ret Continue
      | _ => starve
      end).
Proof.
  apply polling_body_consumes. intros r. cbv zeta. unfold clear_event. shrink.
Qed.

Lemma socket_recvfrom_loop_consumes (msg_flags : Z) :
  consumes (
    r <- socket_wait_event (Z.lor FD_READ FD_CLOSE) msg_flags ;;
    if negb (r =? 0) then ret (Leave r)
    else
      (if negb (bit_set msg_flags LINUX_MSG_PEEK)
       then clear_event FD_READ else ret tt) ;;;
      reply <- call Call_recvfrom ;;
      match reply with
      | Reply_ok n => ret (Leave n)
      | Reply_error _ =>
          err <- WSAGetLastError ;;
          if negb (err =? WSAEWOULDBLOCK)
          then ret (Leave (translate_socket_error err))
          else ret Continue
      | _ => starve
      end).
Proof. apply polling_body_consumes. intros r. unfold clear_event. shrink. Qed.

Lemma socket_recvmsg_loop_consumes (msg_flags : Z) :
  consumes (
    r <- socket_wait_event (Z.lor FD_READ FD_CLOSE) msg_flags ;;
    let r := DWORD_of_int r in
    if negb (r =? 0) then ret (Leave (int_of_DWORD r))
    else
      reply <- call Call_WSARecvMsg ;;
      match reply with
      | Reply_ok received => ret (Leave (int_of_DWORD received))
      | Reply_error _ =>
          clear_event FD_READ ;;;
          err <- WSAGetLastError ;;
          if negb (err =? WSAEWOULDBLOCK)
          then ret (Leave (translate_socket_error err))
          else ret Continue
      | _ => starve
      end).
Proof.
  apply polling_body_consumes. intros r. cbv zeta. unfold clear_event. shrink.
Qed.

Lemma socket_accept4_loop_consumes :
  consumes (
    r <- socket_wait_event FD_ACCEPT 0 ;;
    if negb (r =? 0) then ret (Leave r)
    else
      reply <- call Call_accept ;;
      match reply with
      | Reply_ok _ =>
          ev <- call Call_init_socket_event ;;
          match ev with
          | Reply_ok _ =>
              stored <- call Call_vfs_store_file ;;
              match stored with
              | Reply_ok r =>
                  (if r <? 0 then call Call_vfs_release ;;; ret tt
                   else ret tt) ;;;
                  ret (Leave r)
              | _ => starve
              end
          | Reply_error _ =>
              call Call_closesocket ;;; ret (Leave (- L_ENFILE))
          | _ => starve
          end
      | Reply_error _ =>
          err <- WSAGetLastError ;;
          if negb (err =? WSAEWOULDBLOCK)
          then ret (Leave (translate_socket_error err))
          else clear_event FD_ACCEPT ;;; ret Continue
      | _ => starve
      end).
Proof. apply polling_body_consumes. intros r. unfold clear_event. shrink. Qed.

(** ** How [socket_wait_event] ends *)

Lemma interrupted_app (c1 c2 : list exchange) :
  interrupted c2 -> interrupted (c1 ++ c2).
Proof.
  unfold interrupted. intros H. rewrite last_exchange_app, H. reflexivity.
Qed.

Lemma polled_last_app (c1 c2 : list exchange) :
  polled_last c2 -> polled_last (c1 ++ c2).
Proof.
  unfold polled_last. intros H. rewrite last_call_app, H. reflexivity.
Qed.

Lemma socket_wait_event_result (ev msg_flags : Z) (w : world) :
  wait_run w (socket_wait_event ev msg_flags w).
Proof.
  unfold socket_wait_event.
  set (body := (e <- socket_update_events_unsafe ev ;; _)).
  pattern w, (loop body w).
  apply loop_rule; clear w.
  - intros w. exists []. split; [apply extends_refl | discriminate].
  - intros w. subst body. unfold bind.
    pose proof (socket_update_events_unsafe_run ev w) as Hrun.
    destruct (socket_update_events_unsafe ev w) as [e w1|w1].
    2:{ destruct Hrun as [-> | (reply & Hext)].
        - exists []. split; [apply extends_refl | discriminate].
        - eexists. split; [exact Hext | discriminate]. }
    destruct Hrun as (reply & Hext & _).
    assert (Hpolled : forall v, v = 0 \/ v = - L_EWOULDBLOCK ->
                                wait_run w (Done v w1)).
    { intros v Hv. eexists. split; [exact Hext|].
      intros v0 w' Heq. injection Heq as <- <-. right.
      split; [exact Hv | reflexivity]. }
    destruct (bit_set e ev); cbn [ret get_file]; [auto|].
    destruct (nonblocking (file w1) msg_flags); cbn [ret]; [auto|].
    host_step.
    + eexists. split; [exact Hext | discriminate].
    + chain. destruct reply0; cbn [starve ret];
        try (eexists; split; [eassumption | discriminate]).
      destruct (Z.eqb_spec result WAIT_INTERRUPTED) as [->|Hne]; cbn [ret].
      * eexists. split; [eassumption|].
        intros v w' Heq. injection Heq as <- <-. left.
        split; reflexivity.
      * intros r (c2 & Hext2 & Hdone2).
        eexists. split; [eapply extends_trans; eassumption|].
        intros v w' Heq.
        destruct (Hdone2 v w' Heq) as [[Hv Hi] | [Hv Hp]].
        -- left. split; [exact Hv | apply interrupted_app; exact Hi].
        -- right. split; [exact Hv | apply polled_last_app; exact Hp].
Qed.

(** ** The futex core: requeue, wake order and unsuccessful waits *)

Lemma filter_on_app (c : Z) (l1 l2 : list futex_wait_block) :
  filter (on_addr c) (l1 ++ l2) = filter (on_addr c) l1 ++ filter (on_addr c) l2.
Proof. apply filter_app. Qed.

Lemma filter_on_requeued_same (b : Z) (l : list futex_wait_block) :
  filter (on_addr b) (map (requeued b) l) = map (requeued b) l.
Proof.
  induction l as [|x l IH]; [reflexivity|].
  cbn [map]. rewrite filter_on_cons. cbn [requeued addr].
  rewrite Z.eqb_refl, IH. reflexivity.
Qed.

Lemma filter_on_requeued_other (b c : Z) (l : list futex_wait_block) :
  c <> b -> filter (on_addr c) (map (requeued b) l) = [].
Proof.
  intros Hne. induction l as [|x l IH]; [reflexivity|].
  cbn [map]. rewrite filter_on_cons. cbn [requeued addr].
  destruct (Z.eqb_spec b c); [congruence | exact IH].
Qed.

Lemma filter_on_off (a c : Z) (l : list futex_wait_block) :
  c <> a -> filter (on_addr c) (filter (off_addr a) l) = filter (on_addr c) l.
Proof.
  intros Hne. induction l as [|x l IH]; [reflexivity|].
  rewrite filter_off_cons, !filter_on_cons.
  destruct (Z.eqb_spec (addr x) a) as [Ha|Ha].
  - destruct (Z.eqb_spec (addr x) c); [congruence | exact IH].
  - rewrite filter_on_cons. destruct (addr x =? c); [f_equal|]; exact IH.
Qed.

Lemma filter_on_off_same (a : Z) (l : list futex_wait_block) :
  filter (on_addr a) (filter (off_addr a) l) = [].
Proof.
  induction l as [|x l IH]; [reflexivity|].
  rewrite filter_off_cons.
  destruct (Z.eqb_spec (addr x) a) as [Ha|Ha]; [exact IH|].
  rewrite filter_on_cons.
  destruct (Z.eqb_spec (addr x) a); [contradiction | exact IH].
Qed.

Section Requeue.

Variables a count b : Z.
Hypothesis Hb : b <> NULL.
Hypothesis Hab : a <> b.

(** The loop of a requeue ([requeue_addr] is not [NULL]) over the rest
    of the list, started with [n] threads already woken: the first
    waiters are woken until [n] reaches [count], the later ones are
    pointed at [b], in place when the buckets coincide and moved
    otherwise. *)
Lemma requeue_loop_shape (same : bool) (rest : list futex_wait_block) :
  forall n,
    let w := wake_requeue_loop a count b same rest n in
    let k := Z.to_nat (num_woken w - n) in
    n <= num_woken w /\
    (n = count -> num_woken w = n) /\
    woken w = map thread (firstn k (filter (on_addr a) rest)) /\
    (if same then
       moved w = [] /\
       filter (on_addr a) (stay w) = [] /\
       Permutation (filter (on_addr b) (stay w))
         (filter (on_addr b) rest
          ++ map (requeued b) (skipn k (filter (on_addr a) rest))) /\
       (forall c, c <> a -> c <> b ->
                  filter (on_addr c) (stay w) = filter (on_addr c) rest)
     else
       stay w = filter (off_addr a) rest /\
       moved w = map (requeued b) (skipn k (filter (on_addr a) rest))).
Proof.
  assert (Hnull : (b =? NULL) = false) by (apply Z.eqb_neq; exact Hb).
  assert (Hba : (b =? a) = false) by (apply Z.eqb_neq; congruence).
  induction rest as [|cur next IH]; intros n; cbv zeta.
  - cbn [wake_requeue_loop]. rewrite Hnull. cbn [andb stay moved woken num_woken].
    rewrite Z.sub_diag. cbn.
    split; [lia|]. split; [reflexivity|]. split; [reflexivity|].
    destruct same; repeat split; auto.
  - cbn [wake_requeue_loop]. rewrite Hnull. cbn [andb negb].
    rewrite Bool.andb_true_r.
    rewrite !filter_on_cons, filter_off_cons.
    destruct (Z.eqb_spec (addr cur) a) as [Hcur|Hcur].
    + destruct (Z.eqb_spec n count) as [Heq|Hne].
      * (* the block is pointed at [b] *)
        specialize (IH n). cbv zeta in IH.
        destruct IH as (Hle & Hstop & Hw & Hrest).
        specialize (Hstop Heq).
        set (w := wake_requeue_loop a count b same next n) in *.
        destruct same; cbn [stay moved woken num_woken];
          rewrite Hstop in *; rewrite Z.sub_diag in *;
          cbn [Z.to_nat firstn skipn map] in *.
        -- destruct Hrest as (Hm & Hon & Hperm & Hoth).
           split; [lia|]. split; [reflexivity|]. split; [exact Hw|].
           split; [exact Hm|].
           rewrite !filter_on_cons. cbn [addr]. rewrite Hba, Z.eqb_refl.
           split; [exact Hon|].
           destruct (Z.eqb_spec (addr cur) b) as [Hcb|_]; [congruence|].
           split.
           ++ apply Permutation_cons_app. exact Hperm.
           ++ intros c Hca Hcb.
              rewrite !filter_on_cons. cbn [addr].
              destruct (Z.eqb_spec b c); [congruence|].
              destruct (Z.eqb_spec (addr cur) c); [congruence|].
              apply Hoth; assumption.
        -- destruct Hrest as (Hs & Hm).
           split; [lia|]. split; [reflexivity|]. split; [exact Hw|].
           split; [exact Hs|]. rewrite Hm. reflexivity.
      * (* the block is removed and its thread notified *)
        specialize (IH (n + 1)). cbv zeta in IH.
        destruct IH as (Hle & _ & Hw & Hrest).
        set (w := wake_requeue_loop a count b same next (n + 1)) in *.
        cbn [stay moved woken num_woken].
        replace (Z.to_nat (num_woken w - n))
          with (S (Z.to_nat (num_woken w - (n + 1)))) by lia.
        cbn [firstn skipn map].
        split; [lia|]. split; [intros; contradiction|].
        split; [f_equal; exact Hw|].
        destruct same.
        -- destruct Hrest as (Hm & Hon & Hperm & Hoth).
           split; [exact Hm|]. split; [exact Hon|].
           destruct (Z.eqb_spec (addr cur) b) as [Hcb|_]; [congruence|].
           split; [exact Hperm|].
           intros c Hca Hcb. rewrite filter_on_cons.
           destruct (Z.eqb_spec (addr cur) c); [congruence|].
           apply Hoth; assumption.
        -- exact Hrest.
    + (* a block on another address stays *)
      specialize (IH n). cbv zeta in IH.
      destruct IH as (Hle & Hstop & Hw & Hrest).
      set (w := wake_requeue_loop a count b same next n) in *.
      cbn [stay moved woken num_woken].
      split; [exact Hle|]. split; [exact Hstop|]. split; [exact Hw|].
      destruct same.
      * destruct Hrest as (Hm & Hon & Hperm & Hoth).
        split; [exact Hm|].
        rewrite !filter_on_cons.
        destruct (Z.eqb_spec (addr cur) a) as [|_]; [contradiction|].
        split; [exact Hon|].
        split.
        -- destruct (addr cur =? b); [apply perm_skip|]; exact Hperm.
        -- intros c Hca Hcb. rewrite !filter_on_cons.
           destruct (addr cur =? c); [f_equal|]; apply Hoth; assumption.
      * destruct Hrest as (Hs & Hm).
        split; [f_equal; exact Hs | exact Hm].
Qed.

Lemma requeue_loop_count (same : bool) (rest : list futex_wait_block) :
  forall n,
    n <= count ->
    num_woken (wake_requeue_loop a count b same rest n) =
    Z.min count (n + Z.of_nat (length (filter (on_addr a) rest))).
Proof.
  assert (Hnull : (b =? NULL) = false) by (apply Z.eqb_neq; exact Hb).
  induction rest as [|cur next IH]; intros n Hn.
  - cbn [wake_requeue_loop]. rewrite Hnull. cbn. lia.
  - cbn [wake_requeue_loop]. rewrite Hnull. cbn [andb negb].
    rewrite Bool.andb_true_r, filter_on_cons.
    destruct (addr cur =? a).
    + destruct (Z.eqb_spec n count) as [Heq|Hne];
        destruct same; cbn [num_woken length]; rewrite IH by lia; lia.
    + cbn [num_woken]. apply IH. exact Hn.
Qed.

End Requeue.

Lemma requeue_loop_all (a count b : Z) (same : bool)
    (rest : list futex_wait_block) :
  b <> NULL ->
  forall n,
    count < n ->
    num_woken (wake_requeue_loop a count b same rest n) =
    n + Z.of_nat (length (filter (on_addr a) rest)).
Proof.
  intros Hb.
  assert (Hnull : (b =? NULL) = false) by (apply Z.eqb_neq; exact Hb).
  induction rest as [|cur next IH]; intros n Hn.
  - cbn [wake_requeue_loop]. rewrite Hnull. cbn. lia.
  - cbn [wake_requeue_loop]. rewrite Hnull. cbn [andb negb].
    rewrite Bool.andb_true_r, filter_on_cons.
    destruct (addr cur =? a).
    + destruct (Z.eqb_spec n count) as [Heq|Hne]; [lia|].
      cbn [num_woken length]. rewrite IH by lia. lia.
    + cbn [num_woken]. apply IH. exact Hn.
Qed.

(** The wait list of a bucket after [futex_wake_requeue] with a
    destination, in terms of the walk over the source bucket. *)
Lemma requeue_wait_list (a n b : Z) (s : futex_state) (c : Z) :
  b <> NULL ->
  let w := wake_requeue_loop a n b (futex_hash a =? futex_hash b)
             (wait_list s (futex_hash a)) 0 in
  wait_list (snd (futex_requeue a n b None s)) c =
  if futex_hash a =? futex_hash b then
    if c =? futex_hash a then stay w else wait_list s c
  else
    if c =? futex_hash b then wait_list s c ++ moved w
    else if c =? futex_hash a then stay w
    else wait_list s c.
Proof.
  intros Hb. cbv zeta.
  unfold futex_requeue, futex_wake_requeue.
  destruct (Z.eqb_spec b NULL) as [|_]; [contradiction|].
  cbn [negb andb snd].
  destruct (Z.eqb_spec (futex_hash a) (futex_hash b)) as [Hsame|Hdiff];
    cbn [negb notify wait_list set_wait_list].
  - reflexivity.
  - destruct (Z.eqb_spec c (futex_hash b)) as [->|_]; [|reflexivity].
    destruct (Z.eqb_spec (futex_hash b) (futex_hash a)); [congruence|].
    reflexivity.
Qed.

(** What a requeue does, in terms of the waiters on the two
    addresses. *)
Lemma futex_requeue_shape (a n b : Z) (s : futex_state) :
  b <> NULL ->
  a <> b ->
  let r := futex_requeue a n b None s in
  let k := Z.to_nat (fst r) in
  (0 <= n -> fst r = Z.min n (Z.of_nat (length (waiters_on a s)))) /\
  (n < 0 -> fst r = Z.of_nat (length (waiters_on a s))) /\
  signalled (snd r) = signalled s ++ map thread (firstn k (waiters_on a s)) /\
  waiters_on a (snd r) = [] /\
  Permutation (waiters_on b (snd r))
    (waiters_on b s ++ map (requeued b) (skipn k (waiters_on a s))) /\
  (futex_hash a <> futex_hash b ->
   waiters_on b (snd r) =
   waiters_on b s ++ map (requeued b) (skipn k (waiters_on a s))) /\
  (forall c, c <> a -> c <> b -> waiters_on c (snd r) = waiters_on c s).
Proof.
  intros Hb Hab. cbv zeta.
  pose proof (fun c => requeue_wait_list a n b s c Hb) as Hlist.
  cbv zeta in Hlist.
  unfold waiters_on. setoid_rewrite Hlist. clear Hlist.
  assert (Hret : fst (futex_requeue a n b None s) =
                 num_woken (wake_requeue_loop a n b
                              (futex_hash a =? futex_hash b)
                              (wait_list s (futex_hash a)) 0)).
  { unfold futex_requeue, futex_wake_requeue. reflexivity. }
  assert (Hsig : signalled (snd (futex_requeue a n b None s)) =
                 signalled s ++
                 woken (wake_requeue_loop a n b
                          (futex_hash a =? futex_hash b)
                          (wait_list s (futex_hash a)) 0)).
  { unfold futex_requeue, futex_wake_requeue.
    cbn [snd notify signalled].
    destruct (negb (b =? NULL) && negb (futex_hash a =? futex_hash b));
      reflexivity. }
  rewrite Hret, Hsig. clear Hret Hsig.
  set (same := futex_hash a =? futex_hash b).
  set (l := wait_list s (futex_hash a)).
  pose proof (requeue_loop_shape a n b Hb Hab same l 0) as Hshape.
  pose proof (requeue_loop_count a n b Hb same l 0) as Hcount.
  pose proof (requeue_loop_all a n b same l Hb 0) as Hall.
  cbv zeta in Hshape. rewrite Z.sub_0_r in Hshape.
  destruct Hshape as (_ & _ & Hw & Hrest).
  set (w := wake_requeue_loop a n b same l 0) in *.
  split; [intros Hn; rewrite Hcount by exact Hn; lia|].
  split; [intros Hn; rewrite Hall by exact Hn; lia|].
  split; [rewrite Hw; reflexivity|].
  rewrite Z.eqb_refl.
  unfold same in *.
  destruct (Z.eqb_spec (futex_hash a) (futex_hash b)) as [Hsame|Hdiff].
  - destruct Hrest as (Hm & Hon & Hperm & Hoth).
    rewrite <- Hsame, Z.eqb_refl. fold l.
    split; [exact Hon|]. split; [exact Hperm|].
    split; [intros Hne; contradiction|].
    intros c Hca Hcb.
    destruct (Z.eqb_spec (futex_hash c) (futex_hash a)) as [->|_];
      [apply Hoth; assumption | reflexivity].
  - destruct Hrest as (Hs & Hm).
    destruct (Z.eqb_spec (futex_hash a) (futex_hash b)) as [|_];
      [contradiction|].
    rewrite Z.eqb_refl, Hs, Hm, filter_on_app, filter_on_requeued_same.
    split; [apply filter_on_off_same|].
    split; [apply Permutation_refl|].
    split; [reflexivity|].
    intros c Hca Hcb.
    destruct (Z.eqb_spec (futex_hash c) (futex_hash b)) as [->|_].
    + rewrite filter_on_app, filter_on_requeued_other by exact Hcb.
      apply app_nil_r.
    + destruct (Z.eqb_spec (futex_hash c) (futex_hash a)) as [->|_];
        [apply filter_on_off; exact Hca | reflexivity].
Qed.

(** X2.  [REQUEUE(a, n, b)] with a destination [b] other than [a]: for
    [n >= 0] it wakes [min(n, waiters on a)] threads, for a negative [n]
    all of them; the threads notified are those of the first blocks
    waiting on [a]; no block is left waiting on [a]; the blocks that were
    not woken wait on [b] afterwards, together with the blocks that
    waited on [b] before (behind them when the two addresses hash to
    different buckets); the waiters on every other address are as
    before. *)
Theorem futex_requeue_moves_rest (a n b : Z) (s : futex_state) :
  b <> NULL ->
  a <> b ->
  let r := futex_requeue a n b None s in
  let k := Z.to_nat (fst r) in
  (0 <= n -> fst r = Z.min n (Z.of_nat (length (waiters_on a s)))) /\
  (n < 0 -> fst r = Z.of_nat (length (waiters_on a s))) /\
  signalled (snd r) = signalled s ++ map thread (firstn k (waiters_on a s)) /\
  waiters_on a (snd r) = [] /\
  Permutation (waiters_on b (snd r))
    (waiters_on b s ++ map (requeued b) (skipn k (waiters_on a s))) /\
  (futex_hash a <> futex_hash b ->
   waiters_on b (snd r) =
   waiters_on b s ++ map (requeued b) (skipn k (waiters_on a s))) /\
  (forall c, c <> a -> c <> b -> waiters_on c (snd r) = waiters_on c s).
Proof.
  intros Hb Hab. cbv zeta.
  destruct (futex_requeue_shape a n b s Hb Hab)
    as (Hcount & Hall & Hsig & Hgone & Hperm & Hbehind & Hothers).
  split; [exact Hcount|]. split; [exact Hall|]. split; [exact Hsig|].
  split; [exact Hgone|]. split; [exact Hperm|].
  split; [exact Hbehind | exact Hothers].
Qed.

Lemma futex_requeue_moves_rest_witness :
  fst (futex_requeue 4096 1 4352 None example_waiters) = 1 /\
  signalled (snd (futex_requeue 4096 1 4352 None example_waiters)) = [1] /\
  waiters_on 4096 (snd (futex_requeue 4096 1 4352 None example_waiters)) = [] /\
  wait_list (snd (futex_requeue 4096 1 4352 None example_waiters)) 0 =
    [ {| thread := 2; addr := 4352 |}; {| thread := 3; addr := 4352 |} ].
Proof.
  assert (Hb : 4352 <> NULL) by (unfold NULL; lia).
  assert (Hab : 4096 <> 4352) by lia.
  pose proof (futex_requeue_moves_rest 4096 1 4352 example_waiters Hb Hab)
    as Hr.
  cbv zeta in Hr. destruct Hr as (Hret & _ & Hsig & Hon & _).
  split; [apply Hret; lia|]. split; [exact Hsig|].
  split; [exact Hon | reflexivity].
Defined.

(** What a plain wake does, in terms of the waiters on the address. *)
Lemma futex_wake_shape (a n : Z) (s : futex_state) :
  0 <= n ->
  let r := futex_wake a n s in
  let k := Z.to_nat (fst r) in
  fst r = Z.min n (Z.of_nat (length (waiters_on a s))) /\
  signalled (snd r) = signalled s ++ map thread (firstn k (waiters_on a s)) /\
  waiters_on a (snd r) = skipn k (waiters_on a s).
Proof.
  intros Hn. cbv zeta.
  unfold futex_wake, futex_wake_requeue, waiters_on.
  change (negb (NULL =? NULL)) with false. cbn [andb].
  set (same := futex_hash a =? futex_hash NULL).
  set (l := wait_list s (futex_hash a)).
  pose proof (wake_loop_shape a n same l 0) as Hshape.
  pose proof (wake_loop_count a n same l 0) as Hcount.
  cbv zeta in Hshape. rewrite Z.sub_0_r in Hshape.
  destruct Hshape as (_ & _ & Hw & Hon & _).
  set (w := wake_requeue_loop a n NULL same l 0) in *.
  cbn [fst snd notify signalled wait_list set_wait_list].
  rewrite Z.eqb_refl.
  split; [rewrite Hcount by lia; lia|].
  split; [rewrite Hw; reflexivity | exact Hon].
Qed.

(** A [WAIT] that finds the expected value parks the thread behind the
    earlier waiters of its bucket. *)
Lemma futex_wait_parks (t a val timeout : Z) (s : futex_state) :
  load s a = val ->
  let parked := futex_wait t a val timeout s in
  fst parked = Parked (futex_hash a) timeout /\
  signalled (snd parked) = signalled s /\
  (forall bucket,
      wait_list (snd parked) bucket =
      if bucket =? futex_hash a
      then wait_list s bucket ++ [block_of t a]
      else wait_list s bucket).
Proof.
  intros Hval. cbv zeta. unfold futex_wait, deref.
  rewrite Hval, Z.eqb_refl.
  cbn [negb fst snd signalled wait_list set_wait_list list_add].
  repeat split.
  intros bucket. destruct (Z.eqb_spec bucket (futex_hash a)) as [->|]; reflexivity.
Qed.

(** X3.  Waiters are woken first come, first served.  A thread that
    starts to wait on [a] queues behind the threads already waiting on
    [a]; a later [WAKE(a, n)] with [n >= 0] notifies it exactly when [n]
    exceeds their number, and then after all of them. *)
Theorem futex_wait_then_wake (t a val timeout n : Z) (s : futex_state) :
  load s a = val ->
  0 <= n ->
  let parked := futex_wait t a val timeout s in
  let r := futex_wake a n (snd parked) in
  let before := waiters_on a s in
  fst parked = Parked (futex_hash a) timeout /\
  waiters_on a (snd parked) = before ++ [block_of t a] /\
  (n <= Z.of_nat (length before) ->
   fst r = n /\
   signalled (snd r) =
     signalled s ++ map thread (firstn (Z.to_nat n) before) /\
   waiters_on a (snd r) = skipn (Z.to_nat n) before ++ [block_of t a]) /\
  (Z.of_nat (length before) < n ->
   fst r = Z.of_nat (length before) + 1 /\
   signalled (snd r) = signalled s ++ map thread before ++ [t] /\
   waiters_on a (snd r) = []).
Proof.
  intros Hval Hn. cbv zeta.
  destruct (futex_wait_parks t a val timeout s Hval) as (Hret & Hsig & Hlists).
  cbv zeta in Hret, Hsig, Hlists.
  set (s1 := snd (futex_wait t a val timeout s)) in *.
  assert (Hon : waiters_on a s1 = waiters_on a s ++ [block_of t a]).
  { unfold waiters_on. rewrite Hlists, Z.eqb_refl, filter_on_app.
    f_equal. rewrite filter_on_cons. cbn [block_of addr].
    rewrite Z.eqb_refl. reflexivity. }
  destruct (futex_wake_shape a n s1 Hn) as (Hcount & Hwoken & Hleft).
  cbv zeta in Hcount, Hwoken, Hleft.
  rewrite Hon, Hsig in *.
  rewrite length_app in Hcount. cbn [length] in Hcount.
  set (before := waiters_on a s) in *.
  split; [exact Hret|]. split; [reflexivity|].
  split; intros Hlen.
  - assert (Hk : fst (futex_wake a n s1) = n) by lia.
    rewrite Hk in *.
    assert (Hz : (Z.to_nat n - length before = 0)%nat) by lia.
    split; [reflexivity|].
    rewrite Hwoken, Hleft, firstn_app, skipn_app, Hz.
    cbn [firstn skipn]. rewrite app_nil_r. split; reflexivity.
  - assert (Hk : fst (futex_wake a n s1) = Z.of_nat (length before) + 1)
      by lia.
    rewrite Hk in *.
    replace (Z.to_nat (Z.of_nat (length before) + 1))
      with (length (before ++ [block_of t a])) in *
      by (rewrite length_app; cbn [length]; lia).
    rewrite firstn_all in Hwoken. rewrite skipn_all in Hleft.
    split; [reflexivity|].
    rewrite Hwoken, map_app. split; [reflexivity | exact Hleft].
Qed.

Lemma futex_wait_then_wake_witness :
  load example_waiters 4096 = 0 /\
  fst (futex_wait 4 4096 0 INFINITE example_waiters) = Parked 0 INFINITE /\
  signalled (snd (futex_wake 4096 3
                    (snd (futex_wait 4 4096 0 INFINITE example_waiters))))
    = [1; 3; 4].
Proof.
  assert (Hval : load example_waiters 4096 = 0) by reflexivity.
  split; [exact Hval|].
  assert (Hn : 0 <= 3) by lia.
  pose proof (futex_wait_then_wake 4 4096 0 INFINITE 3 example_waiters Hval Hn)
    as Hw.
  cbv zeta in Hw. destruct Hw as (Hret & _ & _ & Hall).
  split; [exact Hret|].
  apply Hall. vm_compute. reflexivity.
Defined.

Lemma list_remove_absent (l : list futex_wait_block) (t : Z) :
  ~ In t (map thread l) -> list_remove l t = l.
Proof.
  unfold list_remove. induction l as [|x l IH]; intros Hin; [reflexivity|].
  cbn [filter map In] in *.
  destruct (Z.eqb_spec (thread x) t) as [Heq|_]; [tauto|].
  cbn [negb]. f_equal. apply IH. tauto.
Qed.

Lemma list_remove_app (l1 l2 : list futex_wait_block) (t : Z) :
  list_remove (l1 ++ l2) t = list_remove l1 t ++ list_remove l2 t.
Proof. apply filter_app. Qed.

(** X4.  An unsuccessful wait leaves no trace.  A thread that parks on
    [a] and whose wait ends by a timeout or a signal, without having been
    woken meanwhile, returns [-ETIMEDOUT] or [-EINTR], and every wait
    list is as it was before the thread parked. *)
Theorem futex_wait_unsuccessful_restores
    (t a val timeout result recheck : Z) (s : futex_state) :
  load s a = val ->
  ~ In t (map thread (wait_list s (futex_hash a))) ->
  result <> WAIT_OBJECT_0 ->
  recheck <> WAIT_OBJECT_0 ->
  let parked := futex_wait t a val timeout s in
  let r := futex_wait_resume t (futex_hash a) result recheck (snd parked) in
  fst r = (if result =? WAIT_INTERRUPTED then - L_EINTR else - L_ETIMEDOUT) /\
  (forall bucket, wait_list (snd r) bucket = wait_list s bucket) /\
  signalled (snd r) = signalled s.
Proof.
  intros Hval Hfresh Hres Hre. cbv zeta.
  destruct (futex_wait_parks t a val timeout s Hval) as (_ & Hsig & Hlists).
  cbv zeta in Hsig, Hlists.
  set (s1 := snd (futex_wait t a val timeout s)) in *.
  unfold futex_wait_resume.
  destruct (Z.eqb_spec result WAIT_OBJECT_0) as [|_]; [contradiction|].
  destruct (Z.eqb_spec recheck WAIT_OBJECT_0) as [|_]; [contradiction|].
  cbn [negb].
  assert (Hback : forall bucket,
             wait_list (set_wait_list s1 (futex_hash a)
                          (list_remove (wait_list s1 (futex_hash a)) t))
               bucket = wait_list s bucket).
  { intros bucket. cbn [wait_list set_wait_list].
    rewrite !Hlists, Z.eqb_refl.
    destruct (Z.eqb_spec bucket (futex_hash a)) as [->|_]; [|reflexivity].
    rewrite list_remove_app, list_remove_absent by exact Hfresh.
    unfold list_remove. cbn [filter block_of thread].
    rewrite Z.eqb_refl. cbn [negb]. apply app_nil_r. }
  destruct (result =? WAIT_INTERRUPTED); cbn [fst snd];
    (split; [reflexivity|]); (split; [exact Hback | exact Hsig]).
Qed.

Lemma futex_wait_unsuccessful_restores_witness :
  fst (futex_wait_resume 4 (futex_hash 4096) WAIT_TIMEOUT WAIT_TIMEOUT
         (snd (futex_wait 4 4096 0 1000 example_waiters))) = - L_ETIMEDOUT /\
  wait_list (snd (futex_wait_resume 4 (futex_hash 4096) WAIT_TIMEOUT WAIT_TIMEOUT
                    (snd (futex_wait 4 4096 0 1000 example_waiters)))) 0
    = wait_list example_waiters 0.
Proof.
  assert (Hval : load example_waiters 4096 = 0) by reflexivity.
  assert (Hfresh : ~ In 4 (map thread
                             (wait_list example_waiters (futex_hash 4096)))).
  { vm_compute. intros [H|[H|[H|[]]]]; discriminate H. }
  assert (Hres : WAIT_TIMEOUT <> WAIT_OBJECT_0) by discriminate.
  pose proof (futex_wait_unsuccessful_restores 4 4096 0 1000
                WAIT_TIMEOUT WAIT_TIMEOUT example_waiters
                Hval Hfresh Hres Hres) as Hr.
  cbv zeta in Hr. destruct Hr as (Hret & Hlists & _).
  split; [exact Hret | apply Hlists].
Defined.

Lemma futex_flag_masked (op flag : Z) :
  Z.land flag FUTEX_CMD_MASK = 0 ->
  Z.land (Z.lor op flag) FUTEX_CMD_MASK = Z.land op FUTEX_CMD_MASK.
Proof.
  intros Hflag. rewrite Z.land_lor_distr_l, Hflag. apply Z.lor_0_r.
Qed.

(** X5.  Command decoding of [sys_futex].  The flag bits
    [FUTEX_PRIVATE_FLAG] and [FUTEX_CLOCK_REALTIME] of [op] make no
    difference whatsoever; and with a readable futex word, a command
    other than [WAIT], [WAKE], [REQUEUE] and [CMP_REQUEUE] returns
    [-ENOSYS] and leaves the futex state alone. *)
Theorem sys_futex_command
    (mm_check_read : Z -> Z -> bool)
    (current_thread uaddr op val timeout uaddr2 val3 : Z) (s : futex_state) :
  let go op := sys_futex mm_check_read current_thread
                 uaddr op val timeout uaddr2 val3 s in
  let cmd := Z.land op FUTEX_CMD_MASK in
  go (Z.lor op FUTEX_PRIVATE_FLAG) = go op /\
  go (Z.lor op FUTEX_CLOCK_REALTIME) = go op /\
  (mm_check_read uaddr sizeof_int = true ->
   cmd <> FUTEX_WAIT -> cmd <> FUTEX_WAKE ->
   cmd <> FUTEX_REQUEUE -> cmd <> FUTEX_CMP_REQUEUE ->
   go op = (Returns (- L_ENOSYS), s)).
Proof.
  cbv zeta. unfold sys_futex.
  rewrite !futex_flag_masked by reflexivity.
  split; [reflexivity|]. split; [reflexivity|].
  intros -> H0 H1 H3 H4. cbn [negb].
  destruct (Z.eqb_spec (Z.land op FUTEX_CMD_MASK) FUTEX_WAIT);
    [contradiction|].
  destruct (Z.eqb_spec (Z.land op FUTEX_CMD_MASK) FUTEX_WAKE);
    [contradiction|].
  destruct (Z.eqb_spec (Z.land op FUTEX_CMD_MASK) FUTEX_REQUEUE);
    [contradiction|].
  destruct (Z.eqb_spec (Z.land op FUTEX_CMD_MASK) FUTEX_CMP_REQUEUE);
    [contradiction|].
  reflexivity.
Qed.

Lemma sys_futex_command_witness :
  sys_futex only_4096 1 4096 (Z.lor FUTEX_WAKE FUTEX_PRIVATE_FLAG) 1
    NULL NULL 0 example_waiters
  = sys_futex only_4096 1 4096 FUTEX_WAKE 1 NULL NULL 0 example_waiters /\
  sys_futex only_4096 1 4096 9 1 NULL NULL 0 example_waiters
  = (Returns (- L_ENOSYS), example_waiters).
Proof.
  split.
  - destruct (sys_futex_command only_4096 1 4096 FUTEX_WAKE 1 NULL NULL 0
                example_waiters) as (Hprivate & _ & _).
    exact Hprivate.
  - destruct (sys_futex_command only_4096 1 4096 9 1 NULL NULL 0
                example_waiters) as (_ & _ & Hother).
    apply Hother; [reflexivity | | | |]; vm_compute; discriminate.
Defined.

Lemma map_thread_requeued (b : Z) (l : list futex_wait_block) :
  map thread (map (requeued b) l) = map thread l.
Proof. rewrite map_map. reflexivity. Qed.

(** X27.  Requeued waiters queue behind the destination's own.  When
    [a] and [b] hash to different buckets, after [REQUEUE(a, n, b)] a
    [WAKE(b, m)] with [m >= 0] notifies the threads that waited on [b]
    before, in their order, and only then the threads moved over from
    [a], in theirs: [min(m, ...)] of them in all. *)
Theorem futex_requeue_then_wake (a n b m : Z) (s : futex_state) :
  b <> NULL ->
  futex_hash a <> futex_hash b ->
  0 <= n ->
  0 <= m ->
  let requeue := futex_requeue a n b None s in
  let wake := futex_wake b m (snd requeue) in
  let woken_first := firstn (Z.to_nat n) (waiters_on a s) in
  let queue :=
    map thread (waiters_on b s)
    ++ map thread (skipn (Z.to_nat n) (waiters_on a s)) in
  fst wake = Z.min m (Z.of_nat (length queue)) /\
  signalled (snd wake)
  = signalled s ++ map thread woken_first ++ firstn (Z.to_nat m) queue.
Proof.
  intros Hb Hhash Hn Hm. cbv zeta.
  assert (Hab : a <> b) by (intros ->; apply Hhash; reflexivity).
  destruct (futex_requeue_shape a n b s Hb Hab)
    as (Hcount & _ & Hsig & _ & _ & Hon & _).
  specialize (Hcount Hn). specialize (Hon Hhash).
  set (s1 := snd (futex_requeue a n b None s)) in *.
  set (wa := waiters_on a s) in *. set (wb := waiters_on b s) in *.
  assert (Hk : firstn (Z.to_nat (fst (futex_requeue a n b None s))) wa
               = firstn (Z.to_nat n) wa /\
               skipn (Z.to_nat (fst (futex_requeue a n b None s))) wa
               = skipn (Z.to_nat n) wa).
  { rewrite Hcount.
    destruct (Z.le_gt_cases n (Z.of_nat (length wa))) as [Hle|Hgt].
    - rewrite Z.min_l by exact Hle. split; reflexivity.
    - rewrite Z.min_r by lia. rewrite Nat2Z.id.
      rewrite firstn_all, skipn_all.
      rewrite firstn_all2, skipn_all2 by lia. split; reflexivity. }
  destruct Hk as [Hfirst Hskip]. rewrite Hfirst in Hsig. rewrite Hskip in Hon.
  destruct (futex_wake_shape b m s1 Hm) as (Hwoken & Hsig2 & _).
  cbv zeta in Hwoken, Hsig2.
  assert (Hqueue : map thread (waiters_on b s1)
                   = map thread wb ++ map thread (skipn (Z.to_nat n) wa)).
  { rewrite Hon, map_app, map_thread_requeued. reflexivity. }
  assert (Hlen : length (waiters_on b s1)
                 = length (map thread wb
                           ++ map thread (skipn (Z.to_nat n) wa))).
  { rewrite <- Hqueue, length_map. reflexivity. }
  split.
  - rewrite Hwoken, Hlen. reflexivity.
  - rewrite Hsig2, Hsig, <- app_assoc. do 2 f_equal.
    rewrite <- firstn_map, Hqueue.
    rewrite Hwoken, Hlen.
    set (queue := map thread wb ++ map thread (skipn (Z.to_nat n) wa)).
    destruct (Z.le_gt_cases m (Z.of_nat (length queue))) as [Hle|Hgt].
    + rewrite Z.min_l by exact Hle. reflexivity.
    + rewrite Z.min_r by lia. rewrite Nat2Z.id.
      rewrite firstn_all, firstn_all2 by lia. reflexivity.
Qed.

Lemma futex_requeue_then_wake_witness :
  signalled (snd (futex_wake 4097 2
                    (snd (futex_requeue 4096 1 4097 None example_waiters))))
  = [1; 3].
Proof.
  assert (Hb : 4097 <> NULL) by (unfold NULL; lia).
  assert (Hhash : futex_hash 4096 <> futex_hash 4097)
    by (vm_compute; discriminate).
  destruct (futex_requeue_then_wake 4096 1 4097 2 example_waiters Hb Hhash
              ltac:(lia) ltac:(lia)) as (_ & Hsig).
  exact Hsig.
Defined.

Lemma firstn_then_more {A : Type} (l : list A) (i j : nat) :
  firstn i l ++ firstn j (skipn i l) = firstn (i + j) l.
Proof.
  revert l. induction i as [|i IH]; intros l; [reflexivity|].
  destruct l as [|x l]; [cbn; rewrite firstn_nil; reflexivity|].
  cbn [firstn skipn Nat.add app]. f_equal. apply IH.
Qed.

(** X28.  Wakes add up.  A [WAKE(a, n)] followed by a [WAKE(a, m)],
    with [n, m >= 0], wakes the same threads in the same order as a
    single [WAKE(a, n + m)], leaves the same waiters on [a], and the two
    counts add up to the count of the single call. *)
Theorem futex_wake_additive (a n m : Z) (s : futex_state) :
  0 <= n ->
  0 <= m ->
  let first := futex_wake a n s in
  let second := futex_wake a m (snd first) in
  let both := futex_wake a (n + m) s in
  fst first + fst second = fst both /\
  signalled (snd second) = signalled (snd both) /\
  waiters_on a (snd second) = waiters_on a (snd both).
Proof.
  intros Hn Hm. cbv zeta.
  destruct (futex_wake_shape a n s Hn) as (Hc1 & Hs1 & Hw1).
  destruct (futex_wake_shape a m (snd (futex_wake a n s)) Hm)
    as (Hc2 & Hs2 & Hw2).
  destruct (futex_wake_shape a (n + m) s ltac:(lia)) as (Hc3 & Hs3 & Hw3).
  cbv zeta in *.
  set (l := waiters_on a s) in *.
  set (k1 := fst (futex_wake a n s)) in *.
  set (k2 := fst (futex_wake a m (snd (futex_wake a n s)))) in *.
  set (k3 := fst (futex_wake a (n + m) s)) in *.
  rewrite Hw1, length_skipn in Hc2.
  assert (Hsum : k1 + k2 = k3) by lia.
  assert (Hnat : Z.to_nat k3 = (Z.to_nat k1 + Z.to_nat k2)%nat) by lia.
  split; [exact Hsum|].
  split.
  - rewrite Hs2, Hs1, Hs3, Hw1, Hnat, <- app_assoc, <- map_app.
    rewrite firstn_then_more. reflexivity.
  - rewrite Hw2, Hw1, Hw3, Hnat, skipn_skipn. f_equal. lia.
Qed.

Lemma futex_wake_additive_witness :
  fst (futex_wake 4096 1 example_waiters)
  + fst (futex_wake 4096 5 (snd (futex_wake 4096 1 example_waiters)))
  = fst (futex_wake 4096 6 example_waiters).
Proof.
  destruct (futex_wake_additive 4096 1 5 example_waiters
              ltac:(lia) ltac:(lia)) as (Hsum & _).
  exact Hsum.
Defined.

(** ** The timeout of a futex wait *)



(** ** Error and address translation: what a caller can rely on *)

(** X6.  [translate_socket_error] never turns a host error into a
    success or into a positive number, which a caller would mistake for
    a byte count or a descriptor: the result is a negated errno between
    [-ECANCELED] and [-EPERM], and it is 0 for the host's 0 only. *)
Theorem translate_socket_error_negative (error : Z) :
  - L_ECANCELED <= translate_socket_error error <= 0 /\
  (translate_socket_error error = 0 <-> error = 0).
Proof.
  unfold translate_socket_error.
  repeat match goal with
         | |- context [error =? ?c] =>
             destruct (Z.eqb_spec error c) as [->|?]
         end;
    (split; [vm_compute; split; discriminate|]);
    (split; [try reflexivity; vm_compute; discriminate
            | try reflexivity; intros; try discriminate; contradiction]).
Qed.

Lemma size_t_of_int_nonneg (x : Z) :
  0 <= x <= int_max -> size_t_of_int x = x.
Proof.
  unfold size_t_of_int, int_max. intros Hx. apply Z.mod_small. lia.
Qed.

Lemma length_memcpy (dst src : list byte) (n : Z) :
  (Z.to_nat n <= length src)%nat -> (Z.to_nat n <= length dst)%nat ->
  length (memcpy dst src n) = length dst.
Proof.
  intros Hsrc Hdst. unfold memcpy.
  rewrite length_app, length_firstn, length_skipn. lia.
Qed.

Lemma skipn_memcpy (dst src : list byte) (n : Z) :
  (Z.to_nat n <= length src)%nat ->
  skipn (Z.to_nat n) (memcpy dst src n) = skipn (Z.to_nat n) dst.
Proof.
  intros Hsrc. unfold memcpy.
  rewrite skipn_app, length_firstn.
  replace (Z.to_nat n - Nat.min (Z.to_nat n) (length src))%nat with 0%nat
    by lia.
  rewrite skipn_all2 by (rewrite length_firstn; lia).
  reflexivity.
Qed.

Lemma firstn_memcpy (dst src : list byte) (n : Z) :
  (Z.to_nat n <= length src)%nat ->
  firstn (Z.to_nat n) (memcpy dst src n) = firstn (Z.to_nat n) src.
Proof.
  intros Hsrc. unfold memcpy.
  rewrite firstn_app, length_firstn.
  replace (Z.to_nat n - Nat.min (Z.to_nat n) (length src))%nat with 0%nat
    by lia.
  rewrite firstn_O, app_nil_r.
  apply firstn_all2. rewrite length_firstn. lia.
Qed.

Lemma length_memset0 (dst : list byte) (n : Z) :
  (Z.to_nat n <= length dst)%nat -> length (memset0 dst n) = length dst.
Proof.
  intros Hdst. unfold memset0.
  rewrite length_app, repeat_length, length_skipn. lia.
Qed.

Lemma skipn_memset0 (dst : list byte) (n : Z) :
  skipn (Z.to_nat n) (memset0 dst n) = skipn (Z.to_nat n) dst.
Proof.
  unfold memset0.
  rewrite skipn_app, repeat_length, Nat.sub_diag.
  rewrite skipn_all2 by (rewrite repeat_length; lia).
  reflexivity.
Qed.

Lemma length_set_ss_family (a : sockaddr) (af : Z) :
  (2 <= length a)%nat -> length (set_ss_family a af) = length a.
Proof.
  intros Hlen. unfold set_ss_family. cbn [length].
  rewrite length_skipn. lia.
Qed.

Lemma skipn_set_ss_family_from (a : sockaddr) (af : Z) (n : nat) :
  (2 <= n)%nat -> skipn n (set_ss_family a af) = skipn n a.
Proof.
  intros Hn. destruct n as [|[|m]]; try lia.
  unfold set_ss_family. change (skipn (S (S m)) (?x :: ?y :: ?l)) with (skipn m l).
  rewrite skipn_skipn. f_equal. lia.
Qed.

(** X7.  Which guest addresses the translator accepts, for a length
    [addrlen >= 0].  The call returns [addrlen] or [SOCKET_ERROR]; it
    accepts exactly the lengths of at least 2 bytes with family UNSPEC,
    of at least 16 with family INET and of at least 28 with family INET6
    -- there is no upper limit; a rejected address leaves the host buffer
    untouched; an accepted one that fits the host buffer rewrites its
    first [addrlen] bytes only, and for INET they are the guest's. *)
Theorem translate_socket_addr_to_winsock_accepts
    (from to : sockaddr) (addrlen : Z) :
  0 <= addrlen <= int_max ->
  let r := translate_socket_addr_to_winsock from to addrlen in
  let n := Z.to_nat addrlen in
  (fst r = addrlen \/ fst r = SOCKET_ERROR) /\
  (fst r = addrlen <->
   (ss_family from = LINUX_AF_UNSPEC /\ sizeof_ss_family <= addrlen) \/
   (ss_family from = LINUX_AF_INET /\ sizeof_sockaddr_in <= addrlen) \/
   (ss_family from = LINUX_AF_INET6 /\ sizeof_sockaddr_in6 <= addrlen)) /\
  (fst r = SOCKET_ERROR -> snd r = to) /\
  (fst r = addrlen -> (n <= length to)%nat -> (n <= length from)%nat ->
   length (snd r) = length to /\ skipn n (snd r) = skipn n to) /\
  (fst r = addrlen -> ss_family from = LINUX_AF_INET ->
   (n <= length from)%nat -> firstn n (snd r) = firstn n from).
Proof.
  intros Hlen. cbv zeta.
  unfold translate_socket_addr_to_winsock.
  rewrite (size_t_of_int_nonneg addrlen Hlen).
  unfold sizeof_ss_family, sizeof_sockaddr_in, sizeof_sockaddr_in6,
    SOCKET_ERROR, LINUX_AF_UNSPEC, LINUX_AF_INET, LINUX_AF_INET6.
  destruct (Z.ltb_spec addrlen 2) as [Hshort|Hlong]; cbn [fst snd].
  { split; [right; reflexivity|].
    split; [split; [lia | intros [[_ H]|[[_ H]|[_ H]]]; lia]|].
    split; [reflexivity|].
    split; intros; lia. }
  destruct (Z.eqb_spec (ss_family from) 0) as [H0|H0]; cbn [fst snd].
  { split; [left; reflexivity|].
    split; [split; [intros _; left; split; [exact H0 | lia] | reflexivity]|].
    split; [intros; lia|].
    split.
    - intros _ Hto _.
      split; [apply length_memset0; exact Hto | apply skipn_memset0].
    - intros _ H2. rewrite H0 in H2. discriminate H2. }
  destruct (Z.eqb_spec (ss_family from) 2) as [H2|H2].
  { destruct (Z.ltb_spec addrlen 16) as [Hs|Hl]; cbn [fst snd].
    - split; [right; reflexivity|].
      split; [split; [lia | intros [[H _]|[[_ H]|[H _]]];
                              [congruence|lia|congruence]]|].
      split; [reflexivity|]. split; intros; lia.
    - split; [left; reflexivity|].
      split; [split; [intros _; right; left; split; [exact H2 | lia]
                     | reflexivity]|].
      split; [intros; lia|].
      split.
      + intros _ Hto Hfrom.
        split; [apply length_memcpy; assumption
               | apply skipn_memcpy; exact Hfrom].
      + intros _ _ Hfrom. apply firstn_memcpy. exact Hfrom. }
  destruct (Z.eqb_spec (ss_family from) 10) as [H10|H10].
  { destruct (Z.ltb_spec addrlen 28) as [Hs|Hl]; cbn [fst snd].
    - split; [right; reflexivity|].
      split; [split; [lia | intros [[H _]|[[H _]|[_ H]]];
                              [congruence|congruence|lia]]|].
      split; [reflexivity|]. split; intros; lia.
    - split; [left; reflexivity|].
      split; [split; [intros _; right; right; split; [exact H10 | lia]
                     | reflexivity]|].
      split; [intros; lia|].
      split.
      + intros _ Hto Hfrom.
        rewrite length_set_ss_family, skipn_set_ss_family_from
          by (try rewrite length_memcpy by assumption; lia).
        split; [apply length_memcpy; assumption
               | apply skipn_memcpy; exact Hfrom].
      + intros _ H. rewrite H10 in H. discriminate H. }
  cbn [fst snd].
  split; [right; reflexivity|].
  split; [split; [lia | intros [[H _]|[[H _]|[H _]]]; contradiction]|].
  split; [reflexivity|]. split; intros; lia.
Qed.

Lemma translate_socket_addr_to_winsock_accepts_witness :
  fst (translate_socket_addr_to_winsock example_in6 example_storage 28) = 28 /\
  skipn 28 (snd (translate_socket_addr_to_winsock example_in6 example_storage 28))
    = skipn 28 example_storage /\
  fst (translate_socket_addr_to_winsock example_in6 example_storage 27)
    = SOCKET_ERROR.
Proof.
  assert (H28 : 0 <= 28 <= int_max) by (unfold int_max; lia).
  pose proof (translate_socket_addr_to_winsock_accepts
                example_in6 example_storage 28 H28) as Hr.
  cbv zeta in Hr. destruct Hr as (_ & Hacc & _ & Hfit & _).
  assert (Hret : fst (translate_socket_addr_to_winsock
                        example_in6 example_storage 28) = 28).
  { apply Hacc. right. right. split; [reflexivity | unfold sizeof_sockaddr_in6; lia]. }
  split; [exact Hret|].
  split; [apply Hfit; [exact Hret | vm_compute; lia | vm_compute; lia]|].
  reflexivity.
Defined.

(** ** Readiness events *)

Lemma land_pow2 (x k : Z) :
  0 <= k -> Z.land x (2 ^ k) = if Z.testbit x k then 2 ^ k else 0.
Proof.
  intros Hk. apply Z.bits_inj'. intros n Hn.
  rewrite Z.land_spec, Z.pow2_bits_eqb by exact Hk.
  destruct (Z.eqb_spec k n) as [->|Hne].
  - destruct (Z.testbit x n) eqn:Hx.
    + rewrite Z.pow2_bits_eqb, Z.eqb_refl by exact Hn. reflexivity.
    + rewrite Z.bits_0. reflexivity.
  - rewrite Bool.andb_false_r.
    destruct (Z.testbit x k).
    + rewrite Z.pow2_bits_eqb by exact Hk.
      symmetry. apply Z.eqb_neq. exact Hne.
    + rewrite Z.bits_0. reflexivity.
Qed.

Lemma land_bit (x k : Z) :
  0 <= k -> Z.land x (2 ^ k) = if bit_set x (2 ^ k) then 2 ^ k else 0.
Proof.
  intros Hk. unfold bit_set. rewrite (land_pow2 x k Hk).
  assert (0 < 2 ^ k) by (apply Z.pow_pos_nonneg; lia).
  destruct (Z.testbit x k).
  - destruct (Z.eqb_spec (2 ^ k) 0); [lia | reflexivity].
  - reflexivity.
Qed.

(** The bits copied are the tracked bits of the host's record. *)
Lemma drained_tracked (ev : Z) : drained ev = Z.land ev tracked_events.
Proof.
  unfold tracked_events. rewrite !Z.land_lor_distr_r.
  change FD_READ with (2 ^ 0). change FD_WRITE with (2 ^ 1).
  change FD_ACCEPT with (2 ^ 3). change FD_CONNECT with (2 ^ 4).
  change FD_CLOSE with (2 ^ 5).
  rewrite !land_bit by lia.
  unfold drained.
  change FD_READ with (2 ^ 0). change FD_WRITE with (2 ^ 1).
  change FD_ACCEPT with (2 ^ 3). change FD_CONNECT with (2 ^ 4).
  change FD_CLOSE with (2 ^ 5).
  destruct (bit_set ev (2 ^ 0)), (bit_set ev (2 ^ 1)), (bit_set ev (2 ^ 3)),
    (bit_set ev (2 ^ 4)), (bit_set ev (2 ^ 5)); reflexivity.
Qed.

(** One poll, answered. *)
Lemma socket_update_events_unsafe_script
    (report ev err : Z) (w : world) (rest : list host_reply) :
  host w = Reply_events ev err :: rest ->
  socket_update_events_unsafe report w =
  Done (Z.lor (events (file w)) (Z.land ev tracked_events))
       (polled report ev err w).
Proof.
  intros Hhost. unfold polled. rewrite <- drained_tracked. unfold drained.
  unfold socket_update_events_unsafe, bind, call. rewrite Hhost.
  unfold get_file. cbv beta iota zeta.
  destruct (bit_set ev FD_CONNECT);
    cbn [file set_connect_error set_events events put_file connect_error
         flags af type last_error WSARecvMsg_loaded host trace tl];
    match goal with
    | |- context [bit_set (Z.land report ?seen) FD_CONNECT] =>
        destruct (bit_set (Z.land report seen) FD_CONNECT)
    end;
    reflexivity.
Qed.

Lemma call_script (c : host_call) (w : world) (r : host_reply)
    (rest : list host_reply) :
  host w = r :: rest -> call c w = Done r (answered c r w).
Proof. intros Hhost. unfold call, answered. rewrite Hhost. reflexivity. Qed.

Lemma bit_set_lor (a b m : Z) :
  bit_set (Z.lor a b) m = bit_set a m || bit_set b m.
Proof.
  unfold bit_set. rewrite Z.land_lor_distr_l.
  destruct (Z.eqb_spec (Z.land a m) 0) as [Ha|Ha];
    destruct (Z.eqb_spec (Z.land b m) 0) as [Hb|Hb]; cbn [negb orb];
    destruct (Z.eqb_spec (Z.lor (Z.land a m) (Z.land b m)) 0) as [H|H];
    try reflexivity.
  - rewrite Ha, Hb in H. contradiction.
  - apply Z.lor_eq_0_iff in H. tauto.
  - apply Z.lor_eq_0_iff in H. tauto.
  - apply Z.lor_eq_0_iff in H. tauto.
Qed.

Lemma bit_set_tracked (ev m : Z) :
  Z.land m tracked_events = m ->
  bit_set (Z.land ev tracked_events) m = bit_set ev m.
Proof.
  intros Hm. unfold bit_set.
  rewrite <- Z.land_assoc, (Z.land_comm tracked_events), Hm. reflexivity.
Qed.

Lemma bit_set_within (x m c : Z) :
  bit_set x m = false -> bit_set (Z.land m x) c = false.
Proof.
  unfold bit_set. intros H. apply negb_false_iff, Z.eqb_eq in H.
  rewrite (Z.land_comm m), H, Z.land_0_l. reflexivity.
Qed.

(** What a poll makes of the shared record when it finds none of the
    events waited for. *)
Lemma polled_idle (event ev err : Z) (w : world) :
  Z.land event tracked_events = event ->
  bit_set (events (file w)) event = false ->
  bit_set ev event = false ->
  let seen := Z.lor (events (file w)) (Z.land ev tracked_events) in
  bit_set seen event = false /\
  events (file (polled event ev err w)) = seen /\
  last_error (polled event ev err w) = last_error w.
Proof.
  intros Hsub Hold Hnew. cbv zeta.
  assert (Hseen : bit_set (Z.lor (events (file w)) (Z.land ev tracked_events))
                    event = false).
  { rewrite bit_set_lor, bit_set_tracked, Hold, Hnew by exact Hsub.
    reflexivity. }
  split; [exact Hseen|].
  unfold polled. cbn [file events last_error].
  rewrite (bit_set_within _ event FD_CONNECT Hseen). split; reflexivity.
Qed.

Lemma nonblocking_polled (report ev err msg_flags : Z) (w : world) :
  nonblocking (file (polled report ev err w)) msg_flags
  = nonblocking (file w) msg_flags.
Proof. reflexivity. Qed.

(** [socket_wait_event] on a blocking socket: after rounds that find
    nothing, the poll that reports one of the events ends the wait with
    0. *)
Lemma socket_wait_event_script (event msg_flags : Z) (rounds : list round)
    (ev err : Z) (rest : list host_reply) :
  Z.land event tracked_events = event ->
  Forall (waits_on event) rounds ->
  bit_set ev event = true ->
  forall w,
    nonblocking (file w) msg_flags = false ->
    bit_set (events (file w)) event = false ->
    host w = flat_map round_replies rounds ++ Reply_events ev err :: rest ->
    exists w1,
      socket_wait_event event msg_flags w = Done 0 (polled event ev err w1) /\
      host w1 = Reply_events ev err :: rest /\
      trace w1 = trace w ++ flat_map round_exchanges rounds /\
      flags (file w1) = flags (file w) /\
      af (file w1) = af (file w) /\
      type (file w1) = type (file w) /\
      WSARecvMsg_loaded w1 = WSARecvMsg_loaded w /\
      bit_set (events (file w1)) event = false.
Proof.
  intros Hsub Hrounds Hev.
  induction Hrounds as [|[[ev0 err0] result] rounds [Hidle Hres] _ IH];
    intros w Hblock Hold Hhost; cbn [flat_map round_replies app] in Hhost.
  - exists w. unfold socket_wait_event.
    rewrite loop_unfold by apply socket_wait_event_body_consumes.
    unfold bind at 1.
    rewrite (socket_update_events_unsafe_script event ev err w rest Hhost).
    rewrite bit_set_lor, bit_set_tracked, Hev, Bool.orb_true_r by exact Hsub.
    cbn [ret flat_map]. rewrite app_nil_r. repeat split; assumption.
  - cbn [app] in Hhost.
    destruct (polled_idle event ev0 err0 w Hsub Hold Hidle)
      as (Hseen & Hevents & _).
    set (w1 := polled event ev0 err0 w) in *.
    set (w2 := answered Call_signal_wait (Reply_wait result) w1).
    destruct (IH w2) as (w3 & Hrun & Hhost3 & Htrace3 & Hf & Ha & Ht & Hl & Hb).
    { exact Hblock. }
    { cbn [w2 answered file]. rewrite Hevents. exact Hseen. }
    { cbn [w2 answered host w1 polled]. rewrite Hhost. reflexivity. }
    exists w3. unfold socket_wait_event in *.
    rewrite loop_unfold by apply socket_wait_event_body_consumes.
    unfold bind at 1.
    rewrite (socket_update_events_unsafe_script event ev0 err0 w _ Hhost).
    fold w1. rewrite Hseen. unfold bind at 1, get_file at 1.
    assert (Hblock1 : nonblocking (file w1) msg_flags = false) by exact Hblock.
    rewrite Hblock1.
    unfold bind at 1.
    rewrite (call_script Call_signal_wait w1 (Reply_wait result)
               (flat_map round_replies rounds ++ Reply_events ev err :: rest))
      by (cbn [w1 polled host]; rewrite Hhost; reflexivity).
    fold w2.
    destruct (Z.eqb_spec result WAIT_INTERRUPTED) as [|_]; [contradiction|].
    cbn [ret]. rewrite Hrun.
    split; [reflexivity|]. split; [exact Hhost3|].
    split.
    { rewrite Htrace3. cbn [w2 answered trace w1 polled flat_map round_exchanges].
      rewrite <- !app_assoc. reflexivity. }
    repeat split; assumption.
Qed.

Lemma bit_set_cleared (x b : Z) : bit_set (Z.land x (Z.lnot b)) b = false.
Proof.
  unfold bit_set.
  rewrite <- Z.land_assoc, (Z.land_comm (Z.lnot b)), Z.land_lnot_diag,
    Z.land_0_r.
  reflexivity.
Qed.

Lemma bit_set_part (x a b : Z) :
  bit_set x (Z.lor a b) = false -> bit_set x a = false /\ bit_set x b = false.
Proof.
  unfold bit_set. intros H. apply negb_false_iff, Z.eqb_eq in H.
  rewrite Z.land_lor_distr_r in H. apply Z.lor_eq_0_iff in H.
  destruct H as [-> ->]. split; reflexivity.
Qed.

(** A poll that finds one of the events waited for, or finds it already
    recorded, ends [socket_wait_event] at once. *)
Lemma socket_wait_event_ready (event msg_flags ev err : Z) (w : world)
    (rest : list host_reply) :
  Z.land event tracked_events = event ->
  bit_set (Z.lor (events (file w)) ev) event = true ->
  host w = Reply_events ev err :: rest ->
  socket_wait_event event msg_flags w = Done 0 (polled event ev err w).
Proof.
  intros Hsub Hbit Hhost. unfold socket_wait_event.
  rewrite loop_unfold by apply socket_wait_event_body_consumes.
  unfold bind at 1.
  rewrite (socket_update_events_unsafe_script event ev err w rest Hhost).
  rewrite bit_set_lor in Hbit.
  rewrite bit_set_lor, bit_set_tracked, Hbit by exact Hsub.
  reflexivity.
Qed.

(** X8.  Readiness accumulates.  A poll reports the events recorded
    before together with the tracked events the host reports now, and
    records them all; only a connect event whose error the caller asked
    for is consumed: its error code becomes the thread's last error, the
    stored code is reset and the event is forgotten.  The flags, the
    family and the type of the socket are never touched. *)
Theorem socket_update_events_accumulates
    (report ev err : Z) (w : world) (rest : list host_reply) :
  host w = Reply_events ev err :: rest ->
  let seen := Z.lor (events (file w)) (Z.land ev tracked_events) in
  let pending :=
    if bit_set ev FD_CONNECT then err else connect_error (file w) in
  exists w',
    socket_update_events_unsafe report w = Done seen w' /\
    host w' = rest /\
    flags (file w') = flags (file w) /\
    af (file w') = af (file w) /\
    type (file w') = type (file w) /\
    if bit_set (Z.land report seen) FD_CONNECT
    then events (file w') = Z.land seen (Z.lnot FD_CONNECT) /\
         connect_error (file w') = 0 /\
         last_error w' = pending
    else events (file w') = seen /\
         connect_error (file w') = pending /\
         last_error w' = last_error w.
Proof.
  intros Hhost. cbv zeta. exists (polled report ev err w).
  split; [apply (socket_update_events_unsafe_script _ _ _ _ rest Hhost)|].
  unfold polled. cbn [host file flags af type events connect_error last_error].
  rewrite Hhost. cbn [tl].
  repeat (split; [reflexivity|]).
  destruct (bit_set (Z.land report _) FD_CONNECT); repeat split.
Qed.

Lemma socket_update_events_accumulates_witness :
  let w := example_world
             {| flags := 0; af := LINUX_AF_INET; type := LINUX_SOCK_STREAM;
                events := FD_WRITE; connect_error := 0 |}
             [Reply_events (Z.lor FD_CONNECT 4) WSAECONNREFUSED] in
  exists w',
    socket_update_events_unsafe FD_CONNECT w
      = Done (Z.lor FD_WRITE FD_CONNECT) w' /\
    events (file w') = FD_WRITE /\
    last_error w' = WSAECONNREFUSED.
Proof.
  cbv zeta.
  destruct (socket_update_events_accumulates FD_CONNECT
              (Z.lor FD_CONNECT 4) WSAECONNREFUSED
              (example_world
                 {| flags := 0; af := LINUX_AF_INET; type := LINUX_SOCK_STREAM;
                    events := FD_WRITE; connect_error := 0 |}
                 [Reply_events (Z.lor FD_CONNECT 4) WSAECONNREFUSED])
              [] eq_refl) as (w' & Hrun & _ & _ & _ & _ & Hev & _ & Herr).
  exists w'. split; [exact Hrun|]. split; [exact Hev | exact Herr].
Defined.

(** X9.  A blocking [connect] on an INET or INET6 socket, to an address
    that the translator accepts and that fits the [addr_storage] it is
    copied to, which the host answers with "would block", waits for the
    connect event, through any number of polls that do not report it,
    and returns the translation of the error code that comes with the
    event: 0 when the connection was made.  The event and its error code
    are consumed. *)
Theorem socket_connect_blocking_completes
    (addr : sockaddr) (addrlen : Z) (storage : sockaddr)
    (rounds : list round) (ev err : Z) (rest : list host_reply) (w : world) :
  af (file w) <> LINUX_AF_UNIX ->
  0 <= int_of_DWORD addrlen <= sizeof_sockaddr_storage ->
  fst (translate_socket_addr_to_winsock addr storage (int_of_DWORD addrlen))
    <> SOCKET_ERROR ->
  nonblocking (file w) 0 = false ->
  bit_set (events (file w)) FD_CONNECT = false ->
  Forall (waits_on FD_CONNECT) rounds ->
  bit_set ev FD_CONNECT = true ->
  host w = Reply_error WSAEWOULDBLOCK ::
           flat_map round_replies rounds ++ Reply_events ev err :: rest ->
  exists w',
    socket_connect addr addrlen storage w
      = Done (translate_socket_error err) w' /\
    host w' = rest /\
    bit_set (events (file w')) FD_CONNECT = false /\
    connect_error (file w') = 0.
Proof.
  intros Haf _ Haddr Hblock Hold Hrounds Hev Hhost.
  unfold socket_connect, connect_address.
  unfold bind at 1. unfold bind at 1, get_file at 1.
  destruct (Z.eqb_spec (af (file w)) LINUX_AF_UNIX) as [|_]; [contradiction|].
  destruct (Z.eqb_spec (fst (translate_socket_addr_to_winsock addr storage
                               (int_of_DWORD addrlen))) SOCKET_ERROR)
    as [|_]; [contradiction|].
  cbn [ret]. unfold bind at 1.
  rewrite (call_script Call_connect w _ _ Hhost).
  set (w1 := answered Call_connect (Reply_error WSAEWOULDBLOCK) w).
  unfold bind at 1, WSAGetLastError at 1.
  change (last_error w1) with WSAEWOULDBLOCK.
  rewrite Z.eqb_refl. cbn [negb].
  unfold bind at 1, get_file at 1.
  assert (Hflags : (Z.land (flags (file w1)) O_NONBLOCK >? 0) = false).
  { change (file w1) with (file w).
    unfold nonblocking in Hblock. apply Bool.orb_false_iff in Hblock.
    destruct Hblock as [Hblock _]. unfold bit_set in Hblock.
    apply negb_false_iff, Z.eqb_eq in Hblock. rewrite Hblock. reflexivity. }
  rewrite Hflags.
  destruct (socket_wait_event_script FD_CONNECT 0 rounds ev err rest
              eq_refl Hrounds Hev w1)
    as (w2 & Hrun & Hhost2 & _ & _ & _ & _ & _ & Hold2).
  { exact Hblock. }
  { exact Hold. }
  { cbn [w1 answered host]. rewrite Hhost. reflexivity. }
  unfold bind at 1. rewrite Hrun.
  unfold bind at 1, WSAGetLastError at 1. cbn [ret].
  assert (Hseen : bit_set (Z.land FD_CONNECT
                             (Z.lor (events (file w2))
                                (Z.land ev tracked_events))) FD_CONNECT = true).
  { unfold bit_set.
    rewrite (Z.land_comm FD_CONNECT), <- Z.land_assoc.
    change (Z.land FD_CONNECT FD_CONNECT) with FD_CONNECT.
    fold (bit_set (Z.lor (events (file w2)) (Z.land ev tracked_events))
            FD_CONNECT).
    rewrite bit_set_lor, bit_set_tracked, Hev by reflexivity.
    apply Bool.orb_true_r. }
  eexists. split; [|split; [|split]].
  - unfold polled at 1. cbn [last_error]. rewrite Hseen, Hev. reflexivity.
  - unfold polled. cbn [host]. rewrite Hhost2. reflexivity.
  - unfold polled. cbn [file events]. rewrite Hseen. apply bit_set_cleared.
  - unfold polled. cbn [file connect_error]. rewrite Hseen. reflexivity.
Qed.

Lemma socket_connect_blocking_completes_witness :
  exists w',
    socket_connect example_in6 28 example_storage
      (example_world (example_socket 0 LINUX_AF_INET6)
         [Reply_error WSAEWOULDBLOCK;
          Reply_events FD_WRITE 0; Reply_wait WAIT_OBJECT_0;
          Reply_events FD_CONNECT WSAECONNREFUSED])
    = Done (- L_ECONNREFUSED) w' /\
    host w' = [] /\
    bit_set (events (file w')) FD_CONNECT = false /\
    connect_error (file w') = 0.
Proof.
  apply (socket_connect_blocking_completes example_in6 28 example_storage
           [(FD_WRITE, 0, WAIT_OBJECT_0)] FD_CONNECT WSAECONNREFUSED []).
  - vm_compute. discriminate.
  - vm_compute. split; discriminate.
  - vm_compute. discriminate.
  - reflexivity.
  - reflexivity.
  - repeat constructor. vm_compute. discriminate.
  - reflexivity.
  - reflexivity.
Defined.

Lemma not_connect_within (event x : Z) :
  Z.land event FD_CONNECT = 0 ->
  bit_set (Z.land event x) FD_CONNECT = false.
Proof.
  intros H. unfold bit_set.
  rewrite (Z.land_comm event), <- Z.land_assoc, H, Z.land_0_r. reflexivity.
Qed.



(** X11.  A blocking send -- without a destination address, or to one
    that the translator accepts and that fits the [addr_storage] it is
    copied to -- that the host turns down with "would block" forgets the
    write event and does not call the host's [sendto] again before a
    poll reports the event anew: it waits through any number of polls
    that do not, then sends, and returns the host's count. *)
Theorem blocking_send_retries_after_would_block
    (msg_flags : Z) (dest_addr : sockaddr) (addrlen : Z) (storage : sockaddr)
    (ev1 err1 : Z) (rounds : list round) (ev err n : Z)
    (rest : list host_reply) (w : world) :
  addrlen = 0 \/
  (0 <= addrlen <= sizeof_sockaddr_storage /\
   fst (translate_socket_addr_to_winsock dest_addr storage addrlen)
     <> SOCKET_ERROR) ->
  nonblocking (file w) msg_flags = false ->
  bit_set (Z.lor (events (file w)) ev1) FD_WRITE = true ->
  Forall (waits_on FD_WRITE) rounds ->
  bit_set ev FD_WRITE = true ->
  host w = Reply_events ev1 err1 :: Reply_error WSAEWOULDBLOCK ::
           flat_map round_replies rounds
           ++ Reply_events ev err :: Reply_ok n :: rest ->
  exists w',
    socket_sendto_unsafe msg_flags dest_addr addrlen storage w = Done n w' /\
    host w' = rest /\
    trace w' = trace w
               ++ [(Call_WSAEnumNetworkEvents, Reply_events ev1 err1);
                   (Call_sendto, Reply_error WSAEWOULDBLOCK)]
               ++ flat_map round_exchanges rounds
               ++ [(Call_WSAEnumNetworkEvents, Reply_events ev err);
                   (Call_sendto, Reply_ok n)].
Proof.
  intros Haddr Hblock Hfirst Hrounds Hev Hhost.
  unfold socket_sendto_unsafe.
  assert (Hok : negb (addrlen =? 0)
                && (fst (translate_socket_addr_to_winsock
                           dest_addr storage addrlen) =? SOCKET_ERROR)
                = false).
  { destruct Haddr as [-> | [_ Hne]]; [reflexivity|].
    apply Bool.andb_false_iff. right. apply Z.eqb_neq. exact Hne. }
  rewrite Hok.
  rewrite loop_unfold by apply socket_sendto_loop_consumes.
  unfold bind at 1.
  rewrite (socket_wait_event_ready FD_WRITE msg_flags ev1 err1 w _
             eq_refl Hfirst Hhost).
  change (negb (0 =? 0)) with false. cbv iota.
  set (w1 := polled FD_WRITE ev1 err1 w).
  assert (Hhost1 : host w1 = Reply_error WSAEWOULDBLOCK ::
                     flat_map round_replies rounds
                     ++ Reply_events ev err :: Reply_ok n :: rest).
  { cbn [w1 polled host]. rewrite Hhost. reflexivity. }
  unfold bind at 1. rewrite (call_script Call_sendto w1 _ _ Hhost1).
  set (w2 := answered Call_sendto (Reply_error WSAEWOULDBLOCK) w1).
  unfold bind at 1, WSAGetLastError at 1.
  change (last_error w2) with WSAEWOULDBLOCK.
  rewrite Z.eqb_refl. cbn [negb].
  unfold bind at 1, clear_event, bind at 1, get_file at 1, put_file.
  cbn [ret].
  match goal with
  | |- context [loop _ ?w0] => set (w3 := w0)
  end.
  destruct (socket_wait_event_script FD_WRITE msg_flags rounds ev err
              (Reply_ok n :: rest) eq_refl Hrounds Hev w3)
    as (w4 & Hrun & Hhost4 & Htrace4 & _).
  { exact Hblock. }
  { cbn [w3 file set_events events]. apply bit_set_cleared. }
  { cbn [w3 host w2 answered]. rewrite Hhost1. reflexivity. }
  rewrite loop_unfold by apply socket_sendto_loop_consumes.
  unfold bind at 1. rewrite Hrun.
  change (negb (0 =? 0)) with false. cbv iota.
  set (w5 := polled FD_WRITE ev err w4).
  assert (Hhost5 : host w5 = Reply_ok n :: rest).
  { cbn [w5 polled host]. rewrite Hhost4. reflexivity. }
  unfold bind at 1. rewrite (call_script Call_sendto w5 _ _ Hhost5).
  cbn [ret]. eexists. split; [reflexivity|].
  cbn [answered host trace]. rewrite Hhost5.
  split; [reflexivity|].
  cbn [w5 polled trace]. rewrite Htrace4.
  cbn [w3 trace w2 answered w1 polled].
  rewrite <- !app_assoc. reflexivity.
Qed.

Lemma blocking_send_retries_after_would_block_witness :
  exists w',
    socket_sendto_unsafe 0 [] 0 example_storage
      (example_world (example_socket 0 LINUX_AF_INET)
         [Reply_events FD_WRITE 0; Reply_error WSAEWOULDBLOCK;
          Reply_events 0 0; Reply_wait WAIT_OBJECT_0;
          Reply_events FD_WRITE 0; Reply_ok 7])
    = Done 7 w' /\
    host w' = [] /\
    trace w' = [(Call_WSAEnumNetworkEvents, Reply_events FD_WRITE 0);
                (Call_sendto, Reply_error WSAEWOULDBLOCK);
                (Call_WSAEnumNetworkEvents, Reply_events 0 0);
                (Call_signal_wait, Reply_wait WAIT_OBJECT_0);
                (Call_WSAEnumNetworkEvents, Reply_events FD_WRITE 0);
                (Call_sendto, Reply_ok 7)].
Proof.
  apply (blocking_send_retries_after_would_block 0 [] 0 example_storage
           FD_WRITE 0 [(0, 0, WAIT_OBJECT_0)] FD_WRITE 0 7 []).
  - left. reflexivity.
  - reflexivity.
  - reflexivity.
  - repeat constructor. vm_compute. discriminate.
  - reflexivity.
  - reflexivity.
Defined.

(** ** Operations given one more answer *)

Lemma stable_ret {A : Type} (a : A) : stable (ret a).
Proof. intros w a' w' xs H. injection H as <- <-. reflexivity. Qed.

Lemma stable_call (c : host_call) : stable (call c).
Proof.
  intros w a w' xs H. unfold call in *. cbn [more host].
  destruct (host w) as [|r rest]; [discriminate|].
  injection H as <- <-. reflexivity.
Qed.

Lemma stable_bind {A B : Type} (m : M A) (k : A -> M B) :
  stable m -> (forall a, stable (k a)) -> stable (x <- m ;; k x).
Proof.
  intros Hm Hk w b w' xs H. unfold bind in *.
  destruct (m w) as [a w1|w1] eqn:Hmw; [|discriminate].
  rewrite (Hm w a w1 xs Hmw). apply Hk. exact H.
Qed.

Lemma stable_loop {A : Type} (body : M (step A)) :
  consumes body -> stable body -> stable (loop body).
Proof.
  intros Hc Hs.
  assert (Hn : forall n w, (length (host w) < n)%nat ->
                 forall a w' xs, loop body w = Done a w' ->
                                 loop body (more w xs) = Done a (more w' xs)).
  { induction n as [|n IH]; intros w Hlen a w' xs H; [lia|].
    rewrite loop_unfold in H by exact Hc.
    rewrite loop_unfold by exact Hc.
    destruct (body w) as [[|a0] w1|w1] eqn:Hb.
    - rewrite (Hs w _ w1 xs Hb). apply IH; [|exact H].
      apply Hc in Hb. lia.
    - rewrite (Hs w _ w1 xs Hb). injection H as <- <-. reflexivity.
    - discriminate. }
  intros w. apply (Hn (S (length (host w)))). lia.
Qed.

Lemma forward_bind {A B : Type} (m : M A) (k : A -> M B) :
  forward m -> (forall a, forward (k a)) -> forward (x <- m ;; k x).
Proof.
  intros Hm Hk w. unfold bind.
  destruct (Hm w) as (c1 & H1).
  destruct (m w) as [a w1|w1]; cbn [final] in H1.
  - destruct (Hk a w1) as (c2 & H2). exists (c1 ++ c2).
    rewrite H2, H1, app_assoc. reflexivity.
  - exists c1. exact H1.
Qed.

Lemma forward_loop {A : Type} (body : M (step A)) :
  forward body -> forward (loop body).
Proof.
  intros Hb w. pattern w, (loop body w). apply loop_rule; clear w.
  - intros w. exists []. rewrite app_nil_r. reflexivity.
  - intros w. destruct (Hb w) as (c1 & H1).
    destruct (body w) as [[|a] w1|w1]; cbn [final] in H1.
    + intros r (c2 & H2). exists (c1 ++ c2).
      rewrite H2, H1, app_assoc. reflexivity.
    + exists c1. exact H1.
    + exists c1. exact H1.
Qed.

Lemma trace_not_longer (l : list exchange) (x : exchange) (later : list exchange) :
  l <> l ++ x :: later.
Proof.
  intros H. apply (f_equal (@length exchange)) in H.
  rewrite length_app in H. cbn [length] in H. lia.
Qed.

Lemma resumes_weaken (P Q : host_call -> Prop) {A : Type} (m : M A) :
  (forall c, P c -> Q c) -> resumes P m -> resumes Q m.
Proof.
  intros HPQ Hm w w0 r xs H.
  destruct (Hm w w0 r xs H) as [Hs | (c & later & Hc & Ht)]; [left; exact Hs|].
  right. exists c, later. auto.
Qed.

Lemma resumes_bind (P : host_call -> Prop) {A B : Type} (m : M A) (k : A -> M B) :
  stable m -> resumes P m ->
  (forall a, forward (k a)) -> (forall a, resumes P (k a)) ->
  resumes P (x <- m ;; k x).
Proof.
  intros Hs Hm Hf Hk w w0 r xs H. unfold bind in *.
  destruct (m w) as [a w1|w1] eqn:Hmw.
  - rewrite (Hs w a w1 _ Hmw). apply Hk. exact H.
  - injection H as <-.
    destruct (Hm w w1 r xs Hmw) as [Hst | (c & later & Hc & Ht)].
    + left. rewrite Hst. reflexivity.
    + right. destruct (m (more w (r :: xs))) as [a w2|w2]; cbn [final] in Ht.
      * destruct (Hf a w2) as (c2 & H2). exists c, (later ++ c2).
        split; [exact Hc|]. rewrite H2, Ht, <- app_assoc. reflexivity.
      * exists c, later. split; [exact Hc | exact Ht].
Qed.

Lemma resumes_loop (P : host_call -> Prop) {A : Type} (body : M (step A)) :
  consumes body -> stable body -> forward body -> resumes P body ->
  resumes P (loop body).
Proof.
  intros Hc Hs Hf Hr.
  assert (Hn : forall n w, (length (host w) < n)%nat ->
                 forall w0 r xs, loop body w = Starved w0 ->
                   loop body (more w (r :: xs)) = Starved (more w0 (r :: xs)) \/
                   exists c later,
                     P c /\
                     trace (final (loop body (more w (r :: xs))))
                     = trace w0 ++ (c, r) :: later).
  { induction n as [|n IH]; intros w Hlen w0 r xs H; [lia|].
    rewrite loop_unfold in H by exact Hc.
    rewrite loop_unfold by exact Hc.
    destruct (body w) as [[|a0] w1|w1] eqn:Hb.
    - rewrite (Hs w _ w1 _ Hb). apply IH; [|exact H].
      apply Hc in Hb. lia.
    - discriminate.
    - injection H as <-.
      destruct (Hr w w1 r xs Hb) as [Hst | (c & later & HP & Ht)].
      + left. rewrite Hst. reflexivity.
      + right.
        destruct (body (more w (r :: xs))) as [[|a] w2|w2]; cbn [final] in Ht.
        * destruct (forward_loop body Hf w2) as (c2 & H2).
          exists c, (later ++ c2). split; [exact HP|].
          rewrite H2, Ht, <- app_assoc. reflexivity.
        * exists c, later. split; [exact HP | exact Ht].
        * exists c, later. split; [exact HP | exact Ht]. }
  intros w. apply (Hn (S (length (host w)))). lia.
Qed.

(** The same, for the three properties together. *)

Lemma orderly_ret (P : host_call -> Prop) {A : Type} (a : A) :
  orderly P (ret a).
Proof.
  split; [apply stable_ret|]. split.
  - intros w. exists []. rewrite app_nil_r. reflexivity.
  - intros w w0 r xs H. discriminate.
Qed.

Lemma orderly_starve (P : host_call -> Prop) {A : Type} :
  orderly P (@starve A).
Proof.
  split; [intros w a w' xs H; discriminate|]. split.
  - intros w. exists []. rewrite app_nil_r. reflexivity.
  - intros w w0 r xs H. injection H as <-. left. reflexivity.
Qed.

Lemma orderly_call (P : host_call -> Prop) (c : host_call) :
  P c -> orderly P (call c).
Proof.
  intros HP. split; [apply stable_call|]. split.
  - intros w. unfold call. destruct (host w) as [|r rest]; cbn [final trace].
    + exists []. rewrite app_nil_r. reflexivity.
    + eexists. reflexivity.
  - intros w w0 r xs H. right. exists c, []. split; [exact HP|].
    unfold call in *. cbn [more host].
    destruct (host w) as [|r0 rest] eqn:Hhost; [|discriminate].
    injection H as <-. reflexivity.
Qed.

(** A step that reads or writes the state without calling the host. *)
Lemma orderly_state (P : host_call -> Prop) {A : Type} (m : M A) :
  (forall w, exists a w',
      m w = Done a w' /\ host w' = host w /\ trace w' = trace w /\
      forall xs, m (more w xs) = Done a (more w' xs)) ->
  orderly P m.
Proof.
  intros H. split; [|split].
  - intros w a w' xs Heq. destruct (H w) as (a0 & w0 & Hm & _ & _ & Hmore).
    rewrite Hm in Heq. injection Heq as <- <-. apply Hmore.
  - intros w. destruct (H w) as (a0 & w0 & Hm & _ & Ht & _).
    exists []. rewrite Hm, app_nil_r. exact Ht.
  - intros w w0 r xs Heq. destruct (H w) as (a0 & w1 & Hm & _).
    rewrite Hm in Heq. discriminate.
Qed.

Lemma orderly_bind (P : host_call -> Prop) {A B : Type} (m : M A) (k : A -> M B) :
  orderly P m -> (forall a, orderly P (k a)) -> orderly P (x <- m ;; k x).
Proof.
  intros (Hs & Hf & Hr) Hk. split; [|split].
  - apply stable_bind; [exact Hs | intros a; apply Hk].
  - apply forward_bind; [exact Hf | intros a; apply Hk].
  - apply resumes_bind; try assumption; intros a; apply Hk.
Qed.

Lemma orderly_loop (P : host_call -> Prop) {A : Type} (body : M (step A)) :
  consumes body -> orderly P body -> orderly P (loop body).
Proof.
  intros Hc (Hs & Hf & Hr). split; [|split].
  - apply stable_loop; assumption.
  - apply forward_loop; assumption.
  - apply resumes_loop; assumption.
Qed.

Lemma orderly_weaken (P Q : host_call -> Prop) {A : Type} (m : M A) :
  (forall c, P c -> Q c) -> orderly P m -> orderly Q m.
Proof.
  intros HPQ (Hs & Hf & Hr). split; [exact Hs|]. split; [exact Hf|].
  apply (resumes_weaken P Q); assumption.
Qed.

(** Decompose an [orderly] goal along the structure of the code. *)
Ltac orderly_code :=
  repeat first
    [ apply orderly_ret
    | apply orderly_starve
    | apply orderly_call; cbv beta; unfold plain, not_connect;
      first [exact I | assumption | discriminate | repeat split; discriminate]
    | apply orderly_state; intros ?; eexists; eexists;
      split; [reflexivity|]; split; [reflexivity|];
      split; [reflexivity|]; intros ?; reflexivity
    | apply orderly_bind; [|intros ?]
    | match goal with
      | |- orderly _ (match ?x with _ => _ end) => destruct x
      | |- orderly _ (let (_, _) := ?x in _) => destruct x
      end ].

Lemma socket_update_events_unsafe_orderly (P : host_call -> Prop) (ev : Z) :
  P Call_WSAEnumNetworkEvents -> orderly P (socket_update_events_unsafe ev).
Proof.
  intros HP. unfold socket_update_events_unsafe. cbv zeta.
  apply orderly_bind; [apply orderly_call; exact HP|]. intros r.
  destruct r; try apply orderly_starve.
  orderly_code.
Qed.

Lemma socket_wait_event_orderly (P : host_call -> Prop) (ev msg_flags : Z) :
  P Call_WSAEnumNetworkEvents -> P Call_signal_wait ->
  orderly P (socket_wait_event ev msg_flags).
Proof.
  intros Hp Hw. unfold socket_wait_event.
  apply orderly_loop; [apply socket_wait_event_body_consumes|].
  apply orderly_bind; [apply socket_update_events_unsafe_orderly; exact Hp|].
  intros e. orderly_code.
Qed.

Lemma orderly_any (P : host_call -> Prop) {A : Type} (m : M A) :
  orderly P m -> orderly (fun _ => True) m.
Proof. apply orderly_weaken. intros c _. exact I. Qed.

(** What follows a successful poll in each of the loops. *)

Lemma send_act_orderly (c : host_call) (conv : Z -> Z) :
  plain c ->
  orderly plain
    (reply <- call c ;;
     match reply with
     | Reply_ok n => ret (Leave (conv n))
     | Reply_error _ =>
         err <- WSAGetLastError ;;
         if negb (err =? WSAEWOULDBLOCK)
         then ret (Leave (translate_socket_error err))
         else clear_event FD_WRITE ;;; ret Continue
     | _ => starve
     end).
Proof. intros Hc. unfold clear_event. orderly_code. Qed.

Lemma recvfrom_act_orderly (msg_flags : Z) :
  orderly plain
    ((if negb (bit_set msg_flags LINUX_MSG_PEEK)
      then clear_event FD_READ else ret tt) ;;;
     reply <- call Call_recvfrom ;;
     match reply with
     | Reply_ok n => ret (Leave n)
     | Reply_error _ =>
         err <- WSAGetLastError ;;
         if negb (err =? WSAEWOULDBLOCK)
         then ret (Leave (translate_socket_error err))
         else ret Continue
     | _ => starve
     end).
Proof. unfold clear_event. orderly_code. Qed.

Lemma recvmsg_act_orderly :
  orderly plain
    (reply <- call Call_WSARecvMsg ;;
     match reply with
     | Reply_ok received => ret (Leave (int_of_DWORD received))
     | Reply_error _ =>
         clear_event FD_READ ;;;
         err <- WSAGetLastError ;;
         if negb (err =? WSAEWOULDBLOCK)
         then ret (Leave (translate_socket_error err))
         else ret Continue
     | _ => starve
     end).
Proof. unfold clear_event. orderly_code. Qed.

Lemma accept_act_orderly :
  orderly plain
    (reply <- call Call_accept ;;
     match reply with
     | Reply_ok _ =>
         ev <- call Call_init_socket_event ;;
         match ev with
         | Reply_ok _ =>
             stored <- call Call_vfs_store_file ;;
             match stored with
             | Reply_ok r =>
                 (if r <? 0 then call Call_vfs_release ;;; ret tt
                  else ret tt) ;;;
                 ret (Leave r)
             | _ => starve
             end
         | Reply_error _ =>
             call Call_closesocket ;;; ret (Leave (- L_ENFILE))
         | _ => starve
         end
     | Reply_error _ =>
         err <- WSAGetLastError ;;
         if negb (err =? WSAEWOULDBLOCK)
         then ret (Leave (translate_socket_error err))
         else clear_event FD_ACCEPT ;;; ret Continue
     | _ => starve
     end).
Proof. unfold clear_event. orderly_code. Qed.

(** A loop over a body [x <- m ;; k x], one iteration unfolded. *)
Lemma loop_bind_unfold {A B : Type} (m : M A) (k : A -> M (step B)) (w : world) :
  consumes (x <- m ;; k x) ->
  loop (x <- m ;; k x) w =
  match m w with
  | Done a w1 =>
      match k a w1 with
      | Done Continue w2 => loop (x <- m ;; k x) w2
      | Done (Leave b) w2 => Done b w2
      | Starved w2 => Starved w2
      end
  | Starved w1 => Starved w1
  end.
Proof.
  intros Hc. rewrite loop_unfold by exact Hc. unfold bind at 1.
  destruct (m w) as [a w1|w1]; reflexivity.
Qed.

Lemma same_next_exchange (l : list exchange) (c c' : host_call) (r : host_reply)
    (l1 l2 : list exchange) :
  l ++ (c', r) :: l1 = l ++ (c, r) :: l2 -> c' = c.
Proof. intros H. apply app_inv_head in H. congruence. Qed.

Lemma act_run_keeps_flags {A : Type} (act : M A) :
  (forall w, act_run w (act w)) -> keeps_flags act.
Proof.
  intros Hact w a w' H. specialize (Hact w). rewrite H in Hact.
  destruct Hact as (c & Hext & _). apply Hext.
Qed.

Lemma polling_body_keeps_flags {A : Type} (ev msg_flags : Z) (k : Z -> M A) :
  (forall val, keeps_flags (k val)) ->
  keeps_flags (r <- socket_wait_event ev msg_flags ;; k r).
Proof.
  intros Hk w a w' H. unfold bind in H.
  destruct (socket_wait_event_result ev msg_flags w) as (c0 & Hext0 & _).
  destruct (socket_wait_event ev msg_flags w) as [val w1|w1]; [|discriminate].
  cbn [final] in Hext0. rewrite (Hk val w1 a w' H). apply Hext0.
Qed.

(** The operations as consumers of answers. *)

Lemma socket_sendto_unsafe_orderly
    (msg_flags : Z) (dest_addr : sockaddr) (addrlen : Z) (storage : sockaddr) :
  orderly not_connect
    (socket_sendto_unsafe msg_flags dest_addr addrlen storage).
Proof.
  unfold socket_sendto_unsafe.
  destruct (negb (addrlen =? 0) && _)%bool; [apply orderly_ret|].
  apply orderly_loop; [apply socket_sendto_loop_consumes|].
  apply orderly_bind; [apply socket_wait_event_orderly; discriminate|].
  intros val. unfold clear_event. orderly_code.
Qed.

Lemma socket_sendmsg_unsafe_orderly
    (msg : msghdr) (msg_flags : Z) (storage : sockaddr) :
  orderly not_connect (socket_sendmsg_unsafe msg msg_flags storage).
Proof.
  unfold socket_sendmsg_unsafe.
  destruct (negb (msg_namelen msg =? 0) && _)%bool; [apply orderly_ret|].
  apply orderly_loop; [apply socket_sendmsg_loop_consumes|].
  apply orderly_bind; [apply socket_wait_event_orderly; discriminate|].
  intros val. cbv zeta. unfold clear_event. orderly_code.
Qed.

Lemma socket_recvfrom_unsafe_orderly (msg_flags : Z) :
  orderly not_connect (socket_recvfrom_unsafe msg_flags).
Proof.
  unfold socket_recvfrom_unsafe.
  apply orderly_loop; [apply socket_recvfrom_loop_consumes|].
  apply orderly_bind; [apply socket_wait_event_orderly; discriminate|].
  intros val. unfold clear_event. orderly_code.
Qed.

Lemma socket_accept4_orderly : orderly not_connect socket_accept4.
Proof.
  unfold socket_accept4.
  apply orderly_loop; [apply socket_accept4_loop_consumes|].
  apply orderly_bind; [apply socket_wait_event_orderly; discriminate|].
  intros val. unfold clear_event. orderly_code.
Qed.

Lemma socket_recvmsg_unsafe_cases (msg_flags : Z) (w : world) :
  socket_recvmsg_unsafe msg_flags w =
  if negb (type (file w) =? LINUX_SOCK_DGRAM)
     && negb (type (file w) =? LINUX_SOCK_RAW)
  then socket_recvfrom_unsafe msg_flags w
  else if WSARecvMsg_loaded w then recvmsg_loop msg_flags w
  else (ioctl <- recvmsg_fetch ;;
        if negb (ioctl =? 0) then ret ioctl else recvmsg_loop msg_flags) w.
Proof.
  unfold socket_recvmsg_unsafe, bind at 1, get_file.
  destruct (negb (type (file w) =? LINUX_SOCK_DGRAM) && _)%bool; [reflexivity|].
  unfold bind at 1, get_WSARecvMsg.
  destruct (WSARecvMsg_loaded w); reflexivity.
Qed.

Lemma recvmsg_loop_orderly (msg_flags : Z) :
  orderly not_connect (recvmsg_loop msg_flags).
Proof.
  unfold recvmsg_loop.
  apply orderly_loop; [apply socket_recvmsg_loop_consumes|].
  apply orderly_bind; [apply socket_wait_event_orderly; discriminate|].
  intros val. cbv zeta. unfold clear_event. orderly_code.
Qed.

Lemma recvmsg_fetch_orderly : orderly plain recvmsg_fetch.
Proof. unfold recvmsg_fetch. orderly_code. Qed.

Lemma recvmsg_fetch_keeps_flags : keeps_flags recvmsg_fetch.
Proof.
  intros w a w' H. unfold recvmsg_fetch, bind, call in H.
  destruct (host w) as [|reply rest]; [discriminate|].
  destruct reply; try discriminate; injection H as _ <-; reflexivity.
Qed.

Section NextExchange.

(** The exchange under study, the call [c] with its answer [r], and the
    calls [aside] that are not the one under study. *)
Variable c : host_call.
Variable r : host_reply.
Variable aside : host_call -> Prop.
Hypothesis c_not_aside : ~ aside c.

(** When a run stops within its first part [m], and the next exchange
    of the whole is [c] answered by [r], that is the next exchange of
    [m]. *)
Lemma asks_next_first {A B : Type} (m : M A) (cont : A -> world -> run B)
    (w w0 : world) (rest : list host_reply) (later : list exchange) :
  resumes (fun _ => True) m ->
  (forall a w1, exists calls, trace (final (cont a w1)) = trace w1 ++ calls) ->
  m w = Starved w0 ->
  trace (final match m (more w (r :: rest)) with
               | Done a w1 => cont a w1
               | Starved w1 => Starved w1
               end) = trace w0 ++ (c, r) :: later ->
  asks_next m w w0 c r rest.
Proof.
  intros Hr Hcont Hst Hnext. split; [exact Hst|].
  destruct (Hr w w0 r rest Hst) as [Hstuck | (c' & later' & _ & Ht)].
  - exfalso. rewrite Hstuck in Hnext. cbn [final more trace] in Hnext.
    exact (trace_not_longer _ _ _ Hnext).
  - exists later'. rewrite Ht. f_equal. f_equal. f_equal.
    destruct (m (more w (r :: rest))) as [a w2|w2]; cbn [final] in Ht, Hnext.
    + destruct (Hcont a w2) as (c2 & H2).
      rewrite H2, Ht, <- app_assoc in Hnext. cbn [app] in Hnext.
      apply same_next_exchange in Hnext. exact Hnext.
    + rewrite Ht in Hnext. apply same_next_exchange in Hnext. exact Hnext.
Qed.

(** A run of code that makes calls aside only never asks for [c]. *)
Lemma aside_never_asks {A : Type} (m : M A) (w w0 : world)
    (rest : list host_reply) :
  resumes aside m -> ~ asks_next m w w0 c r rest.
Proof.
  intros Hr (Hst & later & Hnext).
  destruct (Hr w w0 r rest Hst) as [Hstuck | (c' & later' & Hc' & Ht)].
  - rewrite Hstuck in Hnext. cbn [final more trace] in Hnext.
    exact (trace_not_longer _ _ _ Hnext).
  - rewrite Ht in Hnext. apply same_next_exchange in Hnext.
    subst c'. contradiction.
Qed.

(** A first part [m] that makes calls aside only, followed by [k]. *)
Lemma bind_returns {A B : Type} (m : M A) (k : A -> M B)
    (when : world -> Prop) (good : world -> Prop) (v' : B) :
  stable m -> resumes aside m ->
  (forall w a w', m w = Done a w' -> when w -> when w') ->
  (forall a, forward (k a)) ->
  (forall a w w0 rest,
      when w -> asks_next (k a) w w0 c r rest -> good w0 ->
      returns_after (k a) w w0 c r rest v') ->
  forall w w0 rest,
    when w -> asks_next (x <- m ;; k x) w w0 c r rest -> good w0 ->
    returns_after (x <- m ;; k x) w w0 c r rest v'.
Proof.
  intros Hs Hr Hwhen Hf Hk w w0 rest Hw (Hst & later & Hnext) Hgood.
  unfold returns_after, bind in *.
  destruct (m w) as [a w1|w1] eqn:Hmw.
  - rewrite (Hs w a w1 _ Hmw) in *.
    apply Hk.
    + apply (Hwhen w a w1 Hmw Hw).
    + split; [exact Hst|]. exists later. exact Hnext.
    + exact Hgood.
  - injection Hst as <-. exfalso.
    apply (aside_never_asks m w w1 rest Hr).
    apply (asks_next_first m (fun a w2 => k a w2) w w1 rest later).
    + apply (resumes_weaken aside); [intros; exact I | exact Hr].
    + intros a w2. apply Hf.
    + exact Hmw.
    + exact Hnext.
Qed.

End NextExchange.

Section OneMoreAnswer.

(** The exchange under study is a poll or a wait: the call [c] with its
    answer [r]; [v] is the value that [socket_wait_event] returns after
    it, on the sockets [nb] and in the states [good] in which it does. *)
Variable c : host_call.
Variable r : host_reply.
Variable v : Z.
Variable nb : bool.
Variable good : Z -> world -> Prop.

Hypothesis c_not_plain : ~ plain c.
Hypothesis v_stops : v <> 0.
Hypothesis v_int : int_of_DWORD (DWORD_of_int v) = v.
Hypothesis v_DWORD : DWORD_of_int v <> 0.
Hypothesis wait_returns :
  forall event msg_flags w w0 rest,
    Z.land event tracked_events = event ->
    nonblocking (file w) msg_flags = nb ->
    asks_next (socket_wait_event event msg_flags) w w0 c r rest ->
    good event w0 ->
    returns_after (socket_wait_event event msg_flags) w w0 c r rest v.

(** A loop that polls through [socket_wait_event] and acts when the poll
    succeeds. *)
Lemma polling_loop_returns (event msg_flags : Z) (stop : Z -> bool)
    (narrow : Z -> Z) (act : M (step Z)) :
  Z.land event tracked_events = event ->
  stop 0 = false -> stop v = true ->
  (forall w, act_run w (act w)) ->
  orderly plain act ->
  let body := (val <- socket_wait_event event msg_flags ;;
               if stop val then ret (Leave (narrow val)) else act) in
  consumes body ->
  forall w w0 rest,
    nonblocking (file w) msg_flags = nb ->
    asks_next (loop body) w w0 c r rest ->
    good event w0 ->
    returns_after (loop body) w w0 c r rest (narrow v).
Proof.
  intros Hsub Hs0 Hsv Hact (Has & Haf & Har) body Hc.
  destruct (socket_wait_event_orderly (fun _ => True) event msg_flags I I)
    as (Hws & Hwf & Hwr).
  assert (Hkf : forall val, forward (if stop val then ret (Leave (narrow val))
                                     else act)).
  { intros val. destruct (stop val); [|exact Haf].
    intros w. exists []. rewrite app_nil_r. reflexivity. }
  assert (Hbf : forward body).
  { apply forward_bind; [exact Hwf | exact Hkf]. }
  assert (Hfl : keeps_flags body).
  { apply polling_body_keeps_flags. intros val.
    destruct (stop val); [|apply act_run_keeps_flags; exact Hact].
    intros w a w' H. injection H as _ <-. reflexivity. }
  assert (Hrest : forall val w1,
             exists calls,
               trace (final
                 match (if stop val then ret (Leave (narrow val)) else act) w1 with
                 | Done Continue w2 => loop body w2
                 | Done (Leave b) w2 => Done b w2
                 | Starved w2 => Starved w2
                 end) = trace w1 ++ calls).
  { intros val w1. destruct (Hkf val w1) as (c1 & H1).
    destruct ((if stop val then ret (Leave (narrow val)) else act) w1)
      as [[|b] w2|w2]; cbn [final] in H1 |- *; try (exists c1; exact H1).
    destruct (forward_loop body Hbf w2) as (c2 & H2).
    exists (c1 ++ c2). rewrite H2, H1, app_assoc. reflexivity. }
  assert (Hn : forall n w, (length (host w) < n)%nat ->
                 forall w0 rest,
                   nonblocking (file w) msg_flags = nb ->
                   asks_next (loop body) w w0 c r rest ->
                   good event w0 ->
                   returns_after (loop body) w w0 c r rest (narrow v)).
  { induction n as [|n IH]; intros w Hlen w0 rest Hnb (Hst & later & Hnext) Hgood;
      [lia|].
    unfold returns_after.
    unfold body in Hst, Hnext |- *.
    rewrite loop_bind_unfold in Hst, Hnext |- * by exact Hc.
    fold body in Hst, Hnext |- *.
    destruct (socket_wait_event event msg_flags w) as [val w1|w1] eqn:Hw.
    - rewrite (Hws w val w1 _ Hw) in Hnext |- *.
      destruct (stop val) eqn:Hstop; [discriminate Hst|].
      destruct (act w1) as [[|b] w2|w2] eqn:Hactw; [| discriminate Hst |].
      + rewrite (Has w1 _ w2 _ Hactw) in Hnext |- *.
        assert (Hb : body w = Done Continue w2).
        { unfold body, bind. rewrite Hw, Hstop. exact Hactw. }
        apply IH.
        * apply Hc in Hb. lia.
        * rewrite <- Hnb. apply nonblocking_flags. apply (Hfl w _ w2 Hb).
        * split; [exact Hst|]. exists later. exact Hnext.
        * exact Hgood.
      + injection Hst as <-. exfalso.
        destruct (Har w1 w2 r rest Hactw) as [Hstuck | (c' & later' & Hc' & Ht)].
        * rewrite Hstuck in Hnext. cbn [final more trace] in Hnext.
          exact (trace_not_longer _ _ _ Hnext).
        * destruct (act (more w1 (r :: rest))) as [[|b] w3|w3];
            cbn [final] in Ht, Hnext.
          -- destruct (forward_loop body Hbf w3) as (c2 & H2).
             rewrite H2, Ht, <- app_assoc in Hnext. cbn [app] in Hnext.
             apply same_next_exchange in Hnext. subst c'.
             apply c_not_plain. exact Hc'.
          -- rewrite Ht in Hnext. apply same_next_exchange in Hnext.
             subst c'. apply c_not_plain. exact Hc'.
          -- rewrite Ht in Hnext. apply same_next_exchange in Hnext.
             subst c'. apply c_not_plain. exact Hc'.
    - injection Hst as <-.
      assert (Hasks : asks_next (socket_wait_event event msg_flags) w w1 c r rest).
      { apply (asks_next_first c r (socket_wait_event event msg_flags)
                 (fun val w2 =>
                    match (if stop val then ret (Leave (narrow val)) else act) w2 with
                    | Done Continue w3 => loop body w3
                    | Done (Leave b) w3 => Done b w3
                    | Starved w3 => Starved w3
                    end) w w1 rest later).
        - exact Hwr.
        - exact Hrest.
        - exact Hw.
        - exact Hnext. }
      destruct (wait_returns event msg_flags w w1 rest Hsub Hnb Hasks Hgood)
        as (w' & Hdone & Hhost & Htrace).
      rewrite Hdone, Hsv. cbn [ret]. exists w'. auto. }
  intros w. apply (Hn (S (length (host w)))). lia.
Qed.

Lemma socket_sendto_unsafe_returns
    (msg_flags : Z) (dest_addr : sockaddr) (addrlen : Z) (storage : sockaddr)
    (w w0 : world) (rest : list host_reply) :
  nonblocking (file w) msg_flags = nb ->
  asks_next (socket_sendto_unsafe msg_flags dest_addr addrlen storage)
    w w0 c r rest ->
  good FD_WRITE w0 ->
  returns_after (socket_sendto_unsafe msg_flags dest_addr addrlen storage)
    w w0 c r rest v.
Proof.
  unfold socket_sendto_unsafe.
  destruct (negb (addrlen =? 0) && _)%bool.
  { intros _ (Hst & _). discriminate Hst. }
  apply (polling_loop_returns FD_WRITE msg_flags
           (fun x => negb (x =? 0)) (fun x => x)).
  - reflexivity.
  - reflexivity.
  - apply negb_true_iff, Z.eqb_neq. exact v_stops.
  - intros w1. apply (send_act_run Call_sendto (fun n => n)); discriminate.
  - apply (send_act_orderly Call_sendto (fun n => n)). split; discriminate.
  - apply socket_sendto_loop_consumes.
Qed.

Lemma socket_sendmsg_unsafe_returns
    (msg : msghdr) (msg_flags : Z) (storage : sockaddr)
    (w w0 : world) (rest : list host_reply) :
  nonblocking (file w) msg_flags = nb ->
  asks_next (socket_sendmsg_unsafe msg msg_flags storage) w w0 c r rest ->
  good FD_WRITE w0 ->
  returns_after (socket_sendmsg_unsafe msg msg_flags storage) w w0 c r rest v.
Proof.
  unfold socket_sendmsg_unsafe.
  destruct (negb (msg_namelen msg =? 0) && _)%bool.
  { intros _ (Hst & _). discriminate Hst. }
  rewrite <- v_int.
  apply (polling_loop_returns FD_WRITE msg_flags
           (fun x => negb (DWORD_of_int x =? 0))
           (fun x => int_of_DWORD (DWORD_of_int x))).
  - reflexivity.
  - reflexivity.
  - apply negb_true_iff, Z.eqb_neq. exact v_DWORD.
  - intros w1. apply (send_act_run Call_WSASendMsg int_of_DWORD); discriminate.
  - apply (send_act_orderly Call_WSASendMsg int_of_DWORD). split; discriminate.
  - apply socket_sendmsg_loop_consumes.
Qed.

Lemma socket_recvfrom_unsafe_returns
    (msg_flags : Z) (w w0 : world) (rest : list host_reply) :
  nonblocking (file w) msg_flags = nb ->
  asks_next (socket_recvfrom_unsafe msg_flags) w w0 c r rest ->
  good (Z.lor FD_READ FD_CLOSE) w0 ->
  returns_after (socket_recvfrom_unsafe msg_flags) w w0 c r rest v.
Proof.
  unfold socket_recvfrom_unsafe.
  apply (polling_loop_returns (Z.lor FD_READ FD_CLOSE) msg_flags
           (fun x => negb (x =? 0)) (fun x => x)).
  - reflexivity.
  - reflexivity.
  - apply negb_true_iff, Z.eqb_neq. exact v_stops.
  - intros w1. apply recvfrom_act_run.
  - apply recvfrom_act_orderly.
  - apply socket_recvfrom_loop_consumes.
Qed.

Lemma socket_accept4_returns (w w0 : world) (rest : list host_reply) :
  nonblocking (file w) 0 = nb ->
  asks_next socket_accept4 w w0 c r rest ->
  good FD_ACCEPT w0 ->
  returns_after socket_accept4 w w0 c r rest v.
Proof.
  unfold socket_accept4.
  apply (polling_loop_returns FD_ACCEPT 0
           (fun x => negb (x =? 0)) (fun x => x)).
  - reflexivity.
  - reflexivity.
  - apply negb_true_iff, Z.eqb_neq. exact v_stops.
  - intros w1. apply accept_act_run.
  - apply accept_act_orderly.
  - apply socket_accept4_loop_consumes.
Qed.

Lemma recvmsg_loop_returns
    (msg_flags : Z) (w w0 : world) (rest : list host_reply) :
  nonblocking (file w) msg_flags = nb ->
  asks_next (recvmsg_loop msg_flags) w w0 c r rest ->
  good (Z.lor FD_READ FD_CLOSE) w0 ->
  returns_after (recvmsg_loop msg_flags) w w0 c r rest v.
Proof.
  unfold recvmsg_loop. rewrite <- v_int.
  apply (polling_loop_returns (Z.lor FD_READ FD_CLOSE) msg_flags
           (fun x => negb (DWORD_of_int x =? 0))
           (fun x => int_of_DWORD (DWORD_of_int x))).
  - reflexivity.
  - reflexivity.
  - apply negb_true_iff, Z.eqb_neq. exact v_DWORD.
  - intros w1. apply recvmsg_act_run.
  - apply recvmsg_act_orderly.
  - apply socket_recvmsg_loop_consumes.
Qed.

Lemma socket_recvmsg_unsafe_returns
    (msg_flags : Z) (w w0 : world) (rest : list host_reply) :
  nonblocking (file w) msg_flags = nb ->
  asks_next (socket_recvmsg_unsafe msg_flags) w w0 c r rest ->
  good (Z.lor FD_READ FD_CLOSE) w0 ->
  returns_after (socket_recvmsg_unsafe msg_flags) w w0 c r rest v.
Proof.
  unfold asks_next, returns_after.
  rewrite !socket_recvmsg_unsafe_cases. cbn [more file WSARecvMsg_loaded].
  destruct (negb (type (file w) =? LINUX_SOCK_DGRAM) && _)%bool.
  { apply socket_recvfrom_unsafe_returns. }
  destruct (WSARecvMsg_loaded w).
  { apply recvmsg_loop_returns. }
  intros Hnb.
  apply (bind_returns c r plain c_not_plain recvmsg_fetch
           (fun ioctl => if negb (ioctl =? 0) then ret ioctl
                         else recvmsg_loop msg_flags)
           (fun w1 => nonblocking (file w1) msg_flags = nb)
           (good (Z.lor FD_READ FD_CLOSE)) v).
  - apply recvmsg_fetch_orderly.
  - apply recvmsg_fetch_orderly.
  - intros w1 a w' H <-. apply nonblocking_flags.
    apply (recvmsg_fetch_keeps_flags w1 a w' H).
  - intros a. destruct (negb (a =? 0)).
    + apply (orderly_ret (fun _ => True)).
    + apply (orderly_any not_connect), recvmsg_loop_orderly.
  - intros a w1 w2 rest1 Hnb1. destruct (negb (a =? 0)).
    + intros (Hst & _). discriminate Hst.
    + apply recvmsg_loop_returns. exact Hnb1.
  - exact Hnb.
Qed.

(** Every send, receive and accept. *)
Lemma transfer_returns (op : vtable_call) (storage : sockaddr)
    (w w0 : world) (rest : list host_reply) :
  transfers_or_accepts op = true ->
  nonblocking (file w) (msg_flags_of op) = nb ->
  asks_next (run_op op storage) w w0 c r rest ->
  good (awaited op) w0 ->
  returns_after (run_op op storage) w w0 c r rest v.
Proof.
  intros Hop.
  destruct op; try discriminate Hop; cbn [run_op msg_flags_of awaited].
  - apply socket_recvfrom_unsafe_returns.
  - apply socket_sendto_unsafe_returns.
  - apply socket_sendto_unsafe_returns.
  - apply socket_recvfrom_unsafe_returns.
  - apply socket_sendmsg_unsafe_returns.
  - apply socket_recvmsg_unsafe_returns.
  - apply socket_accept4_returns.
Qed.

End OneMoreAnswer.

(** *** The poll of a non-blocking operation *)

Lemma socket_wait_event_nonblocking_script (event msg_flags : Z) (w : world) :
  nonblocking (file w) msg_flags = true ->
  socket_wait_event event msg_flags w =
  match host w with
  | [] => Starved w
  | Reply_events ev err :: _ =>
      Done (if bit_set (Z.lor (events (file w)) (Z.land ev tracked_events)) event
            then 0 else - L_EWOULDBLOCK)
           (polled event ev err w)
  | reply :: _ => Starved (answered Call_WSAEnumNetworkEvents reply w)
  end.
Proof.
  intros Hnb. unfold socket_wait_event.
  rewrite loop_unfold by apply socket_wait_event_body_consumes.
  unfold bind at 1.
  destruct (host w) as [|reply rest] eqn:Hhost.
  - unfold socket_update_events_unsafe, bind, call. rewrite Hhost. reflexivity.
  - destruct reply;
      try (unfold socket_update_events_unsafe, bind, call, answered;
           rewrite Hhost; reflexivity).
    rewrite (socket_update_events_unsafe_script event _ _ w rest Hhost).
    destruct (bit_set (Z.lor (events (file w))
                         (Z.land lNetworkEvents tracked_events)) event);
      [reflexivity|].
    unfold bind, get_file.
    rewrite (nonblocking_polled event lNetworkEvents iErrorCode_connect
               msg_flags w), Hnb.
    reflexivity.
Qed.

Lemma socket_wait_event_would_block (ev err : Z) (event msg_flags : Z)
    (w w0 : world) (rest : list host_reply) :
  Z.land event tracked_events = event ->
  nonblocking (file w) msg_flags = true ->
  asks_next (socket_wait_event event msg_flags) w w0
    Call_WSAEnumNetworkEvents (Reply_events ev err) rest ->
  bit_set (Z.lor (events (file w0)) ev) event = false ->
  returns_after (socket_wait_event event msg_flags) w w0
    Call_WSAEnumNetworkEvents (Reply_events ev err) rest (- L_EWOULDBLOCK).
Proof.
  intros Hsub Hnb (Hst & later & Hnext) Hidle. unfold returns_after.
  rewrite socket_wait_event_nonblocking_script in Hst, Hnext |- * by exact Hnb.
  cbn [more host] in Hnext |- *.
  destruct (host w) as [|reply tl] eqn:Hhost; cbn [app] in Hnext |- *.
  - injection Hst as <-.
    rewrite bit_set_lor, bit_set_tracked by exact Hsub.
    cbn [more file]. rewrite <- bit_set_lor, Hidle.
    eexists. split; [reflexivity|].
    unfold polled. cbn [host trace more]. rewrite Hhost. split; reflexivity.
  - exfalso. destruct reply; try discriminate Hst;
      injection Hst as <-; cbn [final answered trace more] in Hnext;
      exact (trace_not_longer _ _ _ Hnext).
Qed.

(** *** The wait of a blocking operation *)

Lemma socket_update_events_unsafe_keeps_flags (ev : Z) :
  keeps_flags (socket_update_events_unsafe ev).
Proof.
  intros w a w' H.
  pose proof (socket_update_events_unsafe_run ev w) as Hrun.
  rewrite H in Hrun. destruct Hrun as (reply & Hext & _). apply Hext.
Qed.

Lemma socket_wait_event_interrupted_returns (event msg_flags : Z)
    (w w0 : world) (rest : list host_reply) :
  nonblocking (file w) msg_flags = false ->
  asks_next (socket_wait_event event msg_flags) w w0
    Call_signal_wait (Reply_wait WAIT_INTERRUPTED) rest ->
  returns_after (socket_wait_event event msg_flags) w w0
    Call_signal_wait (Reply_wait WAIT_INTERRUPTED) rest (- L_EINTR).
Proof.
  unfold socket_wait_event.
  set (k := fun e : Z =>
              if bit_set e event then ret (Leave 0)
              else
                f <- get_file ;;
                if nonblocking f msg_flags then ret (Leave (- L_EWOULDBLOCK))
                else
                  r <- call Call_signal_wait ;;
                  match r with
                  | Reply_wait result =>
                      if result =? WAIT_INTERRUPTED then ret (Leave (- L_EINTR))
                      else ret Continue
                  | _ => starve
                  end).
  change (loop _) with (loop (e <- socket_update_events_unsafe event ;; k e)).
  set (body := (e <- socket_update_events_unsafe event ;; k e)).
  assert (Hc : consumes body) by apply socket_wait_event_body_consumes.
  destruct (socket_update_events_unsafe_orderly
              (fun c => c = Call_WSAEnumNetworkEvents) event eq_refl)
    as (Hus & Huf & Hur).
  assert (Hbo : orderly (fun _ => True) (loop body)).
  { apply (socket_wait_event_orderly (fun _ => True) event msg_flags I I). }
  assert (Hk : forall e w1,
             exists calls,
               trace (final match k e w1 with
                            | Done Continue w2 => loop body w2
                            | Done (Leave b) w2 => Done b w2
                            | Starved w2 => Starved w2
                            end) = trace w1 ++ calls).
  { intros e w1.
    assert (Hkf : forward (k e)).
    { unfold k. destruct (bit_set e event).
      - apply (orderly_ret (fun _ => True)).
      - assert (Ho : orderly (fun _ => True)
                       (f <- get_file ;;
                        if nonblocking f msg_flags
                        then ret (Leave (- L_EWOULDBLOCK))
                        else
                          r <- call Call_signal_wait ;;
                          match r with
                          | Reply_wait result =>
                              if result =? WAIT_INTERRUPTED
                              then ret (Leave (- L_EINTR))
                              else ret Continue
                          | _ => starve
                          end)) by orderly_code.
        apply Ho. }
    destruct (Hkf w1) as (c1 & H1).
    destruct (k e w1) as [[|b] w2|w2]; cbn [final] in H1 |- *;
      try (exists c1; exact H1).
    destruct Hbo as (_ & Hlf & _). destruct (Hlf w2) as (c2 & H2).
    exists (c1 ++ c2). rewrite H2, H1, app_assoc. reflexivity. }
  revert w0 rest.
  assert (Hn : forall n w, (length (host w) < n)%nat ->
                 nonblocking (file w) msg_flags = false ->
                 forall w0 rest,
                   asks_next (loop body) w w0
                     Call_signal_wait (Reply_wait WAIT_INTERRUPTED) rest ->
                   returns_after (loop body) w w0
                     Call_signal_wait (Reply_wait WAIT_INTERRUPTED) rest
                     (- L_EINTR)).
  { clear w. induction n as [|n IH];
      intros w Hlen Hblock w0 rest (Hst & later & Hnext); [lia|].
    unfold returns_after. unfold body in Hst, Hnext |- *.
    rewrite loop_bind_unfold in Hst, Hnext |- * by exact Hc.
    fold body in Hst, Hnext |- *.
    destruct (socket_update_events_unsafe event w) as [e w1|w1] eqn:Hu.
    - rewrite (Hus w e w1 _ Hu) in Hnext |- *.
      assert (Hblock1 : nonblocking (file w1) msg_flags = false).
      { rewrite <- Hblock. apply nonblocking_flags.
        apply (socket_update_events_unsafe_keeps_flags event w e w1 Hu). }
      assert (Hlen1 : (length (host w1) < length (host w))%nat).
      { apply (socket_update_events_unsafe_takes event w e w1 Hu). }
      unfold k in Hst, Hnext |- *.
      destruct (bit_set e event); [discriminate Hst|].
      unfold bind at 1, get_file at 1 in Hst.
      unfold bind at 1, get_file at 1 in Hnext.
      unfold bind at 1, get_file at 1.
      cbn [more file] in Hnext |- *.
      rewrite Hblock1 in Hst, Hnext |- *.
      unfold bind, call in Hst, Hnext |- *.
      cbn [more host] in Hnext |- *.
      destruct (host w1) as [|reply tl] eqn:Hhost1; cbn [app] in Hnext |- *.
      + injection Hst as <-.
        rewrite Z.eqb_refl. cbn [ret].
        eexists. split; [reflexivity|]. cbn [host trace more]. split; reflexivity.
      + destruct reply; try (exfalso; injection Hst as <-;
                               cbn [starve final trace] in Hnext;
                               exact (trace_not_longer _ _ _ Hnext)).
        destruct (result =? WAIT_INTERRUPTED); [discriminate Hst|].
        cbn [ret] in Hst, Hnext |- *.
        match type of Hst with
        | loop body ?w2 = _ => set (w2' := w2) in *
        end.
        match goal with
        | |- exists w', loop body ?w3 = _ /\ _ =>
            change w3 with (more w2' (Reply_wait WAIT_INTERRUPTED :: rest))
        end.
        match type of Hnext with
        | trace (final (loop body ?w3)) = _ =>
            change w3 with (more w2' (Reply_wait WAIT_INTERRUPTED :: rest))
              in Hnext
        end.
        apply IH.
        * cbn [w2' host]. cbn [length] in Hlen1. lia.
        * exact Hblock1.
        * split; [exact Hst|]. exists later. exact Hnext.
    - injection Hst as <-. exfalso.
      apply (aside_never_asks Call_signal_wait (Reply_wait WAIT_INTERRUPTED)
               (fun c => c = Call_WSAEnumNetworkEvents)
               ltac:(discriminate)
               (socket_update_events_unsafe event) w w1 rest Hur).
      apply (asks_next_first Call_signal_wait (Reply_wait WAIT_INTERRUPTED)
               (socket_update_events_unsafe event)
               (fun e w2 => match k e w2 with
                            | Done Continue w3 => loop body w3
                            | Done (Leave b) w3 => Done b w3
                            | Starved w3 => Starved w3
                            end) w w1 rest later).
      + apply (resumes_weaken (fun c => c = Call_WSAEnumNetworkEvents));
          [intros; exact I | exact Hur].
      + exact Hk.
      + exact Hu.
      + exact Hnext. }
  intros w0 rest Hblock. apply (Hn (S (length (host w)))); [lia | exact Hblock].
Qed.

Lemma socket_recvmsg_unsafe_orderly (msg_flags : Z) :
  orderly not_connect (socket_recvmsg_unsafe msg_flags).
Proof.
  unfold socket_recvmsg_unsafe.
  apply orderly_bind; [orderly_code|]. intros f.
  destruct (negb (type f =? LINUX_SOCK_DGRAM) && _)%bool;
    [apply socket_recvfrom_unsafe_orderly|].
  apply orderly_bind; [orderly_code|]. intros loaded.
  apply orderly_bind; [orderly_code|]. intros ioctl.
  destruct (negb (ioctl =? 0)); [apply orderly_ret|].
  apply recvmsg_loop_orderly.
Qed.

Lemma sendmmsg_loop_orderly
    (msg_flags : Z) (storage : sockaddr) (vlen : Z) (msgvec : list msghdr) :
  forall i, orderly not_connect (sendmmsg_loop msgvec i vlen msg_flags storage).
Proof.
  induction msgvec as [|msg rest IH]; intros i; cbn [sendmmsg_loop].
  - apply orderly_ret.
  - apply orderly_bind; [apply socket_sendmsg_unsafe_orderly|]. intros len.
    destruct ((i =? 0) && (len <? 0))%bool; [apply orderly_ret|].
    destruct ((i =? 0) && (len =? 0))%bool; [apply orderly_ret|].
    destruct (len <=? 0); [apply orderly_ret|].
    destruct (len <? iov_total (msg_iov msg)); [apply orderly_ret|].
    apply IH.
Qed.

(** The operations that neither poll nor wait, and do not connect. *)
Lemma single_call_orderly (op : vtable_call) (storage : sockaddr) :
  match op with
  | Op_listen | Op_shutdown _ | Op_getsockname _ | Op_getpeername _ => True
  | _ => False
  end ->
  orderly (fun c => plain c /\ not_connect c) (run_op op storage).
Proof.
  destruct op; intros Hop; try contradiction; cbn [run_op].
  - unfold socket_listen. orderly_code.
  - unfold socket_shutdown. orderly_code.
  - unfold socket_getsockname. orderly_code.
  - unfold socket_getpeername. orderly_code.
Qed.

Lemma connect_address_orderly (P : host_call -> Prop)
    (addr : sockaddr) (addrlen : Z) (storage : sockaddr) :
  P Call_vfs_openat -> P Call_winfs_read_special_file -> P Call_vfs_release ->
  orderly P (connect_address addr addrlen storage).
Proof. intros H1 H2 H3. unfold connect_address. orderly_code. Qed.

Lemma connect_address_keeps_flags
    (addr : sockaddr) (addrlen : Z) (storage : sockaddr) :
  keeps_flags (connect_address addr addrlen storage).
Proof.
  intros w a w' H.
  destruct (connect_address_run addr addrlen storage w) as (calls & Hext & _).
  rewrite H in Hext. apply Hext.
Qed.

Lemma socket_connect_cases (addr : sockaddr) (addrlen : Z) (storage : sockaddr) :
  socket_connect addr addrlen storage =
  (a <- connect_address addr addrlen storage ;;
   match a with
   | inl r => ret r
   | inr _ => connect_call
   end).
Proof. reflexivity. Qed.

Lemma connect_call_orderly : orderly (fun _ => True) connect_call.
Proof.
  unfold connect_call.
  apply orderly_bind; [orderly_code|]. intros reply.
  destruct reply; try apply orderly_starve; [apply orderly_ret|].
  apply orderly_bind; [orderly_code|]. intros err.
  destruct (negb (err =? WSAEWOULDBLOCK)); [apply orderly_ret|].
  apply orderly_bind; [orderly_code|]. intros f.
  destruct (Z.land (flags f) O_NONBLOCK >? 0); [apply orderly_ret|].
  apply orderly_bind; [apply socket_wait_event_orderly; exact I|].
  intros val. orderly_code.
Qed.

(** On a non-blocking socket, the call of the host's [connect] is all
    that [connect_call] does. *)
Lemma connect_call_nonblocking_script (w : world) :
  (Z.land (flags (file w)) O_NONBLOCK >? 0) = true ->
  connect_call w =
  match host w with
  | [] => Starved w
  | Reply_ok value :: _ => Done 0 (answered Call_connect (Reply_ok value) w)
  | Reply_error e :: _ =>
      Done (if negb (e =? WSAEWOULDBLOCK) then translate_socket_error e
            else - L_EINPROGRESS)
           (answered Call_connect (Reply_error e) w)
  | reply :: _ => Starved (answered Call_connect reply w)
  end.
Proof.
  intros Hnb. unfold connect_call, bind at 1, call, answered.
  destruct (host w) as [|reply rest]; [reflexivity|].
  destruct reply; cbn [tl starve ret]; try reflexivity.
  unfold bind at 1, WSAGetLastError. cbn [last_error].
  destruct (negb (error =? WSAEWOULDBLOCK)); [reflexivity|].
  unfold bind at 1, get_file. cbn [file]. rewrite Hnb. reflexivity.
Qed.

Lemma connect_call_in_progress (w w0 : world) (rest : list host_reply) :
  (Z.land (flags (file w)) O_NONBLOCK >? 0) = true ->
  asks_next connect_call w w0 Call_connect (Reply_error WSAEWOULDBLOCK) rest ->
  returns_after connect_call w w0 Call_connect (Reply_error WSAEWOULDBLOCK)
    rest (- L_EINPROGRESS).
Proof.
  intros Hnb (Hst & later & Hnext). unfold returns_after.
  rewrite connect_call_nonblocking_script in Hst, Hnext |- * by exact Hnb.
  cbn [more host] in Hnext |- *.
  destruct (host w) as [|reply tl] eqn:Hhost; cbn [app] in Hnext |- *.
  - injection Hst as <-. eexists. split; [reflexivity|].
    unfold answered. cbn [host trace more]. rewrite Hhost. split; reflexivity.
  - exfalso. destruct reply; try discriminate Hst;
      injection Hst as <-; cbn [final answered trace more] in Hnext;
      exact (trace_not_longer _ _ _ Hnext).
Qed.

Lemma connect_call_never_polls (w w0 : world) (reply : host_reply)
    (rest : list host_reply) :
  (Z.land (flags (file w)) O_NONBLOCK >? 0) = true ->
  ~ asks_next connect_call w w0 Call_WSAEnumNetworkEvents reply rest.
Proof.
  intros Hnb (Hst & later & Hnext).
  rewrite connect_call_nonblocking_script in Hst, Hnext by exact Hnb.
  cbn [more host] in Hnext.
  destruct (host w) as [|reply0 tl] eqn:Hhost; cbn [app] in Hnext.
  - injection Hst as <-.
    destruct reply; cbn [final answered trace more] in Hnext;
      apply same_next_exchange in Hnext; discriminate Hnext.
  - destruct reply0; try discriminate Hst;
      injection Hst as <-; cbn [final answered trace more] in Hnext;
      exact (trace_not_longer _ _ _ Hnext).
Qed.

(** ** The non-blocking contract *)

Lemma poll_not_plain : ~ plain Call_WSAEnumNetworkEvents.
Proof. intros [H _]. apply H. reflexivity. Qed.

Lemma wait_not_plain : ~ plain Call_signal_wait.
Proof. intros [_ H]. apply H. reflexivity. Qed.

(** A send, receive or accept on a non-blocking socket, or with
    [MSG_DONTWAIT]: when its poll finds the awaited event neither
    recorded nor reported, it returns [-EWOULDBLOCK]. *)
Lemma transfer_would_block (op : vtable_call) (storage : sockaddr)
    (w w0 : world) (ev err : Z) (rest : list host_reply) :
  transfers_or_accepts op = true ->
  nonblocking (file w) (msg_flags_of op) = true ->
  asks_next (run_op op storage) w w0
    Call_WSAEnumNetworkEvents (Reply_events ev err) rest ->
  bit_set (Z.lor (events (file w0)) ev) (awaited op) = false ->
  returns_after (run_op op storage) w w0
    Call_WSAEnumNetworkEvents (Reply_events ev err) rest (- L_EWOULDBLOCK).
Proof.
  apply (transfer_returns Call_WSAEnumNetworkEvents (Reply_events ev err)
           (- L_EWOULDBLOCK) true
           (fun event w1 => bit_set (Z.lor (events (file w1)) ev) event = false)).
  - exact poll_not_plain.
  - discriminate.
  - reflexivity.
  - discriminate.
  - intros event msg_flags w1 w2 rest1.
    apply socket_wait_event_would_block.
Qed.

(** [socket_sendmmsg]: when the first message would have to wait the
    call returns [-EWOULDBLOCK], when a later one would, the number of
    messages sent before it. *)
Lemma sendmmsg_loop_would_block
    (ev err : Z) (msg_flags : Z) (storage : sockaddr) (vlen : Z)
    (msgvec : list msghdr) :
  forall (i : Z) (w w0 : world) (rest : list host_reply),
    0 <= i ->
    nonblocking (file w) msg_flags = true ->
    asks_next (sendmmsg_loop msgvec i vlen msg_flags storage) w w0
      Call_WSAEnumNetworkEvents (Reply_events ev err) rest ->
    bit_set (Z.lor (events (file w0)) ev) FD_WRITE = false ->
    exists n,
      blocked_after msgvec msg_flags storage w w0 ev err rest n /\
      returns_after (sendmmsg_loop msgvec i vlen msg_flags storage) w w0
        Call_WSAEnumNetworkEvents (Reply_events ev err) rest
        (if i + n =? 0 then - L_EWOULDBLOCK else i + n).
Proof.
  induction msgvec as [|msg msgs IH];
    intros i w w0 rest Hi Hnb (Hst & later & Hnext) Hidle;
    cbn [sendmmsg_loop] in Hst, Hnext |- *; [discriminate Hst|].
  destruct (socket_sendmsg_unsafe_orderly msg msg_flags storage)
    as (Hs & _ & Hr).
  unfold returns_after. unfold bind in Hst, Hnext |- *.
  destruct (socket_sendmsg_unsafe msg msg_flags storage w) as [len w1|w1] eqn:Hm.
  - rewrite (Hs w len w1 _ Hm) in Hnext |- *.
    destruct ((i =? 0) && (len <? 0))%bool; [discriminate Hst|].
    destruct ((i =? 0) && (len =? 0))%bool; [discriminate Hst|].
    destruct (Z.leb_spec len 0) as [|Hpos]; [discriminate Hst|].
    destruct (Z.ltb_spec len (iov_total (msg_iov msg))) as [|Hfull];
      [discriminate Hst|].
    destruct (IH (i + 1) w1 w0 rest) as (n & Hblocked & Hret).
    + lia.
    + rewrite <- Hnb. apply nonblocking_flags.
      destruct (socket_sendmsg_unsafe_nonblocking msg msg_flags storage w Hnb)
        as (calls & Hext & _).
      rewrite Hm in Hext. apply Hext.
    + split; [exact Hst|]. exists later. exact Hnext.
    + exact Hidle.
    + destruct Hblocked
        as (sent & blocked & remaining & lens & w2 & -> & Hsent & Hlens
            & Hasks & ->).
      exists (Z.of_nat (length (msg :: sent))). split.
      * exists (msg :: sent), blocked, remaining, (len :: lens), w2.
        split; [reflexivity|]. split.
        { cbn [send_each]. unfold bind. rewrite Hm, Hsent. reflexivity. }
        split; [constructor; [split; assumption | exact Hlens]|].
        split; [exact Hasks | reflexivity].
      * replace (i + Z.of_nat (length (msg :: sent)))
          with (i + 1 + Z.of_nat (length sent)) by (cbn [length]; lia).
        exact Hret.
  - injection Hst as <-.
    assert (Hasks : asks_next (socket_sendmsg_unsafe msg msg_flags storage)
                      w w1 Call_WSAEnumNetworkEvents (Reply_events ev err) rest).
    { apply (asks_next_first Call_WSAEnumNetworkEvents (Reply_events ev err)
               (socket_sendmsg_unsafe msg msg_flags storage)
               (fun len w2 =>
                  (if (i =? 0) && (len <? 0) then ret len
                   else if (i =? 0) && (len =? 0) then ret (- L_EWOULDBLOCK)
                   else if len <=? 0 then ret i
                   else if len <? iov_total (msg_iov msg) then ret (i + 1)
                   else sendmmsg_loop msgs (i + 1) vlen msg_flags storage) w2)
               w w1 rest later).
      - apply (resumes_weaken not_connect); [intros; exact I | exact Hr].
      - intros len w2.
        destruct ((i =? 0) && (len <? 0))%bool;
          [apply (orderly_ret (fun _ => True))|].
        destruct ((i =? 0) && (len =? 0))%bool;
          [apply (orderly_ret (fun _ => True))|].
        destruct (len <=? 0); [apply (orderly_ret (fun _ => True))|].
        destruct (len <? iov_total (msg_iov msg));
          [apply (orderly_ret (fun _ => True))|].
        apply (orderly_any not_connect),
          (sendmmsg_loop_orderly msg_flags storage vlen msgs (i + 1)).
      - exact Hm.
      - exact Hnext. }
    destruct (transfer_would_block (Op_sendmsg msg msg_flags) storage
                w w1 ev err rest eq_refl Hnb Hasks Hidle)
      as (w' & Hdone & Hhost & Htrace).
    cbn [run_op] in Hdone. unfold socket_sendmsg in Hdone. rewrite Hdone.
    replace (- L_EWOULDBLOCK <? 0) with true by reflexivity.
    exists 0. split.
    + exists [], msg, msgs, [], w.
      split; [reflexivity|]. split; [reflexivity|].
      split; [constructor|]. split; [exact Hasks | reflexivity].
    + rewrite Z.add_0_r.
      destruct (Z.eqb_spec i 0) as [->|Hne]; cbn [andb ret].
      * exists w'. auto.
      * replace (- L_EWOULDBLOCK <=? 0) with true by reflexivity. cbn [ret].
        exists w'. auto.
Qed.

(** On a non-blocking socket [socket_connect] does not poll, and it
    answers the host's "would block" with [-EINPROGRESS]. *)
Lemma socket_connect_never_polls
    (addr : sockaddr) (addrlen : Z) (storage : sockaddr)
    (w w0 : world) (reply : host_reply) (rest : list host_reply) :
  nonblocking (file w) 0 = true ->
  ~ asks_next (socket_connect addr addrlen storage) w w0
      Call_WSAEnumNetworkEvents reply rest.
Proof.
  intros Hnb (Hst & later & Hnext).
  rewrite socket_connect_cases in Hst, Hnext. unfold bind in Hst, Hnext.
  destruct (connect_address_orderly plain addr addrlen storage)
    as (Hs & _ & Hr); try (split; discriminate).
  destruct (connect_address addr addrlen storage w) as [a w1|w1] eqn:Hm.
  - rewrite (Hs w a w1 _ Hm) in Hnext.
    destruct a as [val|u]; [discriminate Hst|].
    apply (connect_call_never_polls w1 w0 reply rest).
    + rewrite (connect_address_keeps_flags addr addrlen storage w _ w1 Hm).
      apply O_NONBLOCK_test. exact Hnb.
    + split; [exact Hst|]. exists later. exact Hnext.
  - injection Hst as <-.
    apply (aside_never_asks Call_WSAEnumNetworkEvents reply plain
             poll_not_plain (connect_address addr addrlen storage) w w1 rest Hr).
    apply (asks_next_first Call_WSAEnumNetworkEvents reply
             (connect_address addr addrlen storage)
             (fun a w2 => match a with
                          | inl val => ret val
                          | inr _ => connect_call
                          end w2) w w1 rest later).
    + apply (resumes_weaken plain); [intros; exact I | exact Hr].
    + intros [val|u] w2;
        [apply (orderly_ret (fun _ => True)) | apply connect_call_orderly].
    + exact Hm.
    + exact Hnext.
Qed.

Lemma socket_connect_in_progress
    (addr : sockaddr) (addrlen : Z) (storage : sockaddr)
    (w w0 : world) (rest : list host_reply) :
  nonblocking (file w) 0 = true ->
  asks_next (socket_connect addr addrlen storage) w w0
    Call_connect (Reply_error WSAEWOULDBLOCK) rest ->
  returns_after (socket_connect addr addrlen storage) w w0
    Call_connect (Reply_error WSAEWOULDBLOCK) rest (- L_EINPROGRESS).
Proof.
  intros Hnb Hasks. rewrite socket_connect_cases in Hasks |- *.
  destruct (connect_address_orderly not_connect addr addrlen storage)
    as (Hs & _ & Hr); try discriminate.
  apply (bind_returns Call_connect (Reply_error WSAEWOULDBLOCK) not_connect
           ltac:(intros H; apply H; reflexivity)
           (connect_address addr addrlen storage)
           (fun a => match a with inl val => ret val | inr _ => connect_call end)
           (fun w1 => (Z.land (flags (file w1)) O_NONBLOCK >? 0) = true)
           (fun _ => True) (- L_EINPROGRESS) Hs Hr).
  - intros w1 a w2 H Hflag.
    rewrite (connect_address_keeps_flags addr addrlen storage w1 a w2 H).
    exact Hflag.
  - intros [val|u];
      [apply (orderly_ret (fun _ => True)) | apply connect_call_orderly].
  - intros [val|u] w1 w2 rest1 Hflag Hasks1 _.
    + destruct Hasks1 as (Hst & _). discriminate Hst.
    + apply connect_call_in_progress; assumption.
  - apply O_NONBLOCK_test. exact Hnb.
  - exact Hasks.
  - exact I.
Qed.

(** The operations by what they can ask for. *)
Lemma run_op_never_connects (op : vtable_call) (storage : sockaddr) :
  (forall addr addrlen, op <> Op_connect addr addrlen) ->
  resumes not_connect (run_op op storage).
Proof.
  intros Hop.
  assert (Hsingle : forall op0,
             match op0 with
             | Op_listen | Op_shutdown _ | Op_getsockname _
             | Op_getpeername _ => True
             | _ => False
             end -> resumes not_connect (run_op op0 storage)).
  { intros op0 H0. apply (resumes_weaken (fun c => plain c /\ not_connect c)).
    - intros c0 [_ H]. exact H.
    - apply (single_call_orderly op0 storage H0). }
  destruct op as [| |mf da al|mf|msg mf|mf|msgvec mf| |caddr clen| |how|alen|alen];
    try (apply Hsingle; exact I); cbn [run_op].
  - apply socket_recvfrom_unsafe_orderly.
  - apply socket_sendto_unsafe_orderly.
  - apply socket_sendto_unsafe_orderly.
  - apply socket_recvfrom_unsafe_orderly.
  - apply socket_sendmsg_unsafe_orderly.
  - apply socket_recvmsg_unsafe_orderly.
  - apply sendmmsg_loop_orderly.
  - apply socket_accept4_orderly.
  - exfalso. apply (Hop caddr clen). reflexivity.
Qed.

(** A run without [signal_wait] is not about to wait. *)
Lemma quiet_never_waits_next {A : Type} (m : M A) (w w0 : world)
    (r : host_reply) (rest : list host_reply) :
  forward m ->
  (exists calls,
      trace (final (m (more w (r :: rest)))) = trace w ++ calls /\
      quiet calls) ->
  ~ asks_next m w w0 Call_signal_wait r rest.
Proof.
  intros Hf (calls & Ht & Hq) (Hst & later & Hnext).
  destruct (Hf w) as (c0 & H0). rewrite Hst in H0. cbn [final] in H0.
  rewrite Ht, H0, <- app_assoc in Hnext. apply app_inv_head in Hnext.
  subst calls. apply Forall_app in Hq. destruct Hq as [_ Hq].
  inversion Hq as [|x l Hx _]. apply Hx. reflexivity.
Qed.



(** ** Interrupted waits *)



(** ** Accepting a connection *)

(** X24.  A blocking [accept4] on a socket with no accept event
    recorded waits through any number of polls that do not report one;
    when a poll does and the host's [accept] delivers a socket, an event
    is made for it and the new file is stored: the descriptor that
    [vfs_store_file] returns is the result.  When the event cannot be
    made, the accepted socket is closed and the result is [-ENFILE];
    when the file cannot be stored, it is released and the error of
    [vfs_store_file] is the result.  No other call is made. *)
Theorem blocking_accept_completes
    (rounds : list round) (ev err sock : Z)
    (tail : list host_reply) (w : world) :
  nonblocking (file w) 0 = false ->
  bit_set (events (file w)) FD_ACCEPT = false ->
  Forall (waits_on FD_ACCEPT) rounds ->
  bit_set ev FD_ACCEPT = true ->
  host w = flat_map round_replies rounds
           ++ Reply_events ev err :: Reply_ok sock :: tail ->
  let accepted :=
    trace w ++ flat_map round_exchanges rounds
    ++ [(Call_WSAEnumNetworkEvents, Reply_events ev err);
        (Call_accept, Reply_ok sock)] in
  (forall handle fd rest,
      tail = Reply_ok handle :: Reply_ok fd :: rest -> 0 <= fd ->
      exists w',
        socket_accept4 w = Done fd w' /\ host w' = rest /\
        trace w' = accepted ++ [(Call_init_socket_event, Reply_ok handle);
                                (Call_vfs_store_file, Reply_ok fd)]) /\
  (forall e closed rest,
      tail = Reply_error e :: closed :: rest ->
      exists w',
        socket_accept4 w = Done (- L_ENFILE) w' /\ host w' = rest /\
        trace w' = accepted ++ [(Call_init_socket_event, Reply_error e);
                                (Call_closesocket, closed)]) /\
  (forall handle fd released rest,
      tail = Reply_ok handle :: Reply_ok fd :: released :: rest -> fd < 0 ->
      exists w',
        socket_accept4 w = Done fd w' /\ host w' = rest /\
        trace w' = accepted ++ [(Call_init_socket_event, Reply_ok handle);
                                (Call_vfs_store_file, Reply_ok fd);
                                (Call_vfs_release, released)]).
Proof.
  intros Hblock Hold Hrounds Hev Hhost. cbv zeta.
  destruct (socket_wait_event_script FD_ACCEPT 0 rounds ev err
              (Reply_ok sock :: tail) eq_refl Hrounds Hev w
              Hblock Hold Hhost)
    as (w1 & Hrun & Hhost1 & Htrace1 & _).
  set (w2 := polled FD_ACCEPT ev err w1) in *.
  assert (Hhost2 : host w2 = Reply_ok sock :: tail).
  { cbn [w2 polled host]. rewrite Hhost1. reflexivity. }
  assert (Htrace2 : trace w2 = trace w ++ flat_map round_exchanges rounds
                               ++ [(Call_WSAEnumNetworkEvents,
                                    Reply_events ev err)]).
  { cbn [w2 polled trace]. rewrite Htrace1, <- app_assoc. reflexivity. }
  clearbody w2.
  set (w3 := answered Call_accept (Reply_ok sock) w2).
  assert (Hhost3 : host w3 = tail).
  { cbn [w3 answered host]. rewrite Hhost2. reflexivity. }
  assert (Htrace3 : trace w3 = trace w ++ flat_map round_exchanges rounds
                               ++ [(Call_WSAEnumNetworkEvents,
                                    Reply_events ev err);
                                   (Call_accept, Reply_ok sock)]).
  { cbn [w3 answered trace]. rewrite Htrace2, <- !app_assoc. reflexivity. }
  assert (Hstart : forall k : host_reply -> M (step Z),
             (r <- socket_wait_event FD_ACCEPT 0 ;;
              if negb (r =? 0) then ret (Leave r)
              else reply <- call Call_accept ;; k reply) w
             = k (Reply_ok sock) w3).
  { intros k. unfold bind at 1. rewrite Hrun.
    change (negb (0 =? 0)) with false. cbv iota.
    unfold bind at 1. rewrite (call_script Call_accept w2 _ _ Hhost2).
    reflexivity. }
  unfold socket_accept4.
  rewrite loop_unfold by apply socket_accept4_loop_consumes.
  rewrite Hstart. clear Hstart. clearbody w3.
  split; [|split].
  - intros handle fd rest Htail Hfd. rewrite Htail in Hhost3.
    unfold bind at 1.
    rewrite (call_script Call_init_socket_event w3 _ _ Hhost3).
    unfold bind at 1.
    match goal with
    | |- context [call Call_vfs_store_file ?w0] =>
        rewrite (call_script Call_vfs_store_file w0 (Reply_ok fd) rest)
          by (cbn [answered host]; rewrite Hhost3; reflexivity)
    end.
    replace (fd <? 0) with false by (symmetry; apply Z.ltb_ge; exact Hfd).
    unfold bind at 1. cbn [ret].
    eexists. split; [reflexivity|].
    cbn [answered host trace]. rewrite Hhost3, Htrace3, <- !app_assoc.
    split; reflexivity.
  - intros e closed rest Htail. rewrite Htail in Hhost3.
    unfold bind at 1.
    rewrite (call_script Call_init_socket_event w3 _ _ Hhost3).
    unfold bind at 1.
    match goal with
    | |- context [call Call_closesocket ?w0] =>
        rewrite (call_script Call_closesocket w0 closed rest)
          by (cbn [answered host]; rewrite Hhost3; reflexivity)
    end.
    cbn [ret]. eexists. split; [reflexivity|].
    cbn [answered host trace]. rewrite Hhost3, Htrace3, <- !app_assoc.
    split; reflexivity.
  - intros handle fd released rest Htail Hfd. rewrite Htail in Hhost3.
    unfold bind at 1.
    rewrite (call_script Call_init_socket_event w3 _ _ Hhost3).
    unfold bind at 1.
    match goal with
    | |- context [call Call_vfs_store_file ?w0] =>
        rewrite (call_script Call_vfs_store_file w0 (Reply_ok fd)
                   (released :: rest))
          by (cbn [answered host]; rewrite Hhost3; reflexivity)
    end.
    replace (fd <? 0) with true by (symmetry; apply Z.ltb_lt; exact Hfd).
    unfold bind at 1, bind at 1.
    match goal with
    | |- context [call Call_vfs_release ?w0] =>
        rewrite (call_script Call_vfs_release w0 released rest)
          by (cbn [answered host]; rewrite Hhost3; reflexivity)
    end.
    cbn [ret]. eexists. split; [reflexivity|].
    cbn [answered host trace]. rewrite Hhost3, Htrace3, <- !app_assoc.
    split; reflexivity.
Qed.

Lemma blocking_accept_completes_witness :
  exists w',
    socket_accept4
      (example_world (example_socket 0 LINUX_AF_INET)
         [Reply_events 0 0; Reply_wait WAIT_OBJECT_0;
          Reply_events FD_ACCEPT 0; Reply_ok 700;
          Reply_error 8; Reply_ok 0])
    = Done (- L_ENFILE) w' /\
    host w' = [] /\
    trace w' = [(Call_WSAEnumNetworkEvents, Reply_events 0 0);
                (Call_signal_wait, Reply_wait WAIT_OBJECT_0);
                (Call_WSAEnumNetworkEvents, Reply_events FD_ACCEPT 0);
                (Call_accept, Reply_ok 700);
                (Call_init_socket_event, Reply_error 8);
                (Call_closesocket, Reply_ok 0)].
Proof.
  destruct (blocking_accept_completes [(0, 0, WAIT_OBJECT_0)] FD_ACCEPT 0 700
              [Reply_error 8; Reply_ok 0]
              (example_world (example_socket 0 LINUX_AF_INET)
                 [Reply_events 0 0; Reply_wait WAIT_OBJECT_0;
                  Reply_events FD_ACCEPT 0; Reply_ok 700;
                  Reply_error 8; Reply_ok 0]))
    as (_ & Hclosed & _).
  - reflexivity.
  - reflexivity.
  - repeat constructor. vm_compute. discriminate.
  - reflexivity.
  - reflexivity.
  - apply (Hclosed 8 (Reply_ok 0) []). reflexivity.
Defined.

(** ** Receiving a message on a datagram socket *)

(** The loop of [socket_recvmsg_unsafe] on a blocking socket: after
    rounds that find nothing, a poll that reports data and a host call
    that succeeds. *)
Lemma recvmsg_loop_script
    (msg_flags : Z) (rounds : list round) (ev err n : Z)
    (rest : list host_reply) (w : world) :
  nonblocking (file w) msg_flags = false ->
  bit_set (events (file w)) (Z.lor FD_READ FD_CLOSE) = false ->
  Forall (waits_on (Z.lor FD_READ FD_CLOSE)) rounds ->
  bit_set ev (Z.lor FD_READ FD_CLOSE) = true ->
  host w = flat_map round_replies rounds
           ++ Reply_events ev err :: Reply_ok n :: rest ->
  exists w',
    loop (
      r <- socket_wait_event (Z.lor FD_READ FD_CLOSE) msg_flags ;;
      let r := DWORD_of_int r in
      if negb (r =? 0) then ret (Leave (int_of_DWORD r))
      else
        reply <- call Call_WSARecvMsg ;;
        match reply with
        | Reply_ok received => ret (Leave (int_of_DWORD received))
        | Reply_error _ =>
            clear_event FD_READ ;;;
            err <- WSAGetLastError ;;
            if negb (err =? WSAEWOULDBLOCK)
            then ret (Leave (translate_socket_error err))
            else ret Continue
        | _ => starve
        end) w
    = Done (int_of_DWORD n) w' /\
    host w' = rest /\
    WSARecvMsg_loaded w' = WSARecvMsg_loaded w /\
    trace w' = trace w ++ flat_map round_exchanges rounds
               ++ [(Call_WSAEnumNetworkEvents, Reply_events ev err);
                   (Call_WSARecvMsg, Reply_ok n)] /\
    bit_set (events (file w')) FD_READ = bit_set ev FD_READ.
Proof.
  intros Hblock Hold Hrounds Hev Hhost.
  destruct (socket_wait_event_script (Z.lor FD_READ FD_CLOSE) msg_flags
              rounds ev err (Reply_ok n :: rest) eq_refl Hrounds Hev w
              Hblock Hold Hhost)
    as (w1 & Hrun & Hhost1 & Htrace1 & _ & _ & _ & Hloaded1 & Hold1).
  apply bit_set_part in Hold1. destruct Hold1 as [Hread1 _].
  rewrite loop_unfold by apply socket_recvmsg_loop_consumes.
  unfold bind at 1. rewrite Hrun. cbv zeta.
  change (negb (DWORD_of_int 0 =? 0)) with false. cbv iota.
  set (w2 := polled (Z.lor FD_READ FD_CLOSE) ev err w1).
  assert (Hhost2 : host w2 = Reply_ok n :: rest).
  { cbn [w2 polled host]. rewrite Hhost1. reflexivity. }
  unfold bind at 1. rewrite (call_script Call_WSARecvMsg w2 _ _ Hhost2).
  cbn [ret]. eexists. split; [reflexivity|].
  cbn [answered host trace file WSARecvMsg_loaded]. rewrite Hhost2.
  split; [reflexivity|].
  cbn [w2 polled WSARecvMsg_loaded trace file events].
  rewrite not_connect_within by reflexivity.
  split; [exact Hloaded1|].
  split; [rewrite Htrace1, <- !app_assoc; reflexivity|].
  rewrite bit_set_lor, bit_set_tracked, Hread1 by reflexivity.
  reflexivity.
Qed.

(** X25.  [recvmsg] on a datagram or raw socket.  The host's
    [WSARecvMsg] is an extension that is fetched with [WSAIoctl] before
    the first use: when that fails, the call returns [-EIO] and nothing
    else has been asked of the host; once it is there, it is not
    fetched again.  A blocking call then waits for a read or close
    event and returns the count of the host's [WSARecvMsg]; unlike
    [recvfrom] it leaves the read event recorded. *)
Theorem datagram_recvmsg
    (msg_flags : Z) (rounds : list round) (ev err n : Z)
    (rest : list host_reply) (w : world) :
  type (file w) = LINUX_SOCK_DGRAM \/ type (file w) = LINUX_SOCK_RAW ->
  let received (fetched : list exchange) (r : run Z) :=
    exists w',
      r = Done (int_of_DWORD n) w' /\
      host w' = rest /\
      WSARecvMsg_loaded w' = true /\
      trace w' = trace w ++ fetched ++ flat_map round_exchanges rounds
                 ++ [(Call_WSAEnumNetworkEvents, Reply_events ev err);
                     (Call_WSARecvMsg, Reply_ok n)] /\
      bit_set (events (file w')) FD_READ = bit_set ev FD_READ in
  let ready :=
    flat_map round_replies rounds
    ++ Reply_events ev err :: Reply_ok n :: rest in
  (forall e,
      WSARecvMsg_loaded w = false -> host w = Reply_error e :: rest ->
      exists w',
        socket_recvmsg_unsafe msg_flags w = Done (- L_EIO) w' /\
        host w' = rest /\
        trace w' = trace w ++ [(Call_WSAIoctl, Reply_error e)]) /\
  (nonblocking (file w) msg_flags = false ->
   bit_set (events (file w)) (Z.lor FD_READ FD_CLOSE) = false ->
   Forall (waits_on (Z.lor FD_READ FD_CLOSE)) rounds ->
   bit_set ev (Z.lor FD_READ FD_CLOSE) = true ->
   (forall pointer,
       WSARecvMsg_loaded w = false -> host w = Reply_ok pointer :: ready ->
       received [(Call_WSAIoctl, Reply_ok pointer)]
         (socket_recvmsg_unsafe msg_flags w)) /\
   (WSARecvMsg_loaded w = true -> host w = ready ->
    received [] (socket_recvmsg_unsafe msg_flags w))).
Proof.
  intros Htype. cbv zeta.
  assert (Hdgram : negb (type (file w) =? LINUX_SOCK_DGRAM)
                   && negb (type (file w) =? LINUX_SOCK_RAW) = false).
  { destruct Htype as [-> | ->]; reflexivity. }
  assert (Hstart :
            socket_recvmsg_unsafe msg_flags w =
            (ioctl <-
               (if WSARecvMsg_loaded w then ret 0
                else
                  reply <- call Call_WSAIoctl ;;
                  match reply with
                  | Reply_ok _ => set_WSARecvMsg ;;; ret 0
                  | Reply_error _ => ret (- L_EIO)
                  | _ => starve
                  end) ;;
             if negb (ioctl =? 0) then ret ioctl
             else
               loop (
                 r <- socket_wait_event (Z.lor FD_READ FD_CLOSE) msg_flags ;;
                 let r := DWORD_of_int r in
                 if negb (r =? 0) then ret (Leave (int_of_DWORD r))
                 else
                   reply <- call Call_WSARecvMsg ;;
                   match reply with
                   | Reply_ok received => ret (Leave (int_of_DWORD received))
                   | Reply_error _ =>
                       clear_event FD_READ ;;;
                       err <- WSAGetLastError ;;
                       if negb (err =? WSAEWOULDBLOCK)
                       then ret (Leave (translate_socket_error err))
                       else ret Continue
                   | _ => starve
                   end)) w).
  { unfold socket_recvmsg_unsafe.
    unfold bind at 1, get_file at 1. rewrite Hdgram.
    unfold bind at 1, get_WSARecvMsg at 1. reflexivity. }
  cbv beta. rewrite Hstart. clear Hstart.
  split.
  - intros e -> Hhost. unfold bind at 1, bind at 1.
    rewrite (call_script Call_WSAIoctl w _ _ Hhost). cbn [ret].
    change (negb (- L_EIO =? 0)) with true. cbv iota.
    eexists. split; [reflexivity|].
    cbn [answered host trace]. rewrite Hhost. split; reflexivity.
  - intros Hblock Hold Hrounds Hev. split.
    + intros pointer -> Hhost. unfold bind at 1, bind at 1.
      rewrite (call_script Call_WSAIoctl w _ _ Hhost).
      unfold bind at 1, set_WSARecvMsg at 1. cbn [ret].
      change (negb (0 =? 0)) with false. cbv iota.
      match goal with
      | |- context [loop _ ?w0] => set (w1 := w0)
      end.
      destruct (recvmsg_loop_script msg_flags rounds ev err n rest w1)
        as (w' & Hrun & Hhost' & Hloaded' & Htrace' & Hread');
        try assumption.
      { cbn [w1 host answered]. rewrite Hhost. reflexivity. }
      exists w'. split; [exact Hrun|]. split; [exact Hhost'|].
      split; [exact Hloaded'|]. split; [|exact Hread'].
      rewrite Htrace'. cbn [w1 trace answered].
      rewrite <- !app_assoc. reflexivity.
    + intros Hloaded Hhost. rewrite Hloaded.
      unfold bind at 1. cbn [ret].
      change (negb (0 =? 0)) with false. cbv iota.
      destruct (recvmsg_loop_script msg_flags rounds ev err n rest w)
        as (w' & Hrun & Hhost' & Hloaded' & Htrace' & Hread');
        try assumption.
      exists w'. split; [exact Hrun|]. split; [exact Hhost'|].
      split; [congruence|]. split; [exact Htrace' | exact Hread'].
Qed.

Lemma datagram_recvmsg_witness :
  exists w',
    socket_recvmsg_unsafe 0
      (example_world (example_datagram_socket 0 LINUX_AF_INET)
         [Reply_error WSAEOPNOTSUPP])
    = Done (- L_EIO) w' /\
    host w' = [] /\
    trace w' = [(Call_WSAIoctl, Reply_error WSAEOPNOTSUPP)].
Proof.
  destruct (datagram_recvmsg 0 [] 0 0 0 []
              (example_world (example_datagram_socket 0 LINUX_AF_INET)
                 [Reply_error WSAEOPNOTSUPP]))
    as (Hfail & _).
  - left. reflexivity.
  - apply (Hfail WSAEOPNOTSUPP); reflexivity.
Defined.

(** ** Connecting a UNIX socket *)

(** Enter [socket_connect] on a UNIX socket. *)
Ltac enter_connect Haf :=
  unfold socket_connect, connect_address;
  unfold bind at 1; unfold bind at 1, get_file at 1;
  rewrite Haf, Z.eqb_refl.

(** X26.  [connect] on a UNIX socket.  An address of at most two bytes,
    of another family or with an empty path is refused before anything
    is called.  For a named address the socket file is opened through
    the VFS; a failure there is returned as it is.  The port is then
    read from the file and the file is released, whatever was read; a
    read error is returned, and a file that is not a socket file or
    holds no number gives [-ECONNREFUSED].  Only with a port does the
    call go on to the host's [connect]. *)
Theorem socket_connect_unix
    (addr : sockaddr) (addrlen : Z) (storage : sockaddr) (w : world) :
  af (file w) = LINUX_AF_UNIX ->
  let r := socket_connect addr addrlen storage w in
  let named :=
    sizeof_ss_family < addrlen /\
    ss_family addr = LINUX_AF_UNIX /\
    Z_of_byte (nth 2 addr x00) <> 0 in
  (addrlen <= sizeof_ss_family -> r = Done (- L_EINVAL) w) /\
  (sizeof_ss_family < addrlen -> ss_family addr <> LINUX_AF_UNIX ->
   r = Done (- L_EAFNOSUPPORT) w) /\
  (sizeof_ss_family < addrlen -> ss_family addr = LINUX_AF_UNIX ->
   Z_of_byte (nth 2 addr x00) = 0 -> r = Done (- L_EINVAL) w) /\
  (named ->
   forall opened rest,
     host w = Reply_ok opened :: rest -> opened < 0 ->
     exists w',
       r = Done opened w' /\ host w' = rest /\
       trace w' = trace w ++ [(Call_vfs_openat, Reply_ok opened)]) /\
  (named ->
   forall opened read port released rest,
     host w = Reply_ok opened :: Reply_port read port :: released :: rest ->
     0 <= opened ->
     let released_again :=
       trace w ++ [(Call_vfs_openat, Reply_ok opened);
                   (Call_winfs_read_special_file, Reply_port read port);
                   (Call_vfs_release, released)] in
     (read <= 0 \/ port = None ->
      exists w',
        r = Done (if read <? 0 then read else - L_ECONNREFUSED) w' /\
        host w' = rest /\ trace w' = released_again) /\
     (0 < read -> port <> None ->
      forall connected rest',
        rest = Reply_ok connected :: rest' ->
        exists w',
          r = Done 0 w' /\ host w' = rest' /\
          trace w' = released_again ++ [(Call_connect, Reply_ok connected)])).
Proof.
  intros Haf. cbv zeta.
  assert (Hnamed :
            sizeof_ss_family < addrlen /\
            ss_family addr = LINUX_AF_UNIX /\
            Z_of_byte (nth 2 addr x00) <> 0 ->
            (addrlen <=? sizeof_ss_family) = false /\
            (ss_family addr =? LINUX_AF_UNIX) = true /\
            (addrlen =? 0) = false /\
            (Z_of_byte (nth 2 addr x00) =? 0) = false).
  { intros (Hlen & Hfam & Hpath).
    split; [apply Z.leb_gt; exact Hlen|].
    split; [apply Z.eqb_eq; exact Hfam|].
    split; [|apply Z.eqb_neq; exact Hpath].
    apply Z.eqb_neq. unfold sizeof_ss_family in Hlen. lia. }
  split; [|split; [|split; [|split]]].
  - intros Hlen. enter_connect Haf.
    replace (addrlen <=? sizeof_ss_family) with true
      by (symmetry; apply Z.leb_le; exact Hlen).
    reflexivity.
  - intros Hlen Hfam. enter_connect Haf.
    replace (addrlen <=? sizeof_ss_family) with false
      by (symmetry; apply Z.leb_gt; exact Hlen).
    destruct (Z.eqb_spec (ss_family addr) LINUX_AF_UNIX); [contradiction|].
    reflexivity.
  - intros Hlen Hfam Hpath. enter_connect Haf.
    replace (addrlen <=? sizeof_ss_family) with false
      by (symmetry; apply Z.leb_gt; exact Hlen).
    rewrite Hfam, Hpath, !Z.eqb_refl. cbn [negb].
    destruct (addrlen =? 0); reflexivity.
  - intros Hn opened rest Hhost Hneg. enter_connect Haf.
    destruct (Hnamed Hn) as (-> & -> & -> & ->). cbn [negb].
    unfold bind at 1. rewrite (call_script Call_vfs_openat w _ _ Hhost).
    replace (opened <? 0) with true by (symmetry; apply Z.ltb_lt; exact Hneg).
    cbn [ret]. eexists. split; [reflexivity|].
    cbn [answered host trace]. rewrite Hhost. split; reflexivity.
  - intros Hn opened read port released rest Hhost Hpos.
    set (w1 := answered Call_vfs_openat (Reply_ok opened) w).
    assert (Hhost1 : host w1 = Reply_port read port :: released :: rest).
    { cbn [w1 answered host]. rewrite Hhost. reflexivity. }
    set (w2 := answered Call_winfs_read_special_file (Reply_port read port) w1).
    assert (Hhost2 : host w2 = released :: rest).
    { cbn [w2 answered host]. rewrite Hhost1. reflexivity. }
    set (w3 := answered Call_vfs_release released w2).
    assert (Hhost3 : host w3 = rest).
    { cbn [w3 answered host]. rewrite Hhost2. reflexivity. }
    assert (Htrace3 : trace w3 =
                      trace w ++ [(Call_vfs_openat, Reply_ok opened);
                                  (Call_winfs_read_special_file,
                                   Reply_port read port);
                                  (Call_vfs_release, released)]).
    { cbn [w3 w2 w1 answered trace]. rewrite <- !app_assoc. reflexivity. }
    assert (Hrun : socket_connect addr addrlen storage w =
                   (if read <? 0 then ret read
                    else if read =? 0 then ret (- L_ECONNREFUSED)
                    else
                      match port with
                      | None => ret (- L_ECONNREFUSED)
                      | Some _ =>
                          reply <- call Call_connect ;;
                          match reply with
                          | Reply_ok _ => ret 0
                          | Reply_error _ =>
                              err <- WSAGetLastError ;;
                              if negb (err =? WSAEWOULDBLOCK)
                              then ret (translate_socket_error err)
                              else
                                f <- get_file ;;
                                if Z.land (flags f) O_NONBLOCK >? 0
                                then ret (- L_EINPROGRESS)
                                else
                                  socket_wait_event FD_CONNECT 0 ;;;
                                  err <- WSAGetLastError ;;
                                  ret (translate_socket_error err)
                          | _ => starve
                          end
                      end) w3).
    { enter_connect Haf.
      destruct (Hnamed Hn) as (-> & -> & -> & ->). cbn [negb].
      unfold bind at 1. rewrite (call_script Call_vfs_openat w _ _ Hhost).
      replace (opened <? 0) with false
        by (symmetry; apply Z.ltb_ge; exact Hpos).
      fold w1. unfold bind at 1.
      rewrite (call_script Call_winfs_read_special_file w1 _ _ Hhost1).
      fold w2. unfold bind at 1.
      rewrite (call_script Call_vfs_release w2 _ _ Hhost2).
      fold w3.
      destruct (read <? 0); [reflexivity|].
      destruct (read =? 0); [reflexivity|].
      destruct port; reflexivity. }
    rewrite Hrun. clear Hrun. clearbody w3. split.
    + intros Hbad. exists w3.
      split; [|split; [exact Hhost3 | exact Htrace3]].
      destruct (Z.ltb_spec read 0) as [Hneg|Hnn]; [reflexivity|].
      destruct (Z.eqb_spec read 0) as [Hz|Hnz]; [reflexivity|].
      destruct Hbad as [Hle | ->]; [lia | reflexivity].
    + intros Hread Hport connected rest' Hrest. rewrite Hrest in Hhost3.
      replace (read <? 0) with false by (symmetry; apply Z.ltb_ge; lia).
      replace (read =? 0) with false by (symmetry; apply Z.eqb_neq; lia).
      destruct port as [p|]; [|contradiction Hport; reflexivity].
      unfold bind at 1.
      rewrite (call_script Call_connect w3 _ _ Hhost3). cbn [ret].
      eexists. split; [reflexivity|].
      cbn [answered host trace]. rewrite Hhost3, Htrace3.
      split; reflexivity.
Qed.

Lemma socket_connect_unix_witness :
  exists w',
    socket_connect example_un 5 example_storage
      (example_world (example_socket 0 LINUX_AF_UNIX)
         [Reply_ok 0; Reply_port 0 None; Reply_ok 0])
    = Done (- L_ECONNREFUSED) w' /\
    host w' = [] /\
    trace w' = [(Call_vfs_openat, Reply_ok 0);
                (Call_winfs_read_special_file, Reply_port 0 None);
                (Call_vfs_release, Reply_ok 0)].
Proof.
  destruct (socket_connect_unix example_un 5 example_storage
              (example_world (example_socket 0 LINUX_AF_UNIX)
                 [Reply_ok 0; Reply_port 0 None; Reply_ok 0]) eq_refl)
    as (_ & _ & _ & _ & Hopened).
  destruct (Hopened ltac:(vm_compute; repeat split; discriminate)
              0 0 None (Reply_ok 0) [] eq_refl ltac:(lia))
    as (Hrefused & _).
  apply Hrefused. left. lia.
Defined.

(** X12.  [sendmmsg] reports progress rather than a later failure.  When
    at least one message has been sent in full and the next one fails, or
    transfers nothing, the call stops there and returns the number of
    messages sent before it; the error is not reported. *)
Theorem sendmmsg_later_failure
    (msg_flags : Z) (storage : sockaddr)
    (pre : list msghdr) (msg : msghdr) (post : list msghdr)
    (w w1 w2 : world) (lens : list Z) (len : Z) :
  pre <> [] ->
  Forall fits_int pre ->
  send_each pre msg_flags storage w = Done lens w1 ->
  Forall2 sent_fully pre lens ->
  socket_sendmsg_unsafe msg msg_flags storage w1 = Done len w2 ->
  len <= 0 ->
  socket_sendmmsg (pre ++ msg :: post) msg_flags storage w
  = Done (Z.of_nat (length pre)) w2.
Proof.
  intros Hpre Hfit Hsend Hfull Hmsg Hlen. unfold socket_sendmmsg.
  rewrite (sendmmsg_loop_prefix _ _ _ pre (msg :: post) 0 w w1 lens
             Hfit Hsend Hfull).
  cbn [sendmmsg_loop]. unfold bind. rewrite Hmsg.
  assert (Hi : (0 + Z.of_nat (length pre) =? 0) = false).
  { apply Z.eqb_neq. destruct pre; [contradiction | cbn [length]; lia]. }
  rewrite Hi. cbn [andb].
  replace (len <=? 0) with true by (symmetry; apply Z.leb_le; exact Hlen).
  reflexivity.
Qed.

Lemma sendmmsg_later_failure_witness :
  exists w',
    socket_sendmmsg [example_msg [5]; example_msg [3; 4]; example_msg [1]]
      0 example_storage
      (example_world (example_datagram_socket 0 LINUX_AF_INET)
         [Reply_events FD_WRITE 0; Reply_ok 5;
          Reply_events 0 0; Reply_error WSAECONNRESET])
    = Done 1 w'.
Proof.
  eexists.
  eapply (sendmmsg_later_failure 0 example_storage
            [example_msg [5]] (example_msg [3; 4]) [example_msg [1]])
    with (lens := [5]) (len := - L_ECONNRESET).
  - discriminate.
  - repeat constructor; unfold iov_sum, int_max; cbn; lia.
  - vm_compute. reflexivity.
  - repeat constructor; cbn; lia.
  - vm_compute. reflexivity.
  - vm_compute. discriminate.
Defined.

Lemma ss_family_firstn (a : sockaddr) (n : nat) :
  (2 <= n)%nat -> ss_family (firstn n a) = ss_family a.
Proof.
  intros Hn. destruct n as [|[|m]]; try lia.
  destruct a as [|b0 [|b1 r]]; reflexivity.
Qed.

(** What the two name queries hand back when the host's call succeeds
    with the address [a] of [len] bytes. *)
Lemma name_copied_out (addrlen : Z) (a : sockaddr) (len : Z) :
  let r := let (len', a') := translate_socket_addr_to_linux a len in
           copy_out addrlen a' len' in
  let n := Z.to_nat (Z.min addrlen len) in
  exists bytes,
    r = {| name_ret := 0; name_written := Some (bytes, len) |} /\
    (length bytes <= Z.to_nat addrlen)%nat /\
    ((Z.to_nat len <= length a)%nat -> (2 <= length a)%nat ->
     length bytes = n) /\
    skipn 2 bytes = skipn 2 (firstn n a) /\
    ((2 <= n)%nat -> (2 <= length a)%nat ->
     ss_family bytes =
     if ss_family a =? AF_INET6 then LINUX_AF_INET6 else ss_family a).
Proof.
  cbv zeta. unfold translate_socket_addr_to_linux, copy_out.
  set (n := Z.to_nat (Z.min addrlen len)).
  destruct (ss_family a =? AF_INET6); eexists; (split; [reflexivity|]).
  - split; [rewrite length_firstn; lia|].
    split; [intros Hlen Ha; rewrite length_firstn, length_set_ss_family
                                by exact Ha; lia|].
    split.
    + rewrite !skipn_firstn_comm. f_equal.
    + intros Hn Ha. rewrite ss_family_firstn by exact Hn.
      apply ss_family_set. unfold LINUX_AF_INET6. lia.
  - split; [rewrite length_firstn; lia|].
    split; [intros Hlen Ha; rewrite length_firstn; lia|].
    split; [reflexivity|].
    intros Hn Ha. apply ss_family_firstn. exact Hn.
Qed.

(** X13.  [getsockname] and [getpeername] when the host's call succeeds
    with an address [a] of [len] bytes: the call returns 0 and stores
    [len], the full length, in [*addrlen]; it writes no more bytes than
    the caller's buffer holds -- [min(addrlen, len)] of them; the family
    field written is Linux's [AF_INET6] where the host's is [AF_INET6],
    and every other byte is the host's. *)
Theorem socket_name_success
    (addrlen : Z) (storage a : sockaddr) (len : Z)
    (rest : list host_reply) (w : world) :
  host w = Reply_sockaddr a len :: rest ->
  let n := Z.to_nat (Z.min addrlen len) in
  let handed_back (r : run name_result) :=
    exists bytes w',
      r = Done {| name_ret := 0; name_written := Some (bytes, len) |} w' /\
      host w' = rest /\
      (length bytes <= Z.to_nat addrlen)%nat /\
      ((Z.to_nat len <= length a)%nat -> (2 <= length a)%nat ->
       length bytes = n) /\
      skipn 2 bytes = skipn 2 (firstn n a) /\
      ((2 <= n)%nat -> (2 <= length a)%nat ->
       ss_family bytes =
       if ss_family a =? AF_INET6 then LINUX_AF_INET6 else ss_family a) in
  handed_back (socket_getsockname addrlen storage w) /\
  handed_back (socket_getpeername addrlen w).
Proof.
  intros Hhost. cbv zeta.
  destruct (name_copied_out addrlen a len)
    as (bytes & Hr & Hmax & Hlen & Hrest & Hfam).
  cbv zeta in Hr.
  split; exists bytes; eexists;
    unfold socket_getsockname, socket_getpeername, bind.
  - rewrite (call_script Call_getsockname w _ _ Hhost).
    rewrite <- Hr.
    split; [destruct (translate_socket_addr_to_linux a len); reflexivity|].
    cbn [answered host]. rewrite Hhost.
    repeat split; assumption.
  - rewrite (call_script Call_getpeername w _ _ Hhost).
    rewrite <- Hr.
    split; [destruct (translate_socket_addr_to_linux a len); reflexivity|].
    cbn [answered host]. rewrite Hhost.
    repeat split; assumption.
Qed.

Lemma socket_name_success_witness :
  exists bytes w',
    socket_getsockname 16 example_storage
      (example_world (example_socket 0 LINUX_AF_INET6)
         [Reply_sockaddr (set_ss_family example_in6 AF_INET6) 28])
    = Done {| name_ret := 0; name_written := Some (bytes, 28) |} w' /\
    length bytes = 16%nat /\
    ss_family bytes = LINUX_AF_INET6.
Proof.
  destruct (socket_name_success 16 example_storage
              (set_ss_family example_in6 AF_INET6) 28 []
              (example_world (example_socket 0 LINUX_AF_INET6)
                 [Reply_sockaddr (set_ss_family example_in6 AF_INET6) 28])
              eq_refl)
    as ((bytes & w' & Hrun & _ & _ & Hlen & _ & Hfam) & _).
  exists bytes, w'. split; [exact Hrun|].
  split; [apply Hlen; vm_compute; lia | apply Hfam; vm_compute; lia].
Defined.

(** ** The poll interface *)

(** X14.  The poll status of a socket.  [socket_get_poll_status] makes
    one poll of the host and reports [POLLIN] exactly when a read or a
    close event is pending, [POLLHUP] exactly when a close event is,
    [POLLOUT] exactly when a write event is, and no other bit; every
    bit it reports is one that [socket_get_poll_handle] announces, apart
    from [POLLHUP].  Asking consumes nothing: the events seen stay
    recorded, a pending connect event and its error code included, and
    the thread's last error is untouched. *)
Theorem socket_get_poll_status_mask
    (ev err : Z) (w : world) (rest : list host_reply) :
  host w = Reply_events ev err :: rest ->
  let seen := Z.lor (events (file w)) (Z.land ev tracked_events) in
  exists status w',
    socket_get_poll_status w = Done status w' /\
    bit_set status LINUX_POLLIN
      = bit_set seen FD_READ || bit_set seen FD_CLOSE /\
    bit_set status LINUX_POLLHUP = bit_set seen FD_CLOSE /\
    bit_set status LINUX_POLLOUT = bit_set seen FD_WRITE /\
    Z.land status (Z.lnot (Z.lor socket_get_poll_handle LINUX_POLLHUP)) = 0 /\
    host w' = rest /\
    events (file w') = seen /\
    last_error w' = last_error w.
Proof.
  intros Hhost. cbv zeta.
  unfold socket_get_poll_status, bind.
  rewrite (socket_update_events_unsafe_script 0 ev err w rest Hhost).
  set (seen := Z.lor (events (file w)) (Z.land ev tracked_events)).
  eexists. eexists. split; [reflexivity|].
  assert (Hkeep : bit_set (Z.land 0 seen) FD_CONNECT = false) by reflexivity.
  unfold polled. fold seen. rewrite Hkeep.
  cbn [host file events last_error]. rewrite Hhost. cbn [tl].
  destruct (bit_set seen FD_READ), (bit_set seen FD_CLOSE),
    (bit_set seen FD_WRITE); repeat split.
Qed.

Lemma socket_get_poll_status_mask_witness :
  exists status w',
    socket_get_poll_status
      (example_world (example_socket 0 LINUX_AF_INET)
         [Reply_events (Z.lor FD_CLOSE FD_CONNECT) WSAECONNRESET])
    = Done status w' /\
    status = Z.lor LINUX_POLLIN LINUX_POLLHUP /\
    events (file w') = Z.lor FD_CLOSE FD_CONNECT /\
    last_error w' = 0.
Proof.
  destruct (socket_get_poll_status_mask (Z.lor FD_CLOSE FD_CONNECT)
              WSAECONNRESET
              (example_world (example_socket 0 LINUX_AF_INET)
                 [Reply_events (Z.lor FD_CLOSE FD_CONNECT) WSAECONNRESET])
              [] eq_refl)
    as (status & w' & Hrun & _ & _ & _ & _ & _ & Hev & Herr).
  exists status, w'. split; [exact Hrun|].
  split; [|split; [exact Hev | exact Herr]].
  assert (Hsame : Done status w' =
                  socket_get_poll_status
                    (example_world (example_socket 0 LINUX_AF_INET)
                       [Reply_events (Z.lor FD_CLOSE FD_CONNECT)
                          WSAECONNRESET]))
    by (symmetry; exact Hrun).
  vm_compute in Hsame. injection Hsame as -> _. reflexivity.
Defined.

(** ** Socket options *)

(** X15.  The option levels fall through.  Whatever the host does: an
    option name that the [SOL_IP] case does not know is handled as if
    the level were [SOL_SOCKET], and one that the [SOL_SOCKET] case does
    not know as if it were [SOL_TCP], which knows [TCP_NODELAY] only; so
    option 1 of any of the three levels reaches the host as
    [TCP_NODELAY] at level [IPPROTO_TCP], and option 2 of [SOL_IP] as
    [SO_REUSEADDR] at level [SOL_SOCKET].  Every other level, and every
    other option of [SOL_TCP], is refused with [-EINVAL] without
    calling the host. *)
Theorem socket_option_levels_fall_through
    (setsockopt : Z -> Z -> list Z -> Z -> option Z)
    (getsockopt : Z -> Z -> Z -> Z + (list Z * Z))
    (call optname : Z) (set_optval : list Z)
    (set_optlen get_optlen optlen : Z) :
  let run level optname :=
    socket_get_set_sockopt setsockopt getsockopt call level optname
      set_optval set_optlen get_optlen optlen in
  let host level optname :=
    get_set_sockopt setsockopt getsockopt call level optname
      set_optval set_optlen get_optlen in
  let refused := {| opt_ret := - L_EINVAL; opt_stored := None |} in
  (optname <> LINUX_IP_HDRINCL ->
   run LINUX_SOL_IP optname = run LINUX_SOL_SOCKET optname) /\
  (~ In optname [LINUX_SO_REUSEADDR; LINUX_SO_ERROR; LINUX_SO_BROADCAST;
                 LINUX_SO_SNDBUF; LINUX_SO_RCVBUF; LINUX_SO_KEEPALIVE;
                 LINUX_SO_LINGER] ->
   run LINUX_SOL_SOCKET optname = run LINUX_SOL_TCP optname) /\
  run LINUX_SOL_IP 1 = host IPPROTO_TCP TCP_NODELAY /\
  run LINUX_SOL_SOCKET 1 = host IPPROTO_TCP TCP_NODELAY /\
  run LINUX_SOL_IP 2 = host SOL_SOCKET SO_REUSEADDR /\
  (optname <> LINUX_TCP_NODELAY -> run LINUX_SOL_TCP optname = refused) /\
  (forall level,
      level <> LINUX_SOL_IP -> level <> LINUX_SOL_SOCKET ->
      level <> LINUX_SOL_TCP -> run level optname = refused).
Proof.
  cbv zeta. unfold socket_get_set_sockopt.
  split; [|split; [|split; [|split; [|split; [|split]]]]].
  - intros Hne. rewrite Z.eqb_refl.
    destruct (Z.eqb_spec optname LINUX_IP_HDRINCL) as [|_]; [contradiction|].
    reflexivity.
  - intros Hnot. cbn [In] in Hnot.
    change (LINUX_SOL_SOCKET =? LINUX_SOL_IP) with false.
    change (LINUX_SOL_TCP =? LINUX_SOL_IP) with false.
    change (LINUX_SOL_TCP =? LINUX_SOL_SOCKET) with false.
    rewrite !Z.eqb_refl. cbv iota.
    repeat match goal with
           | |- context [optname =? ?c] =>
               destruct (Z.eqb_spec optname c) as [Heq|_];
               [exfalso; apply Hnot; rewrite Heq; tauto|]
           | |- context [optname =? ?c] =>
               destruct (optname =? c)
           end; reflexivity.
  - reflexivity.
  - reflexivity.
  - reflexivity.
  - intros Hne.
    change (LINUX_SOL_TCP =? LINUX_SOL_IP) with false.
    change (LINUX_SOL_TCP =? LINUX_SOL_SOCKET) with false.
    rewrite Z.eqb_refl.
    destruct (Z.eqb_spec optname LINUX_TCP_NODELAY) as [|_]; [contradiction|].
    reflexivity.
  - intros level H0 H1 H6.
    destruct (Z.eqb_spec level LINUX_SOL_IP) as [|_]; [contradiction|].
    destruct (Z.eqb_spec level LINUX_SOL_SOCKET) as [|_]; [contradiction|].
    destruct (Z.eqb_spec level LINUX_SOL_TCP) as [|_]; [contradiction|].
    reflexivity.
Qed.

Lemma socket_option_levels_fall_through_witness :
  socket_get_set_sockopt accepting_setsockopt refusing_getsockopt
    SYS_SETSOCKOPT LINUX_SOL_IP 7 [1] 4 0 0
  = socket_get_set_sockopt accepting_setsockopt refusing_getsockopt
      SYS_SETSOCKOPT LINUX_SOL_SOCKET 7 [1] 4 0 0 /\
  socket_get_set_sockopt accepting_setsockopt refusing_getsockopt
    SYS_SETSOCKOPT LINUX_SOL_TCP 2 [1] 4 0 0
  = {| opt_ret := - L_EINVAL; opt_stored := None |}.
Proof.
  destruct (socket_option_levels_fall_through
              accepting_setsockopt refusing_getsockopt
              SYS_SETSOCKOPT 7 [1] 4 0 0) as (Hip & _).
  destruct (socket_option_levels_fall_through
              accepting_setsockopt refusing_getsockopt
              SYS_SETSOCKOPT 2 [1] 4 0 0) as (_ & _ & _ & _ & _ & Htcp & _).
  split; [apply Hip | apply Htcp]; vm_compute; discriminate.
Defined.

(** X16.  [SO_LINGER] is converted between the guest's pair of [int]s
    and the host's pair of [u_short]s.  Setting it hands the host both
    fields reduced modulo 65536, with the host's structure size as the
    length, whatever length the caller gave; reading it stores the
    host's two fields and the guest's structure size 8.  A host failure
    is translated and nothing is stored. *)
Theorem socket_linger_conversion
    (setsockopt : Z -> Z -> list Z -> Z -> option Z)
    (getsockopt : Z -> Z -> Z -> Z + (list Z * Z))
    (l_onoff l_linger optlen uninitialised : Z) :
  let set :=
    socket_setsockopt setsockopt getsockopt LINUX_SOL_SOCKET LINUX_SO_LINGER
      [l_onoff; l_linger] optlen uninitialised in
  let get :=
    socket_getsockopt setsockopt getsockopt LINUX_SOL_SOCKET LINUX_SO_LINGER
      optlen uninitialised in
  let to_host :=
    setsockopt SOL_SOCKET SO_LINGER
      [l_onoff mod 65536; l_linger mod 65536] sizeof_win32_linger in
  let from_host := getsockopt SOL_SOCKET SO_LINGER uninitialised in
  (to_host = None -> set = {| opt_ret := 0; opt_stored := None |}) /\
  (forall e, to_host = Some e ->
             set = {| opt_ret := translate_socket_error e;
                      opt_stored := None |}) /\
  (forall onoff linger len,
      from_host = inr ([onoff; linger], len) ->
      0 <= onoff < 65536 -> 0 <= linger < 65536 ->
      get = {| opt_ret := 0;
               opt_stored := Some ([onoff; linger], sizeof_linux_linger) |}) /\
  (forall e, from_host = inl e ->
             get = {| opt_ret := translate_socket_error e;
                      opt_stored := None |}).
Proof.
  cbv zeta.
  unfold socket_setsockopt, socket_getsockopt, socket_get_set_sockopt.
  change (LINUX_SOL_SOCKET =? LINUX_SOL_IP) with false.
  change (LINUX_SO_LINGER =? LINUX_SO_REUSEADDR) with false.
  change (LINUX_SO_LINGER =? LINUX_SO_ERROR) with false.
  change (LINUX_SO_LINGER =? LINUX_SO_BROADCAST) with false.
  change (LINUX_SO_LINGER =? LINUX_SO_SNDBUF) with false.
  change (LINUX_SO_LINGER =? LINUX_SO_RCVBUF) with false.
  change (LINUX_SO_LINGER =? LINUX_SO_KEEPALIVE) with false.
  change (SYS_GETSOCKOPT =? SYS_SETSOCKOPT) with false.
  rewrite !Z.eqb_refl. cbv iota. cbn [nth]. unfold u_short_of_int.
  change (2 ^ 16) with 65536.
  split; [intros ->; reflexivity|].
  split; [intros e ->; reflexivity|].
  split; [|intros e ->; reflexivity].
  intros onoff linger len -> Hon Hli. cbn [nth].
  rewrite !Z.mod_small by assumption. reflexivity.
Qed.

Lemma socket_linger_conversion_witness :
  socket_setsockopt accepting_setsockopt refusing_getsockopt
    LINUX_SOL_SOCKET LINUX_SO_LINGER [1; 65546] 8 0
  = {| opt_ret := 0; opt_stored := None |} /\
  socket_getsockopt accepting_setsockopt refusing_getsockopt
    LINUX_SOL_SOCKET LINUX_SO_LINGER 8 0
  = {| opt_ret := - L_ENOPROTOOPT; opt_stored := None |}.
Proof.
  destruct (socket_linger_conversion accepting_setsockopt refusing_getsockopt
              1 65546 8 0) as (Hset & _ & _ & Hget).
  split; [apply Hset; reflexivity | apply (Hget WSAENOPROTOOPT); reflexivity].
Defined.

(** ** Validation of message headers *)

Lemma land_bool (c : Z) (b : bool) :
  (Z.land c (if b then 1 else 0) =? 0) = negb (Z.odd c && b).
Proof.
  destruct b; [|rewrite Z.land_0_r, Bool.andb_false_r; reflexivity].
  change 1 with (Z.ones 1). rewrite Z.land_ones by lia.
  change (2 ^ 1) with 2. rewrite Zmod_odd, Bool.andb_true_r.
  destruct (Z.odd c); reflexivity.
Qed.

(** The chain of early returns of a validator, as a conjunction. *)
Lemma check_chain (header no_name name no_iov iov control_fails all : bool) :
  (if negb header then false
   else if negb no_name && negb name then false
   else if negb no_iov && negb iov then false
   else if control_fails then false
   else all)
  = header && (no_name || name) && (no_iov || iov)
    && negb control_fails && all.
Proof.
  destruct header, no_name, name, no_iov, iov, control_fails, all;
    reflexivity.
Qed.

Lemma forallb_Forall_true {A : Type} (f : A -> bool) (l : list A) :
  forallb f l = true <-> Forall (fun x => f x = true) l.
Proof. rewrite forallb_forall, Forall_forall. reflexivity. Qed.

Lemma needed_or_absent (len : Z) (ok : bool) :
  (len =? 0) || ok = true <-> (len <> 0 -> ok = true).
Proof.
  destruct (Z.eqb_spec len 0) as [->|Hne]; cbn [orb].
  - split; [intros _ H; contradiction | reflexivity].
  - split; [intros H _; exact H | intros H; apply H; exact Hne].
Qed.

(** X17.  What the two validators of a message header accept.
    [mm_check_read_msghdr] accepts a header exactly when the header
    itself, a name of non-zero length, an [iovec] array of non-zero
    length, a control buffer of non-zero length and every buffer of the
    array are readable.  [mm_check_write_msghdr] asks the same with
    "writable" -- except for the control buffer, which it requires to
    be writable only when [msg_controllen] is odd. *)
Theorem msghdr_validation
    (mm_check_read mm_check_write : Z -> Z -> bool)
    (msg : Z) (m : guest_msghdr) :
  let accepts (check : Z -> Z -> bool) (control_checked : bool) :=
    check msg sizeof_msghdr = true /\
    (gm_namelen m <> 0 ->
     check (gm_name m) (size_t_of_int (gm_namelen m)) = true) /\
    (gm_iovlen m <> 0 ->
     check (gm_iov m) ((sizeof_iovec * gm_iovlen m) mod 2 ^ 32) = true) /\
    (control_checked = true ->
     check (gm_control m) (gm_controllen m) = true) /\
    Forall (fun v => check (fst v) (snd v) = true)
      (firstn (Z.to_nat (gm_iovlen m)) (gm_iovec m)) in
  (mm_check_read_msghdr mm_check_read msg m = true <->
   accepts mm_check_read (negb (gm_controllen m =? 0))) /\
  (mm_check_write_msghdr mm_check_write msg m = true <->
   accepts mm_check_write (Z.odd (gm_controllen m))).
Proof.
  cbv zeta. unfold mm_check_read_msghdr, mm_check_write_msghdr.
  rewrite land_bool, !check_chain, !Bool.andb_true_iff,
    !needed_or_absent, !forallb_Forall_true.
  split.
  - destruct (gm_controllen m =? 0),
      (mm_check_read (gm_control m) (gm_controllen m));
      cbn [negb andb]; intuition discriminate.
  - destruct (Z.odd (gm_controllen m)),
      (mm_check_write (gm_control m) (gm_controllen m));
      cbn [negb andb]; intuition discriminate.
Qed.

Lemma msghdr_validation_witness :
  mm_check_read_msghdr below_12288 1024 example_guest_msghdr = false /\
  mm_check_write_msghdr below_12288 1024 example_guest_msghdr = true.
Proof.
  destruct (msghdr_validation below_12288 below_12288 1024
              example_guest_msghdr) as (_ & Hwrite).
  split; [reflexivity|].
  apply Hwrite.
  split; [reflexivity|].
  split; [intros H; contradiction H; reflexivity|].
  split; [intros _; reflexivity|].
  split; [intros H; discriminate H|].
  repeat constructor.
Defined.

(** ** The socket call multiplexer *)

Lemma nth_firstn_same {A : Type} (l l' : list A) (k i : nat) (d : A) :
  firstn k l = firstn k l' -> (i < k)%nat -> nth i l d = nth i l' d.
Proof.
  revert l l' i. induction k as [|k IH]; intros l l' i Heq Hi; [lia|].
  destruct l as [|x l], l' as [|x' l']; cbn [firstn] in Heq;
    try discriminate Heq; [reflexivity|].
  injection Heq as -> Heq.
  destruct i as [|i]; [reflexivity|]. cbn [nth]. apply IH; [exact Heq | lia].
Qed.

(** X18.  [sys_socketcall].  A call number outside 1..20 is refused with
    [-EINVAL] before anything is read; an argument list that is not
    readable over the size the table gives for the call, with [-EFAULT];
    the numbers 8 ([socketpair]) and 19 ([recvmmsg]) are refused with
    [-EINVAL]; every other number ends in the system call of that
    number, entered with exactly the argument words validated for it, in
    order, each converted to [int] where the parameter is an [int].  The
    multiplexer reads no argument word beyond those it has validated:
    two memories that agree on the validated words give the same
    result. *)
Theorem sys_socketcall_dispatch
    (mm_check_read : Z -> Z -> bool) (call args : Z) (memory : list Z) :
  let r := sys_socketcall mm_check_read call args memory in
  let readable := mm_check_read args (nth (Z.to_nat call) nargs 0) in
  (call < 1 \/ SYS_SENDMMSG < call -> r = inl (- L_EINVAL)) /\
  (1 <= call <= SYS_SENDMMSG -> readable = false -> r = inl (- L_EFAULT)) /\
  (1 <= call <= SYS_SENDMMSG -> readable = true ->
   (call = SYS_SOCKETPAIR \/ call = SYS_RECVMMSG -> r = inl (- L_EINVAL)) /\
   (call <> SYS_SOCKETPAIR -> call <> SYS_RECVMMSG ->
    exists s,
      r = inr s /\
      syscall_number s = call /\
      syscall_arguments s
      = map (fun p => passed (fst p) (snd p))
          (combine (int_parameters s) (argument_words call memory)))) /\
  (forall memory',
      validated_args call memory = validated_args call memory' ->
      r = sys_socketcall mm_check_read call args memory').
Proof.
  cbv zeta. unfold sys_socketcall, SYS_SENDMMSG.
  split; [|split; [|split]].
  - intros [Hlow|Hhigh].
    + replace (call <? 1) with true by (symmetry; apply Z.ltb_lt; lia).
      reflexivity.
    + replace (call >? 20) with true by (symmetry; apply Z.gtb_lt; lia).
      rewrite Bool.orb_true_r. reflexivity.
  - intros Hrange ->.
    replace (call <? 1) with false by (symmetry; apply Z.ltb_ge; lia).
    replace (call >? 20) with false
      by (symmetry; rewrite Z.gtb_ltb; apply Z.ltb_ge; lia).
    reflexivity.
  - intros Hrange ->.
    replace (call <? 1) with false by (symmetry; apply Z.ltb_ge; lia).
    replace (call >? 20) with false
      by (symmetry; rewrite Z.gtb_ltb; apply Z.ltb_ge; lia).
    cbn [orb negb].
    assert (Hcases : call = 1 \/ call = 2 \/ call = 3 \/ call = 4 \/
                     call = 5 \/ call = 6 \/ call = 7 \/ call = 8 \/
                     call = 9 \/ call = 10 \/ call = 11 \/ call = 12 \/
                     call = 13 \/ call = 14 \/ call = 15 \/ call = 16 \/
                     call = 17 \/ call = 18 \/ call = 19 \/ call = 20)
      by lia.
    split.
    + intros [-> | ->]; reflexivity.
    + intros H8 H19. unfold SYS_SOCKETPAIR, SYS_RECVMMSG in *.
      repeat (destruct Hcases as [-> | Hcases];
              [first [contradiction
                     | eexists; split; [reflexivity|]; split; reflexivity]|]).
      subst call. eexists. split; [reflexivity|]. split; reflexivity.
  - intros memory' Hsame. unfold validated_args in Hsame.
    destruct ((call <? 1) || (call >? 20)) eqn:Hout; [reflexivity|].
    destruct (negb (mm_check_read args (nth (Z.to_nat call) nargs 0)));
      [reflexivity|].
    apply Bool.orb_false_iff in Hout. destruct Hout as [Hlow Hhigh].
    apply Z.ltb_ge in Hlow. rewrite Z.gtb_ltb in Hhigh.
    apply Z.ltb_ge in Hhigh.
    assert (Hcases : call = 1 \/ call = 2 \/ call = 3 \/ call = 4 \/
                     call = 5 \/ call = 6 \/ call = 7 \/ call = 8 \/
                     call = 9 \/ call = 10 \/ call = 11 \/ call = 12 \/
                     call = 13 \/ call = 14 \/ call = 15 \/ call = 16 \/
                     call = 17 \/ call = 18 \/ call = 19 \/ call = 20)
      by lia.
    set (k := Z.to_nat (nth (Z.to_nat call) nargs 0 / sizeof_uintptr_t)) in *.
    assert (Hword : forall i, (i < k)%nat -> nth i memory 0 = nth i memory' 0).
    { intros i Hi. eapply nth_firstn_same; eassumption. }
    clear Hsame Hlow Hhigh.
    change (Z.to_nat 0) with 0%nat. change (Z.to_nat 1) with 1%nat.
    change (Z.to_nat 2) with 2%nat. change (Z.to_nat 3) with 3%nat.
    change (Z.to_nat 4) with 4%nat. change (Z.to_nat 5) with 5%nat.
    repeat (destruct Hcases as [-> | Hcases];
            [cbn [Z.eqb Pos.eqb];
             rewrite ?(Hword 0%nat), ?(Hword 1%nat), ?(Hword 2%nat),
               ?(Hword 3%nat), ?(Hword 4%nat), ?(Hword 5%nat)
               by (subst k; vm_compute; lia);
             reflexivity|]).
    subst call. cbn [Z.eqb Pos.eqb].
    rewrite ?(Hword 0%nat), ?(Hword 1%nat), ?(Hword 2%nat), ?(Hword 3%nat)
      by (subst k; vm_compute; lia).
    reflexivity.
Qed.

Lemma sys_socketcall_dispatch_witness :
  (exists s,
      sys_socketcall all_valid SYS_SENDTO 4096
        [3; 8192; 5; 4294967295; 12288; 16; 77] = inr s /\
      syscall_number s = SYS_SENDTO /\
      syscall_arguments s = [3; 8192; 5; -1; 12288; 16]) /\
  sys_socketcall all_valid SYS_LISTEN 4096 [3; 5; 77; 78]
  = sys_socketcall all_valid SYS_LISTEN 4096 [3; 5] /\
  sys_socketcall all_valid SYS_SOCKETPAIR 4096 [1; 1; 0; 8192]
  = inl (- L_EINVAL).
Proof.
  destruct (sys_socketcall_dispatch all_valid SYS_SENDTO 4096
              [3; 8192; 5; 4294967295; 12288; 16; 77])
    as (_ & _ & Hsendto & _).
  destruct (sys_socketcall_dispatch all_valid SYS_LISTEN 4096
              [3; 5; 77; 78]) as (_ & _ & _ & Hsame).
  destruct (sys_socketcall_dispatch all_valid SYS_SOCKETPAIR 4096
              [1; 1; 0; 8192]) as (_ & _ & Hpair & _).
  split; [|split].
  - destruct Hsendto as (_ & Hto);
      [vm_compute; split; discriminate | reflexivity |].
    destruct Hto as (s & Hs & Hnumber & Hargs); try discriminate.
    exists s. split; [exact Hs|]. split; [exact Hnumber|].
    rewrite Hargs.
    assert (Hval : s = Sys_sendto 3 8192 5 (-1) 12288 16).
    { vm_compute in Hs. injection Hs as <-. reflexivity. }
    rewrite Hval. reflexivity.
  - apply Hsame. reflexivity.
  - apply Hpair; [vm_compute; split; discriminate | reflexivity |].
    left. reflexivity.
Defined.

(** ** Creating and binding a socket *)

Lemma translate_address_family_supported (domain : Z) :
  In domain [LINUX_AF_UNSPEC; LINUX_AF_UNIX; LINUX_AF_INET; LINUX_AF_INET6] ->
  0 <= translate_address_family domain.
Proof.
  cbn [In]. intros [<-|[<-|[<-|[<-|[]]]]]; vm_compute; discriminate.
Qed.

Lemma translate_address_family_unsupported (domain : Z) :
  ~ In domain [LINUX_AF_UNSPEC; LINUX_AF_UNIX; LINUX_AF_INET; LINUX_AF_INET6] ->
  translate_address_family domain = - L_EAFNOSUPPORT.
Proof.
  cbn [In]. intros Hnot. unfold translate_address_family.
  destruct (Z.eqb_spec domain LINUX_AF_UNSPEC); [exfalso; auto|].
  destruct (Z.eqb_spec domain LINUX_AF_UNIX); [exfalso; auto|].
  destruct (Z.eqb_spec domain LINUX_AF_INET); [exfalso; auto|].
  destruct (Z.eqb_spec domain LINUX_AF_INET6); [exfalso; auto 6|].
  reflexivity.
Qed.

(** The socket types carry the same numbers on both sides. *)
Lemma socket_type_translated (masked : Z) :
  (if masked =? LINUX_SOCK_DGRAM then Some SOCK_DGRAM
   else if masked =? LINUX_SOCK_STREAM then Some SOCK_STREAM
   else if masked =? LINUX_SOCK_RAW then Some SOCK_RAW
   else if masked =? LINUX_SOCK_RDM then Some SOCK_RDM
   else if masked =? LINUX_SOCK_SEQPACKET then Some SOCK_SEQPACKET
   else None)
  = if (1 <=? masked) && (masked <=? 5) then Some masked else None.
Proof.
  destruct (Z.eqb_spec masked LINUX_SOCK_DGRAM) as [->|H2]; [reflexivity|].
  destruct (Z.eqb_spec masked LINUX_SOCK_STREAM) as [->|H1]; [reflexivity|].
  destruct (Z.eqb_spec masked LINUX_SOCK_RAW) as [->|H3]; [reflexivity|].
  destruct (Z.eqb_spec masked LINUX_SOCK_RDM) as [->|H4]; [reflexivity|].
  destruct (Z.eqb_spec masked LINUX_SOCK_SEQPACKET) as [->|H5]; [reflexivity|].
  unfold LINUX_SOCK_DGRAM, LINUX_SOCK_STREAM, LINUX_SOCK_RAW, LINUX_SOCK_RDM,
    LINUX_SOCK_SEQPACKET in *.
  destruct (Z.leb_spec 1 masked), (Z.leb_spec masked 5); cbn [andb];
    try reflexivity; lia.
Qed.

(** X19.  [socket_open].  A family other than UNSPEC, UNIX, INET and
    INET6 is refused with [-EAFNOSUPPORT], and then a type (the low four
    bits) outside 1..5 with [-EPROTONOSUPPORT], both before the host is
    called.  Otherwise the host's [socket] is asked for the translated
    family -- INET for a UNIX socket -- and the same type number.  When
    it fails, the result is the translation of its error and nothing
    else is called.  When the event for the new socket cannot be made,
    the socket is closed and the result is [-ENFILE].  Otherwise the new
    file is stored and the result is what [vfs_store_file] returns, a
    descriptor or a negative errno; the file is released again exactly
    when it is negative.  The file records the guest's family and type,
    no event and no connect error, and is non-blocking exactly when
    [O_NONBLOCK] was given with the type. *)
Theorem socket_open_outcome (domain ty protocol : Z) (h : open_host) :
  let r := socket_open domain ty protocol h in
  let masked := Z.land ty LINUX_SOCK_TYPE_MASK in
  let supported :=
    In domain [LINUX_AF_UNSPEC; LINUX_AF_UNIX; LINUX_AF_INET;
               LINUX_AF_INET6] in
  let sock := Host_socket (translate_address_family domain) masked protocol in
  (~ supported -> r = (- L_EAFNOSUPPORT, [])) /\
  (supported -> ~ 1 <= masked <= 5 -> r = (- L_EPROTONOSUPPORT, [])) /\
  (supported -> 1 <= masked <= 5 ->
   (forall e, socket_answer h = Some e ->
              r = (translate_socket_error e, [sock])) /\
   (socket_answer h = None -> init_socket_event_answer h = false ->
    r = (- L_ENFILE, [sock; Host_init_socket_event; Host_closesocket])) /\
   (socket_answer h = None -> init_socket_event_answer h = true ->
    exists f,
      af f = domain /\ type f = masked /\
      events f = 0 /\ connect_error f = 0 /\
      nonblocking f 0 = bit_set ty O_NONBLOCK /\
      let stored := Vfs_store_file f (Z.land ty O_CLOEXEC >? 0) in
      let fd := vfs_store_file_answer h in
      (0 <= fd -> r = (fd, [sock; Host_init_socket_event; stored])) /\
      (fd < 0 ->
       r = (fd, [sock; Host_init_socket_event; stored;
                 Vfs_release_new_file])))).
Proof.
  cbv zeta. unfold socket_open. rewrite socket_type_translated.
  split; [|split].
  - intros Hnot. rewrite (translate_address_family_unsupported _ Hnot).
    reflexivity.
  - intros Hsup Htype.
    pose proof (translate_address_family_supported _ Hsup) as Haf.
    replace (translate_address_family domain <? 0) with false
      by (symmetry; apply Z.ltb_ge; exact Haf).
    destruct (Z.leb_spec 1 (Z.land ty LINUX_SOCK_TYPE_MASK));
      destruct (Z.leb_spec (Z.land ty LINUX_SOCK_TYPE_MASK) 5);
      cbn [andb]; try reflexivity; lia.
  - intros Hsup Htype.
    pose proof (translate_address_family_supported _ Hsup) as Haf.
    replace (translate_address_family domain <? 0) with false
      by (symmetry; apply Z.ltb_ge; exact Haf).
    replace (1 <=? Z.land ty LINUX_SOCK_TYPE_MASK) with true
      by (symmetry; apply Z.leb_le; lia).
    replace (Z.land ty LINUX_SOCK_TYPE_MASK <=? 5) with true
      by (symmetry; apply Z.leb_le; lia).
    cbn [andb].
    split; [|split].
    + intros e ->. reflexivity.
    + intros -> ->. reflexivity.
    + intros -> ->. cbn [negb].
      exists {| flags := if bit_set ty O_NONBLOCK
                         then Z.lor O_RDWR O_NONBLOCK else O_RDWR;
                af := domain;
                type := Z.land ty LINUX_SOCK_TYPE_MASK;
                events := 0;
                connect_error := 0 |}.
      split; [reflexivity|]. split; [reflexivity|].
      split; [reflexivity|]. split; [reflexivity|].
      split.
      { unfold nonblocking. cbn [flags].
        change (bit_set 0 LINUX_MSG_DONTWAIT) with false.
        rewrite Bool.orb_false_r.
        destruct (bit_set ty O_NONBLOCK); reflexivity. }
      split; intros Hfd.
      * replace (vfs_store_file_answer h <? 0) with false
          by (symmetry; apply Z.ltb_ge; exact Hfd).
        reflexivity.
      * replace (vfs_store_file_answer h <? 0) with true
          by (symmetry; apply Z.ltb_lt; exact Hfd).
        reflexivity.
Qed.

Lemma socket_open_outcome_witness :
  (exists f,
      socket_open LINUX_AF_UNIX (Z.lor LINUX_SOCK_STREAM O_NONBLOCK) 0
        (example_open_host 3)
      = (3, [Host_socket AF_INET SOCK_STREAM 0; Host_init_socket_event;
             Vfs_store_file f false]) /\
      af f = LINUX_AF_UNIX /\
      nonblocking f 0 = true) /\
  socket_open LINUX_AF_INET LINUX_SOCK_DGRAM 0
    {| socket_answer := None; init_socket_event_answer := false;
       vfs_store_file_answer := 3 |}
  = (- L_ENFILE, [Host_socket AF_INET SOCK_DGRAM 0; Host_init_socket_event;
                  Host_closesocket]).
Proof.
  split.
  - destruct (socket_open_outcome LINUX_AF_UNIX
                (Z.lor LINUX_SOCK_STREAM O_NONBLOCK) 0 (example_open_host 3))
      as (_ & _ & Hok).
    cbv zeta in Hok.
    destruct Hok as (_ & _ & Hstored).
    + cbn [In]. auto.
    + vm_compute. split; discriminate.
    + destruct (Hstored eq_refl eq_refl)
        as (f & Haf & _ & _ & _ & Hnb & Hfd & _).
      exists f. split; [|split; [exact Haf | exact Hnb]].
      apply Hfd. vm_compute. discriminate.
  - destruct (socket_open_outcome LINUX_AF_INET LINUX_SOCK_DGRAM 0
                {| socket_answer := None; init_socket_event_answer := false;
                   vfs_store_file_answer := 3 |})
      as (_ & _ & Hok).
    cbv zeta in Hok.
    destruct Hok as (_ & Hnfile & _).
    + cbn [In]. auto.
    + vm_compute. split; discriminate.
    + apply Hnfile; reflexivity.
Defined.

(** The address a UNIX socket is bound to on the host: 127.0.0.1, port
    0, whatever the host buffer held before. *)
Lemma loopback_any_port_bytes (storage : sockaddr) :
  firstn 16 (loopback_any_port storage)
  = [x02; x00; x00; x00; x7f; x00; x00; x01;
     x00; x00; x00; x00; x00; x00; x00; x00].
Proof. reflexivity. Qed.

(** X20.  [socket_bind] on a UNIX socket.  An address of at most two
    bytes, an address of another family and an address with an empty
    path are refused ([-EINVAL], [-EAFNOSUPPORT], [-EINVAL]) before
    anything is called.  For a named address the socket file is created
    through the VFS; a failure there is returned as it is.  When the
    file made is not a host file, the call returns [-EPERM] after
    releasing the socket's own file, and the file just made is not
    released.  Otherwise the host socket is bound to 127.0.0.1 with port
    0 in a [sockaddr_in] of 16 bytes; a host failure is translated and
    returned, the file made staying unreleased; on success the port the
    host chose is asked for and written to the file, the file is
    released and 0 is returned. *)
Theorem socket_bind_unix
    (f : socket_file) (addr : sockaddr) (addrlen : Z) (storage : sockaddr)
    (h : bind_host) :
  af f = LINUX_AF_UNIX ->
  let r := socket_bind f addr addrlen storage h in
  let named :=
    sizeof_ss_family < size_t_of_int addrlen /\
    ss_family addr = LINUX_AF_UNIX /\
    Z_of_byte (nth 2 addr x00) <> 0 in
  let created := [Bind_vfs_openat; Bind_winfs_is_winfile] in
  let bound :=
    created ++ [Bind_host_bind (loopback_any_port storage) sizeof_sockaddr_in] in
  (size_t_of_int addrlen <= sizeof_ss_family ->
   r = (Bind_returns (- L_EINVAL), [])) /\
  (sizeof_ss_family < size_t_of_int addrlen ->
   ss_family addr <> LINUX_AF_UNIX ->
   r = (Bind_returns (- L_EAFNOSUPPORT), [])) /\
  (sizeof_ss_family < size_t_of_int addrlen ->
   ss_family addr = LINUX_AF_UNIX ->
   Z_of_byte (nth 2 addr x00) = 0 ->
   r = (Bind_returns (- L_EINVAL), [])) /\
  (named -> vfs_openat_answer h < 0 ->
   r = (Bind_returns (vfs_openat_answer h), [Bind_vfs_openat])) /\
  (named -> 0 <= vfs_openat_answer h -> is_winfile_answer h = false ->
   r = (Bind_returns (- L_EPERM),
        created ++ [Bind_vfs_release The_socket_file])) /\
  (named -> 0 <= vfs_openat_answer h -> is_winfile_answer h = true ->
   (forall err, bind_answer h = Some err ->
                r = (Bind_returns (translate_socket_error err), bound)) /\
   (forall port,
       bind_answer h = None -> getsockname_answer h = Some port ->
       0 < write_special_file_answer h ->
       r = (Bind_returns 0,
            bound ++ [Bind_host_getsockname;
                      Bind_winfs_write_special_file port;
                      Bind_vfs_release The_winfile])) /\
   (In (Bind_vfs_release The_winfile) (snd r) <->
    bind_answer h = None /\ getsockname_answer h <> None /\
    0 < write_special_file_answer h)).
Proof.
  intros Haf. cbv zeta. unfold socket_bind. rewrite Haf, Z.eqb_refl.
  assert (Hnamed :
            sizeof_ss_family < size_t_of_int addrlen /\
            ss_family addr = LINUX_AF_UNIX /\
            Z_of_byte (nth 2 addr x00) <> 0 ->
            (size_t_of_int addrlen <=? sizeof_ss_family) = false /\
            (ss_family addr =? LINUX_AF_UNIX) = true /\
            (addrlen =? 0) = false /\
            (Z_of_byte (nth 2 addr x00) =? 0) = false).
  { intros (Hlen & Hfam & Hpath).
    split; [apply Z.leb_gt; exact Hlen|].
    split; [apply Z.eqb_eq; exact Hfam|].
    split; [|apply Z.eqb_neq; exact Hpath].
    apply Z.eqb_neq. intros ->. vm_compute in Hlen. discriminate Hlen. }
  split; [|split; [|split; [|split; [|split]]]].
  - intros Hlen.
    replace (size_t_of_int addrlen <=? sizeof_ss_family) with true
      by (symmetry; apply Z.leb_le; exact Hlen).
    reflexivity.
  - intros Hlen Hfam.
    replace (size_t_of_int addrlen <=? sizeof_ss_family) with false
      by (symmetry; apply Z.leb_gt; exact Hlen).
    destruct (Z.eqb_spec (ss_family addr) LINUX_AF_UNIX); [contradiction|].
    reflexivity.
  - intros Hlen Hfam Hpath.
    replace (size_t_of_int addrlen <=? sizeof_ss_family) with false
      by (symmetry; apply Z.leb_gt; exact Hlen).
    rewrite Hfam, Hpath. cbn [negb Z.eqb].
    rewrite Z.eqb_refl. cbn [negb].
    destruct (addrlen =? 0); reflexivity.
  - intros Hn Hopen. destruct (Hnamed Hn) as (-> & -> & -> & ->).
    cbn [negb].
    replace (vfs_openat_answer h <? 0) with true
      by (symmetry; apply Z.ltb_lt; exact Hopen).
    reflexivity.
  - intros Hn Hopen Hwin. destruct (Hnamed Hn) as (-> & -> & -> & ->).
    cbn [negb].
    replace (vfs_openat_answer h <? 0) with false
      by (symmetry; apply Z.ltb_ge; exact Hopen).
    rewrite Hwin. reflexivity.
  - intros Hn Hopen Hwin. destruct (Hnamed Hn) as (-> & -> & -> & ->).
    cbn [negb].
    replace (vfs_openat_answer h <? 0) with false
      by (symmetry; apply Z.ltb_ge; exact Hopen).
    rewrite Hwin. cbn [negb app].
    split; [intros err ->; reflexivity|].
    split.
    + intros port -> -> Hwr.
      replace (write_special_file_answer h <=? 0) with false
        by (symmetry; apply Z.leb_gt; exact Hwr).
      reflexivity.
    + destruct (bind_answer h) as [err|]; cbn [snd].
      * split.
        -- cbn [In]. intros [H|[H|[H|[]]]]; discriminate H.
        -- intros (H & _). discriminate H.
      * destruct (getsockname_answer h) as [port|]; cbn [snd].
        -- destruct (Z.leb_spec (write_special_file_answer h) 0) as [Hwr|Hwr];
             cbn [snd app In].
           ++ split.
              ** intros [H|[H|[H|[H|[H|[]]]]]]; discriminate H.
              ** intros (_ & _ & H). lia.
           ++ split.
              ** intros _. split; [reflexivity|]. split; [discriminate|].
                 exact Hwr.
              ** intros _. do 5 right. left. reflexivity.
        -- cbn [app In]. split.
           ++ intros [H|[H|[H|[H|[]]]]]; discriminate H.
           ++ intros (_ & H & _). contradiction H. reflexivity.
Qed.

Lemma socket_bind_unix_witness :
  socket_bind (example_socket 0 LINUX_AF_UNIX) example_un 5 example_storage
    (example_bind_host false None)
  = (Bind_returns (- L_EPERM),
     [Bind_vfs_openat; Bind_winfs_is_winfile;
      Bind_vfs_release The_socket_file]) /\
  socket_bind (example_socket 0 LINUX_AF_UNIX) example_un 5 example_storage
    (example_bind_host true (Some WSAEADDRINUSE))
  = (Bind_returns (- L_EADDRINUSE),
     [Bind_vfs_openat; Bind_winfs_is_winfile;
      Bind_host_bind (loopback_any_port example_storage) 16]).
Proof.
  assert (Hnamed : sizeof_ss_family < size_t_of_int 5 /\
                   ss_family example_un = LINUX_AF_UNIX /\
                   Z_of_byte (nth 2 example_un x00) <> 0).
  { vm_compute. repeat split; discriminate. }
  split.
  - destruct (socket_bind_unix (example_socket 0 LINUX_AF_UNIX) example_un 5
                example_storage (example_bind_host false None) eq_refl)
      as (_ & _ & _ & _ & Hperm & _).
    apply Hperm; [exact Hnamed | vm_compute; discriminate | reflexivity].
  - destruct (socket_bind_unix (example_socket 0 LINUX_AF_UNIX) example_un 5
                example_storage (example_bind_host true (Some WSAEADDRINUSE))
                eq_refl)
      as (_ & _ & _ & _ & _ & Hbound).
    destruct Hbound as (Hfail & _);
      [exact Hnamed | vm_compute; discriminate | reflexivity |].
    apply (Hfail WSAEADDRINUSE). reflexivity.
Defined.

(** ** Clocks and sleeping *)

Lemma timespec_of_ns_normal (ns : Z) :
  0 <= ns < 2 ^ 31 * NANOSECONDS_PER_SECOND ->
  let ts := timespec_of_ns ns in
  0 <= tv_sec ts /\
  0 <= tv_nsec ts < NANOSECONDS_PER_SECOND /\
  tv_sec ts * NANOSECONDS_PER_SECOND + tv_nsec ts = ns.
Proof.
  unfold NANOSECONDS_PER_SECOND. intros Hns. cbv zeta.
  unfold timespec_of_ns, long_of_uint64_t, NANOSECONDS_PER_SECOND.
  cbn [tv_sec tv_nsec].
  pose proof (Z.mod_pos_bound ns 1000000000 ltac:(lia)) as Hmod.
  assert (Hdiv : 0 <= ns / 1000000000 < 2 ^ 31).
  { split; [apply Z.div_pos; lia|].
    apply Z.div_lt_upper_bound; lia. }
  rewrite !int_of_DWORD_small by (unfold int_max; lia).
  pose proof (Z.div_mod ns 1000000000 ltac:(lia)). lia.
Qed.

(** X21.  The clock calls.  [clock_gettime] and [clock_getres] return
    [-EFAULT] for a result pointer that is not writable, whatever the
    clock; otherwise [-EINVAL] for every clock other than REALTIME,
    MONOTONIC, MONOTONIC_RAW and MONOTONIC_COARSE; in both cases nothing
    is stored.  The resolution stored for REALTIME is the host's timer
    resolution of [actual] ticks of 100 ns as a normalised [timespec];
    the resolution stored for a MONOTONIC clock is never zero. *)
Theorem clock_calls
    (mm_check_write : Z -> Z -> bool) (clk_id p : Z)
    (system_time : timespec) (counter_ns actual period : Z) :
  let gettime := sys_clock_gettime mm_check_write clk_id p system_time
                   counter_ns in
  let getres := sys_clock_getres mm_check_write clk_id p actual period in
  let known :=
    In clk_id [CLOCK_REALTIME; CLOCK_MONOTONIC; CLOCK_MONOTONIC_RAW;
               CLOCK_MONOTONIC_COARSE] in
  (mm_check_write p sizeof_timespec = false ->
   gettime = (- L_EFAULT, None) /\ getres = (- L_EFAULT, None)) /\
  (mm_check_write p sizeof_timespec = true -> ~ known ->
   gettime = (- L_EINVAL, None) /\ getres = (- L_EINVAL, None)) /\
  (mm_check_write p sizeof_timespec = true -> clk_id = CLOCK_REALTIME ->
   0 <= actual < 2 ^ 32 ->
   exists ts,
     getres = (0, Some ts) /\
     0 <= tv_sec ts /\ 0 <= tv_nsec ts < NANOSECONDS_PER_SECOND /\
     tv_sec ts * NANOSECONDS_PER_SECOND + tv_nsec ts
     = actual * NANOSECONDS_PER_TICK) /\
  (mm_check_write p sizeof_timespec = true -> known ->
   clk_id <> CLOCK_REALTIME ->
   0 <= period < 2 ^ 31 * NANOSECONDS_PER_SECOND ->
   exists ts,
     getres = (0, Some ts) /\
     0 <= tv_sec ts /\ 0 <= tv_nsec ts < NANOSECONDS_PER_SECOND /\
     tv_sec ts * NANOSECONDS_PER_SECOND + tv_nsec ts = Z.max 1 period).
Proof.
  cbv zeta. unfold sys_clock_gettime, sys_clock_getres. cbn [In].
  split; [|split; [|split]].
  - intros ->. split; reflexivity.
  - intros -> Hnot. cbn [negb].
    destruct (Z.eqb_spec clk_id CLOCK_REALTIME); [exfalso; auto|].
    destruct (Z.eqb_spec clk_id CLOCK_MONOTONIC); [exfalso; auto|].
    destruct (Z.eqb_spec clk_id CLOCK_MONOTONIC_COARSE); [exfalso; auto 6|].
    destruct (Z.eqb_spec clk_id CLOCK_MONOTONIC_RAW); [exfalso; auto|].
    split; reflexivity.
  - intros -> -> Hactual. cbn [negb]. rewrite Z.eqb_refl.
    eexists. split; [reflexivity|].
    unfold uint64_t_of, NANOSECONDS_PER_TICK.
    rewrite Z.mod_small by lia.
    apply timespec_of_ns_normal. unfold NANOSECONDS_PER_SECOND. lia.
  - intros -> Hknown Hreal Hperiod. cbn [negb].
    destruct (Z.eqb_spec clk_id CLOCK_REALTIME); [contradiction|].
    assert (Hmono : (clk_id =? CLOCK_MONOTONIC)
                    || (clk_id =? CLOCK_MONOTONIC_COARSE)
                    || (clk_id =? CLOCK_MONOTONIC_RAW) = true).
    { destruct Hknown as [H|[<-|[<-|[<-|[]]]]];
        [congruence | reflexivity | reflexivity | reflexivity]. }
    rewrite Hmono.
    destruct (Z.eqb_spec period 0) as [->|Hne].
    + eexists. split; [reflexivity|]. cbn [tv_sec tv_nsec].
      unfold NANOSECONDS_PER_SECOND. lia.
    + eexists. split; [reflexivity|].
      replace (Z.max 1 period) with period by lia.
      apply timespec_of_ns_normal. exact Hperiod.
Qed.

Lemma clock_calls_witness :
  sys_clock_getres all_valid 5 4096 156250 0 = (- L_EINVAL, None) /\
  sys_clock_getres all_valid CLOCK_REALTIME 4096 156250 0
  = (0, Some {| tv_sec := 0; tv_nsec := 15625000 |}) /\
  sys_clock_getres all_valid CLOCK_MONOTONIC 4096 156250 0
  = (0, Some {| tv_sec := 0; tv_nsec := 1 |}).
Proof.
  destruct (clock_calls all_valid 5 4096
              {| tv_sec := 0; tv_nsec := 0 |} 0 156250 0)
    as (_ & Hunknown & _).
  destruct Hunknown as (_ & Hres); [reflexivity | |].
  { cbn [In]. intros [H|[H|[H|[H|[]]]]]; discriminate H. }
  split; [exact Hres|]. split; reflexivity.
Defined.

(** X22.  [nanosleep].  The call returns [-EFAULT], without sleeping,
    when the request is not readable or a non-null [rem] is not
    writable.  Otherwise it returns 0 after asking the host for a
    relative delay: for a request of [tv_sec >= 0] seconds and
    [tv_nsec >= 0] nanoseconds the interval handed over is minus the
    number of whole 100 ns ticks in it, so a request below 100 ns asks
    for no delay at all; [tv_nsec] is not checked against one second. *)
Theorem nanosleep_delay
    (mm_check_read mm_check_write : Z -> Z -> bool)
    (req rem : Z) (request : timespec) :
  let r := sys_nanosleep mm_check_read mm_check_write req rem request in
  let ns := tv_sec request * NANOSECONDS_PER_SECOND + tv_nsec request in
  (mm_check_read req sizeof_timespec = false -> r = (- L_EFAULT, None)) /\
  (rem <> NULL -> mm_check_write rem sizeof_timespec = false ->
   r = (- L_EFAULT, None)) /\
  (mm_check_read req sizeof_timespec = true ->
   rem = NULL \/ mm_check_write rem sizeof_timespec = true ->
   0 <= tv_sec request <= int_max -> 0 <= tv_nsec request <= int_max ->
   r = (0, Some (- (ns / NANOSECONDS_PER_TICK))) /\
   (ns < NANOSECONDS_PER_TICK -> r = (0, Some 0))).
Proof.
  cbv zeta. unfold sys_nanosleep.
  split; [|split].
  - intros ->. reflexivity.
  - intros Hrem ->.
    destruct (Z.eqb_spec rem NULL); [contradiction|].
    cbn [negb andb]. rewrite Bool.orb_true_r. reflexivity.
  - intros -> Hrem Hsec Hnsec.
    assert (Hok : negb (rem =? NULL)
                  && negb (mm_check_write rem sizeof_timespec) = false).
    { destruct Hrem as [-> | ->]; [reflexivity|].
      apply Bool.andb_false_r. }
    rewrite Hok. cbn [negb orb].
    unfold uint64_t_of, LONGLONG_of_uint64_t, NANOSECONDS_PER_SECOND,
      NANOSECONDS_PER_TICK, int_max in *.
    set (ns := tv_sec request * 1000000000 + tv_nsec request).
    assert (Hns : 0 <= ns < 2 ^ 62) by (subst ns; lia).
    rewrite (Z.mod_small (tv_sec request)) by lia.
    fold ns. rewrite (Z.mod_small ns) by lia.
    assert (Hticks : 0 <= ns / 100 < 2 ^ 62).
    { split; [apply Z.div_pos; lia|].
      apply Z.div_lt_upper_bound; lia. }
    assert (Hdelay :
              (if ((0 - ns / 100) mod 2 ^ 64) mod 2 ^ 64 <? 2 ^ 63
               then ((0 - ns / 100) mod 2 ^ 64) mod 2 ^ 64
               else ((0 - ns / 100) mod 2 ^ 64) mod 2 ^ 64 - 2 ^ 64)
              = - (ns / 100)).
    { rewrite Z.mod_mod by lia.
      destruct (Z.eq_dec (ns / 100) 0) as [Hz|Hnz].
      - rewrite Hz. reflexivity.
      - replace ((0 - ns / 100) mod 2 ^ 64) with (2 ^ 64 - ns / 100).
        + destruct (Z.ltb_spec (2 ^ 64 - ns / 100) (2 ^ 63)); lia.
        + apply Z.mod_unique with (q := -1); lia. }
    rewrite Hdelay. split; [reflexivity|].
    intros Hsmall. rewrite Z.div_small by lia. reflexivity.
Qed.

Lemma nanosleep_delay_witness :
  sys_nanosleep all_valid all_valid 4096 NULL
    {| tv_sec := 1; tv_nsec := 500000050 |}
  = (0, Some (- 15000000)) /\
  sys_nanosleep all_valid all_valid 4096 NULL
    {| tv_sec := 0; tv_nsec := 99 |}
  = (0, Some 0).
Proof.
  destruct (nanosleep_delay all_valid all_valid 4096 NULL
              {| tv_sec := 1; tv_nsec := 500000050 |}) as (_ & _ & Hlong).
  destruct (nanosleep_delay all_valid all_valid 4096 NULL
              {| tv_sec := 0; tv_nsec := 99 |}) as (_ & _ & Hshort).
  split.
  - apply Hlong; [reflexivity | left; reflexivity | |];
      vm_compute; split; discriminate.
  - apply Hshort; [reflexivity | left; reflexivity | | |];
      vm_compute; try split; try discriminate; reflexivity.
Defined.
